(* ===== verification/_CoqProject ===== *)
-Q . S2P
Prelude.v
Encoding.v
DeepCopy.v
ApiTypes.v
Defaults.v
Pipeline.v
Nodes.v
Validation.v
FsClient.v
Pool.v
Kube.v
Course.v
KeyGen.v
Config.v
Builders.v
Pass.v
Status.v
Convergence.v
Rollout.v
LayoutStep.v
Decommission.v
StorageStep.v
Rounds.v
Reload.v
Controller.v
Safety.v
Grounded.v
World.v
Loop.v
Settle.v
Converge.v
Ready.v
Bucket.v
KeyController.v
Typed.v
Metrics.v
Main.v
Wiring.v
Revocation.v
Demo.v
Living.v
Findings.v
Witnesses.v
