(* ===== verification/Prelude.v ===== *)
(** * Verification of fs-operator

    fs-operator is a Kubernetes operator for fs, an S3-compatible object store.
    An [FSCluster] declares nodes (flat, or in racks), a volume size and layout
    widths; the operator keeps one StatefulSet per node, renders each node's
    configuration, applies the cluster layout through the nodes' admin API, rolls
    changes one node at a time, grows volumes, drains removed nodes and reports
    all of it in the status.  This library models that operator, from the
    defaulting of a spec to a whole reconcile of it, and proves what makes it safe
    to let it touch a cluster that holds data.

    ** The program and the files that model it

    Paths are under src/; the controller's are under
    internal/controller/fscluster.

    - [Prelude]: Go's integers with their wrap-around, errors and what looks
      through their wrapping, the result type and the state-and-error monad,
      string, sort and formatting functions of Go's library, [resp] (a frame
      relation every run of a computation respects) and its tactics.
    - [ApiTypes]: api/v1alpha1/*_types.go and conditions.go.
    - [Defaults]: api/v1alpha1/defaults.go, and what the CRD's markers admit of a
      topology.
    - [Pipeline]: internal/controller/pipeline: outcomes, steps, [Run].
    - [Nodes]: nodes.go, names.go, [domainOf] of status.go.
    - [Validation]: internal/validation and internal/webhook.
    - [Encoding]: hexadecimal and URL-safe base64, as the standard library
      encodes them, with their decoders.
    - [FsClient]: internal/fsclient/client.go and the interface of pool.go;
      [Pool]: how clients are built and cached, with goroutines interleaved.
    - [Kube]: the Kubernetes objects the operator writes, the API server and
      clock as the class [KubeClient], and the environment of a pass: the world, a
      log of what was asked of it, the pass's own state.  [Course]: the calls as
      steps of the world, and what was heard between two worlds of a run.
    - [KeyGen]: internal/keygen, over the randomness of [KubeClient].
    - [Config]: internal/fsconfig and config.go; the encoders and the hash as the
      class [Codec], whose YAML part is [Marshal] over the class [YAML].
    - [Builders]: builders.go, statefulset.go, networkpolicy.go, podmonitor.go,
      accesskeys.go.
    - [Pass]: the pass record of controller.go and the helpers of every step.
    - [Status], [Convergence], [Rollout], [LayoutStep], [Decommission],
      [StorageStep], [Reload]: the steps of status.go, convergence.go, rollout.go,
      layout.go, decommission.go, storage.go and reload.go.
    - [Controller]: the remaining steps of controller.go, networkpolicy.go and
      podmonitor.go, the pipeline of all steps in its order, [Reconcile].
    - [Safety], [Grounded], [Typed]: invariants of the whole pipeline, and the
      theorems about a pass ([Grounded] follows what it believes back to the
      answers it got); [Rounds]: passes one after the other.
    - [World], [Loop], [Settle], [Converge]: a cluster reconciled again and again.
      [World] says what is observed of it (StatefulSets, layout, nodes that are
      up, whether calls fail) and, as the class [ClusterWorld], what the API
      server and the nodes promise about it; [Loop] what each step does to it,
      [Settle] what a whole pass does, [Converge] what a sequence of reconciles
      does with other things happening in between.
    - [Ready], [Bucket], [KeyController]: conditions.go, fsbucket_controller.go
      and fsaccesskey_controller.go of internal/controller; FSBucket objects and
      S3 are the classes [BucketClient] and [S3Client], FSAccessKey objects the
      class [KeyClient].  An access key meets the FSCluster controller twice: its
      credential is rendered by [resolveKey] of [Builders], and its watch is
      [accessKeyToCluster].
    - [Metrics]: internal/metrics; a reconcile's log says which of its functions
      ran, and [replay] runs them.
    - [Main]: cmd/main.go, from flags and environment to a started manager;
      [Wiring]: what each controller watches ([SetupWithManager]), the webhook's
      registration and the manager's scheme; what controller-runtime makes of a
      watch is the class [Runtime].  [Revocation]: both controllers together on an
      access key that is deleted.
    - [DeepCopy]: api/v1alpha1/zz_generated.deepcopy.go, over a heap: the Go types
      with their references, and each generated method as the statements it
      consists of; the copies of imported types are the class [Imports].
    - [Demo], [Living], [Findings], [Witnesses]: a concrete cluster on which whole
      passes are evaluated, and one that passes change; where the code and its
      comments part; the theorems with hypotheses, instantiated.

    ** How code becomes definitions

    A Go function is a definition of the same name.  A step is a computation in
    [M (Env W pass)]: it reads and writes the pass, calls the world [W] through
    the classes, fails with an [error] value, and every write it asks of the world
    (apply, create, delete, status patch, layout, reload, event, metric) is an
    entry of the log, whether or not the world takes it.  The world's answers are
    arbitrary: theorems hold for every instance of [KubeClient], [Interface]
    (the admin API) and [Codec], unless a hypothesis such as [Accepting] says
    otherwise; [FsClient] gives the instance of [Interface] that client.go
    implements over the generated API, the class [AdminAPI].  Records are values:
    the one pass a reconcile works on is threaded as state, and the
    StatefulSets it shares between maps and lists are never mutated after they are
    shared.  Indexing out of range, and a write into a nil map, is the error
    [go_panic].  Loops are structural
    recursion over the list they range over; the one loop that is not,
    [rollOrder]'s, takes as fuel the number of stale sets, which is enough because
    each round takes at least one ([Rollout.rollOrder_perm]: nothing is lost).
    [Main]'s trimming takes as fuel the length of the string, and every round of
    it drops a byte ([Main.trim_left_ok]: nothing is left to trim).
    Map iteration is in key order, except where the order can show
    (validation's messages): there a [MapOrder] says in which order each range
    goes over its map, and every call of the validation in a reconcile draws one
    from the world ([k_mapOrder]), as Go randomises every range anew.

    ** What is proved

    Properties are numbered C1-C40 in the doc comment before each theorem.  Where
    one says that something was confirmed, read or answered, it says when: after
    the run began and before what rests on it ([Course]'s [heard] and [made]
    between named worlds), by a call made of that run's own world.

    - A whole FSCluster pass ([Safety], [Grounded], [Typed]): at most one serving
      node is replaced, and only after a node answered, in that pass, that
      nothing moves and every node is up; a node's StatefulSet is deleted only
      when the spec dropped it and a node answered, in that pass, that the
      layout is settled and gives it no share; a refused spec changes nothing but
      the status; the status is written once, last, with a phase the API
      declares, conditions of the form it declares and counts of 32 bits (the
      length of a message is not bounded by the code, and nothing is said of it);
      a live object is always looked at again.
    - A sequence of reconciles ([Converge]), of a cluster of several nodes whose
      volumes have the size its spec asks for: no pass undoes what another did,
      and every pass that finds the cluster at rest shortens what is left (nodes
      missing or out of date, the layout, the removals), so the cluster becomes
      what its spec says and stays so, whatever fails in between.  Where the
      StatefulSets are as declared (one node too), no pass asks for a change of one of them or of
      a claim, and the only pod it restarts is one its StatefulSet was recreated
      around.
    - The rollout ([Rollout], [Rounds]): its order against a round robin over
      failure domains, what one step replaces, and that
      passes one after the other finish it.
    - The layout ([LayoutStep]): when it may change, to what, that it settles.
    - Status, convergence, storage and reload: Ready against an abstract
      statement of write quorums, the verdict against its meaning,
      shrinking refused, growing gated, a reload's count against the answer each
      node gave.
    - The pipeline: [Run] against the list of steps it executes.
    - Buckets ([Bucket]) and access keys ([KeyController]): the reclaim policy
      is honoured before an object goes, Ready is said only of what S3 or every
      node confirmed, where a credential comes from in each case (imported, in the
      Secret already, drawn because there was none) and that it is the one the
      FSCluster controller renders.
    - Topology, validation: node names are distinct, what is accepted, agreement
      with the webhook, in whatever order each of them goes over a map.
    - Configuration and objects: what moves a restart revision, that equal
      revisions mean equal data and templates, selectors, credentials, Secrets.
    - Around the controllers: the metrics follow the stored objects ([Metrics]); the
      pool of admin clients is linearizable and hands out the right client
      ([Pool]); a rotated credential travels from its Secret through the key to
      the cluster ([Wiring]); a deleted
      key's credential leaves what is rendered, and its object goes
      ([Revocation]).
    - Deep copies ([DeepCopy]): every generated copy denotes what the original
      does and shares no memory with it, which is what lets the other files treat
      objects as values.
    - Lemmas without a number state more of the same: to whom a layout is
      offered, independence of map order, kept sets, the layout's way through the
      wire types, the network policy's ports, the counts of the status, what a
      wait publishes, the watched namespaces, that the manager starts only with
      everything registered and knows its kinds, that a reconciler has one pool,
      that generated tokens decode to the bytes drawn.
    - [Findings]: concrete clusters and calls on which the code does not do what
      is said of it.

    ** What is not modelled

    The Prometheus client and the registration of the vectors; controller-runtime
    itself: its queues, caches and retries, leader election and the HTTP servers
    ([Main] and [Wiring] stop at the calls that configure them); the generated
    admin API, minio-go, the YAML library, SHA-256 and
    [meta.SetStatusCondition], which are parameters; the deep copies of imported
    types; logging.  In [DeepCopy] a slice spans its whole array: the generated
    code makes every slice it writes, and reads the elements only.  [slices.SortFunc] is not
    stable in Go; the sort here is, which shows only for keys that compare
    equal. *)

From Stdlib Require Export ZArith Lia Ascii.
From stdpp Require Export sorting base gmap fin_maps sets strings pretty numbers option list.

(** ** Machine integers

    Go's sized integers wrap around; the source converts with [int32(..)],
    [int64(..)] and [uint64(..)]. *)

Definition wrap32 (z : Z) : Z := ((z + 2 ^ 31) mod 2 ^ 32 - 2 ^ 31)%Z.
Definition wrap64 (z : Z) : Z := ((z + 2 ^ 63) mod 2 ^ 64 - 2 ^ 63)%Z.
Definition wrapu64 (z : Z) : Z := (z mod 2 ^ 64)%Z.

Definition in_int32 (z : Z) : Prop := (- 2 ^ 31 <= z < 2 ^ 31)%Z.

Lemma wrap32_id (z : Z) : in_int32 z → wrap32 z = z.
Proof. unfold in_int32, wrap32. intros. rewrite Z.mod_small; lia. Qed.

Lemma wrap32_range (z : Z) : in_int32 (wrap32 z).
Proof.
  unfold in_int32, wrap32.
  pose proof (Z.mod_pos_bound (z + 2 ^ 31) (2 ^ 32) ltac:(lia)). lia.
Qed.

Lemma wrapu64_id (z : Z) : (0 <= z < 2 ^ 64)%Z → wrapu64 z = z.
Proof. unfold wrapu64. intros. by rewrite Z.mod_small. Qed.

(** ** Errors

    A Go [error] is a base error of some kind, possibly wrapped with context
    by [errors.Wrap]/[Wrapf]; [errors.Is], [apierrors.IsNotFound] and the like
    look through the wrapping. *)

Inductive errkind :=
  | KNotFound | KAlreadyExists
  | KNoLayout | KLayoutRejected | KBucketNotFound | KSchemeRejected
  | KS3 (code : string)
  | KPanic
  | KOther.

#[global] Instance errkind_eq_dec : EqDecision errkind.
Proof. solve_decision. Defined.

Inductive error :=
  | ErrBase (k : errkind) (msg : string)
  | ErrWrap (msg : string) (cause : error).

#[global] Instance error_eq_dec : EqDecision error.
Proof. solve_decision. Defined.

Fixpoint err_kind (e : error) : errkind :=
  match e with ErrBase k _ => k | ErrWrap _ e' => err_kind e' end.

(** [Error()] of a wrapped error: the context, a colon, the cause. *)
Fixpoint err_string (e : error) : string :=
  match e with
  | ErrBase _ m => m
  | ErrWrap m e' => m +:+ ": " +:+ err_string e'
  end.

Definition err_is (k : errkind) (e : error) : bool := bool_decide (err_kind e = k).
Definition IsNotFound (e : error) : bool := err_is KNotFound e.
Definition IsAlreadyExists (e : error) : bool := err_is KAlreadyExists e.

Definition errors_New (m : string) : error := ErrBase KOther m.

(** An index out of range or a nil dereference panics; controller-runtime turns the panic of a
    reconcile into its error. *)
Definition go_panic : error := ErrBase KPanic "runtime error".

Inductive result (A : Type) :=
  | Ok (a : A)
  | Err (e : error).
Arguments Ok {A} a.
Arguments Err {A} e.

Definition is_ok {A} (r : result A) : bool := match r with Ok _ => true | Err _ => false end.

#[global] Instance result_ret : MRet result := λ A a, Ok a.
#[global] Instance result_bind : MBind result := λ A B f m,
  match m with Ok a => f a | Err e => Err e end.
#[global] Instance result_fmap : FMap result := λ A B f m,
  match m with Ok a => Ok (f a) | Err e => Err e end.

(** ** Stateful, fallible code

    A Go function that returns [(A, error)] and mutates what it was given: the
    state it leaves behind is kept on the error path too, since nothing is
    rolled back. *)

Definition M (S A : Type) : Type := S → result A * S.

#[global] Instance M_ret (S : Type) : MRet (M S) := λ A a s, (Ok a, s).
#[global] Instance M_bind (S : Type) : MBind (M S) := λ A B f m s,
  match m s with
  | (Ok a, s') => f a s'
  | (Err e, s') => (Err e, s')
  end.

Definition ret {S A} (a : A) : M S A := λ s, (Ok a, s).
Definition throw {S A} (e : error) : M S A := λ s, (Err e, s).
Definition gets {S A} (f : S → A) : M S A := λ s, (Ok (f s), s).
Definition modify {S} (f : S → S) : M S unit := λ s, (Ok tt, f s).

(** [x, err := m()]: the caller looks at the error itself. *)
Definition try {S A} (m : M S A) : M S (result A) := λ s, let '(r, s') := m s in (Ok r, s').

(** Return a result already computed. *)
Definition lift {S A} (r : result A) : M S A := λ s, (r, s).

(** [if err := m(); err != nil { return .., errors.Wrap(err, msg) }] *)
Definition wrap_err {S A} (msg : string) (m : M S A) : M S A := λ s,
  match m s with
  | (Ok a, s') => (Ok a, s')
  | (Err e, s') => (Err (ErrWrap msg e), s')
  end.

(** A [for _, x := range l] whose body only fails or goes on. *)
Fixpoint forM_ {S A} (l : list A) (body : A → M S unit) : M S unit :=
  match l with
  | [] => ret tt
  | x :: l' => body x ≫= λ _, forM_ l' body
  end.

Lemma bind_Ok {S A B} (m : M S A) (k : A → M S B) s a s' :
  m s = (Ok a, s') → (m ≫= k) s = k a s'.
Proof. unfold mbind, M_bind. by intros ->. Qed.

(** *** What a computation does to the state

    [resp R m s]: running [m] from [s] leaves a state related to [s] by the
    preorder [R].  "Only appends entries of this shape to the log", "does not
    touch these fields" are all of this form, and every such fact composes
    along [mbind]. *)

Definition resp {S A} (R : relation S) (m : M S A) (s : S) : Prop := R s (m s).2.

Create HintDb resp discriminated.

Section resp.
Context {S : Type} (R : relation S) `{!PreOrder R}.

Lemma resp_ret {A} (a : A) s : resp R (ret a) s.
Proof. unfold resp; simpl. reflexivity. Qed.

Lemma resp_mret {A} (a : A) s : resp R (mret a : M S A) s.
Proof. unfold resp; simpl. reflexivity. Qed.

Lemma resp_throw {A} e s : resp R (throw e : M S A) s.
Proof. unfold resp; simpl. reflexivity. Qed.

Lemma resp_lift {A} (r : result A) s : resp R (lift r) s.
Proof. unfold resp; simpl. reflexivity. Qed.

Lemma resp_gets {A} (f : S → A) s : resp R (gets f) s.
Proof. unfold resp; simpl. reflexivity. Qed.

Lemma resp_modify f s : R s (f s) → resp R (modify f) s.
Proof. done. Qed.

Lemma resp_bind {A B} (m : M S A) (k : A → M S B) s :
  resp R m s →
  (∀ a s', m s = (Ok a, s') → R s s' → resp R (k a) s') →
  resp R (m ≫= k) s.
Proof.
  unfold resp, mbind, M_bind. intros Hm Hk.
  destruct (m s) as [[a|e] s'] eqn:E; simpl in *; [|done].
  etrans; [exact Hm|]. by apply Hk.
Qed.

Lemma resp_try {A} (m : M S A) s : resp R m s → resp R (try m) s.
Proof. unfold resp, try. by destruct (m s). Qed.

Lemma resp_wrap_err {A} msg (m : M S A) s : resp R m s → resp R (wrap_err msg m) s.
Proof. unfold resp, wrap_err. by destruct (m s) as [[] ?]. Qed.

Lemma resp_forM_ {A} (l : list A) (body : A → M S unit) s :
  (∀ x s', x ∈ l → R s s' → resp R (body x) s') → resp R (forM_ l body) s.
Proof.
  revert s. induction l as [|x l IH]; intros s Hb; simpl; [apply resp_ret|].
  apply resp_bind; [apply Hb; [left|reflexivity]|].
  intros [] s' _ HR. apply IH. intros y s'' Hy HR'.
  apply Hb; [by right|]. by etrans.
Qed.
End resp.

#[export] Hint Resolve resp_ret resp_mret resp_throw resp_lift resp_gets resp_try
  resp_wrap_err : resp.

(** One rule of [resp] per syntactic form of a computation; [rsolve] walks a
    whole step with them and leaves the facts about single actions and state
    updates. *)
Ltac rstep :=
  lazymatch goal with
  | |- resp _ (mbind _ _) _ =>
      apply resp_bind; [apply _ | | intros ?a ?s' ?Hrun ?HR]
  | |- resp _ (try _) _ => apply resp_try
  | |- resp _ (wrap_err _ _) _ => apply resp_wrap_err
  | |- resp _ (forM_ _ _) _ => apply resp_forM_; [apply _ | intros ?x ?s' ?Hx ?HR]
  | |- resp _ (if ?b then _ else _) _ => destruct b eqn:?
  | |- resp _ (match ?x with _ => _ end) _ => destruct x eqn:?
  | |- resp _ (let _ := _ in _) _ => cbv zeta
  | |- resp _ _ _ => solve [eauto with resp nocore typeclass_instances]
  end.
Ltac rsolve := repeat (rstep; cbv beta).

(** Compute through the administrative layers of a computation. *)
Ltac msimpl :=
  cbv [mbind M_bind mret M_ret ret throw gets modify lift try] in *; simpl in *.

(** *** What a computation answers

    Every answer of a computation that does not fail satisfies [P]; only the
    last call of a sequence matters. *)

Definition answers {S A} (P : A → Prop) (m : M S A) : Prop := ∀ s a s', m s = (Ok a, s') → P a.

Section answers.
Context {S : Type}.

Lemma answers_ret {A} (P : A → Prop) a : P a → answers P (ret a : M S A).
Proof. intros HP s b s' H. by injection H as <- _. Qed.

Lemma answers_throw {A} (P : A → Prop) e : answers P (throw e : M S A).
Proof. intros s b s' H. discriminate. Qed.

Lemma answers_bind {A B} (P : B → Prop) (m : M S A) (k : A → M S B) :
  (∀ x, answers P (k x)) → answers P (m ≫= k).
Proof.
  intros Hk s b s'. unfold mbind, M_bind. destruct (m s) as [[x|e] s1]; [|done]. apply Hk.
Qed.

Lemma answers_bind' {A B} (P : B → Prop) (Q : A → Prop) (m : M S A) (k : A → M S B) :
  answers Q m → (∀ x, Q x → answers P (k x)) → answers P (m ≫= k).
Proof.
  intros Hm Hk s b s'. unfold mbind, M_bind. destruct (m s) as [[x|e] s1] eqn:E; [|done].
  apply Hk. by eapply Hm.
Qed.
End answers.

(** Walk a computation to the answers it ends in. *)
Ltac answer := repeat first
  [ apply answers_ret; first [by left | by right | done] | apply answers_throw
  | apply answers_bind; intros ? | progress cbv zeta | case_match ].

(** *** What a computation achieves

    [wp m Q s]: run from [s], [m] answers, and [Q] holds of the answer and of the
    state it leaves. *)

Definition wp {S A} (m : M S A) (Q : A → S → Prop) (s : S) : Prop :=
  ∃ a s', m s = (Ok a, s') ∧ Q a s'.

Section wp.
Context {S : Type}.

Lemma wp_ret {A} (a : A) (Q : A → S → Prop) s : Q a s → wp (ret a) Q s.
Proof. intros H. by exists a, s. Qed.

Lemma wp_gets {A} (f : S → A) (Q : A → S → Prop) s : Q (f s) s → wp (gets f) Q s.
Proof. intros H. by exists (f s), s. Qed.

Lemma wp_modify (f : S → S) (Q : unit → S → Prop) s : Q tt (f s) → wp (modify f) Q s.
Proof. intros H. by exists tt, (f s). Qed.

Lemma wp_lift {A} (r : result A) (Q : A → S → Prop) s a : r = Ok a → Q a s → wp (lift r) Q s.
Proof. intros -> H. by exists a, s. Qed.

Lemma wp_mono {A} (m : M S A) (P Q : A → S → Prop) s :
  wp m P s → (∀ a s', P a s' → Q a s') → wp m Q s.
Proof. intros (a & s' & Hm & HP) H. exists a, s'. auto. Qed.

Lemma wp_bind {A B} (m : M S A) (k : A → M S B) Q s : wp m (λ a, wp (k a) Q) s → wp (m ≫= k) Q s.
Proof. intros (a & s' & Hm & Hk). unfold wp. by rewrite (bind_Ok _ _ _ _ _ Hm). Qed.

Lemma wp_wrap_err {A} msg (m : M S A) Q s : wp m Q s → wp (wrap_err msg m) Q s.
Proof. intros (a & s' & Hm & Hk). exists a, s'. unfold wrap_err. by rewrite Hm. Qed.

Lemma wp_try {A} (m : M S A) (Q : result A → S → Prop) s :
  (∀ r s', m s = (r, s') → Q r s') → wp (try m) Q s.
Proof. intros H. unfold wp, try. destruct (m s) as [r s'] eqn:E. exists r, s'. auto. Qed.

(** A loop whose body goes on, with an invariant over the elements done. *)
Lemma wp_forM_ {A} (I : list A → S → Prop) (l : list A) (body : A → M S unit) Q s :
  I [] s →
  (∀ k x s', k ++ [x] `prefix_of` l → I k s' → wp (body x) (λ _, I (k ++ [x])) s') →
  (∀ s', I l s' → Q tt s') → wp (forM_ l body) Q s.
Proof.
  intros HI Hbody HQ.
  enough (∀ k l', l = k ++ l' → ∀ s, I k s → wp (forM_ l' body) Q s) as Hgo by by apply (Hgo [] l).
  intros k l' Hl. revert k Hl. induction l' as [|x l' IH]; intros k Hl s' Hk; simpl.
  { apply wp_ret. apply HQ. by rewrite Hl, app_nil_r. }
  apply wp_bind. eapply wp_mono.
  - apply Hbody; [|done]. rewrite Hl. exists l'. by rewrite <- app_assoc.
  - intros [] s''. apply IH. by rewrite Hl, <- app_assoc.
Qed.

(** A run that answers satisfies what its effect must satisfy. *)
Lemma wp_resp {A} (R : relation S) (m : M S A) (Q : A → S → Prop) s :
  resp R m s → wp m Q s → wp m (λ a s', Q a s' ∧ R s s') s.
Proof. unfold resp. intros HR (a & s' & Hm & HQ). rewrite Hm in HR. by exists a, s'. Qed.
End wp.

(** ** Strings, as the standard library's [strings] package handles them *)

Definition dquote : string := String (Ascii.ascii_of_nat 34) "".

(** [%q] of a name: the names quoted in messages are DNS labels, which need no
    escaping. *)
Definition fmt_q (s : string) : string := dquote +:+ s +:+ dquote.

Definition strings_Join (l : list string) (sep : string) : string := String.concat sep l.

(** [%v] of a slice of strings or numbers. *)
Definition fmt_v (l : list string) : string := "[" +:+ String.concat " " l +:+ "]".
Definition fmt_vZ (l : list Z) : string := fmt_v (pretty <$> l).

Fixpoint str_has (c : ascii) (s : string) : bool :=
  match s with
  | EmptyString => false
  | String c' s' => bool_decide (c = c') || str_has c s'
  end.

(** [strings.ContainsAny(s, chars)] *)
Fixpoint strings_ContainsAny (s chars : string) : bool :=
  match s with
  | EmptyString => false
  | String c s' => str_has c chars || strings_ContainsAny s' chars
  end.

(** [strings.Cut(s, sep)] for a one-byte separator. *)
Fixpoint strings_Cut (s : string) (sep : ascii) : option (string * string) :=
  match s with
  | EmptyString => None
  | String c s' =>
      if bool_decide (c = sep) then Some (EmptyString, s')
      else match strings_Cut s' sep with
           | Some (before, after) => Some (String c before, after)
           | None => None
           end
  end.

(** [strings.TrimSuffix(s, suffix)] for a one-byte suffix. *)
Fixpoint strings_TrimSuffix (s : string) (suffix : ascii) : string :=
  match s with
  | EmptyString => EmptyString
  | String c EmptyString => if bool_decide (c = suffix) then EmptyString else s
  | String c s' => String c (strings_TrimSuffix s' suffix)
  end.

Lemma str_app_assoc (a b c : string) : a +:+ b +:+ c = (a +:+ b) +:+ c.
Proof. induction a as [|x a IH]; [done|]. change (String x (a +:+ b +:+ c) = String x ((a +:+ b) +:+ c)). by rewrite IH. Qed.

Lemma str_app_nil_r (a : string) : a +:+ "" = a.
Proof. induction a as [|x a IH]; [done|]. change (String x (a +:+ "") = String x a). by rewrite IH. Qed.

Lemma str_app_cons c (a b : string) : String c a +:+ b = String c (a +:+ b).
Proof. done. Qed.

Lemma str_has_app c (a b : string) : str_has c (a +:+ b) = str_has c a || str_has c b.
Proof.
  induction a as [|x a IH]; [done|].
  rewrite str_app_cons. simpl. by rewrite IH, orb_assoc.
Qed.

(** Two suffixes that follow the last occurrence of a separator are told apart
    by the separator alone. *)
Lemma str_split_last (c : ascii) (a b x y : string) :
  str_has c x = false → str_has c y = false →
  a +:+ String c x = b +:+ String c y → a = b ∧ x = y.
Proof.
  intros Hx Hy. revert b. induction a as [|d a IH]; intros b Heq.
  - destruct b as [|d' b]; [by injection Heq as ->|].
    change (String c x = String d' (b +:+ String c y)) in Heq.
    injection Heq as <- ->. rewrite str_has_app in Hx. simpl in Hx.
    rewrite bool_decide_true in Hx by done. by rewrite orb_true_r in Hx.
  - destruct b as [|d' b].
    + change (String d (a +:+ String c x) = String c y) in Heq.
      injection Heq as -> <-. rewrite str_has_app in Hy. simpl in Hy.
      rewrite bool_decide_true in Hy by done. by rewrite orb_true_r in Hy.
    + change (String d (a +:+ String c x) = String d' (b +:+ String c y)) in Heq.
      injection Heq as -> Heq. apply IH in Heq as [-> ->]. done.
Qed.

(** A decimal number contains no dash. *)
Lemma pretty_N_char_no_dash (n : N) : pretty_N_char n ≠ "-"%char.
Proof. unfold pretty_N_char. by repeat case_match. Qed.

Lemma pretty_N_go_no_dash (x : N) (s : string) :
  str_has "-" s = false → str_has "-" (pretty_N_go x s) = false.
Proof.
  revert s. induction (N.lt_wf_0 x) as [x _ IH]; intros s Hs.
  destruct (decide (x = 0)%N) as [->|Hx]; [by rewrite pretty_N_go_0|].
  rewrite pretty_N_go_step by lia. apply IH; [apply N.div_lt; lia|].
  simpl. rewrite Hs, bool_decide_false; [done|].
  intros Heq. by apply (pretty_N_char_no_dash (x `mod` 10)%N).
Qed.

Lemma pretty_nat_no_dash (n : nat) : str_has "-" (pretty n) = false.
Proof.
  unfold pretty, pretty_nat, pretty, pretty_N. case_decide; [done|].
  by apply pretty_N_go_no_dash.
Qed.

(** ** Durations and times, in nanoseconds *)

(** [a.Sub(b)] saturates at the range of an [int64]. *)
Definition time_Sub (a b : Z) : Z := Z.max (- 2 ^ 63) (Z.min (2 ^ 63 - 1) (a - b)).

(** The fraction of a value with [prec] decimal digits, trailing zeros
    dropped. *)
Fixpoint fmt_frac (prec : nat) (v : Z) (acc : string) : string :=
  match prec with
  | O => match acc with EmptyString => "" | _ => "." +:+ acc end
  | S prec' =>
      let digit := (v mod 10)%Z in
      fmt_frac prec' (v / 10)%Z
        (if bool_decide (acc = "") && bool_decide (digit = 0%Z) then "" else pretty digit +:+ acc)
  end.

(** [time.Duration.String] *)
Definition Duration_String (d : Z) : string :=
  let u := Z.abs d in
  let sign := if (d <? 0)%Z then "-" else "" in
  if (u =? 0)%Z then "0s"
  else if (u <? 1000)%Z then sign +:+ pretty u +:+ "ns"
  else if (u <? 1000000)%Z then
    sign +:+ pretty (u / 1000)%Z +:+ fmt_frac 3 u ""
      +:+ String (Ascii.ascii_of_nat 194) (String (Ascii.ascii_of_nat 181) "s")
  else if (u <? 1000000000)%Z then sign +:+ pretty (u / 1000000)%Z +:+ fmt_frac 6 u "" +:+ "ms"
  else
    let s := (u / 1000000000)%Z in
    let m := (s / 60)%Z in
    let h := (m / 60)%Z in
    sign +:+ (if (0 <? h)%Z then pretty h +:+ "h" else "")
      +:+ (if (0 <? m)%Z then pretty (m mod 60)%Z +:+ "m" else "")
      +:+ pretty (s mod 60)%Z +:+ fmt_frac 9 u "" +:+ "s".

(** ** Slices and maps *)

(** [slices.Contains] *)
Definition slices_Contains (l : list string) (x : string) : bool := bool_decide (x ∈ l).

(** [slices.SortFunc] by a string key, and [slices.Sort] of strings and ints.
    Go's sort is not stable; callers sort by keys that are distinct, where the
    sorted arrangement is unique ([sort_by_unique]). *)
Definition key_le {A} (key : A → string) : relation A := λ a b, String.le (key a) (key b).
#[global] Instance key_le_dec {A} (key : A → string) : RelDecision (key_le key).
Proof. intros a b. unfold key_le. apply _. Defined.
#[global] Instance key_le_total {A} (key : A → string) : Total (key_le key).
Proof. intros a b. apply String.le_total. Qed.
#[global] Instance key_le_trans {A} (key : A → string) : Transitive (key_le key).
Proof. intros a b c. unfold key_le. apply String.le_po. Qed.

Definition sort_by {A} (key : A → string) (l : list A) : list A := merge_sort (key_le key) l.
Definition sort_strings (l : list string) : list string := merge_sort String.le l.
Definition sort_ints (l : list Z) : list Z := merge_sort Z.le l.

Lemma sort_by_perm {A} (key : A → string) l : sort_by key l ≡ₚ l.
Proof. apply merge_sort_Permutation. Qed.

Lemma sort_by_sorted {A} (key : A → string) l : StronglySorted (key_le key) (sort_by key l).
Proof. apply StronglySorted_merge_sort; apply _. Qed.

Lemma sort_strings_perm l : sort_strings l ≡ₚ l.
Proof. apply merge_sort_Permutation. Qed.

Lemma sort_strings_sorted l : StronglySorted String.le (sort_strings l).
Proof. apply StronglySorted_merge_sort; apply _. Qed.

Lemma sort_strings_proper l l' : l ≡ₚ l' → sort_strings l = sort_strings l'.
Proof.
  intros Hl. apply (StronglySorted_unique String.le); [apply sort_strings_sorted..|].
  by rewrite !sort_strings_perm.
Qed.

Lemma sort_ints_perm l : sort_ints l ≡ₚ l.
Proof. apply merge_sort_Permutation. Qed.

Lemma sort_ints_sorted l : StronglySorted Z.le (sort_ints l).
Proof. apply StronglySorted_merge_sort; apply _. Qed.

(** Any sorted arrangement of elements with distinct keys is the one
    [sort_by] computes, so the choice of sorting algorithm is immaterial. *)
Lemma sort_by_unique {A} (key : A → string) (l l' : list A) :
  NoDup (key <$> l) → l' ≡ₚ l → StronglySorted (key_le key) l' → l' = sort_by key l.
Proof.
  intros Hnd Hp Hs.
  assert (Hinj : ∀ x y, x ∈ l → y ∈ l → key x = key y → x = y).
  { clear -Hnd. induction l as [|a l IH]; [set_solver|].
    simpl in Hnd. apply NoDup_cons in Hnd as [Ha Hnd].
    intros x y Hx Hy Hk. apply elem_of_cons in Hx, Hy.
    destruct Hx as [->|Hx], Hy as [->|Hy]; [done| | |by apply IH];
      destruct Ha; apply list_elem_of_fmap; eauto. }
  eapply StronglySorted_unique_strong; [|done|apply sort_by_sorted|by rewrite sort_by_perm].
  intros x y Hx Hy Hxy Hyx. rewrite Hp in Hx. rewrite sort_by_perm in Hy.
  apply Hinj; [done..|]. by apply (anti_symm String.le).
Qed.

(** [slices.Compact] *)
Section compact.
Context `{!EqDecision A}.

Fixpoint slices_Compact (l : list A) : list A :=
  match l with
  | [] => []
  | x :: l' =>
      match l' with
      | [] => [x]
      | y :: _ => if bool_decide (x = y) then slices_Compact l' else x :: slices_Compact l'
      end
  end.

Lemma slices_Compact_elem x l : x ∈ slices_Compact l ↔ x ∈ l.
Proof.
  induction l as [|y l IH]; [done|]. simpl. destruct l as [|z l]; [done|].
  case_bool_decide; set_solver.
Qed.

(** Compacting a sorted slice leaves it strictly increasing: nothing twice. *)
Lemma slices_Compact_strict (R : relation A) `{!PartialOrder R} l :
  StronglySorted R l → StronglySorted (strict R) (slices_Compact l).
Proof.
  induction 1 as [|x l Hs IH Hx]; [constructor|].
  simpl. destruct l as [|y l]; [by repeat constructor|].
  case_bool_decide as Hxy; [done|]. constructor; [done|].
  apply Forall_forall. intros z Hz. rewrite slices_Compact_elem in Hz.
  rewrite Forall_forall in Hx. pose proof (Hx y ltac:(left)) as Hy. split; [by apply Hx|]. intros Hzx.
  apply Hxy, (anti_symm R); [done|]. apply elem_of_cons in Hz as [->|Hz]; [done|].
  inversion_clear Hs as [|? ? _ Hyz]. rewrite Forall_forall in Hyz. etrans; [by apply Hyz|done].
Qed.

Lemma slices_Compact_id (R : relation A) `{!StrictOrder R} l :
  StronglySorted R l → slices_Compact l = l.
Proof.
  induction 1 as [|x l Hs IH Hx]; [done|]. simpl. destruct l as [|y l]; [done|].
  rewrite IH, bool_decide_eq_false_2; [done|]. intros ->.
  rewrite Forall_forall in Hx. by apply (irreflexivity R y), Hx; left.
Qed.
End compact.

Lemma slices_Compact_sorted (l : list Z) :
  StronglySorted Z.le l → StronglySorted Z.lt (slices_Compact l).
Proof.
  intros H%slices_Compact_strict; [|apply _]. induction H as [|x k Hk IH Hx]; constructor; [done|].
  eapply Forall_impl; [exact Hx|]. intros y [??]. lia.
Qed.

(** Strictly increasing lists with the same elements are equal. *)
Lemma strict_sorted_ext {A} (R : relation A) `{!StrictOrder R} (l k : list A) :
  StronglySorted R l → StronglySorted R k → (∀ x, x ∈ l ↔ x ∈ k) → l = k.
Proof.
  assert (Hnd : ∀ l, StronglySorted R l → NoDup l).
  { induction 1 as [|x l' _ IH Hx]; constructor; [|done]. intros Hin.
    rewrite Forall_forall in Hx. by apply (irreflexivity R x), Hx. }
  intros Hl Hk Hlk. apply (StronglySorted_unique_strong R); [|done|done|].
  - intros x y _ _ Hxy Hyx. destruct (irreflexivity R x). by etrans.
  - apply NoDup_Permutation; auto.
Qed.

(** The keys of a Go map, sorted: [slices.Sorted(maps.Keys(m))]. *)
Definition sorted_keys {V} (m : gmap string V) : list string := sort_strings (map_to_list m).*1.

Lemma elem_of_sorted_keys {V} (m : gmap string V) k : k ∈ sorted_keys m ↔ is_Some (m !! k).
Proof.
  unfold sorted_keys. rewrite sort_strings_perm, list_elem_of_fmap. split.
  - intros ([k' v] & -> & Hin). apply elem_of_map_to_list in Hin. by eexists.
  - intros [v Hv]. exists (k, v). by rewrite elem_of_map_to_list.
Qed.

Lemma sorted_keys_fmap {V V'} (f : V → V') (m : gmap string V) : sorted_keys (f <$> m) = sorted_keys m.
Proof.
  unfold sorted_keys. apply sort_strings_proper. rewrite map_to_list_fmap, <- list_fmap_compose. done.
Qed.

Lemma sorted_keys_NoDup {V} (m : gmap string V) : NoDup (sorted_keys m).
Proof. unfold sorted_keys. rewrite sort_strings_perm. apply NoDup_fst_map_to_list. Qed.

(** [maps.Copy(dst, src)]: [src] wins. *)
Definition maps_Copy {V} (dst src : gmap string V) : gmap string V := src ∪ dst.

Lemma maps_Copy_subseteq {V} (dst src : gmap string V) : src ⊆ maps_Copy dst src.
Proof. apply map_union_subseteq_l. Qed.

(** The number of distinct values is at most the number of values. *)
Lemma size_list_to_set_le (l : list string) : size (list_to_set l : gset string) ≤ length l.
Proof.
  induction l as [|x l IH]; [done|].
  rewrite list_to_set_cons, size_union_alt, size_singleton. simpl.
  assert (size (list_to_set l ∖ {[x]} : gset string) ≤ size (list_to_set l : gset string))
    by (apply subseteq_size; set_solver).
  lia.
Qed.

(** An injective relabelling keeps the number of distinct values. *)
Lemma size_list_to_set_inj (f : string → string) `{!Inj (=) (=) f} (l : list string) :
  size (list_to_set (f <$> l) : gset string) = size (list_to_set l : gset string).
Proof.
  induction l as [|x l IH]; [done|]. rewrite fmap_cons, !list_to_set_cons.
  destruct (decide (x ∈ l)) as [Hx|Hx].
  - rewrite !subseteq_union_1_L; [done| |];
      apply singleton_subseteq_l, elem_of_list_to_set; [done|by apply list_elem_of_fmap_2].
  - rewrite !size_union, !size_singleton, IH; [done|set_solver|].
    apply disjoint_singleton_l. rewrite elem_of_list_to_set, list_elem_of_fmap.
    intros (y & Hy & Hin). apply (inj f) in Hy as ->. done.
Qed.

Lemma size_list_to_set_NoDup (l : list string) :
  NoDup l → size (list_to_set l : gset string) = length l.
Proof. intros. by rewrite size_list_to_set. Qed.
