(* ===== verification/Encoding.v ===== *)
(** * Byte encodings (encoding/hex, encoding/base64 as the sources use them)

    Bytes are characters.  Each encoder stands next to a decoder it is a right
    inverse of: what is encoded can be read back, so two byte strings never
    share an encoding. *)

From S2P Require Import Prelude.

(** ** Bytes and digits *)

Abbreviation byte_of := Ascii.ascii_of_N.
Abbreviation byte_val := Ascii.N_of_ascii.

(** A digit of an alphabet, and the value of a digit. *)
Definition digit (alphabet : string) (n : N) : ascii :=
  default "0"%char (String.get (N.to_nat n) alphabet).

Fixpoint digit_index (alphabet : string) (c : ascii) : option nat :=
  match alphabet with
  | EmptyString => None
  | String c' rest => if bool_decide (c = c') then Some 0 else S <$> digit_index rest c
  end.

Definition digit_val (alphabet : string) (c : ascii) : option N := N.of_nat <$> digit_index alphabet c.

(** ** hex.EncodeToString *)

Definition hex_alphabet : string := "0123456789abcdef".

Definition hex_digit (n : N) : ascii := digit hex_alphabet n.

Fixpoint hex_encode (s : string) : string :=
  match s with
  | EmptyString => EmptyString
  | String c s' =>
      let n := byte_val c in
      String (hex_digit (n / 16)) (String (hex_digit (n mod 16)) (hex_encode s'))
  end.

Fixpoint hex_decode (s : string) : option string :=
  match s with
  | EmptyString => Some EmptyString
  | String h (String l s') =>
      h ← digit_val hex_alphabet h;
      l ← digit_val hex_alphabet l;
      rest ← hex_decode s';
      Some (String (byte_of (16 * h + l)) rest)
  | String _ EmptyString => None
  end.

(** ** base64.RawURLEncoding.EncodeToString

    Groups of three bytes become four digits; a last group of one or two bytes
    becomes two or three, with no padding. *)

Definition url_alphabet : string :=
  "ABCDEFGHIJKLMNOPQRSTUVWXYZabcdefghijklmnopqrstuvwxyz0123456789-_".

Definition url_digit (n : N) : ascii := digit url_alphabet n.

Fixpoint base64url (s : string) : string :=
  match s with
  | EmptyString => EmptyString
  | String x EmptyString =>
      let a := byte_val x in
      String (url_digit (a / 4)) (String (url_digit (a mod 4 * 16)) EmptyString)
  | String x (String y EmptyString) =>
      let a := byte_val x in
      let b := byte_val y in
      String (url_digit (a / 4)) (String (url_digit (a mod 4 * 16 + b / 16))
        (String (url_digit (b mod 16 * 4)) EmptyString))
  | String x (String y (String z s')) =>
      let a := byte_val x in
      let b := byte_val y in
      let c := byte_val z in
      String (url_digit (a / 4)) (String (url_digit (a mod 4 * 16 + b / 16))
        (String (url_digit (b mod 16 * 4 + c / 64)) (String (url_digit (c mod 64)) (base64url s'))))
  end.

Definition url_val := digit_val url_alphabet.

Fixpoint base64url_decode (s : string) : option string :=
  match s with
  | EmptyString => Some EmptyString
  | String p (String q EmptyString) =>
      p ← url_val p; q ← url_val q;
      Some (String (byte_of (4 * p + q / 16)) EmptyString)
  | String p (String q (String r EmptyString)) =>
      p ← url_val p; q ← url_val q; r ← url_val r;
      Some (String (byte_of (4 * p + q / 16)) (String (byte_of (q mod 16 * 16 + r / 4)) EmptyString))
  | String p (String q (String r (String t s'))) =>
      p ← url_val p; q ← url_val q; r ← url_val r; t ← url_val t;
      rest ← base64url_decode s';
      Some (String (byte_of (4 * p + q / 16)) (String (byte_of (q mod 16 * 16 + r / 4))
              (String (byte_of (r mod 4 * 64 + t)) rest)))
  | String _ EmptyString => None
  end.

(** * Theorems *)

(** ** Digits *)

#[local] Ltac Zify.zify_post_hook ::= Z.to_euclidean_division_equations.

Lemma byte_bound c : (byte_val c < 256)%N.
Proof. apply Ascii.N_ascii_bounded. Qed.

Lemma byte_val_of n : (n < 256)%N → byte_val (byte_of n) = n.
Proof. apply Ascii.N_ascii_embedding. Qed.

(** The digits of an alphabet are told apart: checked on every position. *)
Definition alphabet_ok (alphabet : string) : Prop :=
  forallb (λ i, bool_decide (digit_index alphabet (default "0"%char (String.get i alphabet)) = Some i))
    (seq 0 (String.length alphabet)) = true.

Lemma digit_val_digit alphabet n :
  alphabet_ok alphabet → (n < N.of_nat (String.length alphabet))%N →
  digit_val alphabet (digit alphabet n) = Some n.
Proof.
  unfold alphabet_ok, digit_val, digit. rewrite forallb_forall. intros H Hn.
  specialize (H (N.to_nat n)). rewrite in_seq in H.
  assert (Hd := H ltac:(lia)). apply bool_decide_eq_true_1 in Hd. rewrite Hd. simpl. f_equal. lia.
Qed.

Lemma hex_ok : alphabet_ok hex_alphabet.
Proof. vm_compute. reflexivity. Qed.

Lemma url_ok : alphabet_ok url_alphabet.
Proof. vm_compute. reflexivity. Qed.

Lemma hex_val_digit n : (n < 16)%N → digit_val hex_alphabet (hex_digit n) = Some n.
Proof. intros. apply digit_val_digit; [apply hex_ok|done]. Qed.

Lemma url_val_digit n : (n < 64)%N → url_val (url_digit n) = Some n.
Proof. intros. apply digit_val_digit; [apply url_ok|done]. Qed.

(** A byte put together again from its parts. *)
Lemma byte_rejoin c n : n = byte_val c → byte_of n = c.
Proof. intros ->. apply Ascii.ascii_N_embedding. Qed.

(** ** Round trips *)

Lemma hex_roundtrip s : hex_decode (hex_encode s) = Some s.
Proof.
  induction s as [|c s IH]; [done|]. pose proof (byte_bound c). cbn [hex_encode hex_decode].
  rewrite !hex_val_digit by lia. simpl. rewrite IH. simpl. do 2 f_equal. apply byte_rejoin. lia.
Qed.

(** Induction by groups of three bytes. *)
Lemma string_ind3 (P : string → Prop) :
  P "" → (∀ x, P (String x "")) → (∀ x y, P (String x (String y ""))) →
  (∀ x y z s, P s → P (String x (String y (String z s)))) → ∀ s, P s.
Proof.
  intros H0 H1 H2 H3 s. enough (P s ∧ (∀ x, P (String x s)) ∧ (∀ x y, P (String x (String y s)))) as [? _] by done.
  induction s as [|c s (IH0 & IH1 & IH2)]; [done|]. split; [apply IH1|]. split; [intros; apply IH2|].
  intros. by apply H3.
Qed.

Lemma base64url_roundtrip s : base64url_decode (base64url s) = Some s.
Proof.
  induction s as [|x|x y|x y z s IH] using string_ind3; [done|..];
    pose proof (byte_bound x); try pose proof (byte_bound y); try pose proof (byte_bound z).
  all: cbn [base64url base64url_decode].
  - rewrite !url_val_digit by lia. simpl. do 2 f_equal. apply byte_rejoin. lia.
  - rewrite !url_val_digit by lia. simpl. repeat f_equal; apply byte_rejoin; lia.
  - destruct (base64url s) eqn:E.
    all: rewrite !url_val_digit by lia; cbn [mbind option_bind]; rewrite IH; cbn [mbind option_bind].
    all: repeat f_equal; apply byte_rejoin; lia.
Qed.

(** ** Lengths and characters *)

Lemma hex_length s : String.length (hex_encode s) = 2 * String.length s.
Proof. induction s as [|c s IH]; simpl; [done|]. rewrite IH. lia. Qed.

Lemma base64url_length s :
  String.length (base64url s) = (4 * String.length s + 2) / 3.
Proof.
  induction s as [|x|x y|x y z s IH] using string_ind3; [done..|].
  cbn [base64url String.length]. rewrite IH.
  replace (4 * S (S (S (String.length s))) + 2) with (4 * String.length s + 2 + 4 * 3) by lia.
  rewrite Nat.div_add by done. lia.
Qed.

(** Every character of a string satisfies a predicate. *)
Fixpoint str_all (p : ascii → bool) (s : string) : bool :=
  match s with EmptyString => true | String c s' => p c && str_all p s' end.

Lemma str_all_app p s t : str_all p (s +:+ t) = str_all p s && str_all p t.
Proof. induction s as [|c s IH]; [done|]. simpl. by rewrite IH, andb_assoc. Qed.

Definition in_alphabet (alphabet : string) (c : ascii) : bool := str_has c alphabet.

Lemma digit_in alphabet n :
  (n < N.of_nat (String.length alphabet))%N → in_alphabet alphabet (digit alphabet n) = true.
Proof.
  unfold in_alphabet, digit. intros H. assert (Hi : N.to_nat n < String.length alphabet) by lia.
  revert Hi. generalize (N.to_nat n) as i. clear. induction alphabet as [|c s IH]; intros i Hi; simpl in *; [lia|].
  destruct i as [|i]; simpl; [by rewrite bool_decide_true|]. rewrite IH by lia. apply orb_true_r.
Qed.

Lemma hex_chars s : str_all (in_alphabet hex_alphabet) (hex_encode s) = true.
Proof.
  induction s as [|c s IH]; [done|]. pose proof (byte_bound c). cbn [hex_encode str_all].
  unfold hex_digit. rewrite !digit_in, IH; [done|simpl; lia..].
Qed.

Lemma base64url_chars s : str_all (in_alphabet url_alphabet) (base64url s) = true.
Proof.
  induction s as [|x|x y|x y z s IH] using string_ind3; [done|..];
    pose proof (byte_bound x); try pose proof (byte_bound y); try pose proof (byte_bound z);
    cbn [base64url str_all]; unfold url_digit; rewrite ?digit_in, ?IH; done || (cbn [String.length url_alphabet]; lia).
Qed.
