(* ===== verification/DeepCopy.v ===== *)
(** * Deep copies (src/api/v1alpha1/zz_generated.deepcopy.go)

    Elsewhere in this library objects are values.  In the program they are
    structs that share memory through pointers, slices and maps, and what lets
    the controllers change an object while the one they read stays as it was (the
    base of a patch, an object of the informer's cache) is [DeepCopy].

    Here Go's memory is a heap of cells, a value holds references to them, and
    each generated function is a program over the heap.  A value is judged by the
    tree it denotes: what is left of it when references are followed.  A deep copy
    denotes the same tree and reaches only memory that did not exist before. *)

From S2P Require Import Prelude.

(** ** Memory *)

Abbreviation loc := positive.

Inductive scalar := SString (s : string) | SInt (z : Z) | SBool (b : bool).

(** What a reference refers to: one value, an array, the entries of a map. *)
Inductive refkind := RPtr | RSlice | RMap.

#[export] Instance refkind_eq_dec : EqDecision refkind.
Proof. solve_decision. Defined.

(** Go values; structs hold their fields inline. *)
Inductive value :=
  | VNil
  | VScalar (s : scalar)
  | VStruct (fields : list (string * value))
  | VRef (k : refkind) (l : loc).

(** A cell holds the value pointed to, the elements of a slice (all without a
    name) or the entries of a map in key order. *)
Abbreviation cell := (list (string * value)).
Abbreviation heap := (gmap loc cell).

(** A copying function: what it is given is read, never written. *)
Definition copier := value → M heap value.

(** ** The statements the generator writes *)

Definition mem_load (l : loc) : M heap cell :=
  λ h, match h !! l with Some c => (Ok c, h) | None => (Err go_panic, h) end.
Definition mem_store (l : loc) (c : cell) : M heap unit := modify <[l := c]>.

(** [new(T)], [make(T, n)]: zeroed memory nothing refers to. *)
Definition mem_alloc : M heap loc := λ h, let l := fresh (dom h) in (Ok l, <[l := []]> h).

(** [*out = *in], the copying of one element by [copy]. *)
Definition assign : copier := λ v, ret v.

(** The loop of [copy], of [for i := range *in] and of [for key, val := range *in]. *)
Fixpoint copy_entries (k : copier) (es : cell) : M heap cell :=
  match es with
  | [] => ret []
  | (name, v) :: es => v' ← k v; es' ← copy_entries k es; ret ((name, v') :: es')
  end.

(** [if in.F != nil { *out = new(T) or make(T, len( *in)); copy what is in it }] *)
Definition copy_ref (kind : refkind) (k : copier) : copier := λ v,
  match v with
  | VNil => ret VNil
  | VRef kind' l =>
      if bool_decide (kind' = kind) then
        es ← mem_load l;
        l' ← mem_alloc;
        es' ← copy_entries k es;
        _ ← mem_store l' es';
        ret (VRef kind l')
      else throw go_panic
  | _ => throw go_panic
  end.

Definition new_of := copy_ref RPtr.
Definition slice_of := copy_ref RSlice.
Definition map_of := copy_ref RMap.

(** A statement about one field: [k(&in.F, &out.F)]. *)
Fixpoint copy_field (name : string) (k : copier) (fields : list (string * value)) : M heap (list (string * value)) :=
  match fields with
  | [] => throw go_panic
  | (n, v) :: fields =>
      if bool_decide (n = name) then v' ← k v; ret ((n, v') :: fields)
      else fields' ← copy_field name k fields; ret ((n, v) :: fields')
  end.

Fixpoint copy_fields (steps : list (string * copier)) (fields : list (string * value))
    : M heap (list (string * value)) :=
  match steps with
  | [] => ret fields
  | (name, k) :: steps => fields' ← copy_field name k fields; copy_fields steps fields'
  end.

(** [func (in *T) DeepCopyInto(out *T)]: [*out = *in], then its statements. *)
Definition into (steps : list (string * copier)) : copier := λ v,
  match v with
  | VStruct fields => fields' ← copy_fields steps fields; ret (VStruct fields')
  | _ => throw go_panic
  end.

(** [func (in *T) DeepCopy() *T] *)
Definition DeepCopy (DeepCopyInto : copier) : copier := λ v,
  match v with VNil => ret VNil | v => new_of DeepCopyInto v end.

(** [func (in *T) DeepCopyObject() runtime.Object]: an interface is nil only
    when it holds nothing, a nil pointer included. *)
Definition DeepCopyObject (DeepCopy : copier) (v : value) : M heap (option value) :=
  c ← DeepCopy v;
  match c with VNil => ret None | c => ret (Some c) end.

(** ** Denotations and types *)

Inductive tree :=
  | DNil
  | DScalar (s : scalar)
  | DStruct (fields : list (string * tree))
  | DRef (k : refkind) (entries : list (string * tree)).

(** [reads_in P h v t]: in [h] the value [v] denotes [t], through references that
    satisfy [P]. *)
Inductive reads_in (P : loc → Prop) (h : heap) : value → tree → Prop :=
  | reads_nil : reads_in P h VNil DNil
  | reads_scalar s : reads_in P h (VScalar s) (DScalar s)
  | reads_struct vs ts :
      Forall2 (λ x y, x.1 = y.1 ∧ reads_in P h x.2 y.2) vs ts → reads_in P h (VStruct vs) (DStruct ts)
  | reads_ref k l vs ts :
      P l → h !! l = Some vs → Forall2 (λ x y, x.1 = y.1 ∧ reads_in P h x.2 y.2) vs ts →
      reads_in P h (VRef k l) (DRef k ts).

Abbreviation reads := (reads_in (λ _, True)).

(** Types; [TExt] is a type another module declares. *)
Inductive ty :=
  | TScalar
  | TStruct (fields : list (string * ty))
  | TRef (k : refkind) (t : ty)
  | TExt (name : string).

Definition TPtr := TRef RPtr.
Definition TSlice := TRef RSlice.
Definition TStringMap := TRef RMap TScalar.

(** The imported packages' types and their copying functions. *)
Class Imports := {
  ext_ty : string → tree → Prop;
  ext_DeepCopyInto : string → copier;
  ext_DeepCopy : string → copier;
}.

Inductive has_ty `{!Imports} : ty → tree → Prop :=
  | has_scalar s : has_ty TScalar (DScalar s)
  | has_struct fs ts : Forall2 (λ f x, f.1 = x.1 ∧ has_ty f.2 x.2) fs ts → has_ty (TStruct fs) (DStruct ts)
  | has_nil k T : has_ty (TRef k T) DNil
  | has_ref k T ts : (k = RPtr → length ts = 1) → Forall (λ x, has_ty T x.2) ts → has_ty (TRef k T) (DRef k ts)
  | has_ext n t : ext_ty n t → has_ty (TExt n) t.

(** No references at all. *)
Fixpoint no_refs (t : tree) : bool :=
  match t with
  | DScalar _ => true
  | DStruct ts => forallb (λ x, no_refs x.2) ts
  | _ => false
  end.

Definition plain `{!Imports} (T : ty) : Prop := ∀ t, has_ty T t → no_refs t = true.

(** What a copying function of a type must do. *)
Definition deep `{!Imports} (T : ty) (k : copier) : Prop := ∀ h v t,
  reads h v t → has_ty T t →
  ∃ v' h', k v h = (Ok v', h') ∧ h ⊆ h' ∧ reads_in (λ l, l ∉ dom h) h' v' t.

(** What is documented of the imported types: structs of strings and numbers, and
    types with generated or hand-written deep copies of their own. *)
Class ImportsLaws `{!Imports} : Prop := {
  ext_plain : ∀ n, n ∈ ["TypeMeta"; "LocalObjectReference"; "Duration"] → plain (TExt n);
  ext_into_deep : ∀ n, n ∈ ["ObjectMeta"; "ListMeta"; "Condition"; "Toleration"; "EnvVar"; "ResourceRequirements"] →
    deep (TExt n) (ext_DeepCopyInto n);
  ext_quantity_deep : deep (TExt "Quantity") (ext_DeepCopy "Quantity");
  ext_time_deep : deep (TPtr (TExt "Time")) (ext_DeepCopy "Time");
}.

(** ** The types of this package *)

Section types.
Context `{!Imports}.
Implicit Types h : heap.

Abbreviation LocalRef := (TPtr (TExt "LocalObjectReference")).
Abbreviation Conditions_ty := (TSlice (TExt "Condition")).

Definition ClusterReference_ty := TStruct [("Name", TScalar)].
Definition EndpointsStatus_ty := TStruct [("S3", TScalar)].
Definition GrantSpec_ty := TStruct [("Bucket", TScalar); ("Permission", TScalar)].
Definition MetricsSpec_ty := TStruct [("Exporter", TScalar); ("Endpoint", TScalar); ("Protocol", TScalar)].
Definition OTLPSpec_ty := TStruct [("Endpoint", TScalar); ("Protocol", TScalar)].
Definition SignalSpec_ty := TStruct [("Exporter", TScalar); ("Endpoint", TScalar); ("Protocol", TScalar)].
Definition S3TLSSpec_ty := TStruct [("SecretName", TScalar)].
Definition AuthSpec_ty := TStruct [("RootCredentialsSecretRef", LocalRef); ("PublicReadBuckets", TSlice TScalar)].
Definition FSAccessKeySpec_ty := TStruct
  [("ClusterRef", ClusterReference_ty); ("SecretName", TScalar); ("ExistingSecretRef", LocalRef);
   ("Grants", TSlice GrantSpec_ty)].
Definition FSAccessKeyStatus_ty := TStruct
  [("ObservedGeneration", TScalar); ("AccessKey", TScalar); ("Conditions", Conditions_ty)].
Definition FSAccessKey_ty := TStruct
  [("TypeMeta", TExt "TypeMeta"); ("ObjectMeta", TExt "ObjectMeta"); ("Spec", FSAccessKeySpec_ty);
   ("Status", FSAccessKeyStatus_ty)].
Definition List_ty (item : ty) := TStruct
  [("TypeMeta", TExt "TypeMeta"); ("ListMeta", TExt "ListMeta"); ("Items", TSlice item)].
Definition FSBucketSpec_ty := TStruct
  [("ClusterRef", ClusterReference_ty); ("BucketName", TScalar); ("Scheme", TScalar); ("ReclaimPolicy", TScalar)].
Definition FSBucketStatus_ty := TStruct
  [("ObservedGeneration", TScalar); ("Scheme", TScalar); ("Conditions", Conditions_ty)].
Definition FSBucket_ty := TStruct
  [("TypeMeta", TExt "TypeMeta"); ("ObjectMeta", TExt "ObjectMeta"); ("Spec", FSBucketSpec_ty);
   ("Status", FSBucketStatus_ty)].
Definition ImageSpec_ty := TStruct
  [("Repository", TScalar); ("Tag", TScalar); ("Digest", TScalar); ("PullPolicy", TScalar);
   ("PullSecrets", TSlice (TExt "LocalObjectReference"))].
Definition LayoutSpec_ty := TStruct [("Widths", TSlice TScalar)].
Definition LayoutStatus_ty := TStruct
  [("Version", TScalar); ("Members", TScalar); ("Widths", TSlice TScalar); ("RetainedVersions", TSlice TScalar)].
Definition ObservabilitySpec_ty := TStruct
  [("OTLP", OTLPSpec_ty); ("Traces", SignalSpec_ty); ("Logs", SignalSpec_ty); ("Metrics", MetricsSpec_ty);
   ("LogLevel", TScalar); ("PodMonitor", TScalar); ("Pprof", TPtr TScalar); ("ResourceAttributes", TStringMap)].
Definition PodTemplate_ty := TStruct
  [("Resources", TExt "ResourceRequirements"); ("NodeSelector", TStringMap); ("Tolerations", TSlice (TExt "Toleration"));
   ("PriorityClassName", TScalar); ("Annotations", TStringMap); ("Labels", TStringMap);
   ("ExtraEnv", TSlice (TExt "EnvVar"))].
Definition RackSpec_ty := TStruct
  [("Name", TScalar); ("Nodes", TScalar); ("Zone", TScalar); ("NodeSelector", TStringMap)].
Definition S3ServiceSpec_ty := TStruct [("Type", TScalar); ("Port", TScalar); ("Annotations", TStringMap)].
Definition S3Spec_ty := TStruct [("Service", S3ServiceSpec_ty); ("TLS", S3TLSSpec_ty)].
Definition StorageSpec_ty := TStruct
  [("Size", TExt "Quantity"); ("StorageClass", TScalar); ("ReclaimPolicy", TScalar)].
Definition TopologySpec_ty := TStruct
  [("Nodes", TPtr TScalar); ("Racks", TSlice RackSpec_ty); ("PodAntiAffinity", TScalar)].
Definition UpdatePolicySpec_ty := TStruct [("ConvergenceTimeout", TPtr (TExt "Duration"))].
Definition UpdateStatus_ty := TStruct [("Phase", TScalar); ("Node", TScalar); ("StartedAt", TPtr (TExt "Time"))].
Definition FSClusterSpec_ty := TStruct
  [("Image", ImageSpec_ty); ("Topology", TopologySpec_ty); ("Storage", StorageSpec_ty); ("Layout", LayoutSpec_ty);
   ("ClusterSecretRef", LocalRef); ("Auth", AuthSpec_ty); ("S3", S3Spec_ty); ("UpdatePolicy", UpdatePolicySpec_ty);
   ("Observability", ObservabilitySpec_ty); ("NetworkPolicy", TScalar); ("PodTemplate", PodTemplate_ty)].
Definition FSClusterStatus_ty := TStruct
  [("ObservedGeneration", TScalar); ("Nodes", TScalar); ("ReadyNodes", TScalar); ("UpNodes", TScalar);
   ("ConfigurationRevision", TScalar); ("StatefulSetRevision", TScalar); ("CurrentRevision", TScalar);
   ("UpdateRevision", TScalar); ("Layout", TPtr LayoutStatus_ty); ("Update", TPtr UpdateStatus_ty);
   ("Endpoints", TPtr EndpointsStatus_ty); ("Conditions", Conditions_ty)].
Definition FSCluster_ty := TStruct
  [("TypeMeta", TExt "TypeMeta"); ("ObjectMeta", TExt "ObjectMeta"); ("Spec", FSClusterSpec_ty);
   ("Status", FSClusterStatus_ty)].

(** ** The generated functions *)

Definition AuthSpec_DeepCopyInto : copier := into
  [("RootCredentialsSecretRef", new_of assign); ("PublicReadBuckets", slice_of assign)].
Definition ClusterReference_DeepCopyInto : copier := into [].
Definition EndpointsStatus_DeepCopyInto : copier := into [].
Definition FSAccessKeySpec_DeepCopyInto : copier := into
  [("ClusterRef", assign); ("ExistingSecretRef", new_of assign); ("Grants", slice_of assign)].
Definition FSAccessKeyStatus_DeepCopyInto : copier := into
  [("Conditions", slice_of (ext_DeepCopyInto "Condition"))].
Definition FSAccessKey_DeepCopyInto : copier := into
  [("TypeMeta", assign); ("ObjectMeta", ext_DeepCopyInto "ObjectMeta"); ("Spec", FSAccessKeySpec_DeepCopyInto);
   ("Status", FSAccessKeyStatus_DeepCopyInto)].
Definition FSAccessKeyList_DeepCopyInto : copier := into
  [("TypeMeta", assign); ("ListMeta", ext_DeepCopyInto "ListMeta"); ("Items", slice_of FSAccessKey_DeepCopyInto)].
Definition FSBucketSpec_DeepCopyInto : copier := into [("ClusterRef", assign)].
Definition FSBucketStatus_DeepCopyInto : copier := into
  [("Conditions", slice_of (ext_DeepCopyInto "Condition"))].
Definition FSBucket_DeepCopyInto : copier := into
  [("TypeMeta", assign); ("ObjectMeta", ext_DeepCopyInto "ObjectMeta"); ("Spec", assign);
   ("Status", FSBucketStatus_DeepCopyInto)].
Definition FSBucketList_DeepCopyInto : copier := into
  [("TypeMeta", assign); ("ListMeta", ext_DeepCopyInto "ListMeta"); ("Items", slice_of FSBucket_DeepCopyInto)].
Definition GrantSpec_DeepCopyInto : copier := into [].
Definition ImageSpec_DeepCopyInto : copier := into [("PullSecrets", slice_of assign)].
Definition LayoutSpec_DeepCopyInto : copier := into [("Widths", slice_of assign)].
Definition LayoutStatus_DeepCopyInto : copier := into
  [("Widths", slice_of assign); ("RetainedVersions", slice_of assign)].
Definition MetricsSpec_DeepCopyInto : copier := into [].
Definition OTLPSpec_DeepCopyInto : copier := into [].
Definition ObservabilitySpec_DeepCopyInto : copier := into
  [("OTLP", assign); ("Traces", assign); ("Logs", assign); ("Metrics", assign); ("Pprof", new_of assign);
   ("ResourceAttributes", map_of assign)].
Definition PodTemplate_DeepCopyInto : copier := into
  [("Resources", ext_DeepCopyInto "ResourceRequirements"); ("NodeSelector", map_of assign);
   ("Tolerations", slice_of (ext_DeepCopyInto "Toleration")); ("Annotations", map_of assign);
   ("Labels", map_of assign); ("ExtraEnv", slice_of (ext_DeepCopyInto "EnvVar"))].
Definition RackSpec_DeepCopyInto : copier := into [("NodeSelector", map_of assign)].
Definition S3ServiceSpec_DeepCopyInto : copier := into [("Annotations", map_of assign)].
Definition S3Spec_DeepCopyInto : copier := into [("Service", S3ServiceSpec_DeepCopyInto); ("TLS", assign)].
Definition S3TLSSpec_DeepCopyInto : copier := into [].
Definition SignalSpec_DeepCopyInto : copier := into [].
Definition StorageSpec_DeepCopyInto : copier := into [("Size", ext_DeepCopy "Quantity")].
Definition TopologySpec_DeepCopyInto : copier := into
  [("Nodes", new_of assign); ("Racks", slice_of RackSpec_DeepCopyInto)].
Definition UpdatePolicySpec_DeepCopyInto : copier := into [("ConvergenceTimeout", new_of assign)].
Definition UpdateStatus_DeepCopyInto : copier := into [("StartedAt", ext_DeepCopy "Time")].
Definition FSClusterSpec_DeepCopyInto : copier := into
  [("Image", ImageSpec_DeepCopyInto); ("Topology", TopologySpec_DeepCopyInto); ("Storage", StorageSpec_DeepCopyInto);
   ("Layout", LayoutSpec_DeepCopyInto); ("ClusterSecretRef", new_of assign); ("Auth", AuthSpec_DeepCopyInto);
   ("S3", S3Spec_DeepCopyInto); ("UpdatePolicy", UpdatePolicySpec_DeepCopyInto);
   ("Observability", ObservabilitySpec_DeepCopyInto); ("PodTemplate", PodTemplate_DeepCopyInto)].
Definition FSClusterStatus_DeepCopyInto : copier := into
  [("Layout", new_of LayoutStatus_DeepCopyInto); ("Update", new_of UpdateStatus_DeepCopyInto);
   ("Endpoints", new_of assign); ("Conditions", slice_of (ext_DeepCopyInto "Condition"))].
Definition FSCluster_DeepCopyInto : copier := into
  [("TypeMeta", assign); ("ObjectMeta", ext_DeepCopyInto "ObjectMeta"); ("Spec", FSClusterSpec_DeepCopyInto);
   ("Status", FSClusterStatus_DeepCopyInto)].
Definition FSClusterList_DeepCopyInto : copier := into
  [("TypeMeta", assign); ("ListMeta", ext_DeepCopyInto "ListMeta"); ("Items", slice_of FSCluster_DeepCopyInto)].

Definition AuthSpec_DeepCopy : copier := DeepCopy AuthSpec_DeepCopyInto.
Definition ClusterReference_DeepCopy : copier := DeepCopy ClusterReference_DeepCopyInto.
Definition EndpointsStatus_DeepCopy : copier := DeepCopy EndpointsStatus_DeepCopyInto.
Definition FSAccessKey_DeepCopy : copier := DeepCopy FSAccessKey_DeepCopyInto.
Definition FSAccessKeyList_DeepCopy : copier := DeepCopy FSAccessKeyList_DeepCopyInto.
Definition FSAccessKeySpec_DeepCopy : copier := DeepCopy FSAccessKeySpec_DeepCopyInto.
Definition FSAccessKeyStatus_DeepCopy : copier := DeepCopy FSAccessKeyStatus_DeepCopyInto.
Definition FSBucket_DeepCopy : copier := DeepCopy FSBucket_DeepCopyInto.
Definition FSBucketList_DeepCopy : copier := DeepCopy FSBucketList_DeepCopyInto.
Definition FSBucketSpec_DeepCopy : copier := DeepCopy FSBucketSpec_DeepCopyInto.
Definition FSBucketStatus_DeepCopy : copier := DeepCopy FSBucketStatus_DeepCopyInto.
Definition FSCluster_DeepCopy : copier := DeepCopy FSCluster_DeepCopyInto.
Definition FSClusterList_DeepCopy : copier := DeepCopy FSClusterList_DeepCopyInto.
Definition FSClusterSpec_DeepCopy : copier := DeepCopy FSClusterSpec_DeepCopyInto.
Definition FSClusterStatus_DeepCopy : copier := DeepCopy FSClusterStatus_DeepCopyInto.
Definition GrantSpec_DeepCopy : copier := DeepCopy GrantSpec_DeepCopyInto.
Definition ImageSpec_DeepCopy : copier := DeepCopy ImageSpec_DeepCopyInto.
Definition LayoutSpec_DeepCopy : copier := DeepCopy LayoutSpec_DeepCopyInto.
Definition LayoutStatus_DeepCopy : copier := DeepCopy LayoutStatus_DeepCopyInto.
Definition MetricsSpec_DeepCopy : copier := DeepCopy MetricsSpec_DeepCopyInto.
Definition OTLPSpec_DeepCopy : copier := DeepCopy OTLPSpec_DeepCopyInto.
Definition ObservabilitySpec_DeepCopy : copier := DeepCopy ObservabilitySpec_DeepCopyInto.
Definition PodTemplate_DeepCopy : copier := DeepCopy PodTemplate_DeepCopyInto.
Definition RackSpec_DeepCopy : copier := DeepCopy RackSpec_DeepCopyInto.
Definition S3ServiceSpec_DeepCopy : copier := DeepCopy S3ServiceSpec_DeepCopyInto.
Definition S3Spec_DeepCopy : copier := DeepCopy S3Spec_DeepCopyInto.
Definition S3TLSSpec_DeepCopy : copier := DeepCopy S3TLSSpec_DeepCopyInto.
Definition SignalSpec_DeepCopy : copier := DeepCopy SignalSpec_DeepCopyInto.
Definition StorageSpec_DeepCopy : copier := DeepCopy StorageSpec_DeepCopyInto.
Definition TopologySpec_DeepCopy : copier := DeepCopy TopologySpec_DeepCopyInto.
Definition UpdatePolicySpec_DeepCopy : copier := DeepCopy UpdatePolicySpec_DeepCopyInto.
Definition UpdateStatus_DeepCopy : copier := DeepCopy UpdateStatus_DeepCopyInto.

Definition FSAccessKey_DeepCopyObject := DeepCopyObject FSAccessKey_DeepCopy.
Definition FSAccessKeyList_DeepCopyObject := DeepCopyObject FSAccessKeyList_DeepCopy.
Definition FSBucket_DeepCopyObject := DeepCopyObject FSBucket_DeepCopy.
Definition FSBucketList_DeepCopyObject := DeepCopyObject FSBucketList_DeepCopy.
Definition FSCluster_DeepCopyObject := DeepCopyObject FSCluster_DeepCopy.
Definition FSClusterList_DeepCopyObject := DeepCopyObject FSClusterList_DeepCopy.

(** Every copying method, with the type it copies. *)
Definition generated : list (ty * copier) :=
  [(AuthSpec_ty, AuthSpec_DeepCopy); (ClusterReference_ty, ClusterReference_DeepCopy);
   (EndpointsStatus_ty, EndpointsStatus_DeepCopy); (FSAccessKey_ty, FSAccessKey_DeepCopy);
   (List_ty FSAccessKey_ty, FSAccessKeyList_DeepCopy); (FSAccessKeySpec_ty, FSAccessKeySpec_DeepCopy);
   (FSAccessKeyStatus_ty, FSAccessKeyStatus_DeepCopy); (FSBucket_ty, FSBucket_DeepCopy);
   (List_ty FSBucket_ty, FSBucketList_DeepCopy); (FSBucketSpec_ty, FSBucketSpec_DeepCopy);
   (FSBucketStatus_ty, FSBucketStatus_DeepCopy); (FSCluster_ty, FSCluster_DeepCopy);
   (List_ty FSCluster_ty, FSClusterList_DeepCopy); (FSClusterSpec_ty, FSClusterSpec_DeepCopy);
   (FSClusterStatus_ty, FSClusterStatus_DeepCopy); (GrantSpec_ty, GrantSpec_DeepCopy);
   (ImageSpec_ty, ImageSpec_DeepCopy); (LayoutSpec_ty, LayoutSpec_DeepCopy);
   (LayoutStatus_ty, LayoutStatus_DeepCopy); (MetricsSpec_ty, MetricsSpec_DeepCopy);
   (OTLPSpec_ty, OTLPSpec_DeepCopy); (ObservabilitySpec_ty, ObservabilitySpec_DeepCopy);
   (PodTemplate_ty, PodTemplate_DeepCopy); (RackSpec_ty, RackSpec_DeepCopy);
   (S3ServiceSpec_ty, S3ServiceSpec_DeepCopy); (S3Spec_ty, S3Spec_DeepCopy);
   (S3TLSSpec_ty, S3TLSSpec_DeepCopy); (SignalSpec_ty, SignalSpec_DeepCopy);
   (StorageSpec_ty, StorageSpec_DeepCopy); (TopologySpec_ty, TopologySpec_DeepCopy);
   (UpdatePolicySpec_ty, UpdatePolicySpec_DeepCopy); (UpdateStatus_ty, UpdateStatus_DeepCopy)].

Definition objects : list (ty * (value → M heap (option value))) :=
  [(FSAccessKey_ty, FSAccessKey_DeepCopyObject); (List_ty FSAccessKey_ty, FSAccessKeyList_DeepCopyObject);
   (FSBucket_ty, FSBucket_DeepCopyObject); (List_ty FSBucket_ty, FSBucketList_DeepCopyObject);
   (FSCluster_ty, FSCluster_DeepCopyObject); (List_ty FSCluster_ty, FSClusterList_DeepCopyObject)].
End types.

(** * Theorems *)

Section reads_ind.
Context (P : loc → Prop) (h : heap) (Q : value → tree → Prop).
Let entries := Forall2 (λ x y : string * _, x.1 = y.1 ∧ Q x.2 y.2).
Context (Hnil : Q VNil DNil) (Hscalar : ∀ s, Q (VScalar s) (DScalar s)).
Context (Hstruct : ∀ vs ts, entries vs ts → Q (VStruct vs) (DStruct ts)).
Context (Href : ∀ k l vs ts, P l → h !! l = Some vs → entries vs ts → Q (VRef k l) (DRef k ts)).

(** Induction over what a value denotes, entries included. *)
Lemma reads_in_ind' : ∀ v t, reads_in P h v t → Q v t.
Proof.
  fix IH 3. intros v t [|s|vs ts Hf|k l vs ts Hp Hl Hf]; [apply Hnil|apply Hscalar|apply Hstruct|].
  - induction Hf as [|x y vs' ts' [Hn Hx] _ IHf]; constructor; [split; [exact Hn|by apply IH]|exact IHf].
  - apply (Href k l vs ts Hp Hl). clear Hl. induction Hf as [|x y vs' ts' [Hn Hx] _ IHf]; constructor;
      [split; [exact Hn|by apply IH]|exact IHf].
Qed.
End reads_ind.

(** More memory, and a weaker demand on references, change nothing. *)
Lemma reads_mono (P P' : loc → Prop) (h h' : heap) v t :
  (∀ l, P l → P' l) → (∀ l c, P l → h !! l = Some c → h' !! l = Some c) → reads_in P h v t → reads_in P' h' v t.
Proof.
  intros HP Hh. revert v t. apply reads_in_ind'; [constructor|constructor| |].
  - intros vs ts Hf. by constructor.
  - intros k l vs ts Hl Hc Hf. econstructor; eauto.
Qed.

(** A value without references reads the same anywhere. *)
Lemma reads_no_refs (P P' : loc → Prop) (h h' : heap) v t :
  no_refs t = true → reads_in P h v t → reads_in P' h' v t.
Proof.
  intros Ht Hr. revert v t Hr Ht. apply (reads_in_ind' P h (λ v t, no_refs t = true → reads_in P' h' v t)); try done.
  - constructor.
  - intros vs ts Hf Ht. constructor. simpl in Ht. revert Ht. induction Hf as [|x y vs ts [Hn Hx] _ IH]; simpl.
    { constructor. } intros [Hy Hts]%andb_prop. constructor; auto.
Qed.

(** ** The building blocks copy deeply *)

Lemma Forall2_impl_elem {A B} (P Q : A → B → Prop) l k :
  Forall2 P l k → (∀ x y, y ∈ k → P x y → Q x y) → Forall2 Q l k.
Proof.
  induction 1 as [|x y l k Hxy _ IH]; intros HQ; constructor; [by apply HQ; [left|]|].
  apply IH. intros x' y' Hy. apply HQ. by right.
Qed.

Section deep.
Context `{!Imports}.
Implicit Types h : heap.

Lemma plain_scalar : plain TScalar.
Proof. intros t Ht. by inversion Ht. Qed.

Lemma plain_struct fs : Forall (λ f, plain f.2) fs → plain (TStruct fs).
Proof.
  intros Hfs t Ht. inversion Ht as [|? ts Hf| | |]; subst. simpl. revert Hfs. induction Hf as [|f x fs ts [_ Hx] Hf IH]; [done|].
  intros [Hp Hfs]%Forall_cons. simpl. rewrite (Hp _ Hx). apply IH; [by constructor|done].
Qed.

Lemma deep_assign T : plain T → deep T assign.
Proof.
  intros Hp h v t Hr Ht. exists v, h. split_and!; [done|done|]. eapply reads_no_refs; [by apply Hp|exact Hr].
Qed.

(** What [h] gave to read is still there after an extension; what was fresh for
    the extension is fresh for [h]. *)
Lemma reads_sub h h' v t : h ⊆ h' → reads h v t → reads h' v t.
Proof. intros Hh. apply reads_mono; [done|]. intros l c _ Hl. by eapply lookup_weaken. Qed.

Lemma fresh_keep h h1 h2 v t : h1 ⊆ h2 → reads_in (λ l, l ∉ dom h) h1 v t → reads_in (λ l, l ∉ dom h) h2 v t.
Proof. intros Hh. apply reads_mono; [done|]. intros l c _ Hl. by eapply lookup_weaken. Qed.

Lemma fresh_later h h1 h2 v t : h ⊆ h1 → reads_in (λ l, l ∉ dom h1) h2 v t → reads_in (λ l, l ∉ dom h) h2 v t.
Proof. intros Hh. apply reads_mono; [|done]. intros l Hl Hin. apply Hl. by apply (subseteq_dom _ _ Hh). Qed.

Lemma deep_entries T k : deep T k → ∀ vs ts h,
  Forall2 (λ x y, x.1 = y.1 ∧ reads h x.2 y.2) vs ts → Forall (λ x, has_ty T x.2) ts →
  ∃ vs' h', copy_entries k vs h = (Ok vs', h') ∧ h ⊆ h' ∧
    Forall2 (λ x y, x.1 = y.1 ∧ reads_in (λ l, l ∉ dom h) h' x.2 y.2) vs' ts.
Proof.
  intros Hk vs. induction vs as [|[n v] vs IH]; intros ts h Hf Ht.
  { inversion Hf; subst. exists [], h. split_and!; [done|done|constructor]. }
  inversion Hf as [|? [m t] ? ts' [Hn Hr] Hf']; subst. apply Forall_cons in Ht as [Htt Ht].
  destruct (Hk h v t Hr Htt) as (v' & h1 & E1 & Hh1 & Hv'). simpl in *.
  destruct (IH ts' h1) as (vs' & h2 & E2 & Hh2 & Hvs'); [|done|].
  { eapply Forall2_impl; [exact Hf'|]. intros x y [? ?]. split; [done|]. by eapply reads_sub. }
  exists ((n, v') :: vs'), h2. unfold mbind, M_bind. rewrite E1, E2. split_and!; [done|by etrans|].
  constructor; [split; [done|by eapply fresh_keep]|].
  eapply Forall2_impl; [exact Hvs'|]. intros x y [? ?]. split; [done|]. by eapply fresh_later.
Qed.

Lemma deep_ref kind T k : deep T k → deep (TRef kind T) (copy_ref kind k).
Proof.
  intros Hk h v t Hr Ht. inversion Ht as [| |? ?|? ? ts _ Hts|]; subst.
  { inversion Hr; subst. exists VNil, h. split_and!; [done|done|constructor]. }
  inversion Hr as [| | |? l vs ? _ Hl Hf]; subst. simpl. rewrite bool_decide_eq_true_2 by done.
  unfold mbind, M_bind, mem_load, mem_alloc, mem_store, modify.
  rewrite Hl. set (l' := fresh (dom h)).
  assert (h !! l' = None) as Hl' by (apply not_elem_of_dom, is_fresh).
  set (h1 := <[l' := []]> h). assert (h ⊆ h1) as Hh1 by by apply insert_subseteq.
  destruct (deep_entries T k Hk vs ts h1) as (vs' & h2 & E & Hh2 & Hvs'); [|done|].
  { eapply Forall2_impl; [exact Hf|]. intros x y [? ?]. split; [done|]. by eapply reads_sub. }
  rewrite E. exists (VRef kind l'), (<[l' := vs']> h2). split_and!; [done| |].
  - apply map_subseteq_spec. intros m c Hm.
    rewrite lookup_insert_ne by congruence.
    eapply lookup_weaken; [|exact Hh2]. by eapply lookup_weaken.
  - econstructor; [by apply not_elem_of_dom|apply lookup_insert_eq|].
    eapply Forall2_impl; [exact Hvs'|]. intros x y [Hn Hx]. split; [done|]. eapply reads_mono; [| |exact Hx].
    + intros m Hm Hin. apply Hm. by apply (subseteq_dom _ _ Hh1).
    + intros m c Hm Hc. rewrite lookup_insert_ne; [done|]. intros <-. apply Hm. unfold h1.
      rewrite dom_insert. set_solver.
Qed.

(** *** Structs

    While the statements of [into] run, the fields done are deep copies and the
    others still those of the original. *)
Definition partly (h : heap) (done : list string) (h' : heap) (x : string * value) (y : string * tree) : Prop :=
  x.1 = y.1 ∧ if bool_decide (x.1 ∈ done) then reads_in (λ l, l ∉ dom h) h' x.2 y.2 else reads h x.2 y.2.

Lemma partly_sub h done h1 h2 vs ts :
  h1 ⊆ h2 → Forall2 (partly h done h1) vs ts → Forall2 (partly h done h2) vs ts.
Proof.
  intros Hh Hf. eapply Forall2_impl; [exact Hf|]. intros x y [Hn Hx]. split; [done|].
  case_bool_decide; [|done]. by eapply fresh_keep.
Qed.

Lemma copy_field_deep h done name T k : deep T k → name ∉ done → ∀ vs ts h1,
  NoDup (fst <$> ts) → h ⊆ h1 → Forall2 (partly h done h1) vs ts → (∃ t, (name, t) ∈ ts ∧ has_ty T t) →
  ∃ vs' h2, copy_field name k vs h1 = (Ok vs', h2) ∧ h1 ⊆ h2 ∧ Forall2 (partly h (name :: done) h2) vs' ts.
Proof.
  intros Hk Hd vs. induction vs as [|[n v] vs IH]; intros ts h1 Hnd Hh Hf (t & Hin & Ht).
  { inversion Hf; subst. by apply elem_of_nil in Hin. }
  inversion Hf as [|? [m u] ? ts' [Hn Hx] Hf']; subst. simpl in *. subst m.
  apply NoDup_cons in Hnd as [Hnn Hnd]. destruct (decide (n = name)) as [->|Hname].
  - rewrite (bool_decide_eq_true_2 (name = name)) by done. assert (u = t) as ->.
    { apply elem_of_cons in Hin as [[= ->]|Hin]; [done|]. exfalso. apply Hnn. by apply (list_elem_of_fmap_2 fst) in Hin. }
    rewrite bool_decide_eq_false_2 in Hx by done.
    destruct (Hk h1 v t) as (v' & h2 & E & Hh2 & Hv'); [by eapply reads_sub|done|].
    unfold mbind, M_bind. rewrite E. exists ((name, v') :: vs), h2. split_and!; [done|done|]. constructor.
    + split; [done|]. simpl. rewrite bool_decide_eq_true_2 by left. by eapply fresh_later.
    + apply (partly_sub h done h1 h2) in Hf'; [|done].
      eapply Forall2_impl_elem; [exact Hf'|]. intros x y Hy [Hn' Hxy]. split; [done|].
      assert (x.1 ≠ name) as Hne by (intros E'; apply Hnn; rewrite <- E', Hn'; by apply list_elem_of_fmap_2).
      rewrite (bool_decide_ext _ (x.1 ∈ done)); [done|]. set_solver.
  - rewrite (bool_decide_eq_false_2 (n = name)) by done. assert ((name, t) ∈ ts') as Hin' by by apply elem_of_cons in Hin as [[= ? _]|].
    destruct (IH ts' h1 Hnd Hh Hf') as (vs' & h2 & E & Hh2 & Hf2); [eauto|].
    unfold mbind, M_bind. rewrite E. exists ((n, v) :: vs'), h2. split_and!; [done|done|]. constructor; [|done].
    split; [done|]. simpl. rewrite (bool_decide_ext _ (n ∈ done)) by set_solver.
    case_bool_decide; [by eapply fresh_keep|done].
Qed.

Lemma copy_fields_deep h ts : NoDup (fst <$> ts) → ∀ steps done vs h1,
  h ⊆ h1 → NoDup (fst <$> steps) → (∀ n, n ∈ fst <$> steps → n ∉ done) →
  Forall (λ s, ∃ T t, deep T s.2 ∧ (s.1, t) ∈ ts ∧ has_ty T t) steps → Forall2 (partly h done h1) vs ts →
  ∃ vs' h2, copy_fields steps vs h1 = (Ok vs', h2) ∧ h ⊆ h2 ∧
    Forall2 (partly h (reverse (fst <$> steps) ++ done) h2) vs' ts.
Proof.
  intros Hnd steps. induction steps as [|[name k] steps IH]; intros done vs h1 Hh Hns Hdone Hs Hf; simpl.
  { exists vs, h1. done. }
  simpl in *. apply NoDup_cons in Hns as [Hn Hns]. apply Forall_cons in Hs as [(T & t & Hk & Hin & Ht) Hs].
  destruct (copy_field_deep h done name T k Hk ltac:(apply Hdone; left) vs ts h1 Hnd Hh Hf) as (vs1 & h2 & E & Hh2 & Hf1);
    [eauto|]. unfold mbind, M_bind. rewrite E.
  destruct (IH (name :: done) vs1 h2) as (vs2 & h3 & E2 & Hh3 & Hf2); [by etrans|done| |done|done|].
  { intros n Hin' [->|Hd]%elem_of_cons; [done|]. apply (Hdone n); [by right|done]. }
  exists vs2, h3. split_and!; [done|done|]. by rewrite reverse_cons, <- app_assoc.
Qed.

(** The type of a field. *)
Fixpoint field (fs : list (string * ty)) (name : string) : option ty :=
  match fs with
  | [] => None
  | (n, T) :: fs => if bool_decide (n = name) then Some T else field fs name
  end.

Lemma field_elem fs name T : field fs name = Some T → (name, T) ∈ fs.
Proof.
  induction fs as [|[n U] fs IH]; simpl; [done|]. case_bool_decide as Hn; [|right; auto].
  intros [= ->]. subst. left.
Qed.

(** [into] copies deeply when the fields without a statement hold no references. *)
Lemma deep_into fs steps :
  NoDup (fst <$> fs) → NoDup (fst <$> steps) → Forall (λ s, ∃ T, field fs s.1 = Some T ∧ deep T s.2) steps →
  Forall (λ f, f.1 ∈ fst <$> steps ∨ plain f.2) fs → deep (TStruct fs) (into steps).
Proof.
  intros Hnd Hns Hs Hfs h v t Hr Ht. inversion Ht as [|? ts Hts| | |]; subst. inversion Hr as [| |vs ? Hvs|]; subst.
  assert (fst <$> ts = fst <$> fs) as Hnames.
  { clear -Hts. induction Hts as [|f x fs ts [Hn _] _ IH]; [done|]. by rewrite !fmap_cons, IH, Hn. }
  destruct (copy_fields_deep h ts ltac:(by rewrite Hnames) steps [] vs h) as (vs' & h' & E & Hh & Hf).
  - done.
  - done.
  - intros n _. apply not_elem_of_nil.
  - eapply Forall_impl; [exact Hs|]. intros [name k] (T & Hin%field_elem & Hk).
    apply list_elem_of_lookup in Hin as [i Hi]. eapply Forall2_lookup_l in Hts as ([m t] & Hi' & Hm & Ht'); [|exact Hi].
    simpl in *. subst m. exists T, t. split_and!; [done| |done]. by eapply list_elem_of_lookup_2.
  - eapply Forall2_impl; [exact Hvs|]. intros x y [? ?]. split; [done|].
    by rewrite bool_decide_eq_false_2 by apply not_elem_of_nil.
  - exists (VStruct vs'), h'. simpl. unfold mbind, M_bind. rewrite E. split_and!; [done|done|]. constructor.
    eapply Forall2_impl_elem; [exact Hf|]. intros x y Hy [Hn Hx]. split; [done|]. rewrite app_nil_r in Hx.
    case_bool_decide as Hd; [done|]. rewrite elem_of_reverse in Hd.
    apply list_elem_of_lookup in Hy as [i Hi]. eapply Forall2_lookup_r in Hts as ([m T] & Hi' & Hm & Ht'); [|exact Hi].
    rewrite Forall_lookup in Hfs. destruct (Hfs _ _ Hi') as [?|Hp]; simpl in *; [destruct Hd; by rewrite Hn, <- Hm|].
    eapply reads_no_refs; [by apply Hp|exact Hx].
Qed.
End deep.

(** ** The generated functions *)

#[export] Hint Resolve deep_assign deep_ref plain_scalar : deep.

Ltac by_decide := apply (bool_decide_unpack _); vm_compute; exact I.
Ltac deep_into := apply deep_into;
  [ by_decide | by_decide
  | repeat (apply Forall_cons; split; [eexists; split; [reflexivity|cbn [snd]; solve [eauto with deep]]|]); apply Forall_nil; exact I
  | repeat (apply Forall_cons; split; [cbn [fst snd]; first [left; by_decide | right; solve [eauto with deep]]|]);
    apply Forall_nil; exact I ].

Section generated.
Context `{!Imports} {IL : ImportsLaws}.

Lemma deep_ref_ptr T k : deep T k → deep (TPtr T) (new_of k).
Proof. apply deep_ref. Qed.
Lemma deep_ref_slice T k : deep T k → deep (TSlice T) (slice_of k).
Proof. apply deep_ref. Qed.
Lemma deep_ref_map : deep TStringMap (map_of assign).
Proof. apply deep_ref, deep_assign, plain_scalar. Qed.
Lemma plain_meta : plain (TExt "TypeMeta").
Proof. apply ext_plain; set_solver. Qed.
Lemma plain_local : plain (TExt "LocalObjectReference").
Proof. apply ext_plain; set_solver. Qed.
Lemma plain_duration : plain (TExt "Duration").
Proof. apply ext_plain; set_solver. Qed.
Ltac plain_fields := apply plain_struct; repeat (apply Forall_cons; split; [first [apply plain_scalar|done]|]); apply Forall_nil; exact I.

Lemma ClusterReference_plain : plain ClusterReference_ty.
Proof. plain_fields. Qed.
Lemma OTLPSpec_plain : plain OTLPSpec_ty.
Proof. plain_fields. Qed.
Lemma SignalSpec_plain : plain SignalSpec_ty.
Proof. plain_fields. Qed.
Lemma MetricsSpec_plain : plain MetricsSpec_ty.
Proof. plain_fields. Qed.
Lemma S3TLSSpec_plain : plain S3TLSSpec_ty.
Proof. plain_fields. Qed.
Lemma GrantSpec_plain : plain GrantSpec_ty.
Proof. plain_fields. Qed.
Lemma EndpointsStatus_plain : plain EndpointsStatus_ty.
Proof. plain_fields. Qed.
Lemma FSBucketSpec_plain : plain FSBucketSpec_ty.
Proof. apply plain_struct. constructor; [apply ClusterReference_plain|]. repeat (constructor; [apply plain_scalar|]). constructor. Qed.

Lemma ext_deep n : n ∈ ["ObjectMeta"; "ListMeta"; "Condition"; "Toleration"; "EnvVar"; "ResourceRequirements"] →
  deep (TExt n) (ext_DeepCopyInto n).
Proof. apply ext_into_deep. Qed.

#[local] Hint Resolve deep_ref_ptr deep_ref_slice deep_ref_map plain_meta plain_local plain_duration ClusterReference_plain OTLPSpec_plain SignalSpec_plain MetricsSpec_plain S3TLSSpec_plain GrantSpec_plain EndpointsStatus_plain FSBucketSpec_plain
  ext_quantity_deep ext_time_deep : deep.
#[local] Hint Extern 1 (deep (TExt _) (ext_DeepCopyInto _)) => apply ext_deep; by_decide : deep.

(** Types without a copy of another type inside. *)
Lemma ClusterReference_deep : deep ClusterReference_ty ClusterReference_DeepCopyInto.
Proof. deep_into. Qed.
Lemma EndpointsStatus_deep : deep EndpointsStatus_ty EndpointsStatus_DeepCopyInto.
Proof. deep_into. Qed.
Lemma GrantSpec_deep : deep GrantSpec_ty GrantSpec_DeepCopyInto.
Proof. deep_into. Qed.
Lemma MetricsSpec_deep : deep MetricsSpec_ty MetricsSpec_DeepCopyInto.
Proof. deep_into. Qed.
Lemma OTLPSpec_deep : deep OTLPSpec_ty OTLPSpec_DeepCopyInto.
Proof. deep_into. Qed.
Lemma SignalSpec_deep : deep SignalSpec_ty SignalSpec_DeepCopyInto.
Proof. deep_into. Qed.
Lemma S3TLSSpec_deep : deep S3TLSSpec_ty S3TLSSpec_DeepCopyInto.
Proof. deep_into. Qed.
Lemma AuthSpec_deep : deep AuthSpec_ty AuthSpec_DeepCopyInto.
Proof. deep_into. Qed.
#[local] Hint Resolve AuthSpec_deep : deep.
Lemma FSAccessKeySpec_deep : deep FSAccessKeySpec_ty FSAccessKeySpec_DeepCopyInto.
Proof. deep_into. Qed.
#[local] Hint Resolve FSAccessKeySpec_deep : deep.
Lemma FSAccessKeyStatus_deep : deep FSAccessKeyStatus_ty FSAccessKeyStatus_DeepCopyInto.
Proof. deep_into. Qed.
#[local] Hint Resolve FSAccessKeyStatus_deep : deep.
Lemma FSAccessKey_deep : deep FSAccessKey_ty FSAccessKey_DeepCopyInto.
Proof. deep_into. Qed.
#[local] Hint Resolve FSAccessKey_deep : deep.
Lemma FSBucketSpec_deep : deep FSBucketSpec_ty FSBucketSpec_DeepCopyInto.
Proof. deep_into. Qed.
Lemma FSBucketStatus_deep : deep FSBucketStatus_ty FSBucketStatus_DeepCopyInto.
Proof. deep_into. Qed.
#[local] Hint Resolve FSBucketStatus_deep : deep.
Lemma FSBucket_deep : deep FSBucket_ty FSBucket_DeepCopyInto.
Proof. deep_into. Qed.
#[local] Hint Resolve FSBucket_deep : deep.
Lemma ImageSpec_deep : deep ImageSpec_ty ImageSpec_DeepCopyInto.
Proof. deep_into. Qed.
#[local] Hint Resolve ImageSpec_deep : deep.
Lemma LayoutSpec_deep : deep LayoutSpec_ty LayoutSpec_DeepCopyInto.
Proof. deep_into. Qed.
#[local] Hint Resolve LayoutSpec_deep : deep.
Lemma LayoutStatus_deep : deep LayoutStatus_ty LayoutStatus_DeepCopyInto.
Proof. deep_into. Qed.
#[local] Hint Resolve LayoutStatus_deep : deep.
Lemma ObservabilitySpec_deep : deep ObservabilitySpec_ty ObservabilitySpec_DeepCopyInto.
Proof. deep_into. Qed.
#[local] Hint Resolve ObservabilitySpec_deep : deep.
Lemma PodTemplate_deep : deep PodTemplate_ty PodTemplate_DeepCopyInto.
Proof. deep_into. Qed.
#[local] Hint Resolve PodTemplate_deep : deep.
Lemma RackSpec_deep : deep RackSpec_ty RackSpec_DeepCopyInto.
Proof. deep_into. Qed.
#[local] Hint Resolve RackSpec_deep : deep.
Lemma S3ServiceSpec_deep : deep S3ServiceSpec_ty S3ServiceSpec_DeepCopyInto.
Proof. deep_into. Qed.
#[local] Hint Resolve S3ServiceSpec_deep : deep.
Lemma S3Spec_deep : deep S3Spec_ty S3Spec_DeepCopyInto.
Proof. deep_into. Qed.
#[local] Hint Resolve S3Spec_deep : deep.
Lemma StorageSpec_deep : deep StorageSpec_ty StorageSpec_DeepCopyInto.
Proof. deep_into. Qed.
#[local] Hint Resolve StorageSpec_deep : deep.
Lemma TopologySpec_deep : deep TopologySpec_ty TopologySpec_DeepCopyInto.
Proof. deep_into. Qed.
#[local] Hint Resolve TopologySpec_deep : deep.
Lemma UpdatePolicySpec_deep : deep UpdatePolicySpec_ty UpdatePolicySpec_DeepCopyInto.
Proof. deep_into. Qed.
#[local] Hint Resolve UpdatePolicySpec_deep : deep.
Lemma UpdateStatus_deep : deep UpdateStatus_ty UpdateStatus_DeepCopyInto.
Proof. deep_into. Qed.
#[local] Hint Resolve UpdateStatus_deep : deep.
(** And those made of them. *)
Lemma FSClusterSpec_deep : deep FSClusterSpec_ty FSClusterSpec_DeepCopyInto.
Proof. deep_into. Qed.
#[local] Hint Resolve FSClusterSpec_deep : deep.
Lemma FSClusterStatus_deep : deep FSClusterStatus_ty FSClusterStatus_DeepCopyInto.
Proof. deep_into. Qed.
#[local] Hint Resolve FSClusterStatus_deep : deep.
Lemma FSCluster_deep : deep FSCluster_ty FSCluster_DeepCopyInto.
Proof. deep_into. Qed.
#[local] Hint Resolve FSCluster_deep : deep.
Lemma FSAccessKeyList_deep : deep (List_ty FSAccessKey_ty) FSAccessKeyList_DeepCopyInto.
Proof. deep_into. Qed.
Lemma FSBucketList_deep : deep (List_ty FSBucket_ty) FSBucketList_DeepCopyInto.
Proof. deep_into. Qed.
Lemma FSClusterList_deep : deep (List_ty FSCluster_ty) FSClusterList_DeepCopyInto.
Proof. deep_into. Qed.

Lemma DeepCopy_deep T k : deep T k → deep (TPtr T) (DeepCopy k).
Proof. intros Hk h v t Hr Ht. destruct (deep_ref_ptr T k Hk h v t Hr Ht) as (v' & h' & E & H'). exists v', h'. by destruct v. Qed.

Lemma generated_deep : Forall (λ x, deep (TPtr x.1) x.2) generated.
Proof.
  repeat (apply Forall_cons; split; [cbn [fst snd]; apply DeepCopy_deep|]); [..|apply Forall_nil; exact I].
  all: first [apply AuthSpec_deep | apply ClusterReference_deep | apply EndpointsStatus_deep | apply FSAccessKey_deep | apply FSAccessKeyList_deep | apply FSAccessKeySpec_deep | apply FSAccessKeyStatus_deep | apply FSBucket_deep | apply FSBucketList_deep | apply FSBucketSpec_deep | apply FSBucketStatus_deep | apply FSCluster_deep | apply FSClusterList_deep | apply FSClusterSpec_deep | apply FSClusterStatus_deep | apply GrantSpec_deep | apply ImageSpec_deep | apply LayoutSpec_deep | apply LayoutStatus_deep | apply MetricsSpec_deep | apply OTLPSpec_deep | apply ObservabilitySpec_deep | apply PodTemplate_deep | apply RackSpec_deep | apply S3ServiceSpec_deep | apply S3Spec_deep | apply S3TLSSpec_deep | apply SignalSpec_deep | apply StorageSpec_deep | apply TopologySpec_deep | apply UpdatePolicySpec_deep | apply UpdateStatus_deep].
Qed.

(** C23: For every type of the API, given that the copies of the imported types are
    deep: [DeepCopy] of a pointer to it answers; the copy denotes what the
    original does and reaches only memory allocated by the call, and nothing
    that existed is written.  So whatever is later done to the copy leaves the
    original as it was, and the other way round. *)
Theorem DeepCopy_separates T copy h v t :
  (T, copy) ∈ generated → reads h v t → has_ty (TPtr T) t →
  ∃ v' h', copy v h = (Ok v', h') ∧ h ⊆ h' ∧ reads_in (λ l, l ∉ dom h) h' v' t ∧
    (∀ h2 : heap, (∀ l, l ∈ dom h → h2 !! l = h' !! l) → reads h2 v t) ∧
    (∀ h2 : heap, (∀ l, l ∉ dom h → h2 !! l = h' !! l) → reads h2 v' t).
Proof using IL.
  intros Hin Hr Ht. pose proof generated_deep as Hg. rewrite Forall_forall in Hg.
  destruct (Hg _ Hin h v t Hr Ht) as (v' & h' & E & Hh & Hv').
  exists v', h'. split_and!; [done..| |].
  - intros h2 H2. eapply reads_mono; [done| |exact Hr]. intros l c _ Hl.
    rewrite H2 by (apply elem_of_dom; eauto). by eapply lookup_weaken.
  - intros h2 H2. eapply reads_mono; [done| |exact Hv']. intros l c Hl Hc. by rewrite H2.
Qed.

(** As a runtime object the copy is the same pointer, and nothing for a nil
    pointer: never an interface that holds a nil pointer. *)
Theorem DeepCopyObject_nil T object h v t :
  (T, object) ∈ objects → reads h v t → has_ty (TPtr T) t →
  ∃ copy v' h', (T, copy) ∈ generated ∧ copy v h = (Ok v', h') ∧
    object v h = (Ok (match v with VNil => None | _ => Some v' end), h').
Proof using IL.
  intros Hin Hr Ht.
  assert (∃ k, (T, DeepCopy k) ∈ generated ∧ object = DeepCopyObject (DeepCopy k)) as (k & Hg & ->).
  { unfold objects in Hin. rewrite !elem_of_cons in Hin.
    destruct Hin as [[= -> ->]|[[= -> ->]|[[= -> ->]|[[= -> ->]|[[= -> ->]|[[= -> ->]|[]%elem_of_nil]]]]]];
      eexists; (split; [|reflexivity]); unfold generated; rewrite !elem_of_cons; tauto. }
  destruct (DeepCopy_separates T (DeepCopy k) h v t Hg Hr Ht) as (v' & h' & E & _ & Hv' & _).
  exists (DeepCopy k), v', h'. split_and!; [done..|]. unfold DeepCopyObject, mbind, M_bind. rewrite E.
  destruct v as [|s|fs|r l]; inversion Hr; subst; inversion Hv'; subst; done.
Qed.
End generated.
