(* ===== verification/ApiTypes.v ===== *)
(** * The API types (src/api/v1alpha1)

    The custom resources [FSCluster], [FSBucket] and [FSAccessKey] as the Go
    structs declare them, field by field: a Go pointer is an [option], an
    [int32] is a [Z] kept in range by the CRD schema, a [map[string]string] a
    [gmap string string].  Values of Kubernetes types the operator only copies
    into the objects it builds (resource requirements, tolerations) are carried
    in serialised form, [RawJSON].

    The vocabulary of condition types and reasons of conditions.go is at the
    end: it is documented API surface, and the theorems about status refer to
    it. *)

From S2P Require Import Prelude.

(** A passed-through Kubernetes value, serialised. *)
Definition RawJSON : Type := string.

(** [resource.Quantity]: its amount in nano-units (the finest a quantity can
    express) and the canonical string it prints as. *)
Record Quantity := mkQuantity { q_nanos : Z; q_String : string }.

#[global] Instance Quantity_eq_dec : EqDecision Quantity.
Proof. solve_decision. Defined.

(** [q.Sign()], [q.Cmp(r)] and [q.Value()] (rounded up, away from zero). *)
Definition q_Sign (q : Quantity) : Z := Z.sgn (q_nanos q).
Definition q_Cmp (q r : Quantity) : Z :=
  match (q_nanos q ?= q_nanos r)%Z with Lt => -1 | Eq => 0 | Gt => 1 end.
Definition q_Value (q : Quantity) : Z :=
  let n := q_nanos q in
  if (0 <=? n)%Z then ((n + 999999999) / 1000000000)%Z else (- ((- n + 999999999) / 1000000000))%Z.

(** [metav1.Condition], without the transition time, which the library keeps. *)
Record Condition := mkCondition {
  cond_Type : string;
  cond_Status : string;
  cond_Reason : string;
  cond_Message : string;
  cond_ObservedGeneration : Z;
}.

#[global] Instance Condition_eq_dec : EqDecision Condition.
Proof. solve_decision. Defined.

Definition ConditionTrue : string := "True".
Definition ConditionFalse : string := "False".

(** [corev1.EnvVar] *)
Inductive EnvVarSource :=
  | SecretKeyRef (secret key : string)
  | OtherSource (raw : RawJSON).

Record EnvVar := mkEnvVar {
  env_Name : string;
  env_Value : string;
  env_ValueFrom : option EnvVarSource;
}.

#[global] Instance EnvVarSource_eq_dec : EqDecision EnvVarSource.
Proof. solve_decision. Defined.
#[global] Instance EnvVar_eq_dec : EqDecision EnvVar.
Proof. solve_decision. Defined.

(** ** FSCluster *)

Record ImageSpec := mkImageSpec {
  Repository : string;
  Tag : string;
  Digest : string;
  PullPolicy : string;
  PullSecrets : list string;
}.

Record RackSpec := mkRackSpec {
  rack_Name : string;
  rack_Nodes : Z;
  rack_Zone : string;
  rack_NodeSelector : gmap string string;
}.

Definition AntiAffinityMode : Type := string.
Definition AntiAffinityRequired : AntiAffinityMode := "Required".
Definition AntiAffinityPreferred : AntiAffinityMode := "Preferred".
Definition AntiAffinityNone : AntiAffinityMode := "None".

Record TopologySpec := mkTopologySpec {
  topo_Nodes : option Z;
  Racks : list RackSpec;
  PodAntiAffinity : AntiAffinityMode;
}.

Definition ReclaimPolicy : Type := string.
Definition ReclaimRetain : ReclaimPolicy := "Retain".
Definition ReclaimDelete : ReclaimPolicy := "Delete".

Record StorageSpec := mkStorageSpec {
  Size : Quantity;
  StorageClass : string;
  storage_ReclaimPolicy : ReclaimPolicy;
}.

Record LayoutSpec := mkLayoutSpec { spec_Widths : list Z }.

Record AuthSpec := mkAuthSpec {
  RootCredentialsSecretRef : option string;
  PublicReadBuckets : list string;
}.

Record S3ServiceSpec := mkS3ServiceSpec {
  svc_Type : string;
  svc_Port : Z;
  svc_Annotations : gmap string string;
}.

Record S3TLSSpec := mkS3TLSSpec { tls_SecretName : string }.

Record S3Spec := mkS3Spec { Service : S3ServiceSpec; TLS : S3TLSSpec }.

(** A [metav1.Duration] in nanoseconds. *)
Record UpdatePolicySpec := mkUpdatePolicySpec { ConvergenceTimeout : option Z }.

Record OTLPSpec := mkOTLPSpec { otlp_Endpoint : string; otlp_Protocol : string }.

Record SignalSpec := mkSignalSpec {
  sig_Exporter : string; sig_Endpoint : string; sig_Protocol : string;
}.

Record MetricsSpec := mkMetricsSpec {
  met_Exporter : string; met_Endpoint : string; met_Protocol : string;
}.

Record ObservabilitySpec := mkObservabilitySpec {
  OTLP : OTLPSpec;
  Traces : SignalSpec;
  Logs : SignalSpec;
  Metrics : MetricsSpec;
  LogLevel : string;
  PodMonitor : bool;
  Pprof : option bool;
  ResourceAttributes : gmap string string;
}.

Record PodTemplate := mkPodTemplate {
  pt_Resources : RawJSON;
  pt_NodeSelector : gmap string string;
  pt_Tolerations : list RawJSON;
  pt_PriorityClassName : string;
  pt_Annotations : gmap string string;
  pt_Labels : gmap string string;
  pt_ExtraEnv : list EnvVar;
}.

Record FSClusterSpec := mkFSClusterSpec {
  Image : ImageSpec;
  Topology : TopologySpec;
  Storage : StorageSpec;
  spec_Layout : LayoutSpec;
  ClusterSecretRef : option string;
  Auth : AuthSpec;
  S3 : S3Spec;
  UpdatePolicy : UpdatePolicySpec;
  Observability : ObservabilitySpec;
  spec_NetworkPolicy : bool;
  spec_PodTemplate : PodTemplate;
}.

Record LayoutStatus := mkLayoutStatus {
  ls_Version : Z;
  ls_Members : Z;
  ls_Widths : list Z;
  ls_RetainedVersions : list Z;
}.

Definition UpdatePhase : Type := string.
Definition UpdatePhasePreflight : UpdatePhase := "Preflight".
Definition UpdatePhaseRollingNodes : UpdatePhase := "RollingNodes".
Definition UpdatePhaseDraining : UpdatePhase := "Draining".

(** [StartedAt] is a time in nanoseconds. *)
Record UpdateStatus := mkUpdateStatus {
  Phase : UpdatePhase;
  upd_Node : string;
  StartedAt : option Z;
}.

Record EndpointsStatus := mkEndpointsStatus { ep_S3 : string }.

Record FSClusterStatus := mkFSClusterStatus {
  st_ObservedGeneration : Z;
  st_Nodes : Z;
  st_ReadyNodes : Z;
  st_UpNodes : Z;
  st_ConfigurationRevision : string;
  st_StatefulSetRevision : string;
  st_CurrentRevision : string;
  st_UpdateRevision : string;
  st_Layout : option LayoutStatus;
  st_Update : option UpdateStatus;
  st_Endpoints : option EndpointsStatus;
  st_Conditions : list Condition;
}.

(** The parts of [metav1.ObjectMeta] the controllers read; a deletion timestamp
    is only ever tested for being set. *)
Record FSCluster := mkFSCluster {
  fsc_Name : string;
  fsc_Namespace : string;
  fsc_Generation : Z;
  fsc_Deleting : bool;
  fsc_Spec : FSClusterSpec;
  fsc_Status : FSClusterStatus;
}.

(** ** FSBucket and FSAccessKey *)

Record ClusterReference := mkClusterReference { ref_Name : string }.

Record FSBucketSpec := mkFSBucketSpec {
  bs_ClusterRef : ClusterReference;
  BucketName : string;
  bs_Scheme : string;
  bs_ReclaimPolicy : ReclaimPolicy;
}.

Record FSBucketStatus := mkFSBucketStatus {
  bst_ObservedGeneration : Z;
  bst_Scheme : string;
  bst_Conditions : list Condition;
}.

Record FSBucket := mkFSBucket {
  bkt_Name : string;
  bkt_Namespace : string;
  bkt_Generation : Z;
  bkt_Deleting : bool;
  bkt_Finalizers : list string;
  bkt_Spec : FSBucketSpec;
  bkt_Status : FSBucketStatus;
}.

Record GrantSpec := mkGrantSpec { grant_Bucket : string; grant_Permission : string }.

Record FSAccessKeySpec := mkFSAccessKeySpec {
  ks_ClusterRef : ClusterReference;
  ks_SecretName : string;
  ExistingSecretRef : option string;
  Grants : list GrantSpec;
}.

Record FSAccessKeyStatus := mkFSAccessKeyStatus {
  kst_ObservedGeneration : Z;
  kst_AccessKey : string;
  kst_Conditions : list Condition;
}.

Record FSAccessKey := mkFSAccessKey {
  ak_Name : string;
  ak_Namespace : string;
  ak_Generation : Z;
  ak_Deleting : bool;
  ak_Finalizers : list string;
  ak_Annotations : gmap string string;
  ak_Spec : FSAccessKeySpec;
  ak_Status : FSAccessKeyStatus;
}.

(** ** Conditions and reasons *)

Definition ConditionSpecValid : string := "SpecValid".
Definition ConditionReconcileSucceeded : string := "ReconcileSucceeded".
Definition ConditionReady : string := "Ready".
Definition ReasonSpecValid : string := "SpecValid".
Definition ReasonSpecInvalid : string := "SpecInvalid".
Definition ReasonReconcileFinished : string := "ReconcileFinished".
Definition ReasonReconcileError : string := "ReconcileError".
Definition ConditionNodesHealthy : string := "NodesHealthy".
Definition ConditionClusterSizeAligned : string := "ClusterSizeAligned".
Definition ConditionConfigurationInSync : string := "ConfigurationInSync".
Definition ConditionConverged : string := "Converged".
Definition ReasonLayoutTopologyMismatch : string := "LayoutTopologyMismatch".
Definition ReasonUnsupportedTopology : string := "UnsupportedTopology".
Definition ReasonStorageShrinkForbidden : string := "StorageShrinkForbidden".
Definition ReasonStorageExpanding : string := "StorageExpanding".
Definition ReasonAllNodesReady : string := "AllNodesReady".
Definition ReasonNodesNotReady : string := "NodesNotReady".
Definition ReasonQuorumAvailable : string := "QuorumAvailable".
Definition ReasonQuorumUnavailable : string := "QuorumUnavailable".
Definition ReasonUpToDate : string := "UpToDate".
Definition ReasonScalingUp : string := "ScalingUp".
Definition ReasonDraining : string := "Draining".
Definition ReasonRollingNodes : string := "RollingNodes".
Definition ReasonConfigReloadPending : string := "ConfigReloadPending".
Definition ReasonConverged : string := "Converged".
Definition ReasonConvergenceTimeout : string := "ConvergenceTimeout".
Definition ReasonLayoutPending : string := "LayoutPending".
Definition ReasonLayoutRejected : string := "LayoutRejected".
Definition ReasonLayoutTransition : string := "LayoutTransition".
Definition ReasonBucketReady : string := "BucketReady".
Definition ReasonBucketNotEmpty : string := "BucketNotEmpty".
Definition ReasonClusterNotFound : string := "ClusterNotFound".
Definition ReasonClusterNotReady : string := "ClusterNotReady".
Definition ReasonSchemeRejected : string := "SchemeRejected".
Definition ReasonBucketError : string := "BucketError".
Definition ReasonKeyAccepted : string := "KeyAccepted".
Definition ReasonWeakSecretKey : string := "WeakSecretKey".
Definition ReasonSecretNotFound : string := "SecretNotFound".
Definition ReasonSecretInvalid : string := "SecretInvalid".
