(* ===== verification/Defaults.v ===== *)
(** * Defaults and the topology arithmetic (src/api/v1alpha1/defaults.go)

    [WithDefaults], the registry rewriting, node names, and what the spec says
    about the cluster's size and failure domains.  Every other component reads
    the spec through these. *)

From S2P Require Import Prelude.
From S2P Require Import ApiTypes.

(** ** Static defaults *)

Definition DefaultImageRepository : string := "ghcr.io/go-faster/fs".
Definition DefaultImageTag : string := "v0.15.0".
Definition DefaultLayoutWidth : Z := 3.
Definition DefaultS3Port : Z := 8080.
Definition DefaultConvergenceTimeout : Z := 30 * 60 * 1000000000.
Definition DefaultLogLevel : string := "info".
Definition SDKDefaultOTLPProtocol : string := "grpc".
Definition ExporterOTLP : string := "otlp".
Definition ExporterPrometheus : string := "prometheus".
Definition ExporterNone : string := "none".
Definition PullIfNotPresent : string := "IfNotPresent".
Definition ServiceTypeClusterIP : string := "ClusterIP".

(** [if s == "" { s = d }] *)
Definition or_default (s d : string) : string := if bool_decide (s = "") then d else s.

(** ** ApplyRegistry *)

Definition ApplyRegistry (repository registry : string) : string :=
  if bool_decide (registry = "") || bool_decide (repository = "") then repository
  else
    let registry := strings_TrimSuffix registry "/" in
    match strings_Cut repository "/" with
    | Some (host, rest) =>
        if strings_ContainsAny host ".:" then registry +:+ "/" +:+ rest
        else registry +:+ "/" +:+ repository
    | None => registry +:+ "/" +:+ repository
    end.

(** ** WithDefaults *)

Definition withSignalDefaults (o : ObservabilitySpec) : ObservabilitySpec :=
  let traces := Traces o in
  let traces :=
    if bool_decide (sig_Exporter traces = "") then
      let exporter :=
        if bool_decide (sig_Endpoint traces ≠ "") || bool_decide (otlp_Endpoint (OTLP o) ≠ "")
        then ExporterOTLP else ExporterNone in
      mkSignalSpec exporter (sig_Endpoint traces) (sig_Protocol traces)
    else traces in
  let logs := Logs o in
  let logs := mkSignalSpec (or_default (sig_Exporter logs) ExporterNone)
                (sig_Endpoint logs) (sig_Protocol logs) in
  let metrics := Metrics o in
  let metrics := mkMetricsSpec (or_default (met_Exporter metrics) ExporterPrometheus)
                   (met_Endpoint metrics) (met_Protocol metrics) in
  mkObservabilitySpec (OTLP o) traces logs metrics (LogLevel o) (PodMonitor o) (Pprof o)
    (ResourceAttributes o).

Definition WithDefaults (s : FSClusterSpec) : FSClusterSpec :=
  let image := Image s in
  let image := mkImageSpec
    (or_default (Repository image) DefaultImageRepository)
    (or_default (Tag image) DefaultImageTag)
    (Digest image)
    (or_default (PullPolicy image) PullIfNotPresent)
    (PullSecrets image) in
  let layout :=
    match spec_Widths (spec_Layout s) with
    | [] => mkLayoutSpec [DefaultLayoutWidth]
    | _ => spec_Layout s
    end in
  let topology := mkTopologySpec (topo_Nodes (Topology s)) (Racks (Topology s))
    (or_default (PodAntiAffinity (Topology s)) AntiAffinityRequired) in
  let storage := mkStorageSpec (Size (Storage s)) (StorageClass (Storage s))
    (or_default (storage_ReclaimPolicy (Storage s)) ReclaimRetain) in
  let service := Service (S3 s) in
  let service := mkS3ServiceSpec
    (or_default (svc_Type service) ServiceTypeClusterIP)
    (if bool_decide (svc_Port service = 0%Z) then DefaultS3Port else svc_Port service)
    (svc_Annotations service) in
  let policy := mkUpdatePolicySpec
    (match ConvergenceTimeout (UpdatePolicy s) with
     | None => Some DefaultConvergenceTimeout
     | Some d => Some d
     end) in
  let obs := Observability s in
  let obs := mkObservabilitySpec (OTLP obs) (Traces obs) (Logs obs) (Metrics obs)
    (or_default (LogLevel obs) DefaultLogLevel) (PodMonitor obs)
    (match Pprof obs with None => Some true | Some b => Some b end)
    (ResourceAttributes obs) in
  mkFSClusterSpec image topology storage layout (ClusterSecretRef s) (Auth s)
    (mkS3Spec service (TLS (S3 s))) policy (withSignalDefaults obs)
    (spec_NetworkPolicy s) (spec_PodTemplate s).

(** ** Node names *)

Definition NodeName (cluster rack : string) (index : nat) : string :=
  if bool_decide (rack = "") then cluster +:+ "-" +:+ pretty index
  else cluster +:+ "-" +:+ rack +:+ "-" +:+ pretty index.

(** [for i := range int(n)]: nothing for a count that is not positive. *)
Definition range_int (n : Z) : list nat := seq 0 (Z.to_nat n).

Definition NodeNames (s : FSClusterSpec) (cluster : string) : list string :=
  match topo_Nodes (Topology s) with
  | Some n => NodeName cluster "" <$> range_int n
  | None =>
      rack ← Racks (Topology s);
      NodeName cluster (rack_Name rack) <$> range_int (rack_Nodes rack)
  end.

(** ** The size of the topology *)

Definition TotalNodes (s : FSClusterSpec) : Z :=
  match topo_Nodes (Topology s) with
  | Some n => n
  | None => foldl (λ total rack, wrap32 (total + rack_Nodes rack)) 0%Z (Racks (Topology s))
  end.

Definition SingleNode (s : FSClusterSpec) : bool := bool_decide (TotalNodes s = 1%Z).

(** The loop of [FailureDomains]: [None] is the early return on a rack with no
    zone. *)
Fixpoint zone_set (racks : list RackSpec) (zones : gset string) : option (gset string) :=
  match racks with
  | [] => Some zones
  | rack :: racks' =>
      if bool_decide (rack_Zone rack = "") then None
      else zone_set racks' ({[ rack_Zone rack ]} ∪ zones)
  end.

Definition FailureDomains (s : FSClusterSpec) : Z :=
  match topo_Nodes (Topology s) with
  | Some n => n
  | None =>
      let racks := Racks (Topology s) in
      match zone_set racks ∅ with
      | None => wrap32 (Z.of_nat (length racks))
      | Some zones =>
          if (1 <? size zones)%nat then wrap32 (Z.of_nat (size zones)) else wrap32 (Z.of_nat (length racks))
      end
  end.

(** [slices.Max] of a non-empty slice. *)
Definition slices_Max (x : Z) (l : list Z) : Z := foldl Z.max x l.

Definition MaxWidth (s : FSClusterSpec) : Z :=
  match spec_Widths (spec_Layout s) with
  | [] => DefaultLayoutWidth
  | w :: ws => slices_Max w ws
  end.

(** ** The schema

    What the CRD's validation markers admit of a topology: exactly one of
    [nodes] and [racks], each within its bounds, rack names distinct (the list
    is a map keyed by name) and not empty (they match a DNS-label pattern). *)

Definition rack_admitted (r : RackSpec) : bool :=
  bool_decide (rack_Name r ≠ "") && (1 <=? rack_Nodes r)%Z && (rack_Nodes r <=? 16)%Z.

Definition topology_admitted (t : TopologySpec) : bool :=
  match topo_Nodes t with
  | Some n =>
      match Racks t with [] => true | _ => false end && (1 <=? n)%Z && (n <=? 16)%Z && negb (bool_decide (n = 2%Z))
  | None =>
      (1 <=? length (Racks t))%nat && (length (Racks t) <=? 16)%nat
      && bool_decide (NoDup (rack_Name <$> Racks t)) && forallb rack_admitted (Racks t)
  end.

(** ** FSBucket and FSAccessKey *)

Definition bucket_WithDefaults (s : FSBucketSpec) (name : string) : FSBucketSpec :=
  mkFSBucketSpec (bs_ClusterRef s) (or_default (BucketName s) name) (bs_Scheme s)
    (or_default (bs_ReclaimPolicy s) ReclaimRetain).

Definition CredentialsSecretName (s : FSAccessKeySpec) (name : string) : string :=
  match ExistingSecretRef s with
  | Some _ => ""
  | None =>
      if bool_decide (ks_SecretName s ≠ "") then ks_SecretName s
      else name +:+ "-credentials"
  end.

(** * Theorems *)

Lemma or_default_idemp s d : or_default (or_default s d) d = or_default s d.
Proof. unfold or_default. repeat case_bool_decide; naive_solver. Qed.

Lemma or_default_ne s d : d ≠ "" → or_default s d ≠ "".
Proof. unfold or_default. by case_bool_decide. Qed.

Lemma withSignalDefaults_idemp o : withSignalDefaults (withSignalDefaults o) = withSignalDefaults o.
Proof.
  destruct o as [ot [te ten tp] [le len lp] [me men mp] ll pm pp ra].
  unfold withSignalDefaults; simpl. rewrite !or_default_idemp.
  repeat (case_bool_decide || case_match); simplify_eq/=; done.
Qed.

(** Defaulting is idempotent: the webhook validates a defaulted copy, the
    controller defaults again, and both see the same spec. *)
Lemma WithDefaults_idemp s : WithDefaults (WithDefaults s) = WithDefaults s.
Proof.
  unfold WithDefaults; simpl. rewrite !or_default_idemp.
  f_equal.
  - by destruct (spec_Widths (spec_Layout s)) eqn:E; simpl; rewrite ?E.
  - do 2 f_equal. unfold DefaultS3Port. repeat case_bool_decide; naive_solver.
  - by destruct (ConvergenceTimeout _).
  - destruct (Observability s) as [ot [te ten tp] [le len lp] [me men mp] ll pm [pp|] ra];
      unfold withSignalDefaults; simpl; rewrite !or_default_idemp;
      repeat (case_bool_decide || case_match); by simplify_eq/=.
Qed.

(** Defaulting does not move a node: topology, size and widths as declared. *)
Lemma WithDefaults_topology s :
  topo_Nodes (Topology (WithDefaults s)) = topo_Nodes (Topology s) ∧
  Racks (Topology (WithDefaults s)) = Racks (Topology s).
Proof. done. Qed.

(** Defaulting is idempotent, leaves topology and volume size as declared,
    and leaves nothing the builders read unset: an image reference, a layout
    width, a Service port, a convergence timeout, an exporter per signal. *)
Theorem WithDefaults_complete (s : FSClusterSpec) :
  let d := WithDefaults s in
  WithDefaults d = d ∧
  topo_Nodes (Topology d) = topo_Nodes (Topology s) ∧ Racks (Topology d) = Racks (Topology s) ∧
  Size (Storage d) = Size (Storage s) ∧
  Repository (Image d) ≠ "" ∧ Tag (Image d) ≠ "" ∧ spec_Widths (spec_Layout d) ≠ [] ∧
  svc_Port (Service (S3 d)) ≠ 0%Z ∧ is_Some (ConvergenceTimeout (UpdatePolicy d)) ∧
  is_Some (Pprof (Observability d)) ∧
  sig_Exporter (Traces (Observability d)) ≠ "" ∧ sig_Exporter (Logs (Observability d)) ≠ "" ∧
  met_Exporter (Metrics (Observability d)) ≠ "".
Proof.
  cbv zeta. split; [apply WithDefaults_idemp|]. unfold WithDefaults, withSignalDefaults; simpl.
  split_and!; try done; try (by apply or_default_ne).
  - by destruct (spec_Widths (spec_Layout s)) eqn:E; simpl; rewrite ?E.
  - by case_bool_decide.
  - by destruct (ConvergenceTimeout _); eexists.
  - by destruct (Pprof _); eexists.
  - by repeat (case_bool_decide || case_match || simpl).
Qed.

(** *** Node names *)

Lemma NodeName_rack_eq cluster rack index :
  rack ≠ "" → NodeName cluster rack index = (cluster +:+ "-" +:+ rack) +:+ "-" +:+ pretty index.
Proof. intros. unfold NodeName. rewrite bool_decide_false by done. by rewrite !str_app_assoc. Qed.

Lemma NodeName_flat_inj cluster (i j : nat) : NodeName cluster "" i = NodeName cluster "" j → i = j.
Proof.
  unfold NodeName. rewrite bool_decide_true by done. intros Heq.
  do 2 apply (inj (String.append _)) in Heq. by apply (inj pretty).
Qed.

(** Within one cluster a node name determines its rack and its index: the
    index is what follows the last dash. *)
Lemma NodeName_inj cluster r1 r2 (i j : nat) :
  r1 ≠ "" → r2 ≠ "" → NodeName cluster r1 i = NodeName cluster r2 j → r1 = r2 ∧ i = j.
Proof.
  intros H1 H2. rewrite !NodeName_rack_eq by done. intros Heq.
  apply (str_split_last "-") in Heq as [Heq Hij]; [|apply pretty_nat_no_dash..].
  split; [|by apply (inj pretty)]. by do 2 apply (inj (String.append _)) in Heq.
Qed.

Lemma elem_of_range_int n i : i ∈ range_int n ↔ i < Z.to_nat n.
Proof. unfold range_int. rewrite elem_of_seq. lia. Qed.

Lemma length_range_int n : (0 <= n)%Z → Z.of_nat (length (range_int n)) = n.
Proof. intros. unfold range_int. rewrite length_seq. lia. Qed.

Lemma rack_names_NoDup cluster racks :
  NoDup (rack_Name <$> racks) → Forall (λ r, rack_Name r ≠ "") racks →
  NoDup (r ← racks; NodeName cluster (rack_Name r) <$> range_int (rack_Nodes r)).
Proof.
  induction racks as [|r racks IH]; intros Hnd Hne; [constructor|].
  rewrite fmap_cons in Hnd. apply NoDup_cons in Hnd as [Hr Hnd].
  apply Forall_cons in Hne as [Hre Hne]. rewrite bind_cons.
  apply NoDup_app. split; [|split; [|by apply IH]].
  - apply NoDup_fmap_2_strong; [|apply NoDup_seq].
    intros i j _ _ Heq. by apply NodeName_inj in Heq as [_ ?].
  - intros x Hx Hx'. apply list_elem_of_fmap in Hx as (i & -> & _).
    apply list_elem_of_bind in Hx' as (r' & Hx' & Hr').
    apply list_elem_of_fmap in Hx' as (j & Heq & _).
    apply NodeName_inj in Heq as [Heq _]; [|done|by eapply Forall_forall in Hne].
    destruct Hr. rewrite Heq. apply list_elem_of_fmap. eauto.
Qed.

Lemma rack_admitted_spec r :
  rack_admitted r = true ↔ rack_Name r ≠ "" ∧ (1 <= rack_Nodes r <= 16)%Z.
Proof. unfold rack_admitted. rewrite !andb_true_iff, bool_decide_eq_true, !Z.leb_le. tauto. Qed.

Lemma topology_admitted_racks t :
  topology_admitted t = true → topo_Nodes t = None →
  (1 <= length (Racks t) <= 16) ∧ NoDup (rack_Name <$> Racks t) ∧
  Forall (λ r, rack_Name r ≠ "" ∧ (1 <= rack_Nodes r <= 16)%Z) (Racks t).
Proof.
  unfold topology_admitted. intros H Hn. rewrite Hn in H.
  rewrite !andb_true_iff, bool_decide_eq_true, forallb_forall, !Nat.leb_le in H.
  destruct H as [[[H1 H2] H3] H4]. split; [lia|]. split; [done|].
  apply Forall_forall. intros r Hr. apply rack_admitted_spec, H4. by apply list_elem_of_In.
Qed.

Lemma topology_admitted_flat t n :
  topology_admitted t = true → topo_Nodes t = Some n → Racks t = [] ∧ (1 <= n <= 16)%Z ∧ n ≠ 2%Z.
Proof.
  unfold topology_admitted. intros H Hn. rewrite Hn in H.
  rewrite !andb_true_iff, negb_true_iff, bool_decide_eq_false in H.
  destruct (Racks t); naive_solver lia.
Qed.

(** The wrapping sum of [TotalNodes] is the plain sum for racks in bounds. *)
Lemma total_racks_sum racks (acc : Z) :
  Forall (λ r, (0 <= rack_Nodes r <= 16)%Z) racks →
  (0 <= acc)%Z → (acc + 16 * Z.of_nat (length racks) < 2 ^ 31)%Z →
  foldl (λ total rack, wrap32 (total + rack_Nodes rack)) acc racks
    = (acc + foldr (λ r z, rack_Nodes r + z) 0 racks)%Z.
Proof.
  revert acc. induction racks as [|r racks IH]; intros acc Hr Hacc Hb; simpl; [lia|].
  apply Forall_cons in Hr as [Hr Hrs]. simpl in Hb.
  rewrite wrap32_id by (unfold in_int32; lia). rewrite IH; [lia|done|lia|lia].
Qed.

Lemma rack_names_length cluster racks :
  Forall (λ r, (0 <= rack_Nodes r)%Z) racks →
  Z.of_nat (length (r ← racks; NodeName cluster (rack_Name r) <$> range_int (rack_Nodes r)))
    = foldr (λ r z, (rack_Nodes r + z)%Z) 0%Z racks.
Proof.
  induction racks as [|r racks IH]; intros Hr; [done|].
  apply Forall_cons in Hr as [Hr Hrs]. rewrite bind_cons, length_app, length_fmap. simpl.
  rewrite Nat2Z.inj_add, length_range_int by done. by rewrite <- IH.
Qed.

Lemma TotalNodes_racks s :
  topology_admitted (Topology s) = true → topo_Nodes (Topology s) = None →
  TotalNodes s = foldr (λ r z, (rack_Nodes r + z)%Z) 0%Z (Racks (Topology s)).
Proof.
  intros Ha Hn. unfold TotalNodes. rewrite Hn.
  destruct (topology_admitted_racks _ Ha Hn) as (Hl & _ & Hf).
  rewrite total_racks_sum; [lia| |lia|lia]. eapply Forall_impl; [exact Hf|]. simpl. lia.
Qed.

(** The expansion has exactly as many names as the topology declares. *)
Lemma NodeNames_length s cluster :
  topology_admitted (Topology s) = true →
  Z.of_nat (length (NodeNames s cluster)) = TotalNodes s.
Proof.
  intros Ha. unfold NodeNames. destruct (topo_Nodes (Topology s)) as [n|] eqn:Hn.
  - unfold TotalNodes. rewrite Hn, length_fmap.
    destruct (topology_admitted_flat _ _ Ha Hn) as (_ & ? & _). apply length_range_int. lia.
  - rewrite (TotalNodes_racks _ Ha Hn). apply rack_names_length.
    destruct (topology_admitted_racks _ Ha Hn) as (_ & _ & Hf).
    eapply Forall_impl; [exact Hf|]. simpl. lia.
Qed.

(** No two nodes of a cluster share a name, so no two share a StatefulSet, a
    config Secret or a layout member. *)
Lemma NodeNames_NoDup s cluster :
  topology_admitted (Topology s) = true → NoDup (NodeNames s cluster).
Proof.
  intros Ha. unfold NodeNames. destruct (topo_Nodes (Topology s)) as [n|] eqn:Hn.
  - apply NoDup_fmap_2_strong; [|apply NoDup_seq]. intros i j _ _. apply NodeName_flat_inj.
  - destruct (topology_admitted_racks _ Ha Hn) as (_ & Hnd & Hf).
    apply rack_names_NoDup; [done|]. eapply Forall_impl; [exact Hf|]. naive_solver.
Qed.

(** The names of two clusters can meet: a rack of one and the name of another
    spell the same node. *)
Lemma NodeName_collides_across_clusters cluster rack (i : nat) :
  rack ≠ "" → NodeName cluster rack i = NodeName (cluster +:+ "-" +:+ rack) "" i.
Proof.
  intros Hr. rewrite NodeName_rack_eq by done. unfold NodeName.
  by rewrite bool_decide_true.
Qed.

(** *** Widths and failure domains *)

Lemma slices_Max_spec x l : slices_Max x l ∈ x :: l ∧ ∀ y, y ∈ x :: l → (y <= slices_Max x l)%Z.
Proof.
  unfold slices_Max. revert x. induction l as [|a l IH]; intros x; simpl.
  - split; [left|]. intros y [->|H]%elem_of_cons; [lia|]. by apply elem_of_nil in H.
  - destruct (IH (Z.max x a)) as [Hin Hub]. split.
    + apply elem_of_cons in Hin as [Heq|Hin]; [|by do 2 right].
      destruct (Z.max_spec x a) as [[_ E]|[_ E]]; rewrite E in Heq |- *; rewrite Heq;
        [right; left|left].
    + intros y Hy.
      assert (Hm : (Z.max x a <= foldl Z.max (Z.max x a) l)%Z) by (apply Hub; left).
      apply elem_of_cons in Hy as [->|[->|Hy]%elem_of_cons]; [lia|lia|].
      apply Hub. by right.
Qed.

Lemma MaxWidth_spec s :
  spec_Widths (spec_Layout s) ≠ [] →
  MaxWidth s ∈ spec_Widths (spec_Layout s) ∧
  ∀ w, w ∈ spec_Widths (spec_Layout s) → (w <= MaxWidth s)%Z.
Proof.
  unfold MaxWidth. destruct (spec_Widths (spec_Layout s)) as [|w ws]; [done|].
  intros _. apply slices_Max_spec.
Qed.

Lemma zone_set_spec racks zones :
  zone_set racks zones =
    if decide (Forall (λ r, rack_Zone r ≠ "") racks)
    then Some (list_to_set (rack_Zone <$> racks) ∪ zones) else None.
Proof.
  revert zones. induction racks as [|r racks IH]; intros zones; simpl.
  - f_equal. set_solver.
  - case_bool_decide as Hz.
    + rewrite decide_False; [done|]. intros Hf. apply Forall_cons in Hf. tauto.
    + rewrite IH. destruct (decide (Forall _ racks)) as [Hf|Hf].
      * rewrite decide_True by (constructor; done). f_equal. set_solver.
      * rewrite decide_False; [done|]. rewrite Forall_cons. tauto.
Qed.

Lemma size_zones_le racks :
  size (list_to_set (rack_Zone <$> racks) : gset string) ≤ length racks.
Proof. etrans; [apply size_list_to_set_le|]. by rewrite length_fmap. Qed.
