(* ===== verification/Pipeline.v ===== *)
(** * The reconcile pipeline (src/internal/controller/pipeline/pipeline.go)

    A pass is a list of steps over shared state.  A step that blocks or fails
    stops the pass: later steps are skipped unless they are always-run.  The
    first failure is returned, and the requeue delay is the earliest any step
    asked for.

    [Run] is the loop of the source.  Against it stands [executed], the steps
    a pass runs, defined from the outcomes alone; [Run_executed] says the loop
    runs exactly those. *)

From S2P Require Import Prelude.

(** ** Outcomes *)

Record Outcome := mkOutcome {
  Blocked : bool;
  out_Reason : string;
  out_RequeueAfter : Z;
}.

(** Go's zero value [Outcome{}]. *)
Definition no_outcome : Outcome := mkOutcome false "" 0.

Definition Continue : Outcome := no_outcome.
Definition RequeueAfter (after : Z) (reason : string) : Outcome := mkOutcome false reason after.
Definition Block (reason : string) : Outcome := mkOutcome true reason 0.

(** [soonest] treats a delay that is not positive as "no request". *)
Definition soonest (current next : Z) : Z :=
  if (next <=? 0)%Z then current
  else if (current <=? 0)%Z || (next <? current)%Z then next
  else current.

(** ** Steps and the loop *)

Section pipeline.
Context {T : Type}.

(** [Run] of a step returns both an outcome and an error. *)
Record Step := mkStep {
  step_Name : string;
  AlwaysRun : bool;
  step_Run : T → (Outcome * option error) * T;
}.

(** [RecordFailure] of a state that implements [FailureRecorder]. *)
Context (RecordFailure : error → T → T).

(** The loop variables of [Run]. *)
Record loop := mkLoop {
  lp_requeue : Z;
  lp_stopped : bool;
  lp_failure : option error;
  lp_state : T;
}.

Definition stop_of (out : Outcome) (err : option error) : bool :=
  match err with Some _ => true | None => Blocked out end.

(** One iteration of the loop. *)
Definition run_step (step : Step) (l : loop) : loop :=
  if lp_stopped l && negb (AlwaysRun step) then l
  else
    let '(outcome, err, state) := step_Run step (lp_state l) in
    let '(failure, state) :=
      match err, lp_failure l with
      | Some e, None => (Some e, RecordFailure e state)
      | _, f => (f, state)
      end in
    mkLoop (soonest (lp_requeue l) (out_RequeueAfter outcome))
           (lp_stopped l || stop_of outcome err) failure state.

Definition run_loop (steps : list Step) (l : loop) : loop := foldl (λ l s, run_step s l) l steps.

(** [Pipeline.Run]: the requeue delay, or the first failure, and the state. *)
Definition Run (steps : list Step) (state : T) : result Z * T :=
  let l := run_loop steps (mkLoop 0 false None state) in
  match lp_failure l with
  | Some e => (Err e, lp_state l)
  | None => (Ok (lp_requeue l), lp_state l)
  end.

(** ** What a pass executes

    The same pass seen as the list of steps that ran, each with what it
    reported. *)

Fixpoint executed (steps : list Step) (stopped failed : bool) (s : T)
    : list (Step * Outcome * option error) * T :=
  match steps with
  | [] => ([], s)
  | step :: rest =>
      if stopped && negb (AlwaysRun step) then executed rest stopped failed s
      else
        let '(out, err, s') := step_Run step s in
        let s' := match err with
                  | Some e => if failed then s' else RecordFailure e s'
                  | None => s' end in
        let '(l, s'') := executed rest (stopped || stop_of out err)
                           (failed || match err with Some _ => true | None => false end) s' in
        ((step, out, err) :: l, s'')
  end.

Definition first_failure (l : list (Step * Outcome * option error)) : option error :=
  foldr (λ x acc, match x.2 with Some e => Some e | None => acc end) None l.

Definition delays (l : list (Step * Outcome * option error)) : list Z :=
  (λ x, out_RequeueAfter x.1.2) <$> l.

(** * Theorems *)

Lemma run_loop_executed steps l :
  let r := executed steps (lp_stopped l) (bool_decide (is_Some (lp_failure l))) (lp_state l) in
  lp_state (run_loop steps l) = r.2 ∧
  lp_failure (run_loop steps l) =
    match lp_failure l with Some e => Some e | None => first_failure r.1 end ∧
  lp_requeue (run_loop steps l) = foldl soonest (lp_requeue l) (delays r.1).
Proof.
  revert l. induction steps as [|step steps IH]; intros [q st f s]; simpl; [by destruct f|].
  unfold run_step; simpl. destruct (st && negb (AlwaysRun step)) eqn:Hskip; [apply IH|].
  destruct (step_Run step s) as [[out err] s'] eqn:Hrun.
  destruct err as [e|], f as [e'|]; simpl; rewrite ?orb_true_r, ?orb_false_r;
    destruct (executed steps _ _ _) as [l s''] eqn:Hex;
    match goal with |- context [run_loop steps ?l'] => specialize (IH l') end;
    simpl in IH; rewrite Hex in IH; simpl in *; intuition.
Qed.

(** [soonest] folded over the delays is the least positive one, zero when no
    step asked. *)
Lemma foldl_soonest (q : Z) (l : list Z) :
  (0 <= q)%Z →
  let r := foldl soonest q l in
  (r = 0 ↔ q = 0 ∧ Forall (λ d, (d <= 0)%Z) l)%Z ∧
  (0 <= r)%Z ∧
  (0 < r → (r = q ∨ r ∈ l) ∧ (0 < q → r <= q) ∧ Forall (λ d, 0 < d → r <= d) l)%Z.
Proof.
  revert q. induction l as [|d l IH]; intros q Hq; simpl.
  - split; [|split; [done|]]; [naive_solver|]. intros. split; [by left|]. split; [lia|constructor].
  - assert (Hs : (0 <= soonest q d)%Z)
      by (unfold soonest; repeat case_match; rewrite ?Z.leb_gt, ?Z.leb_le in *; lia).
    specialize (IH _ Hs). destruct IH as (H0 & H1 & H2).
    rewrite !Forall_cons.
    assert (Hcases : ((d <= 0 ∧ soonest q d = q) ∨
                     (0 < d ∧ (q = 0 ∨ d < q) ∧ soonest q d = d) ∨
                     (0 < d ∧ 0 < q ∧ q <= d ∧ soonest q d = q))%Z).
    { unfold soonest. destruct (Z.leb_spec d 0); [lia|]. destruct (Z.leb_spec q 0); simpl; [lia|].
      destruct (Z.ltb_spec d q); lia. }
    split; [|split; [done|]].
    + rewrite H0. destruct Hcases as [[? ->]|[(? & ? & ->)|(? & ? & ? & ->)]]; intuition lia.
    + intros Hr. specialize (H2 Hr) as (Ha & Hb & Hc). rewrite elem_of_cons.
      destruct Hcases as [[? Heq]|[(? & ? & Heq)|(? & ? & ? & Heq)]]; rewrite Heq in *;
        (split; [intuition congruence|]; split; [intuition lia|]; split; [intuition lia|done]).
Qed.

(** The steps that ran, in order: never a step that is not always-run after
    one that stopped the pass. *)
Lemma executed_prefix steps stopped failed s :
  let l := (executed steps stopped failed s).1 in
  ∀ l1 x l2, l = l1 ++ x :: l2 →
  AlwaysRun x.1.1 = false →
  stopped = false ∧ Forall (λ y, stop_of y.1.2 y.2 = false) l1.
Proof.
  revert stopped failed s. induction steps as [|step steps IH]; intros stopped failed s; simpl.
  - intros [|??] ?? Heq; discriminate Heq.
  - destruct (stopped && negb (AlwaysRun step)) eqn:Hskip; [apply IH|].
    destruct (step_Run step s) as [[out err] s'] eqn:Hrun.
    match goal with |- context [executed steps ?a ?b ?c] =>
      specialize (IH a b c); destruct (executed steps a b c) as [l s''] end.
    simpl in *. intros [|y l1] x l2 Heq Hx; simplify_eq/=.
    + rewrite Hx in Hskip. simpl in Hskip. rewrite andb_true_r in Hskip. by split; [|constructor].
    + destruct (IH _ _ _ eq_refl Hx) as [Hst Hl1]. apply orb_false_iff in Hst as [-> Hout].
      split; [done|]. by constructor.
Qed.

(** Every always-run step runs, whatever happened before it. *)
Lemma executed_always steps stopped failed s step :
  step ∈ steps → AlwaysRun step = true →
  ∃ out err, (step, out, err) ∈ (executed steps stopped failed s).1.
Proof.
  revert stopped failed s. induction steps as [|st steps IH]; intros stopped failed s Hin Ha; simpl;
    [by apply elem_of_nil in Hin|].
  destruct (stopped && negb (AlwaysRun st)) eqn:Hskip.
  - apply elem_of_cons in Hin as [->|Hin]; [|by apply IH].
    rewrite Ha in Hskip. by rewrite andb_false_r in Hskip.
  - destruct (step_Run st s) as [[out err] s'] eqn:Hrun.
    match goal with |- context [executed steps ?a ?b ?c] =>
      specialize (IH a b c); destruct (executed steps a b c) as [l s''] end.
    apply elem_of_cons in Hin as [->|Hin]; simpl.
    + exists out, err. by left.
    + destruct (IH Hin Ha) as (o & e & ?). exists o, e. by right.
Qed.

(** ** Invariants of a pass

    An assertion may mention whether the pass has been stopped: after a step
    that did not stop it, everything the steps so far established holds. *)

Definition step_ok (I I' : bool → T → Prop) (step : Step) : Prop :=
  (∀ s, AlwaysRun step = false → I true s → I' true s) ∧
  (∀ b s out err s', b = false ∨ AlwaysRun step = true → I b s →
     step_Run step s = (out, err, s') → I' (b || stop_of out err) s').

Definition stable (I : bool → T → Prop) : Prop := ∀ b e s, I b s → I b (RecordFailure e s).

Lemma run_step_ok I I' step l :
  stable I' → step_ok I I' step → I (lp_stopped l) (lp_state l) →
  I' (lp_stopped (run_step step l)) (lp_state (run_step step l)).
Proof.
  intros Hst [Hskip Hrun] HI. unfold run_step.
  destruct (lp_stopped l) eqn:Hs, (AlwaysRun step) eqn:Ha; simpl;
    try (rewrite Hs; by apply Hskip);
    destruct (step_Run step (lp_state l)) as [[out err] s'] eqn:E;
    assert (I' (lp_stopped l || stop_of out err) s') as H'
      by (eapply Hrun; [rewrite Hs, ?Ha; auto|by rewrite Hs|done]);
    rewrite Hs in H'; simpl in H';
    destruct err, (lp_failure l); simpl; try apply Hst; exact H'.
Qed.

Lemma run_loop_cons step steps l : run_loop (step :: steps) l = run_loop steps (run_step step l).
Proof. done. Qed.

Lemma run_loop_app steps1 steps2 l : run_loop (steps1 ++ steps2) l = run_loop steps2 (run_loop steps1 l).
Proof. apply foldl_app. Qed.

Lemma Run_state steps s :
  (Run steps s).2 = lp_state (run_loop steps (mkLoop 0 false None s)).
Proof. unfold Run. by destruct (lp_failure _). Qed.

(** An always-run step at the end has the last word. *)
Lemma run_loop_last steps step l :
  AlwaysRun step = true →
  ∃ s, let s' := (step_Run step s).2 in
    lp_state (run_loop (steps ++ [step]) l) = s' ∨
    ∃ e, lp_state (run_loop (steps ++ [step]) l) = RecordFailure e s'.
Proof.
  intros Ha. rewrite run_loop_app. exists (lp_state (run_loop steps l)).
  simpl. unfold run_step. rewrite Ha, andb_false_r.
  destruct (step_Run step _) as [[out err] s']. destruct err as [e|], (lp_failure _); simpl; eauto.
Qed.

(** One invariant kept by every step of a segment. *)
Lemma run_loop_inv I steps l :
  stable I → Forall (step_ok I I) steps → I (lp_stopped l) (lp_state l) →
  I (lp_stopped (run_loop steps l)) (lp_state (run_loop steps l)).
Proof.
  intros Hst Hs. revert l. induction Hs as [|step steps Hok _ IH]; intros l HI; [done|].
  rewrite run_loop_cons. apply IH. by eapply run_step_ok.
Qed.
(** The delay answered is one a step gave, or the one the loop started with. *)
Lemma run_loop_delay (D : Z → Prop) steps l :
  Forall (λ step, ∀ s, D (out_RequeueAfter (step_Run step s).1.1)) steps →
  D (lp_requeue l) → D (lp_requeue (run_loop steps l)).
Proof.
  intros Hs. revert l. induction Hs as [|step steps Hstep _ IH]; intros l Hl; [done|].
  rewrite run_loop_cons. apply IH. unfold run_step.
  destruct (lp_stopped l && negb (AlwaysRun step)); [done|]. specialize (Hstep (lp_state l)).
  destruct (step_Run step (lp_state l)) as [[out err] s']. simpl in Hstep.
  assert (D (soonest (lp_requeue l) (out_RequeueAfter out))) by (unfold soonest; by repeat case_match).
  by destruct err, (lp_failure l).
Qed.

(** C28: [Run] answers with the first failure of the steps it executed, or
    else with the smallest positive delay any of them asked for (zero when none
    did), and leaves the state they leave. *)
Theorem Run_result (steps : list Step) (s : T) :
  let x := executed steps false false s in
  (Run steps s).2 = x.2 ∧
  match first_failure x.1 with
  | Some e => (Run steps s).1 = Err e
  | None => ∃ r, (Run steps s).1 = Ok r ∧ (r = 0 ↔ Forall (λ d, (d <= 0)%Z) (delays x.1))%Z ∧
              (0 <= r)%Z ∧ ((0 < r)%Z → r ∈ delays x.1 ∧ Forall (λ d, 0 < d → r <= d)%Z (delays x.1))
  end.
Proof.
  cbv zeta. pose proof (run_loop_executed steps (mkLoop 0 false None s)) as (Hs & Hf & Hq).
  simpl in Hs, Hf, Hq. change (bool_decide (is_Some None)) with false in *.
  unfold Run. rewrite Hf. destruct (first_failure _) as [e|]; simpl; [done|]. split; [done|].
  eexists. split; [done|]. rewrite Hq.
  destruct (foldl_soonest 0 (delays (executed steps false false s).1)) as (H1 & H2 & H3); [lia|].
  split; [rewrite H1; tauto|]. split; [done|]. intros Hpos. destruct (H3 Hpos) as (H4 & _ & H5).
  split; [|done]. destruct H4 as [H4|H4]; [|done]. lia.
Qed.

(** A step that is not always-run executes only if no step before it
    blocked or failed; an always-run step always executes. *)
Theorem Run_stops (steps : list Step) (s : T) :
  let l := (executed steps false false s).1 in
  (∀ l1 x l2, l = l1 ++ x :: l2 → AlwaysRun x.1.1 = false → Forall (λ y, stop_of y.1.2 y.2 = false) l1) ∧
  (∀ step, step ∈ steps → AlwaysRun step = true → ∃ out err, (step, out, err) ∈ l).
Proof.
  cbv zeta. split.
  - intros l1 x l2 Hl Ha. by apply (executed_prefix steps false false s l1 x l2) in Hl as [_ ?].
  - intros step Hin Ha. by apply executed_always.
Qed.
End pipeline.


Arguments Step : clear implicits.
