(* ===== verification/Nodes.v ===== *)
(** * Nodes, names and failure domains
      (src/internal/controller/fscluster/nodes.go, names.go, and [domainOf] of
      status.go)

    The topology expanded into the node set every step works from, the identity
    scheme, and the failure domain a node belongs to. *)

From S2P Require Import Prelude.
From S2P Require Import ApiTypes.
From S2P Require Import Defaults.

(** ** Ports (config.go) *)

Definition S3Port : Z := 8080.
Definition PeerPort : Z := 7080.
Definition AdminPort : Z := 8090.
Definition MetricsPort : Z := 9464.
Definition PprofPort : Z := 9010.

(** ** Names *)

Definition PeersServiceName (cluster : string) : string := cluster +:+ "-peers".
Definition ClientServiceName (cluster : string) : string := cluster.
Definition ConfigSecretName (node : string) : string := node +:+ "-config".
Definition ClusterSecretName (cluster : string) : string := cluster +:+ "-cluster-secret".
Definition AdminTokenSecretName (cluster : string) : string := cluster +:+ "-admin-token".
Definition RootCredentialsSecretName (cluster : string) : string := cluster +:+ "-root-credentials".
Definition PodName (node : string) : string := node +:+ "-0".

(** [PVCName] of storage.go *)
Definition PVCName (claim node : string) : string := claim +:+ "-" +:+ PodName node.

Definition AdvertiseAddr (cluster namespace node : string) : string :=
  PodName node +:+ "." +:+ PeersServiceName cluster +:+ "." +:+ namespace +:+ ".svc:"
    +:+ pretty PeerPort.

Definition AdminURL (cluster namespace node : string) : string :=
  "http://" +:+ PodName node +:+ "." +:+ PeersServiceName cluster +:+ "." +:+ namespace
    +:+ ".svc:" +:+ pretty AdminPort.

Definition S3Endpoint (cluster namespace : string) (port : Z) (tls : bool) : string :=
  (if tls then "https" else "http") +:+ "://" +:+ ClientServiceName cluster +:+ "." +:+ namespace
    +:+ ".svc:" +:+ pretty port.

(** ** Nodes *)

Record Node := mkNode {
  node_Name : string;
  node_Rack : string;
  node_Index : nat;
  node_Zone : string;
  node_NodeSelector : gmap string string;
}.

#[global] Instance Node_eq_dec : EqDecision Node.
Proof. solve_decision. Defined.

Definition Nodes (cluster : FSCluster) : list Node :=
  let spec := fsc_Spec cluster in
  match topo_Nodes (Topology spec) with
  | Some n => (λ i, mkNode (NodeName (fsc_Name cluster) "" i) "" i "" ∅) <$> range_int n
  | None =>
      rack ← Racks (Topology spec);
      (λ i, mkNode (NodeName (fsc_Name cluster) (rack_Name rack) i) (rack_Name rack) i
              (rack_Zone rack) (rack_NodeSelector rack)) <$> range_int (rack_Nodes rack)
  end.

(** ** Failure domains *)

Definition domainOf (spec : FSClusterSpec) (node : Node) : string :=
  if bool_decide (node_Rack node = "") then node_Name node
  else if bool_decide (node_Zone node ≠ "")
          && (FailureDomains spec <? wrap32 (Z.of_nat (length (Racks (Topology spec)))))%Z
  then "zone/" +:+ node_Zone node
  else node_Rack node.

(** * Theorems *)

(** The node set and the list of peer names are the same expansion. *)
Lemma Nodes_names cluster : node_Name <$> Nodes cluster = NodeNames (fsc_Spec cluster) (fsc_Name cluster).
Proof.
  unfold Nodes, NodeNames. destruct (topo_Nodes _) as [n|].
  - by rewrite <- list_fmap_compose.
  - induction (Racks _) as [|r racks IH]; [done|].
    rewrite !bind_cons, fmap_app, IH. f_equal. by rewrite <- list_fmap_compose.
Qed.

Lemma Nodes_NoDup cluster :
  topology_admitted (Topology (fsc_Spec cluster)) = true → NoDup (node_Name <$> Nodes cluster).
Proof. intros. rewrite Nodes_names. by apply NodeNames_NoDup. Qed.

Lemma Nodes_length cluster :
  topology_admitted (Topology (fsc_Spec cluster)) = true →
  Z.of_nat (length (Nodes cluster)) = TotalNodes (fsc_Spec cluster).
Proof.
  intros. rewrite <- (NodeNames_length _ (fsc_Name cluster)), <- Nodes_names by done.
  by rewrite length_fmap.
Qed.

Lemma elem_of_Nodes_racks cluster node :
  topo_Nodes (Topology (fsc_Spec cluster)) = None →
  node ∈ Nodes cluster ↔
    ∃ rack i, rack ∈ Racks (Topology (fsc_Spec cluster)) ∧ i < Z.to_nat (rack_Nodes rack) ∧
      node = mkNode (NodeName (fsc_Name cluster) (rack_Name rack) i) (rack_Name rack) i
               (rack_Zone rack) (rack_NodeSelector rack).
Proof.
  intros Hn. unfold Nodes. rewrite Hn, list_elem_of_bind. split.
  - intros (rack & Hin & Hr). apply list_elem_of_fmap in Hin as (i & -> & Hi).
    apply elem_of_range_int in Hi. eauto.
  - intros (rack & i & Hr & Hi & ->). exists rack. split; [|done].
    apply list_elem_of_fmap. exists i. by rewrite elem_of_range_int.
Qed.

(** The failure domain of a rack: its zone or its name, by what
    [FailureDomains] counts. *)
Definition rack_domain (spec : FSClusterSpec) (rack : RackSpec) : string :=
  if bool_decide (rack_Zone rack ≠ "")
     && (FailureDomains spec <? wrap32 (Z.of_nat (length (Racks (Topology spec)))))%Z
  then "zone/" +:+ rack_Zone rack else rack_Name rack.

Lemma domains_of_racks cluster :
  topology_admitted (Topology (fsc_Spec cluster)) = true →
  topo_Nodes (Topology (fsc_Spec cluster)) = None →
  (list_to_set (domainOf (fsc_Spec cluster) <$> Nodes cluster) : gset string)
  = list_to_set (rack_domain (fsc_Spec cluster) <$> Racks (Topology (fsc_Spec cluster))).
Proof.
  intros Ha Hn. apply set_eq. intros d. rewrite !elem_of_list_to_set, !list_elem_of_fmap.
  destruct (topology_admitted_racks _ Ha Hn) as (_ & _ & Hf). rewrite Forall_forall in Hf.
  split.
  - intros (node & -> & Hin). apply elem_of_Nodes_racks in Hin as (rack & i & Hr & Hi & ->); [|done].
    exists rack. split; [|done]. unfold domainOf, rack_domain; simpl.
    by rewrite (bool_decide_false _ (proj1 (Hf _ Hr))).
  - intros (rack & -> & Hr). destruct (Hf _ Hr) as [Hne Hb].
    eexists. rewrite elem_of_Nodes_racks by done. split; cycle 1.
    + exists rack, 0. split; [done|]. split; [lia|]. reflexivity.
    + unfold domainOf, rack_domain; simpl. by rewrite (bool_decide_false _ Hne).
Qed.

(** When [FailureDomains] counts racks, or zones, the racks' domains are as
    many. *)
Lemma size_rack_domains spec :
  topology_admitted (Topology spec) = true → topo_Nodes (Topology spec) = None →
  Z.of_nat (size (list_to_set (rack_domain spec <$> Racks (Topology spec)) : gset string))
  = FailureDomains spec.
Proof.
  intros Ha Hn. destruct (topology_admitted_racks _ Ha Hn) as (Hl & Hnd & _).
  unfold rack_domain, FailureDomains. rewrite Hn, zone_set_spec.
  set (racks := Racks (Topology spec)) in *.
  pose proof (size_zones_le racks) as Hle.
  assert (Hracks : ∀ b : RackSpec → bool,
    Z.of_nat (size (list_to_set ((λ r, if b r && false then "zone/" +:+ rack_Zone r else rack_Name r)
      <$> racks) : gset string)) = Z.of_nat (length racks)).
  { intros b. rewrite (list_fmap_ext _ rack_Name racks)
      by (intros; by rewrite andb_false_r).
    by rewrite size_list_to_set_NoDup, length_fmap. }
  rewrite (wrap32_id (Z.of_nat (length racks))) by (unfold in_int32; lia).
  case_decide as Hz; [|by rewrite Z.ltb_irrefl, Hracks].
  rewrite !union_empty_r_L.
  rewrite (wrap32_id (Z.of_nat (size (list_to_set (rack_Zone <$> racks) : gset string))))
    by (unfold in_int32; lia).
  destruct (Nat.ltb_spec 1 (size (list_to_set (rack_Zone <$> racks) : gset string)));
    [|by rewrite Z.ltb_irrefl, Hracks].
  destruct (Z.ltb_spec (Z.of_nat (size (list_to_set (rack_Zone <$> racks) : gset string)))
              (Z.of_nat (length racks))) as [Hlt|Hge]; [|rewrite Hracks; lia].
  rewrite <- (size_list_to_set_inj (String.append "zone/") (rack_Zone <$> racks)), <- list_fmap_compose.
  do 3 f_equal. apply list_fmap_ext. intros i r Hr.
  simpl. rewrite bool_decide_true; [done|]. by eapply Forall_lookup_1 in Hz.
Qed.

(** The failure domains the declared nodes of an admitted spec fall in are
    exactly as many as [FailureDomains], which validation warns from, says. *)
Theorem domains_FailureDomains (cluster : FSCluster) :
  topology_admitted (Topology (fsc_Spec cluster)) = true →
  Z.of_nat (size (list_to_set (domainOf (fsc_Spec cluster) <$> Nodes cluster) : gset string))
  = FailureDomains (fsc_Spec cluster).
Proof.
  intros Ha. destruct (topo_Nodes (Topology (fsc_Spec cluster))) as [n|] eqn:Hn.
  - unfold FailureDomains. rewrite Hn.
    assert (domainOf (fsc_Spec cluster) <$> Nodes cluster = node_Name <$> Nodes cluster) as ->.
    { unfold Nodes. rewrite Hn, <- !list_fmap_compose. by apply list_fmap_ext. }
    rewrite size_list_to_set_NoDup, length_fmap by by apply Nodes_NoDup.
    rewrite Nodes_length by done. unfold TotalNodes. by rewrite Hn.
  - rewrite domains_of_racks by done. by apply size_rack_domains.
Qed.

(** C40: The topology of an admitted spec expands into exactly [TotalNodes]
    nodes with distinct names, the names the peers are told. *)
Theorem Nodes_unique (cluster : FSCluster) :
  topology_admitted (Topology (fsc_Spec cluster)) = true →
  NoDup (node_Name <$> Nodes cluster) ∧
  Z.of_nat (length (Nodes cluster)) = TotalNodes (fsc_Spec cluster) ∧
  node_Name <$> Nodes cluster = NodeNames (fsc_Spec cluster) (fsc_Name cluster).
Proof. intros. split_and!; [by apply Nodes_NoDup|by apply Nodes_length|apply Nodes_names]. Qed.
