(* ===== verification/Validation.v ===== *)
(** * Cross-field validation (src/internal/validation/cluster.go) and the
      admission webhook (src/internal/webhook/v1alpha1/fscluster_webhook.go)

    One implementation, two callers: the webhook at admission and the controller
    before it touches anything.  Go iterates a map literal in an unspecified
    order in two loops of [observability], and in another one at every call; the
    model takes the order of each loop as an argument ([MapOrder]), a caller
    draws one per call, and the theorems hold for every order. *)

From S2P Require Import Prelude.
From S2P Require Import ApiTypes.
From S2P Require Import Defaults.

Definition MaxNodes : Z := 16.
Definition MinClusterNodes : Z := 3.

Definition SingleNodeWarning : string :=
  "cluster has a single node (development only): no replication, no repair, no failure tolerance — losing the node loses the data. It cannot be grown into a cluster in place: declare 3 or more nodes from the start for anything you keep".

Record Failure := mkFailure { f_Reason : string; f_Message : string }.

Definition signals : list string := ["traces"; "logs"; "metrics"].

(** The orders Go happens to iterate the two maps of [observability] in: each
    visits every signal once. *)
Record MapOrder := mkMapOrder {
  ord_destinations : list string;
  ord_protocols : list string;
  ord_destinations_perm : ord_destinations ≡ₚ signals;
  ord_protocols_perm : ord_protocols ≡ₚ signals;
}.

Definition source_order : MapOrder := mkMapOrder signals signals (reflexivity _) (reflexivity _).

(** [for k, v := range m { if .. { return &Failure{..} } }] *)
Fixpoint first_failing (l : list string) (check : string → option Failure) : option Failure :=
  match l with
  | [] => None
  | x :: l' => match check x with Some f => Some f | None => first_failing l' check end
  end.

Definition signal_exporter (o : ObservabilitySpec) (signal : string) : string :=
  if bool_decide (signal = "traces") then sig_Exporter (Traces o)
  else if bool_decide (signal = "logs") then sig_Exporter (Logs o)
  else met_Exporter (Metrics o).

Definition signal_endpoint (o : ObservabilitySpec) (signal : string) : string :=
  if bool_decide (signal = "traces") then sig_Endpoint (Traces o)
  else if bool_decide (signal = "logs") then sig_Endpoint (Logs o)
  else met_Endpoint (Metrics o).

Definition signal_protocol (o : ObservabilitySpec) (signal : string) : string :=
  if bool_decide (signal = "traces") then sig_Protocol (Traces o)
  else if bool_decide (signal = "logs") then sig_Protocol (Logs o)
  else met_Protocol (Metrics o).

(** The body of the first loop: an OTLP exporter with nowhere to send. *)
Definition check_destination (spec : ObservabilitySpec) (signal : string) : option Failure :=
  if bool_decide (signal_exporter spec signal = ExporterOTLP)
     && bool_decide (signal_endpoint spec signal = "")
     && bool_decide (otlp_Endpoint (OTLP spec) = "")
  then Some (mkFailure ReasonSpecInvalid
         ("observability." +:+ signal +:+ ".exporter is " +:+ fmt_q ExporterOTLP
          +:+ " with nowhere to send it: set observability." +:+ signal
          +:+ ".endpoint or observability.otlp.endpoint"))
  else None.

(** The body of the second loop: a per-signal protocol beside a shared one. *)
Definition check_protocol (spec : ObservabilitySpec) (signal : string) : option Failure :=
  if bool_decide (signal_protocol spec signal ≠ "")
  then Some (mkFailure ReasonSpecInvalid
         ("observability." +:+ signal
          +:+ ".protocol cannot be combined with observability.otlp.protocol: fs reads the shared variable first, so the per-signal one would be ignored. Leave otlp.protocol unset (the SDK defaults to "
          +:+ SDKDefaultOTLPProtocol +:+ ") to give each signal its own"))
  else None.

Definition observability (order : MapOrder) (spec : ObservabilitySpec) : option Failure :=
  match first_failing (ord_destinations order) (check_destination spec) with
  | Some f => Some f
  | None =>
      match (if bool_decide (otlp_Protocol (OTLP spec) ≠ "")
             then first_failing (ord_protocols order) (check_protocol spec) else None) with
      | Some f => Some f
      | None =>
          if PodMonitor spec && bool_decide (met_Exporter (Metrics spec) ≠ "")
             && bool_decide (met_Exporter (Metrics spec) ≠ ExporterPrometheus)
          then Some (mkFailure ReasonSpecInvalid
                 ("observability.podMonitor scrapes the metrics port, which only the "
                  +:+ fmt_q ExporterPrometheus +:+ " exporter serves; metrics.exporter is "
                  +:+ fmt_q (met_Exporter (Metrics spec))))
          else None
      end
  end.

Definition Cluster (order : MapOrder) (spec : FSClusterSpec) : option Failure :=
  let total := TotalNodes spec in
  if (MaxNodes <? total)%Z then
    Some (mkFailure ReasonUnsupportedTopology
      ("the topology declares " +:+ pretty total +:+ " nodes; fs supports at most "
       +:+ pretty MaxNodes))
  else if (1 <? total)%Z && (total <? MinClusterNodes)%Z then
    Some (mkFailure ReasonUnsupportedTopology
      ("the topology declares " +:+ pretty total
       +:+ " nodes; a cluster keeps three copies of its data on distinct nodes, so it has one node or at least "
       +:+ pretty MinClusterNodes))
  else if (q_Sign (Size (Storage spec)) <=? 0)%Z then
    Some (mkFailure ReasonSpecInvalid
      ("storage.size must be positive, got " +:+ q_String (Size (Storage spec))))
  else
    let widest := MaxWidth spec in
    if (1 <? total)%Z && (total <? widest)%Z then
      Some (mkFailure ReasonLayoutTopologyMismatch
        ("layout width " +:+ pretty widest +:+ " spreads each partition over " +:+ pretty widest
         +:+ " nodes, the topology declares " +:+ pretty total))
    else observability order (Observability spec).

Definition ClusterWarnings (spec : FSClusterSpec) : list string :=
  if SingleNode spec then [SingleNodeWarning]
  else
    let domains := FailureDomains spec in
    let widest := MaxWidth spec in
    if (domains <? widest)%Z then
      ["layout width " +:+ pretty widest +:+ " is wider than the " +:+ pretty domains
       +:+ " failure domains the topology provides: some partitions keep two slots in one domain, so losing that domain costs both"]
    else [].

Definition ClusterUpdate (order : MapOrder) (old updated : FSClusterSpec) : option Failure :=
  if negb (Bool.eqb (SingleNode old) (SingleNode updated)) then
    Some (mkFailure ReasonUnsupportedTopology
      "a single-node cluster cannot become a clustered one in place, nor the reverse. Create a new FSCluster and copy the objects over")
  else
    match Cluster order updated with
    | Some f => Some f
    | None =>
        let before := Size (Storage old) in
        let after := Size (Storage updated) in
        if (q_Cmp after before <? 0)%Z then
          Some (mkFailure ReasonStorageShrinkForbidden
            ("storage.size would shrink (" +:+ q_String before +:+ " -> " +:+ q_String after
             +:+ "); it may only grow"))
        else None
    end.

(** ** The webhook

    An admission answer: warnings, and a rejection naming the object and the
    reason. *)

Record Rejection := mkRejection { rej_Name : string; rej_Detail : string }.

Definition defaulted (cluster : FSCluster) : FSClusterSpec := WithDefaults (fsc_Spec cluster).

Definition reject (name : string) (failure : option Failure) : option Rejection :=
  match failure with
  | None => None
  | Some f => Some (mkRejection name (f_Reason f +:+ ": " +:+ f_Message f))
  end.

Definition ValidateCreate (order : MapOrder) (cluster : FSCluster) : list string * option Rejection :=
  let spec := defaulted cluster in
  (ClusterWarnings spec, reject (fsc_Name cluster) (Cluster order spec)).

Definition ValidateUpdate (order : MapOrder) (before updated : FSCluster)
    : list string * option Rejection :=
  let spec := defaulted updated in
  (ClusterWarnings spec,
   reject (fsc_Name updated) (ClusterUpdate order (defaulted before) spec)).

Definition ValidateDelete (_ : FSCluster) : list string * option Rejection := ([], None).

(** * Theorems *)

Lemma first_failing_None l check : first_failing l check = None ↔ Forall (λ x, check x = None) l.
Proof.
  induction l as [|x l IH]; simpl; [by split; [constructor|]|].
  rewrite Forall_cons. destruct (check x); naive_solver.
Qed.

Lemma first_failing_Some l check f : first_failing l check = Some f → ∃ x, x ∈ l ∧ check x = Some f.
Proof.
  induction l as [|x l IH]; simpl; [done|]. destruct (check x) eqn:E; intros Hf.
  - simplify_eq. exists x. split; [left|done].
  - destruct (IH Hf) as (y & ? & ?). exists y. split; [by right|done].
Qed.

(** Two failures one loop may answer for the same map: those of the signals
    each order met first. *)
Definition same_loop (check : string → option Failure) (f1 f2 : Failure) : Prop :=
  ∃ x y, x ∈ signals ∧ y ∈ signals ∧ check x = Some f1 ∧ check y = Some f2.

Lemma first_failing_agrees l1 l2 check :
  l1 ≡ₚ signals → l2 ≡ₚ signals →
  option_Forall2 (same_loop check) (first_failing l1 check) (first_failing l2 check).
Proof.
  intros H1 H2.
  destruct (first_failing l1 check) as [f1|] eqn:E1; destruct (first_failing l2 check) as [f2|] eqn:E2.
  - apply first_failing_Some in E1 as (x & Hx & ?), E2 as (y & Hy & ?). rewrite H1 in Hx. rewrite H2 in Hy.
    constructor. by exists x, y.
  - apply first_failing_Some in E1 as (x & Hx & E). apply first_failing_None in E2.
    rewrite H1, <- H2 in Hx. rewrite Forall_forall in E2. by rewrite E2 in E.
  - apply first_failing_Some in E2 as (x & Hx & E). apply first_failing_None in E1.
    rewrite H2, <- H1 in Hx. rewrite Forall_forall in E1. by rewrite E1 in E.
  - constructor.
Qed.

Lemma check_destination_reason o x f : check_destination o x = Some f → f_Reason f = ReasonSpecInvalid.
Proof. unfold check_destination. by case_match; intros; simplify_eq. Qed.

Lemma check_protocol_reason o x f : check_protocol o x = Some f → f_Reason f = ReasonSpecInvalid.
Proof. unfold check_protocol. by case_match; intros; simplify_eq. Qed.

Lemma first_failing_reason l (o : ObservabilitySpec) check f :
  (∀ x g, check o x = Some g → f_Reason g = ReasonSpecInvalid) →
  first_failing l (check o) = Some f → f_Reason f = ReasonSpecInvalid.
Proof. intros Hc Hf. apply first_failing_Some in Hf as (x & _ & Hx). eauto. Qed.

(** Two failures validation may answer for the same spec: the same one, or
    those of two signals one of the two checks refuses. *)
Definition agreeing (spec : ObservabilitySpec) (f1 f2 : Failure) : Prop :=
  f1 = f2 ∨ same_loop (check_destination spec) f1 f2 ∨ same_loop (check_protocol spec) f1 f2.

Lemma agreeing_reason spec f1 f2 : agreeing spec f1 f2 → f_Reason f1 = f_Reason f2.
Proof.
  intros [->|[(x & y & _ & _ & Hx & Hy)|(x & y & _ & _ & Hx & Hy)]]; [done|..].
  - by rewrite (check_destination_reason _ _ _ Hx), (check_destination_reason _ _ _ Hy).
  - by rewrite (check_protocol_reason _ _ _ Hx), (check_protocol_reason _ _ _ Hy).
Qed.

Lemma agreeing_messages spec f1 f2 :
  agreeing spec f1 f2 →
  f_Message f2 = f_Message f1 ∨ ∃ check x y,
    check ∈ [check_destination; check_protocol] ∧ x ∈ signals ∧ y ∈ signals ∧ x ≠ y ∧
    f_Message <$> check spec x = Some (f_Message f1) ∧ f_Message <$> check spec y = Some (f_Message f2).
Proof.
  assert (∀ check, check ∈ [check_destination; check_protocol] → same_loop (check spec) f1 f2 →
    f_Message f2 = f_Message f1 ∨ ∃ check x y,
      check ∈ [check_destination; check_protocol] ∧ x ∈ signals ∧ y ∈ signals ∧ x ≠ y ∧
      f_Message <$> check spec x = Some (f_Message f1) ∧ f_Message <$> check spec y = Some (f_Message f2)) as H.
  { intros check Hc (x & y & Hx & Hy & E1 & E2). destruct (decide (x = y)) as [->|]; [left; congruence|].
    right. exists check, x, y. by rewrite E1, E2. }
  intros [->|[Hd|Hp]]; [by left|..]; [apply (H check_destination)|apply (H check_protocol)]; set_solver.
Qed.

(** Whatever the iteration orders, [observability] refuses the same specs and
    with the same reason; only the signal its message names may differ. *)
Lemma observability_agrees o1 o2 spec :
  option_Forall2 (agreeing spec) (observability o1 spec) (observability o2 spec).
Proof.
  destruct o1 as [d1 p1 Hd1 Hp1], o2 as [d2 p2 Hd2 Hp2]. unfold observability. simpl.
  pose proof (first_failing_agrees _ _ (check_destination spec) Hd1 Hd2) as Hd.
  pose proof (first_failing_agrees _ _ (check_protocol spec) Hp1 Hp2) as Hp.
  destruct (first_failing d1 _), (first_failing d2 _); inv Hd; [constructor; unfold agreeing; auto|].
  case_bool_decide; [|case_match; constructor; by left].
  destruct (first_failing p1 _), (first_failing p2 _); inv Hp; [constructor; unfold agreeing; auto|].
  case_match; constructor; by left.
Qed.

Lemma Cluster_agrees o1 o2 spec :
  option_Forall2 (agreeing (Observability spec)) (Cluster o1 spec) (Cluster o2 spec).
Proof.
  unfold Cluster. repeat (case_match; [constructor; by left|]). apply observability_agrees.
Qed.

(** Whether a spec is refused, and with which reason, does not depend on
    the order Go iterates its maps in. *)
Theorem Cluster_order (o1 o2 : MapOrder) (spec : FSClusterSpec) :
  f_Reason <$> Cluster o1 spec = f_Reason <$> Cluster o2 spec.
Proof.
  destruct (Cluster_agrees o1 o2 spec) as [f1 f2 H|]; [|done]. simpl. f_equal. by eapply agreeing_reason.
Qed.

(** What an accepted spec guarantees about the cluster it builds. *)
Record spec_ok (spec : FSClusterSpec) : Prop := {
  ok_size : (TotalNodes spec <= 1 ∨ MinClusterNodes <= TotalNodes spec <= MaxNodes)%Z;
  ok_storage : (0 < q_nanos (Size (Storage spec)))%Z;
  ok_width : (1 < TotalNodes spec → MaxWidth spec <= TotalNodes spec)%Z;
  ok_destination : ∀ s, s ∈ signals → signal_exporter (Observability spec) s = ExporterOTLP →
    signal_endpoint (Observability spec) s ≠ "" ∨ otlp_Endpoint (OTLP (Observability spec)) ≠ "";
  ok_protocol : ∀ s, s ∈ signals → otlp_Protocol (OTLP (Observability spec)) ≠ "" →
    signal_protocol (Observability spec) s = "";
  ok_monitor : PodMonitor (Observability spec) = true →
    met_Exporter (Metrics (Observability spec)) = "" ∨
    met_Exporter (Metrics (Observability spec)) = ExporterPrometheus;
}.

Lemma check_destination_None o s :
  check_destination o s = None ↔
  (signal_exporter o s = ExporterOTLP → signal_endpoint o s ≠ "" ∨ otlp_Endpoint (OTLP o) ≠ "").
Proof.
  unfold check_destination. repeat case_bool_decide; simpl; naive_solver.
Qed.

Lemma check_protocol_None o s : check_protocol o s = None ↔ signal_protocol o s = "".
Proof. unfold check_protocol. case_bool_decide; naive_solver. Qed.

Lemma observability_None order spec :
  observability order spec = None ↔
  (∀ s, s ∈ signals → signal_exporter spec s = ExporterOTLP →
     signal_endpoint spec s ≠ "" ∨ otlp_Endpoint (OTLP spec) ≠ "") ∧
  (∀ s, s ∈ signals → otlp_Protocol (OTLP spec) ≠ "" → signal_protocol spec s = "") ∧
  (PodMonitor spec = true →
     met_Exporter (Metrics spec) = "" ∨ met_Exporter (Metrics spec) = ExporterPrometheus).
Proof.
  destruct order as [ds ps Hd Hp]. unfold observability. simpl.
  setoid_rewrite <- check_destination_None. setoid_rewrite <- check_protocol_None.
  destruct (first_failing ds _) eqn:E1.
  { split; [done|]. intros (Hall & _). apply first_failing_Some in E1 as (x & Hx & Hc).
    rewrite Hd in Hx. by rewrite Hall in Hc. }
  apply first_failing_None in E1. rewrite Hd, Forall_forall in E1.
  case_bool_decide as Hot.
  - destruct (first_failing ps _) eqn:E2.
    { split; [done|]. intros (_ & Hall & _). apply first_failing_Some in E2 as (x & Hx & Hc).
      rewrite Hp in Hx. by rewrite Hall in Hc. }
    apply first_failing_None in E2. rewrite Hp, Forall_forall in E2.
    destruct (PodMonitor spec); repeat case_bool_decide; simpl; naive_solver.
  - destruct (PodMonitor spec); repeat case_bool_decide; simpl; naive_solver.
Qed.

(** [Cluster] accepts exactly the specs that meet [spec_ok]. *)
Lemma Cluster_None order spec : Cluster order spec = None ↔ spec_ok spec.
Proof.
  unfold Cluster.
  destruct (Z.ltb_spec MaxNodes (TotalNodes spec)) as [H1|H1].
  { split; [done|]. intros [Hs _ _ _ _ _]. unfold MaxNodes in *. lia. }
  destruct ((1 <? TotalNodes spec)%Z && (TotalNodes spec <? MinClusterNodes)%Z) eqn:H2.
  { split; [done|]. intros [Hs _ _ _ _ _]. unfold MinClusterNodes in *. lia. }
  unfold q_Sign. destruct (Z.leb_spec (Z.sgn (q_nanos (Size (Storage spec)))) 0) as [H3|H3].
  { split; [done|]. intros [_ Hs _ _ _ _]. lia. }
  destruct ((1 <? TotalNodes spec)%Z && (TotalNodes spec <? MaxWidth spec)%Z) eqn:H4.
  { split; [done|]. intros [_ _ Hw _ _ _]. lia. }
  rewrite observability_None. split.
  - intros (Ha & Hb & Hc). split; [lia|lia|lia|done|done|done].
  - intros [_ _ _ ? ? ?]. done.
Qed.

(** C29: Validation accepts exactly the specs of [spec_ok]: at most one node
    (a topology that expands to none, or to a negative number, is not refused
    here: the CRD's minimums are) or three to sixteen of them, a positive volume
    size, with more than one node widths no wider than the node count (a single
    node is never given a layout, so nothing is asked of its widths), an endpoint
    of its own or the shared one for every signal exported over OTLP, no
    per-signal protocol beside a shared one, and a pod monitor only where the
    metrics exporter is Prometheus or not set; and it does so for every iteration
    order Go may choose. *)
Theorem Cluster_accepts (order : MapOrder) (spec : FSClusterSpec) :
  Cluster order spec = None ↔ spec_ok spec.
Proof. apply Cluster_None. Qed.

(** An update is admitted exactly when it does not move between a single
    node and a cluster, the new spec is acceptable by itself, and the volume
    does not shrink. *)
Theorem ClusterUpdate_accepts (order : MapOrder) (old updated : FSClusterSpec) :
  ClusterUpdate order old updated = None ↔
  SingleNode old = SingleNode updated ∧ spec_ok updated ∧
  (q_nanos (Size (Storage old)) <= q_nanos (Size (Storage updated)))%Z.
Proof.
  unfold ClusterUpdate. rewrite <- (Cluster_None order updated).
  destruct (Bool.eqb (SingleNode old) (SingleNode updated)) eqn:Hs; simpl.
  - apply Bool.eqb_prop in Hs. destruct (Cluster order updated); [naive_solver|].
    unfold q_Cmp. destruct (Z.compare_spec (q_nanos (Size (Storage updated))) (q_nanos (Size (Storage old))));
      simpl; naive_solver lia.
  - apply Bool.eqb_false_iff in Hs. naive_solver.
Qed.
