(* ===== verification/FsClient.v ===== *)
(** * The admin API client (src/internal/fsclient/client.go, pool.go)

    The operator's view of a running fs cluster.  The generated admin API
    (github.com/go-faster/fs/adminapi) is outside the repository: it is the
    class [AdminAPI], with its wire types, over an arbitrary world [W].  The
    wrapper [Client] is written over it, and provides the [Interface] the
    controllers depend on; the controllers are modelled over [Interface] alone,
    so their theorems hold for any node behaviour. *)

From S2P Require Import Prelude.

(** ** What the controllers see *)

Record Info := mkInfo { info_Version : string; info_Commit : string; info_ConfigRevision : string }.

Record ReloadResult := mkReloadResult { Reloaded : list string; rr_ConfigRevision : string }.

Record Role := mkRole { role_ID : string; role_Zone : string; role_Rack : string; Capacity : Z }.

#[global] Instance Role_eq_dec : EqDecision Role.
Proof. solve_decision. Defined.

Record Layout := mkLayout {
  Version : Z;
  Widths : list Z;
  Members : list Role;
  Retained : list Z;
}.

Definition Transitioning (l : Layout) : bool := bool_decide (Retained l ≠ []).

Fixpoint find_role (members : list Role) (id : string) : option Role :=
  match members with
  | [] => None
  | m :: members' => if bool_decide (role_ID m = id) then Some m else find_role members' id
  end.

Definition Member (l : Layout) (id : string) : option Role := find_role (Members l) id.

(** One node as the queried node sees it over gossip. *)
Record FsNode := mkFsNode {
  n_ID : string;
  n_Addr : string;
  n_Self : bool;
  n_Up : bool;
  n_LayoutVersion : Z;
  n_SyncedVersion : Z;
  n_Error : string;
}.

Definition ErrNoLayout : error := ErrBase KNoLayout "no layout applied".
Definition ErrLayoutRejected : error := ErrBase KLayoutRejected "layout rejected".
Definition ErrBucketNotFound : error := ErrBase KBucketNotFound "bucket not found".
Definition ErrSchemeRejected : error := ErrBase KSchemeRejected "scheme rejected".

(** The admin surface the controllers depend on (pool.go, [Interface]); a
    client is named by its endpoint and token. *)
Class Interface (W : Type) := {
  adm_Client : string → string → M W unit;
  adm_Info : string → string → M W Info;
  adm_Reload : string → string → M W ReloadResult;
  adm_Layout : string → string → M W Layout;
  adm_ApplyLayout : string → string → list Role → list Z → M W Layout;
  adm_Nodes : string → string → M W (list FsNode);
  adm_AccessKeys : string → string → M W (list string);
  adm_GetBucketScheme : string → string → string → M W string;
  adm_SetBucketScheme : string → string → string → string → M W string;
}.

(** ** The generated API *)

Inductive api_error :=
  | ErrorStatusCode (code : Z) (message : string)
  | TransportError (message : string).

(** [http.StatusBadRequest], [http.StatusNotFound] *)
Definition StatusBadRequest : Z := 400.
Definition StatusNotFound : Z := 404.

(** [Error()] of an API error. *)
Definition api_err (e : api_error) : error :=
  match e with
  | ErrorStatusCode c m => errors_New ("code " +:+ pretty c +:+ ": " +:+ m)
  | TransportError m => errors_New m
  end.

Record LayoutRole := mkLayoutRole {
  ar_ID : string; ar_Zone : option string; ar_Rack : option string; ar_Capacity : Z;
}.

Record ApiLayout := mkApiLayout {
  al_Version : Z;
  al_Widths : list Z;
  al_Members : list LayoutRole;
  al_RetainedVersions : list Z;
}.

Record ApplyLayoutRequest := mkApplyLayoutRequest {
  req_Widths : list Z; req_Members : list LayoutRole;
}.

Record ApiNode := mkApiNode {
  an_ID : option string; an_Addr : string; an_Self : bool; an_Up : bool;
  an_LayoutVersion : option Z; an_SyncedVersion : option Z; an_Error : option string;
}.

Definition reply (W A : Type) : Type := W → (api_error + A) * W.

Class AdminAPI (W : Type) := {
  api_NewClient : string → reply W unit;
  api_GetInfo : string → string → reply W (string * string * option string);
  api_ReloadConfig : string → string → reply W (list string * option string);
  api_GetLayout : string → string → reply W ApiLayout;
  api_ApplyLayout : string → string → ApplyLayoutRequest → reply W ApiLayout;
  api_ListClusterNodes : string → string → reply W (list ApiNode);
  api_ListAccessKeys : string → string → reply W (list string);
  api_GetBucketScheme : string → string → string → reply W string;
  api_SetBucketScheme : string → string → string → string → reply W string;
}.

(** ** The client *)

Section client.
Context {W : Type} `{!AdminAPI W}.

(** Translate a reply: [ok] on success, [bad] on an error. *)
Definition on_reply {A B} (r : reply W A) (bad : api_error → error) (ok : A → B) : M W B := λ w,
  match r w with
  | (inl e, w') => (Err (bad e), w')
  | (inr a, w') => (Ok (ok a), w')
  end.

Definition wrap_api (op : string) (e : api_error) : error := ErrWrap op (api_err e).

(** [o.Or(d)] *)
Definition Or {A} (o : option A) (d : A) : A := default d o.

Definition optString (s : string) : option string := if bool_decide (s = "") then None else Some s.

Definition roleFromAPI (m : LayoutRole) : Role :=
  mkRole (ar_ID m) (Or (ar_Zone m) "") (Or (ar_Rack m) "") (ar_Capacity m).

Definition roleToAPI (r : Role) : LayoutRole :=
  mkLayoutRole (role_ID r) (optString (role_Zone r)) (optString (role_Rack r)) (Capacity r).

Definition layoutFromAPI (l : ApiLayout) : Layout :=
  mkLayout (al_Version l) (al_Widths l) (roleFromAPI <$> al_Members l) (al_RetainedVersions l).

Definition client_New (baseURL token : string) : M W unit :=
  on_reply (api_NewClient baseURL) (wrap_api "build admin client") (λ _, tt).

Definition client_Info (baseURL token : string) : M W Info :=
  on_reply (api_GetInfo baseURL token) (wrap_api "get info")
    (λ i, mkInfo i.1.1 i.1.2 (Or i.2 "")).

Definition client_Reload (baseURL token : string) : M W ReloadResult :=
  on_reply (api_ReloadConfig baseURL token) (wrap_api "reload config")
    (λ r, mkReloadResult r.1 (Or r.2 "")).

Definition client_Layout (baseURL token : string) : M W Layout :=
  on_reply (api_GetLayout baseURL token)
    (λ e, match e with
          | ErrorStatusCode c _ =>
              if bool_decide (c = StatusNotFound) then ErrNoLayout else wrap_api "get layout" e
          | TransportError _ => wrap_api "get layout" e
          end)
    layoutFromAPI.

Definition client_ApplyLayout (baseURL token : string) (roles : list Role) (widths : list Z)
    : M W Layout :=
  let req := mkApplyLayoutRequest widths (roleToAPI <$> roles) in
  on_reply (api_ApplyLayout baseURL token req)
    (λ e, match e with
          | ErrorStatusCode c msg =>
              if bool_decide (c = StatusBadRequest) then ErrWrap msg ErrLayoutRejected
              else wrap_api "apply layout" e
          | TransportError _ => wrap_api "apply layout" e
          end)
    layoutFromAPI.

Definition nodeFromAPI (n : ApiNode) : FsNode :=
  mkFsNode (Or (an_ID n) "") (an_Addr n) (an_Self n) (an_Up n) (Or (an_LayoutVersion n) 0%Z)
    (Or (an_SyncedVersion n) 0%Z) (Or (an_Error n) "").

Definition client_Nodes (baseURL token : string) : M W (list FsNode) :=
  on_reply (api_ListClusterNodes baseURL token) (wrap_api "list cluster nodes") (fmap nodeFromAPI).

Definition client_AccessKeys (baseURL token : string) : M W (list string) :=
  on_reply (api_ListAccessKeys baseURL token) (wrap_api "list access keys") id.

Definition mapSchemeError (op : string) (e : api_error) : error :=
  match e with
  | ErrorStatusCode c msg =>
      if bool_decide (c = StatusBadRequest) then ErrWrap msg ErrSchemeRejected
      else if bool_decide (c = StatusNotFound) then ErrWrap msg ErrBucketNotFound
      else wrap_api op e
  | TransportError _ => wrap_api op e
  end.

Definition client_GetBucketScheme (baseURL token bucket : string) : M W string :=
  on_reply (api_GetBucketScheme baseURL token bucket) (mapSchemeError "get bucket scheme") id.

Definition client_SetBucketScheme (baseURL token bucket scheme : string) : M W string :=
  on_reply (api_SetBucketScheme baseURL token bucket scheme) (mapSchemeError "set bucket scheme") id.

(** The client is an implementation of what the controllers depend on. *)
#[global] Instance Client : Interface W := {|
  adm_Client := client_New;
  adm_Info := client_Info;
  adm_Reload := client_Reload;
  adm_Layout := client_Layout;
  adm_ApplyLayout := client_ApplyLayout;
  adm_Nodes := client_Nodes;
  adm_AccessKeys := client_AccessKeys;
  adm_GetBucketScheme := client_GetBucketScheme;
  adm_SetBucketScheme := client_SetBucketScheme;
|}.

(** * Theorems *)

Lemma Or_optString s : Or (optString s) "" = s.
Proof. unfold Or, optString. by case_bool_decide; subst. Qed.

(** A role survives the trip to the wire and back, empty zone and rack
    included. *)
Lemma role_roundtrip r : roleFromAPI (roleToAPI r) = r.
Proof. destruct r. unfold roleFromAPI, roleToAPI; simpl. by rewrite !Or_optString. Qed.

Lemma roles_roundtrip (roles : list Role) : roleFromAPI <$> (roleToAPI <$> roles) = roles.
Proof.
  rewrite <- list_fmap_compose. rewrite <- (list_fmap_id roles) at 2.
  apply list_fmap_ext. intros i r _. apply role_roundtrip.
Qed.

(** A node that echoes the roles and widths it was sent yields, through
    the wire types and back, a layout with exactly the members and widths asked
    for, empty zones and racks included. *)
Theorem ApplyLayout_echo (url token : string) (roles : list Role) (widths : list Z) (w : W)
    (version : Z) (retained : list Z) (w' : W) :
  api_ApplyLayout url token (mkApplyLayoutRequest widths (roleToAPI <$> roles)) w
    = (inr (mkApiLayout version widths (roleToAPI <$> roles) retained), w') →
  client_ApplyLayout url token roles widths w = (Ok (mkLayout version widths roles retained), w').
Proof.
  intros H. unfold client_ApplyLayout, on_reply. rewrite H.
  unfold layoutFromAPI; simpl. by rewrite roles_roundtrip.
Qed.

(** [Layout] says "no layout" exactly on a 404, and [ApplyLayout] "rejected"
    exactly on a 400: every other failure is one worth retrying elsewhere. *)
Lemma client_Layout_NoLayout url token w e w' :
  client_Layout url token w = (Err e, w') →
  err_kind e = KNoLayout ↔ ∃ msg, api_GetLayout url token w = (inl (ErrorStatusCode StatusNotFound msg), w').
Proof.
  unfold client_Layout, on_reply. destruct (api_GetLayout url token w) as [[[c m|m]|l] w'']; [| |done].
  - case_bool_decide; intros ?; simplify_eq/=; split; try done; [eauto|].
    intros (? & ?). simplify_eq.
  - intros ?; simplify_eq. split; [done|]. intros (? & ?). simplify_eq.
Qed.

Lemma client_ApplyLayout_rejected url token roles widths w e w' :
  client_ApplyLayout url token roles widths w = (Err e, w') →
  err_kind e = KLayoutRejected ↔
  ∃ msg, api_ApplyLayout url token (mkApplyLayoutRequest widths (roleToAPI <$> roles)) w
    = (inl (ErrorStatusCode StatusBadRequest msg), w').
Proof.
  unfold client_ApplyLayout, on_reply.
  destruct (api_ApplyLayout url token _ w) as [[[c m|m]|l] w'']; [| |done].
  - case_bool_decide; intros ?; simplify_eq/=; split; try done; [eauto|].
    intros (? & ?). simplify_eq.
  - intros ?; simplify_eq. split; [done|]. intros (? & ?). simplify_eq.
Qed.

End client.

Lemma find_role_Some members id m :
  find_role members id = Some m → m ∈ members ∧ role_ID m = id.
Proof.
  induction members as [|x members IH]; simpl; [done|].
  case_bool_decide; intros; simplify_eq; [split; [left|done]|].
  destruct (IH H0). split; [by right|done].
Qed.

Lemma find_role_None members id : find_role members id = None ↔ id ∉ (role_ID <$> members).
Proof.
  induction members as [|x members IH]; simpl; [split; [intros _; apply not_elem_of_nil|done]|].
  rewrite not_elem_of_cons. case_bool_decide; naive_solver.
Qed.

Lemma Member_None l id : Member l id = None ↔ id ∉ (role_ID <$> Members l).
Proof. apply find_role_None. Qed.
