(* ===== verification/Pool.v ===== *)
(** * The admin client pool (src/internal/fsclient/pool.go, client.go)

    How admin clients are built, and the cache every reconcile takes them from.
    The cache is shared by the controllers' workers and guarded by a mutex: one
    call of [Client] is a sequence of small steps, and calls of several
    goroutines interleave.  The generated API's constructor and the transports
    are parameters. *)

From S2P Require Import Prelude.
From S2P Require Import FsClient.

(** [DefaultTimeout], in nanoseconds. *)
Definition DefaultTimeout : Z := 15 * 1000000000.

(** An HTTP request as the bearer transport sees it: its headers. *)
Record Request := mkRequest { req_URL : string; req_Header : gmap string (list string) }.

Record clientKey := mkClientKey { ck_baseURL : string; ck_token : string }.

#[global] Instance clientKey_eq_dec : EqDecision clientKey.
Proof. solve_decision. Defined.

#[global] Instance clientKey_countable : Countable clientKey.
Proof.
  refine (inj_countable' (λ k, (ck_baseURL k, ck_token k)) (λ x, mkClientKey x.1 x.2) _). by intros [].
Defined.

Section pool.
(** A round tripper; whether it is an [http.Transport], which can be cloned;
    [dial] is [adminapi.NewClient]'s verdict on a base URL. *)
Context {T : Type} (DefaultTransport : T) (isTransport : T → bool) (Clone : T → T) (dial : string → option string).

Definition cloneDefaultTransport : T := if isTransport DefaultTransport then Clone DefaultTransport else DefaultTransport.

(** ** Building a client *)

Record bearerTransport := mkBearer { bt_token : string; bt_base : T }.

(** The request the base transport is handed; the caller's is not modified. *)
Definition RoundTrip (t : bearerTransport) (r : Request) : Request :=
  mkRequest (req_URL r) (<["Authorization" := ["Bearer " +:+ bt_token t]]> (req_Header r)).

Record HTTPClient := mkHTTPClient { hc_Transport : bearerTransport; hc_Timeout : Z }.

Record Client := mkClient { cl_baseURL : string; cl_http : HTTPClient; cl_timeout : Z }.

Record config := mkConfig { cfg_transport : T; cfg_timeout : Z }.

Definition Option : Type := config → config.

Definition WithTransport (rt : T) : Option := λ c, mkConfig rt (cfg_timeout c).
Definition WithTimeout (d : Z) : Option := λ c, mkConfig (cfg_transport c) d.

Definition New (baseURL token : string) (opts : list Option) : result Client :=
  let cfg := foldl (λ c (opt : Option), opt c) (mkConfig DefaultTransport DefaultTimeout) opts in
  let httpClient := mkHTTPClient (mkBearer token (cfg_transport cfg)) (cfg_timeout cfg) in
  match dial baseURL with
  | Some message => Err (ErrWrap "build admin client" (errors_New message))
  | None => Ok (mkClient baseURL httpClient (cfg_timeout cfg))
  end.

(** ** The pool

    Clients live in a heap, the cache maps a key to one of them: the calls of
    [Client] hand out pointers. *)

Record Pool := mkPool {
  pl_transport : T;
  pl_timeout : Z;
  pl_clients : gmap clientKey nat;
  pl_heap : list Client;
}.

Definition PoolOption : Type := Pool → Pool.

Definition WithPoolTimeout (d : Z) : PoolOption := λ p, mkPool (pl_transport p) d (pl_clients p) (pl_heap p).

Definition NewPool (opts : list PoolOption) : Pool :=
  foldl (λ p (opt : PoolOption), opt p) (mkPool cloneDefaultTransport DefaultTimeout ∅ []) opts.

Definition pool_New (p : Pool) (key : clientKey) : result Client :=
  New (ck_baseURL key) (ck_token key) [WithTransport (pl_transport p); WithTimeout (pl_timeout p)].

Definition alloc (p : Pool) (client : Client) : Pool :=
  mkPool (pl_transport p) (pl_timeout p) (pl_clients p) (pl_heap p ++ [client]).

Definition cache (p : Pool) (key : clientKey) (ptr : nat) : Pool :=
  mkPool (pl_transport p) (pl_timeout p) (<[key := ptr]> (pl_clients p)) (pl_heap p).

(** A call run on its own. *)
Definition pool_Client (p : Pool) (key : clientKey) : result nat * Pool :=
  match pl_clients p !! key with
  | Some ptr => (Ok ptr, p)
  | None =>
      match pool_New p key with
      | Err e => (Err e, p)
      | Ok client => let ptr := length (pl_heap p) in (Ok ptr, cache (alloc p client) key ptr)
      end
  end.

(** *** Where a controller takes its clients from

    A reconciler's [Admin] hook, which tests set, or a pool of its own, made the
    first time it is asked for ([poolOnce]). *)

Section source.
Context {A : Type}.

Record AdminSource := mkAdminSource {
  as_Admin : option (string → string → result A);
  as_pool : option Pool;
}.

Definition from_hook (r : result A) : result (A + nat) := inl <$> r.
Definition from_pool (r : result nat) : result (A + nat) := inr <$> r.

Definition pool_of (r : AdminSource) : Pool := default (NewPool []) (as_pool r).

Definition adminClient (r : AdminSource) (baseURL token : string) : result (A + nat) * AdminSource :=
  match as_Admin r with
  | Some hook => (from_hook (hook baseURL token), r)
  | None =>
      let '(c, p) := pool_Client (pool_of r) (mkClientKey baseURL token) in
      (from_pool c, mkAdminSource None (Some p))
  end.
End source.

(** ** Calls that interleave

    Where a goroutine is inside a call: asking for the mutex, holding it, past
    a missed lookup, past the construction of the client. *)

Inductive pc :=
  | Idle
  | Locking (key : clientKey)
  | Holding (key : clientKey)
  | Missed (key : clientKey)
  | Built (key : clientKey) (ptr : nat).

Record system := mkSystem {
  sys_pool : Pool;
  sys_mu : option nat;
  sys_threads : gmap nat pc;
  sys_rets : list (clientKey * result nat);
}.

Definition at_pc (s : system) (i : nat) : pc := default Idle (sys_threads s !! i).

Definition move (s : system) (i : nat) (c : pc) (p : Pool) (mu : option nat) : system :=
  mkSystem p mu (<[i := c]> (sys_threads s)) (sys_rets s).

(** The call returns: the deferred unlock, and the answer. *)
Definition return_ (s : system) (i : nat) (key : clientKey) (r : result nat) (p : Pool) : system :=
  mkSystem p None (<[i := Idle]> (sys_threads s)) (sys_rets s ++ [(key, r)]).

Inductive step : system → system → Prop :=
  | step_call s i key :
      at_pc s i = Idle → step s (move s i (Locking key) (sys_pool s) (sys_mu s))
  | step_lock s i key :
      at_pc s i = Locking key → sys_mu s = None → step s (move s i (Holding key) (sys_pool s) (Some i))
  | step_hit s i key ptr :
      at_pc s i = Holding key → pl_clients (sys_pool s) !! key = Some ptr →
      step s (return_ s i key (Ok ptr) (sys_pool s))
  | step_miss s i key :
      at_pc s i = Holding key → pl_clients (sys_pool s) !! key = None →
      step s (move s i (Missed key) (sys_pool s) (sys_mu s))
  | step_fail s i key e :
      at_pc s i = Missed key → pool_New (sys_pool s) key = Err e →
      step s (return_ s i key (Err e) (sys_pool s))
  | step_build s i key client :
      at_pc s i = Missed key → pool_New (sys_pool s) key = Ok client →
      step s (move s i (Built key (length (pl_heap (sys_pool s)))) (alloc (sys_pool s) client) (sys_mu s))
  | step_store s i key ptr :
      at_pc s i = Built key ptr → step s (return_ s i key (Ok ptr) (cache (sys_pool s) key ptr)).

Definition start (p : Pool) : system := mkSystem p None ∅ [].

Definition reachable (p : Pool) : system → Prop := rtc step (start p).

(** * Theorems *)

(** ** Calls one after the other *)

Fixpoint run_calls (p : Pool) (keys : list clientKey) : list (result nat) * Pool :=
  match keys with
  | [] => ([], p)
  | key :: keys' =>
      let '(r, p1) := pool_Client p key in
      let '(rs, p2) := run_calls p1 keys' in
      (r :: rs, p2)
  end.

Lemma run_calls_snoc p keys key :
  run_calls p (keys ++ [key]) =
    let '(rs, p1) := run_calls p keys in
    let '(r, p2) := pool_Client p1 key in (rs ++ [r], p2).
Proof.
  revert p. induction keys as [|k keys IH]; intros p; simpl; [by destruct (pool_Client p key)|].
  destruct (pool_Client p k) as [r p1]. rewrite IH. destruct (run_calls p1 keys) as [rs p2].
  by destruct (pool_Client p2 key).
Qed.

(** ** The mutex *)

Definition inside (c : pc) : Prop := match c with Holding _ | Missed _ | Built _ _ => True | _ => False end.

(** What the calls that returned have made of the pool, and where the call
    that holds the mutex is. *)
Definition in_flight (s : system) (p : Pool) : Prop :=
  match sys_mu s with
  | None => sys_pool s = p
  | Some i =>
      match at_pc s i with
      | Holding _ => sys_pool s = p
      | Missed key => sys_pool s = p ∧ pl_clients p !! key = None
      | Built key ptr => pl_clients p !! key = None ∧ ptr = length (pl_heap p) ∧
          ∃ client, pool_New p key = Ok client ∧ sys_pool s = alloc p client
      | _ => False
      end
  end.

Definition pool_inv (p0 : Pool) (s : system) : Prop :=
  (∀ i, inside (at_pc s i) → sys_mu s = Some i) ∧
  (run_calls p0 (sys_rets s).*1).1 = (sys_rets s).*2 ∧
  in_flight s (run_calls p0 (sys_rets s).*1).2.

Lemma at_pc_insert ts p mu rets i c j :
  at_pc (mkSystem p mu (<[i := c]> ts) rets) j = if bool_decide (j = i) then c else default Idle (ts !! j).
Proof. unfold at_pc. simpl. case_bool_decide; subst; by simplify_map_eq. Qed.

(** The exclusion half: only the goroutine that is inside moves the mutex. *)
Lemma exclusion_move s i c p mu :
  (∀ j, inside (at_pc s j) → sys_mu s = Some j) →
  (mu = sys_mu s ∧ (inside c → sys_mu s = Some i) ∨ mu = Some i ∧ sys_mu s = None) →
  ∀ j, inside (at_pc (move s i c p mu) j) → sys_mu (move s i c p mu) = Some j.
Proof.
  intros H Hmu j. unfold move. rewrite at_pc_insert. simpl. case_bool_decide; subst.
  - intros Hin. destruct Hmu as [[-> Hc]|[-> _]]; auto.
  - intros Hin%H. destruct Hmu as [[-> _]|[-> ?]]; [done|congruence].
Qed.

Lemma exclusion_return s i key r p :
  (∀ j, inside (at_pc s j) → sys_mu s = Some j) → sys_mu s = Some i →
  ∀ j, inside (at_pc (return_ s i key r p) j) → sys_mu (return_ s i key r p) = Some j.
Proof.
  intros H Hi j. unfold return_. rewrite at_pc_insert. case_bool_decide; [done|].
  intros Hin%H. congruence.
Qed.

(** The linearization half: a call returns what it returns when run on its own. *)
Lemma returned p0 s i key r p :
  (run_calls p0 (sys_rets s).*1).1 = (sys_rets s).*2 →
  pool_Client (run_calls p0 (sys_rets s).*1).2 key = (r, p) →
  (∀ j, inside (at_pc s j) → sys_mu s = Some j) → sys_mu s = Some i →
  pool_inv p0 (return_ s i key r p).
Proof.
  intros Hr Hc Hx Hi. split; [by apply exclusion_return|]. simpl. rewrite !fmap_app. simpl.
  rewrite run_calls_snoc. destruct (run_calls p0 _) as [rs p1]. simpl in *. rewrite Hc. by subst.
Qed.

Lemma pool_inv_step p0 s s' : pool_inv p0 s → step s s' → pool_inv p0 s'.
Proof.
  intros (Hx & Hr & Hf). set (p := (run_calls p0 (sys_rets s).*1).2) in *.
  assert (Hin : ∀ i, inside (at_pc s i) → sys_mu s = Some i ∧
    match at_pc s i with
    | Holding _ => sys_pool s = p
    | Missed key => sys_pool s = p ∧ pl_clients p !! key = None
    | Built key ptr => pl_clients p !! key = None ∧ ptr = length (pl_heap p) ∧
        ∃ client, pool_New p key = Ok client ∧ sys_pool s = alloc p client
    | _ => False
    end).
  { intros i Hi. pose proof (Hx i Hi) as Hm. unfold in_flight in Hf. by rewrite Hm in Hf. }
  intros Hstep. destruct Hstep as [s i key Hpc|s i key Hpc Hmu|s i key ptr Hpc Hl|s i key Hpc Hl|s i key e Hpc Hn
    |s i key client Hpc Hn|s i key ptr Hpc];
    try (destruct (Hin i) as [Hmu Hat]; [by rewrite Hpc|]; rewrite Hpc in Hat).
  - split; [apply exclusion_move; [done|left; split; [done|done]]|]. split; [done|].
    unfold in_flight in *. simpl. destruct (sys_mu s) as [j|] eqn:Hm; [|done]. unfold move. rewrite at_pc_insert.
    case_bool_decide; [subst; by rewrite Hpc in Hf|done].
  - split; [apply exclusion_move; [done|by right]|]. split; [done|].
    unfold in_flight in *. rewrite Hmu in Hf. simpl. unfold move. by rewrite at_pc_insert, bool_decide_eq_true_2.
  - rewrite Hat in Hl. rewrite Hat. apply returned; [done| |done|done].
    fold p. unfold pool_Client. by rewrite Hl.
  - split; [apply exclusion_move; [done|left; split; [done|done]]|]. split; [done|].
    unfold in_flight. simpl. rewrite Hmu. unfold move. rewrite at_pc_insert, bool_decide_eq_true_2 by done.
    fold p. rewrite Hat in Hl. done.
  - destruct Hat as [Hat Hl]. rewrite Hat in Hn. rewrite Hat. apply returned; [done| |done|done].
    fold p. unfold pool_Client. by rewrite Hl, Hn.
  - destruct Hat as [Hat Hl]. rewrite Hat in Hn.
    split; [apply exclusion_move; [done|left; split; [done|done]]|]. split; [done|].
    unfold in_flight. simpl. rewrite Hmu. unfold move. rewrite at_pc_insert, bool_decide_eq_true_2 by done.
    fold p. rewrite Hat. eauto.
  - destruct Hat as (Hl & -> & client & Hn & Hat). rewrite Hat. apply returned; [done| |done|done].
    fold p. unfold pool_Client. by rewrite Hl, Hn.
Qed.

Lemma pool_inv_reachable p s : reachable p s → pool_inv p s.
Proof.
  intros H. unfold reachable in H. remember (start p) as s0 eqn:E0.
  assert (H0 : pool_inv p s0).
  { subst. split; [|done]. intros i. unfold at_pc, start. simpl. by rewrite lookup_empty. }
  clear E0. induction H as [|s0 s1 s2 Hs _ IH]; [done|]. apply IH. by eapply pool_inv_step.
Qed.

(** ** What the cache holds *)

Definition same_options (p p' : Pool) : Prop :=
  pl_transport p' = pl_transport p ∧ pl_timeout p' = pl_timeout p.

(** Each cached client was built for its key, and each key's client is another
    one; no client was built but the cached ones. *)
Definition cached (p : Pool) : Prop :=
  (∀ key ptr, pl_clients p !! key = Some ptr →
     ∃ client, pl_heap p !! ptr = Some client ∧ pool_New p key = Ok client) ∧
  (∀ k1 k2 ptr, pl_clients p !! k1 = Some ptr → pl_clients p !! k2 = Some ptr → k1 = k2) ∧
  length (pl_heap p) = size (pl_clients p).

(** The pool only grows. *)
Definition grows (p p' : Pool) : Prop :=
  pl_clients p ⊆ pl_clients p' ∧ pl_heap p `prefix_of` pl_heap p' ∧ same_options p p'.

#[local] Instance grows_preorder : PreOrder grows.
Proof.
  split; [done|]. intros p1 p2 p3 (A1 & A2 & A3 & A4) (B1 & B2 & B3 & B4).
  split; [by etrans|]. split; [by etrans|]. split; congruence.
Qed.

Lemma pool_Client_ok p key r p' :
  cached p → pool_Client p key = (r, p') →
  cached p' ∧ grows p p' ∧ ∀ ptr, r = Ok ptr → pl_clients p' !! key = Some ptr.
Proof.
  intros (H1 & H2 & H3). unfold pool_Client. destruct (pl_clients p !! key) as [ptr|] eqn:Hl.
  { intros ?; simplify_eq. split; [done|]. split; [done|]. intros; by simplify_eq. }
  destruct (pool_New p key) as [client|e] eqn:Hn; intros ?; simplify_eq; [|done].
  assert (Hlt : ∀ k ptr, pl_clients p !! k = Some ptr → ptr < length (pl_heap p)).
  { intros k ptr (c & Hc & _)%H1. by apply lookup_lt_Some in Hc. }
  unfold cached, grows, same_options; simpl; split_and!; [| | |by apply insert_subseteq|by eexists|done|done|].
  - intros k ptr [[-> <-]|[_ Hk]]%lookup_insert_Some.
    + exists client. split; [|done]. by rewrite lookup_app_r, Nat.sub_diag.
    + destruct (H1 _ _ Hk) as (c & Hc & ?). exists c. split; [|done]. by apply lookup_app_l_Some.
  - intros k1 k2 ptr [[-> <-]|[_ E1]]%lookup_insert_Some [[-> E]|[_ E2]]%lookup_insert_Some;
      [done|apply Hlt in E2; lia|apply Hlt in E1; lia|eauto].
  - rewrite length_app, map_size_insert_None by done. simpl. lia.
  - intros ptr E. simplify_eq. by rewrite lookup_insert_eq.
Qed.

Lemma run_calls_ok p keys :
  cached p → let '(rs, p') := run_calls p keys in
  cached p' ∧ grows p p' ∧ ∀ key ptr, (key, Ok ptr) ∈ zip keys rs → pl_clients p' !! key = Some ptr.
Proof.
  revert p. induction keys as [|k keys IH]; intros p Hp; simpl.
  { split; [done|]. split; [done|]. intros ? ? ?%elem_of_nil. done. }
  destruct (pool_Client p k) as [r p1] eqn:E. apply pool_Client_ok in E as (H1 & H2 & H3); [|done].
  specialize (IH p1 H1). destruct (run_calls p1 keys) as [rs p2]. destruct IH as (I1 & I2 & I3).
  split; [done|]. split; [by etrans|]. simpl. intros key ptr [E|Hin]%elem_of_cons; [|by apply I3].
  injection E as -> <-. eapply lookup_weaken; [by apply H3|]. by destruct I2.
Qed.

(** C20: Concurrent calls of the pool are linearizable: whatever the interleaving, at
    most one goroutine is between the lock and the unlock, the answers the
    calls have returned are those of the same calls run one after the other in
    the order in which they returned, and with the mutex free the pool is the
    one those calls leave. *)
Theorem pool_linearizable (p : Pool) (s : system) :
  reachable p s →
  (∀ i j, inside (at_pc s i) → inside (at_pc s j) → i = j) ∧
  (run_calls p (sys_rets s).*1).1 = (sys_rets s).*2 ∧
  (sys_mu s = None → sys_pool s = (run_calls p (sys_rets s).*1).2).
Proof.
  intros (Hx & Hr & Hf)%pool_inv_reachable. split_and!; [|done|].
  - intros i j Hi%Hx Hj%Hx. congruence.
  - intros Hmu. unfold in_flight in Hf. by rewrite Hmu in Hf.
Qed.

(** The client a key asks for: to its URL, with its token, over the pool's
    transport and with its timeout. *)
Definition client_of (p : Pool) (key : clientKey) : Client :=
  mkClient (ck_baseURL key)
    (mkHTTPClient (mkBearer (ck_token key) (pl_transport p)) (pl_timeout p)) (pl_timeout p).

Lemma pool_New_Ok p key client : pool_New p key = Ok client → client = client_of p key.
Proof. unfold pool_New, New. simpl. by destruct (dial _); intros; simplify_eq. Qed.

Lemma NewPool_empty timeouts :
  pl_clients (NewPool (WithPoolTimeout <$> timeouts)) = ∅ ∧ pl_heap (NewPool (WithPoolTimeout <$> timeouts)) = [] ∧
  pl_transport (NewPool (WithPoolTimeout <$> timeouts)) = cloneDefaultTransport ∧
  pl_timeout (NewPool (WithPoolTimeout <$> timeouts)) = default DefaultTimeout (last timeouts).
Proof.
  unfold NewPool. induction timeouts as [|d ds IH] using rev_ind; [done|].
  rewrite fmap_app, foldl_app, last_snoc. simpl. by destruct IH as (-> & -> & -> & _).
Qed.

(** C21: The pool hands out the right client, and one per endpoint and token:
    from a new pool, whatever the calls and their interleaving, a call that
    returns a client returns one that talks to the URL asked for with the
    token asked for, over the pool's own transport and timeout; two calls
    return the same client exactly when they asked for the same URL and token,
    so a rotated token is never served by a client that holds the old one;
    and a request sent through it bears that token. *)
Theorem pool_serves_its_key (timeouts : list Z) (s : system) (key : clientKey) (ptr : nat) :
  let p := NewPool (WithPoolTimeout <$> timeouts) in
  reachable p s → (key, Ok ptr) ∈ sys_rets s →
  (∃ client, pl_heap (sys_pool s) !! ptr = Some client ∧
     client = mkClient (ck_baseURL key)
       (mkHTTPClient (mkBearer (ck_token key) cloneDefaultTransport) (default DefaultTimeout (last timeouts)))
       (default DefaultTimeout (last timeouts)) ∧
     ∀ r, req_Header (RoundTrip (hc_Transport (cl_http client)) r) !! "Authorization"
          = Some ["Bearer " +:+ ck_token key]) ∧
  (∀ key' ptr', (key', Ok ptr') ∈ sys_rets s → (ptr' = ptr ↔ key' = key)).
Proof.
  intros p Hs Hin. apply pool_inv_reachable in Hs as (_ & Hr & Hf).
  destruct (NewPool_empty timeouts) as (Hc & Hh & Ht & Hd). fold p in Hc, Hh, Ht, Hd.
  assert (cached p) as H0.
  { unfold cached. rewrite Hc, Hh. split_and!; [by intros ? ? ?|by intros ? ? ? ?|done]. }
  pose proof (run_calls_ok p (sys_rets s).*1 H0) as Hrun.
  destruct (run_calls p (sys_rets s).*1) as [rs p'] eqn:E. simpl in *. subst rs.
  destruct Hrun as ((H1 & H2 & _) & (_ & _ & Ho1 & Ho2) & H3).
  rewrite zip_fst_snd in H3. split.
  - destruct (H1 _ _ (H3 _ _ Hin)) as (client & Hl & Hn). exists client.
    assert (client = client_of p' key) as -> by by apply pool_New_Ok.
    unfold client_of. rewrite Ho1, Ho2, Ht, Hd. split_and!; [|done|].
    2: { intros r. simpl. by rewrite lookup_insert_eq. }
    rewrite <- Ht, <- Hd, <- Ho1, <- Ho2. fold (client_of p' key). unfold in_flight in Hf.
    destruct (sys_mu s) as [i|]; [|by subst].
    destruct (at_pc s i) as [| | |? |]; [done|done|by subst|by destruct Hf; subst|].
    destruct Hf as (_ & _ & c & _ & ->). simpl. by apply lookup_app_l_Some.
  - intros key' ptr' Hin'. apply H3 in Hin, Hin'. split; [intros ->; by eapply H2|intros ->; congruence].
Qed.

(** ** A reconciler's clients *)

Section source.
Context {A : Type}.

Fixpoint ask_all (r : AdminSource (A := A)) (keys : list clientKey) : list (result (A + nat)) * AdminSource :=
  match keys with
  | [] => ([], r)
  | key :: keys' =>
      let '(c, r1) := adminClient r (ck_baseURL key) (ck_token key) in
      let '(cs, r2) := ask_all r1 keys' in (c :: cs, r2)
  end.

(** Without a hook every call goes to one pool, made once: the answers are
    those of a fresh pool asked in the same order, so a node's endpoint and
    token get one client for as long as the reconciler lives.  With a hook no
    pool is ever made. *)
Theorem adminClient_pools (r : AdminSource (A := A)) (keys : list clientKey) :
  match as_Admin r with
  | None =>
      ask_all r keys = (from_pool <$> (run_calls (pool_of r) keys).1,
        mkAdminSource None (if bool_decide (keys = []) then as_pool r else Some (run_calls (pool_of r) keys).2))
  | Some hook =>
      ask_all r keys = ((λ key, from_hook (hook (ck_baseURL key) (ck_token key))) <$> keys, r)
  end.
Proof.
  destruct r as [[hook|] pool]; simpl.
  - induction keys as [|key keys IH]; simpl; [done|]. by rewrite IH.
  - revert pool. induction keys as [|[url token] keys IH]; intros pool; [done|].
    cbn [ask_all run_calls]. unfold adminClient, pool_of in *. cbn [as_Admin as_pool ck_baseURL ck_token].
    destruct (pool_Client (default (NewPool []) pool) (mkClientKey url token)) as [c p].
    rewrite IH. cbn [default as_pool]. destruct (run_calls p keys) as [rs p2] eqn:E. cbn.
    destruct keys. { by injection E as <- <-. }
    by rewrite E, bool_decide_eq_false_2.
Qed.
End source.
End pool.
