(* ===== verification/Kube.v ===== *)
(** * Kubernetes objects and the API server

    The Kubernetes API types the operator builds and reads, reduced to the
    fields it sets or looks at, and the API server as a class over an arbitrary
    world [W] ([KubeClient]): controller-runtime's client, the clock and the
    random source are outside the repository, so nothing is assumed of their
    answers.

    A controller runs in an [Env]: the world, the log of everything it asked
    the outside to do (in order), and its own state.  The theorems about what
    a pass may do are statements about that log. *)

From S2P Require Import Prelude.
From S2P Require Import ApiTypes.
From S2P Require Import FsClient.
From S2P Require Import Validation.

(** ** Pods *)

Record ContainerPort := mkContainerPort { port_Name : string; port_Number : Z }.
Record VolumeMount := mkVolumeMount { mount_Name : string; MountPath : string; ReadOnly : bool }.
Record Volume := mkVolume { vol_Name : string; vol_SecretName : string; vol_DefaultMode : Z }.

Record Probe := mkProbe {
  probe_Path : string; probe_Port : string; probe_Scheme : string;
  PeriodSeconds : Z; TimeoutSeconds : Z; FailureThreshold : Z;
}.

Record Container := mkContainer {
  c_Name : string; c_Image : string; c_PullPolicy : string; c_Args : list string;
  c_Ports : list ContainerPort; c_Env : list EnvVar; c_Mounts : list VolumeMount;
  c_Resources : RawJSON;
  c_Startup : Probe; c_Liveness : Probe; c_Readiness : Probe;
  c_AllowPrivilegeEscalation : bool; c_ReadOnlyRootFilesystem : bool; c_Drop : list string;
}.

Record PodAffinityTerm := mkPodAffinityTerm { term_Labels : gmap string string; TopologyKey : string }.

Inductive PodAntiAffinityRule :=
  | AntiRequired (t : PodAffinityTerm)
  | AntiPreferred (weight : Z) (t : PodAffinityTerm).

(** [NodeAffinity] is a required [In] requirement: a label key and its value. *)
Record Affinity := mkAffinity {
  NodeAffinity : option (string * string);
  AntiAffinity : option PodAntiAffinityRule;
}.

Record PodSecurityContext := mkPodSecurityContext {
  RunAsNonRoot : bool; RunAsUser : Z; RunAsGroup : Z; FSGroup : Z; SeccompProfile : string;
}.

Record PodTemplateSpec := mkPodTemplateSpec {
  tpl_Labels : gmap string string;
  tpl_Annotations : gmap string string;
  tpl_Containers : list Container;
  tpl_Volumes : list Volume;
  tpl_ImagePullSecrets : list string;
  tpl_NodeSelector : gmap string string;
  tpl_Affinity : option Affinity;
  tpl_Tolerations : list RawJSON;
  tpl_PriorityClassName : string;
  tpl_SecurityContext : PodSecurityContext;
  tpl_TerminationGracePeriodSeconds : Z;
  tpl_AutomountServiceAccountToken : bool;
}.

(** ** Claims, StatefulSets, Secrets, Services *)

(** [Requests] is a Go map: [None] is the nil map, which reads as empty and
    panics when written. *)
Record PVC := mkPVC {
  pvc_Name : string; pvc_Namespace : string; pvc_Labels : gmap string string;
  pvc_AccessModes : list string; pvc_Requests : option (gmap string Quantity);
  pvc_StorageClassName : option string;
}.

Definition ResourceStorage : string := "storage".

(** [Requests[corev1.ResourceStorage]]: the zero quantity where there is none. *)
Definition pvc_Storage (p : PVC) : Quantity :=
  default (mkQuantity 0 "0") (default ∅ (pvc_Requests p) !! ResourceStorage).

Record RetentionPolicy := mkRetentionPolicy { WhenDeleted : string; WhenScaled : string }.

Record SetStatus := mkSetStatus {
  ss_ObservedGeneration : Z; ss_ReadyReplicas : Z; ss_UpdatedReplicas : Z;
}.

Record StatefulSet := mkStatefulSet {
  set_Kind : string;
  set_Name : string;
  set_Namespace : string;
  set_Labels : gmap string string;
  set_Annotations : gmap string string;
  set_Generation : Z;
  set_ResourceVersion : string;
  set_ManagedFields : list RawJSON;
  set_Replicas : Z;
  set_ServiceName : string;
  set_Selector : gmap string string;
  set_Template : PodTemplateSpec;
  set_Claims : list PVC;
  set_Retention : RetentionPolicy;
  set_Status : SetStatus;
}.

(** [Data] is what is read back; [StringData] is what a writer supplies. *)
Record Secret := mkSecret {
  sec_Name : string; sec_Namespace : string; sec_Labels : gmap string string;
  sec_Annotations : gmap string string;
  sec_Data : gmap string string; sec_StringData : gmap string string;
}.

Record ServicePort := mkServicePort { sp_Name : string; sp_Port : Z; sp_TargetPort : string }.

Record ServiceObj := mkServiceObj {
  so_Name : string; so_Namespace : string; so_Labels : gmap string string;
  so_Annotations : gmap string string; so_Type : string; so_ClusterIP : string;
  so_PublishNotReadyAddresses : bool; so_Selector : gmap string string;
  so_Ports : list ServicePort;
}.

Record PodDisruptionBudget := mkPodDisruptionBudget {
  pdb_Name : string; pdb_Namespace : string; pdb_Labels : gmap string string;
  MaxUnavailable : Z; pdb_Selector : gmap string string;
}.

Inductive PolicyPeer :=
  | PodSelector (labels : gmap string string)
  | NamespaceSelector (labels : gmap string string).

(** An ingress rule with no [From] admits every source. *)
Record IngressRule := mkIngressRule { ing_From : list PolicyPeer; ing_Ports : list Z }.

Record NetworkPolicyObj := mkNetworkPolicyObj {
  np_Name : string; np_Namespace : string; np_Labels : gmap string string;
  np_PodSelector : gmap string string; np_Ingress : list IngressRule;
}.

Record PodMonitorObj := mkPodMonitorObj {
  pm_Name : string; pm_Namespace : string; pm_Labels : gmap string string;
  pm_MatchLabels : gmap string string; pm_Port : string; pm_Path : string;
}.

Inductive kobj :=
  | OStatefulSet (s : StatefulSet)
  | OSecret (s : Secret)
  | OService (s : ServiceObj)
  | OBudget (b : PodDisruptionBudget)
  | OPolicy (n : NetworkPolicyObj)
  | OMonitor (m : PodMonitorObj).

Inductive kind := KindSet | KindSecret | KindPod | KindPolicy | KindMonitor.

#[global] Instance kind_eq_dec : EqDecision kind.
Proof. solve_decision. Defined.

Definition kobj_Name (o : kobj) : string :=
  match o with
  | OStatefulSet s => set_Name s | OSecret s => sec_Name s | OService s => so_Name s
  | OBudget b => pdb_Name b | OPolicy n => np_Name n | OMonitor m => pm_Name m
  end.

Definition kobj_Kind (o : kobj) : string :=
  match o with
  | OStatefulSet _ => "StatefulSet" | OSecret _ => "Secret" | OService _ => "Service"
  | OBudget _ => "PodDisruptionBudget" | OPolicy _ => "NetworkPolicy" | OMonitor _ => "PodMonitor"
  end.

(** ** The API server *)

Class KubeClient (W : Type) := {
  k_listSets : string → gmap string string → M W (list StatefulSet);
  k_listKeys : string → M W (list FSAccessKey);
  k_getCluster : string → string → M W FSCluster;
  k_getSecret : string → string → M W Secret;
  k_getPVC : string → string → M W PVC;
  k_apply : kobj → M W unit;
  k_create : kobj → M W unit;
  k_delete : kind → string → string → bool → M W unit;
  k_updatePVC : PVC → M W unit;
  (** A status patch is the difference of two versions of the object, and
      leaves the caller with what the server stored. *)
  k_patchStatus : FSCluster → FSCluster → M W FSCluster;
  (** [controllerutil.SetControllerReference] and the conversion to
      unstructured content may fail; the owner reference they add is not part
      of the object records. *)
  k_setOwner : FSCluster → kobj → result unit;
  k_toUnstructured : kobj → result unit;
  k_podMonitorMapped : M W unit;
  (** The clock, in nanoseconds, and the system's randomness: the bytes
      [rand.Read] fills a buffer with. *)
  k_now : W → Z * W;
  k_rand : M W (nat → ascii);
  (** [meta.SetStatusCondition] *)
  k_setCondition : list Condition → Condition → list Condition;
  (** Go's runtime picks the order of every range over a map anew. *)
  k_mapOrder : W → MapOrder * W;
}.

(** A choice made outside the program, which cannot fail. *)
Definition draw {W A} (choose : W → A * W) : M W A := λ w, let '(a, w') := choose w in (Ok a, w').

(** ** What a controller asks of the outside *)

Inductive action :=
  | AApply (o : kobj)
  | ACreate (o : kobj)
  | ADelete (k : kind) (namespace name : string) (orphan : bool)
  | AUpdatePVC (p : PVC)
  | APatchStatus (base o : FSCluster)
  | AApplyLayout (url : string) (roles : list Role) (widths : list Z)
  | AReload (url : string)
  | AEvent (type reason message : string)
  | ARecordCluster (o : FSCluster)
  | ARecordUpdateFinished (o : FSCluster) (startedAt : Z)
  | ARecordReconcileError (controller : string)
  | AForget (namespace name : string)
  | AUpdateBucket (b : FSBucket)
  | APatchBucketStatus (base b : FSBucket)
  | AMakeBucket (endpoint bucket : string)
  | ARemoveBucket (endpoint bucket : string)
  | ASetScheme (url bucket scheme : string)
  | AUpdateKey (k : FSAccessKey)
  | APatchKey (base k : FSAccessKey)
  | APatchKeyStatus (base k : FSAccessKey).

(** Events and metrics report; everything else changes the world. *)
Definition reporting (a : action) : Prop :=
  match a with
  | AEvent _ _ _ | ARecordCluster _ | ARecordUpdateFinished _ _ | ARecordReconcileError _
  | AForget _ _ => True
  | _ => False
  end.

Record Env (W P : Type) := mkEnv { e_world : W; e_log : list action; e_st : P }.
Arguments mkEnv {W P}.
Arguments e_world {W P}.
Arguments e_log {W P}.
Arguments e_st {W P}.

Section env.
Context {W P : Type}.

(** A call that only reads, or whose effect is logged separately. *)
Definition call {A} (m : M W A) : M (Env W P) A := λ s,
  let '(r, w) := m (e_world s) in (r, mkEnv w (e_log s) (e_st s)).

Definition emit (a : action) : M (Env W P) unit :=
  λ s, (Ok tt, mkEnv (e_world s) (e_log s ++ [a]) (e_st s)).

(** A call that asks for a change: logged as it is issued. *)
Definition issue {A} (a : action) (m : M W A) : M (Env W P) A := emit a ≫= λ _, call m.

Definition get_st : M (Env W P) P := gets e_st.
Definition put_st (f : P → P) : M (Env W P) unit :=
  modify (λ s, mkEnv (e_world s) (e_log s) (f (e_st s))).

Definition event (type reason message : string) : M (Env W P) unit := emit (AEvent type reason message).

Definition now `{!KubeClient W} : M (Env W P) Z := λ s,
  let '(t, w) := k_now (e_world s) in (Ok t, mkEnv w (e_log s) (e_st s)).

(** The orders one call of validation ranges over its maps in. *)
Definition mapOrder `{!KubeClient W} : M (Env W P) MapOrder := call (draw k_mapOrder).

Lemma mapOrder_eq `{!KubeClient W} (s : Env W P) :
  ∃ order w, mapOrder s = (Ok order, mkEnv w (e_log s) (e_st s)).
Proof.
  unfold mapOrder, call, draw. destruct (k_mapOrder (e_world s)) as [order w]. by exists order, w.
Qed.

Lemma call_eq {A} (m : M W A) s :
  call m s = let '(r, w) := m (e_world s) in (r, mkEnv w (e_log s) (e_st s)).
Proof. done. Qed.

Lemma issue_eq {A} a (m : M W A) s :
  issue a m s = let '(r, w) := m (e_world s) in (r, mkEnv w (e_log s ++ [a]) (e_st s)).
Proof. done. Qed.

(** *** The log grows by entries of a kind; the state moves along a preorder *)

Definition log_ext (φ : action → Prop) : relation (Env W P) := λ s s',
  ∃ l, e_log s' = e_log s ++ l ∧ Forall φ l.

#[global] Instance log_ext_preorder φ : PreOrder (log_ext φ).
Proof.
  split.
  - intros s. exists []. by rewrite app_nil_r.
  - intros s1 s2 s3 (l1 & E1 & H1) (l2 & E2 & H2). exists (l1 ++ l2).
    by rewrite E2, E1, app_assoc, Forall_app.
Qed.

Definition st_rel (Q : relation P) : relation (Env W P) := λ s s', Q (e_st s) (e_st s').

#[global] Instance st_rel_preorder Q `{!PreOrder Q} : PreOrder (st_rel Q).
Proof. split; unfold st_rel; [intros ?|intros ???]; [reflexivity|apply transitivity]. Qed.

Lemma log_ext_mono (φ ψ : action → Prop) s s' :
  (∀ a, φ a → ψ a) → log_ext φ s s' → log_ext ψ s s'.
Proof. intros H (l & E & Hl). exists l. split; [done|]. eapply Forall_impl; eauto. Qed.

Lemma log_ext_of_log (φ : action → Prop) s s' : e_log s' = e_log s → log_ext φ s s'.
Proof. intros E. exists []. by rewrite app_nil_r. Qed.

(** Both at once: what a step does to the log and to the state. *)
Definition env_rel (φ : action → Prop) (Q : relation P) : relation (Env W P) := λ s s',
  log_ext φ s s' ∧ st_rel Q s s'.

#[global] Instance env_rel_preorder φ Q `{!PreOrder Q} : PreOrder (env_rel φ Q).
Proof.
  split; [split; reflexivity|]. intros s1 s2 s3 [] []. split; by etrans.
Qed.

Section rules.
Context (φ : action → Prop) (Q : relation P) `{!PreOrder Q}.

Lemma resp_call {A} (m : M W A) s : resp (env_rel φ Q) (call m) s.
Proof.
  unfold resp, call. destruct (m (e_world s)). split; [by apply log_ext_of_log|].
  unfold st_rel. simpl. reflexivity.
Qed.

Lemma resp_now `{!KubeClient W} s : resp (env_rel φ Q) now s.
Proof.
  unfold resp, now. destruct (k_now (e_world s)). split; [by apply log_ext_of_log|].
  unfold st_rel. simpl. reflexivity.
Qed.

Lemma resp_emit a s : φ a → resp (env_rel φ Q) (emit a) s.
Proof.
  intros Ha. split; [exists [a]; by rewrite Forall_singleton|]. unfold st_rel. simpl. reflexivity.
Qed.

Lemma resp_issue {A} a (m : M W A) s : φ a → resp (env_rel φ Q) (issue a m) s.
Proof.
  intros Ha. apply resp_bind; [apply _|by apply resp_emit|]. intros. apply resp_call.
Qed.

Lemma resp_event t r m s : φ (AEvent t r m) → resp (env_rel φ Q) (event t r m) s.
Proof. apply resp_emit. Qed.

Lemma resp_put_st f s : Q (e_st s) (f (e_st s)) → resp (env_rel φ Q) (put_st f) s.
Proof. intros H. split; [by apply log_ext_of_log|]. exact H. Qed.

Lemma resp_get_st s : resp (env_rel φ Q) get_st s.
Proof. unfold resp; simpl. reflexivity. Qed.
End rules.
End env.

#[export] Hint Resolve resp_call resp_now resp_get_st : resp.

(** ** Reading the log *)

(** The StatefulSet an action applies, the pod or StatefulSet it deletes. *)
Definition a_applied (a : action) : option string :=
  match a with AApply (OStatefulSet s) => Some (set_Name s) | _ => None end.

Definition a_podDeleted (a : action) : option string :=
  match a with ADelete KindPod _ name _ => Some name | _ => None end.

Definition a_setDeleted (a : action) : option (string * bool) :=
  match a with ADelete KindSet _ name orphan => Some (name, orphan) | _ => None end.

Definition applied_sets (l : list action) : list string := omap a_applied l.

(** An action that neither applies a StatefulSet nor deletes anything. *)
Definition harmless (a : action) : Prop :=
  match a with AApply (OStatefulSet _) | ADelete _ _ _ _ => False | _ => True end.

Lemma applied_sets_app l1 l2 : applied_sets (l1 ++ l2) = applied_sets l1 ++ applied_sets l2.
Proof. unfold applied_sets. apply omap_app. Qed.

Lemma Forall_applied_sets (P : string → Prop) l :
  Forall P (applied_sets l) ↔ Forall (λ a, ∀ n, a_applied a = Some n → P n) l.
Proof.
  unfold applied_sets. rewrite !Forall_forall. split.
  - intros H a Ha n Hn. apply H, list_elem_of_omap. eauto.
  - intros H n Hn. apply list_elem_of_omap in Hn as (a & Ha & Hn). eauto.
Qed.

Lemma harmless_applied l : Forall harmless l → applied_sets l = [].
Proof.
  induction 1 as [|a l Ha Hl IH]; [done|].
  change (applied_sets (a :: l)) with (applied_sets ([a] ++ l)). rewrite applied_sets_app, IH, app_nil_r.
  destruct a as [o| | | | | | | | | | | | | | | | | | |]; [by destruct o|done..].
Qed.
