(* ===== verification/Course.v ===== *)
(** * In the course of a run

    What a theorem says was heard, it says was heard during the run it is about:
    after the world the run started in, before the one it ended in, and in the
    order the theorem names.  The world moves by the calls the operator makes,
    and [later] is what any number of them lead to; [heard] is a call between two
    worlds with its answer.  [timed] is the frame relation of a computation whose
    log entries are justified by what was heard before them. *)

From S2P Require Import Prelude.
From S2P Require Import FsClient.
From S2P Require Import Kube.

(** ** The calls *)

Inductive kube_step {W} `{!KubeClient W} : relation W :=
  | ks_listSets ns sel w : kube_step w (k_listSets ns sel w).2
  | ks_listKeys ns w : kube_step w (k_listKeys ns w).2
  | ks_getCluster ns name w : kube_step w (k_getCluster ns name w).2
  | ks_getSecret ns name w : kube_step w (k_getSecret ns name w).2
  | ks_getPVC ns name w : kube_step w (k_getPVC ns name w).2
  | ks_apply o w : kube_step w (k_apply o w).2
  | ks_create o w : kube_step w (k_create o w).2
  | ks_delete k ns name orphan w : kube_step w (k_delete k ns name orphan w).2
  | ks_updatePVC c w : kube_step w (k_updatePVC c w).2
  | ks_patchStatus base o w : kube_step w (k_patchStatus base o w).2
  | ks_podMonitorMapped w : kube_step w (k_podMonitorMapped w).2
  | ks_now w : kube_step w (k_now w).2
  | ks_rand w : kube_step w (k_rand w).2
  | ks_mapOrder w : kube_step w (draw k_mapOrder w).2.

Inductive admin_step {W} `{!Interface W} : relation W :=
  | as_Client url token w : admin_step w (adm_Client url token w).2
  | as_Info url token w : admin_step w (adm_Info url token w).2
  | as_Reload url token w : admin_step w (adm_Reload url token w).2
  | as_Layout url token w : admin_step w (adm_Layout url token w).2
  | as_ApplyLayout url token roles widths w : admin_step w (adm_ApplyLayout url token roles widths w).2
  | as_Nodes url token w : admin_step w (adm_Nodes url token w).2
  | as_AccessKeys url token w : admin_step w (adm_AccessKeys url token w).2
  | as_GetBucketScheme url token bucket w : admin_step w (adm_GetBucketScheme url token bucket w).2
  | as_SetBucketScheme url token bucket scheme w : admin_step w (adm_SetBucketScheme url token bucket scheme w).2.

(** The steps of one component among those of a run. *)
Class Part {W} (part whole : relation W) : Prop := part w w' : part w w' → whole w w'.

#[global] Instance Part_refl {W} (step : relation W) : Part step step.
Proof. by intros w w'. Qed.

(** ** Time *)

Section course.
Context {W : Type} (step : relation W).

Definition later : relation W := rtc step.

#[global] Instance later_preorder : PreOrder later.
Proof. apply _. Qed.

(** [m] is a call, or some. *)
Class Moves {A} (m : M W A) : Prop := moves w : later w (m w).2.

Lemma call_later {A} {m : M W A} `{!Moves m} {w r w'} : m w = (r, w') → later w w'.
Proof. intros E. pose proof (moves (m := m) w) as H. by rewrite E in H. Qed.

(** Between [w0] and [w1], [m] was called and answered [r]. *)
Definition heard (w0 w1 : W) {A} (m : M W A) (r : result A) : Prop :=
  ∃ w w', later w0 w ∧ m w = (r, w') ∧ later w' w1.

(** Between [w0] and [w1] the call was made, whatever the answer. *)
Definition made (w0 w1 : W) {A} (m : M W A) : Prop := ∃ r, heard w0 w1 m r.

Lemma heard_now {A} w0 w w' (m : M W A) r : later w0 w → m w = (r, w') → heard w0 w' m r.
Proof. intros H1 H2. exists w, w'. split_and!; [done..|reflexivity]. Qed.

Lemma heard_later {A} w0 w1 w2 (m : M W A) r : heard w0 w1 m r → later w1 w2 → heard w0 w2 m r.
Proof. intros (w & w' & H1 & H2 & H3) H. exists w, w'. split_and!; [done..|]. by etrans. Qed.

Lemma heard_earlier {A} w0 w1 w2 (m : M W A) r : later w0 w1 → heard w1 w2 m r → heard w0 w2 m r.
Proof. intros H (w & w' & H1 & H2 & H3). exists w, w'. split_and!; [by etrans|done..]. Qed.

Lemma made_now {A} w0 w (m : M W A) : later w0 w → made w0 (m w).2 m.
Proof. intros H. exists (m w).1. apply (heard_now _ w); [done|]. by destruct (m w). Qed.

Lemma made_later {A} w0 w1 w2 (m : M W A) : made w0 w1 m → later w1 w2 → made w0 w2 m.
Proof. intros [r H] H'. exists r. by eapply heard_later. Qed.

(** ** Computations in the course of a run *)

Context {P : Type}.
Implicit Types s : Env W P.

(** Facts that stay true as the world moves on. *)
Class Lasting (φ : W → action → Prop) : Prop := lasting w w' a : later w w' → φ w a → φ w' a.

#[global] Instance anything_lasting : Lasting (λ _ _, True).
Proof. done. Qed.

(** The world moves on, the log grows by entries justified by its end, and the
    state moves along [Q]. *)
Definition timed (φ : W → action → Prop) (Q : relation P) : relation (Env W P) := λ s s',
  later (e_world s) (e_world s') ∧
  (∃ l, e_log s' = e_log s ++ l ∧ Forall (φ (e_world s')) l) ∧ Q (e_st s) (e_st s').

Context (φ : W → action → Prop) (Q : relation P) `{!PreOrder Q}.

#[global] Instance timed_preorder `{!Lasting φ} : PreOrder (timed φ Q).
Proof.
  split; [intros s; split_and!; [reflexivity|exists []; by rewrite app_nil_r|reflexivity]|].
  intros s1 s2 s3 (H1 & (l1 & E1 & F1) & Q1) (H2 & (l2 & E2 & F2) & Q2). split_and!; [by etrans| |by etrans].
  exists (l1 ++ l2). rewrite E2, E1, app_assoc. split; [done|]. apply Forall_app. split; [|done].
  eapply Forall_impl; [exact F1|]. intros a. by apply lasting.
Qed.

Lemma timed_call {A} (m : M W A) `{!Moves m} s : resp (timed φ Q) (call m) s.
Proof.
  unfold resp, timed. rewrite call_eq. pose proof (moves (m := m) (e_world s)) as H.
  destruct (m (e_world s)). split_and!; [done| |simpl; reflexivity]. exists []. by rewrite app_nil_r.
Qed.

Lemma timed_issue {A} a (m : M W A) `{!Moves m} s :
  φ (m (e_world s)).2 a → resp (timed φ Q) (issue a m) s.
Proof.
  intros Ha. unfold resp, timed. rewrite issue_eq. pose proof (moves (m := m) (e_world s)) as H.
  destruct (m (e_world s)). split_and!; [done| |simpl; reflexivity]. exists [a]. by rewrite Forall_singleton.
Qed.

Lemma timed_emit a s : φ (e_world s) a → resp (timed φ Q) (emit a) s.
Proof. intros Ha. split_and!; [done| |simpl; reflexivity]. exists [a]. by rewrite Forall_singleton. Qed.

Lemma timed_event t r m s : φ (e_world s) (AEvent t r m) → resp (timed φ Q) (event t r m) s.
Proof. apply timed_emit. Qed.

Lemma timed_put_st f s : Q (e_st s) (f (e_st s)) → resp (timed φ Q) (put_st f) s.
Proof. intros H. split_and!; [done| |exact H]. exists []. by rewrite app_nil_r. Qed.

Lemma timed_get_st s : resp (timed φ Q) get_st s.
Proof. split_and!; [done|exists []; by rewrite app_nil_r|simpl; reflexivity]. Qed.

Lemma timed_later {A} (m : M (Env W P) A) s r s' :
  resp (timed φ Q) m s → m s = (r, s') → later (e_world s) (e_world s').
Proof. intros [H _] E. by rewrite E in H. Qed.

Lemma timed_run {A} (m : M (Env W P) A) s :
  e_log s = [] → resp (timed φ Q) m s → Forall (φ (e_world (m s).2)) (e_log (m s).2).
Proof. intros E (_ & (l & -> & H) & _). by rewrite E. Qed.
End course.

Arguments Moves {W} step {A} m.
#[export] Hint Resolve timed_call timed_get_st : resp.

(** ** Every call moves the world on *)

Lemma moves_part {W} (part step : relation W) `{!Part part step} {A} (m : M W A) :
  (∀ w, part w (m w).2) → Moves step m.
Proof. intros H w. apply rtc_once, (Course.part _ _), H. Qed.

#[export] Hint Extern 1 (Moves _ _) => apply (moves_part kube_step); [apply _|intros ?; solve [constructor]] : typeclass_instances.
#[export] Hint Extern 1 (Moves _ _) => apply (moves_part admin_step); [apply _|intros ?; solve [constructor]] : typeclass_instances.

Lemma timed_now {W P} `{!KubeClient W} (step : relation W) `{!Part kube_step step}
    (φ : W → action → Prop) (Q : relation P) `{!PreOrder Q} (s : Env W P) :
  resp (timed step φ Q) now s.
Proof.
  assert (later step (e_world s) (k_now (e_world s)).2) as H by (apply rtc_once, (part _ _); constructor).
  unfold resp, timed, now. destruct (k_now (e_world s)). split_and!; [done| |simpl; reflexivity].
  exists []. by rewrite app_nil_r.
Qed.
#[export] Hint Resolve timed_now : resp.

(** The same from a world the run has reached: what justifies an entry may be
    any call after [w0]. *)
Definition since {W P} (step : relation W) (w0 : W) (φ : W → action → Prop) (Q : relation P) : relation (Env W P) :=
  λ s s', later step w0 (e_world s) → timed step φ Q s s'.

Section since.
Context {W P : Type} (step : relation W) (w0 : W) (φ : W → action → Prop) (Q : relation P) `{!PreOrder Q}.
Implicit Types s : Env W P.

#[global] Instance since_preorder `{!Lasting step φ} : PreOrder (since step w0 φ Q).
Proof.
  split; [intros s _; reflexivity|]. intros s1 s2 s3 H1 H2 Hw. specialize (H1 Hw).
  etrans; [exact H1|]. apply H2. etrans; [exact Hw|exact (proj1 H1)].
Qed.

Lemma since_call {A} (m : M W A) `{!Moves step m} s : resp (since step w0 φ Q) (call m) s.
Proof. intros _. by apply timed_call. Qed.

Lemma since_get_st s : resp (since step w0 φ Q) get_st s.
Proof. intros _. by apply timed_get_st. Qed.

Lemma since_now `{!KubeClient W, !Part kube_step step} s : resp (since step w0 φ Q) now s.
Proof. intros _. by apply timed_now. Qed.

Lemma since_put_st f s : Q (e_st s) (f (e_st s)) → resp (since step w0 φ Q) (put_st f) s.
Proof. intros H _. by apply timed_put_st. Qed.

Lemma since_emit a s : (later step w0 (e_world s) → φ (e_world s) a) → resp (since step w0 φ Q) (emit a) s.
Proof. intros H Hw. apply timed_emit; [done|auto]. Qed.

Lemma since_event t r m s :
  (later step w0 (e_world s) → φ (e_world s) (AEvent t r m)) → resp (since step w0 φ Q) (event t r m) s.
Proof. apply since_emit. Qed.

Lemma since_issue {A} a (m : M W A) `{!Moves step m} s :
  (later step w0 (e_world s) → φ (m (e_world s)).2 a) → resp (since step w0 φ Q) (issue a m) s.
Proof. intros H Hw. apply timed_issue; auto. Qed.
End since.

#[export] Hint Resolve since_call since_get_st since_now : resp.

(** The calls of the FSCluster controller. *)
Inductive pass_step {W} `{!KubeClient W, !Interface W} : relation W :=
  | pstep_kube w w' : kube_step w w' → pass_step w w'
  | pstep_admin w w' : admin_step w w' → pass_step w w'.

#[global] Instance kube_in_pass {W} `{!KubeClient W, !Interface W} : Part kube_step pass_step := pstep_kube.
#[global] Instance admin_in_pass {W} `{!KubeClient W, !Interface W} : Part admin_step pass_step := pstep_admin.

(** The leaves [rsolve] stops at: an action that is justified, an update of the
    state along its relation. *)
Ltac tleaf :=
  first [ apply timed_put_st | apply timed_event | apply timed_issue | apply timed_emit
        | apply since_put_st | apply since_event | apply since_issue | apply since_emit ];
  try exact _; try (simpl; done).
Ltac tsolve := rsolve; try tleaf.
