(* ===== verification/KeyGen.v ===== *)
(** * Secret material (src/internal/keygen/keygen.go)

    Tokens and access keys are encodings of random bytes.  The randomness is
    the world's ([k_rand]): a buffer of [n] bytes is its first [n]. *)

From S2P Require Import Prelude.
From S2P Require Import Encoding.
From S2P Require Import Kube.

Definition tokenBytes : nat := 32.
Definition accessKeyBytes : nat := 9.
Definition accessKeyPrefix : string := "AK".

(** A buffer of [n] bytes, filled. *)
Definition fill (n : nat) (bytes : nat → ascii) : string :=
  String.string_of_list_ascii (bytes <$> seq 0 n).

Section keygen.
Context {W P : Type} `{!KubeClient W}.

Definition keygen_Token : M (Env W P) string :=
  bytes ← wrap_err "read random" (call k_rand);
  ret (base64url (fill tokenBytes bytes)).

Definition keygen_AccessKey : M (Env W P) string :=
  bytes ← wrap_err "read random" (call k_rand);
  ret (accessKeyPrefix +:+ hex_encode (fill accessKeyBytes bytes)).
End keygen.

(** * Theorems *)

Lemma fill_length n bytes : String.length (fill n bytes) = n.
Proof.
  assert (∀ l, String.length (String.string_of_list_ascii l) = length l) as Hl
    by (induction l; simpl; congruence).
  unfold fill. by rewrite Hl, length_fmap, length_seq.
Qed.

(** What a token is: 43 URL-safe characters that spell the random bytes. *)
Definition token_of (bytes : nat → ascii) (token : string) : Prop :=
  String.length token = 43 ∧ str_all (in_alphabet url_alphabet) token = true ∧
  base64url_decode token = Some (fill tokenBytes bytes).

(** What an access key is: the prefix and 18 hexadecimal digits of the bytes. *)
Definition access_of (bytes : nat → ascii) (access : string) : Prop :=
  ∃ digits, access = accessKeyPrefix +:+ digits ∧ String.length digits = 18 ∧
    str_all (in_alphabet hex_alphabet) digits = true ∧ hex_decode digits = Some (fill accessKeyBytes bytes).

Lemma token_of_encoding bytes : token_of bytes (base64url (fill tokenBytes bytes)).
Proof.
  unfold token_of. rewrite base64url_length, fill_length.
  split_and!; [done|apply base64url_chars|apply base64url_roundtrip].
Qed.

Lemma access_of_encoding bytes : access_of bytes (accessKeyPrefix +:+ hex_encode (fill accessKeyBytes bytes)).
Proof.
  eexists. split; [done|]. rewrite hex_length, fill_length.
  split_and!; [done|apply hex_chars|apply hex_roundtrip].
Qed.

Section keygen.
Context {W P : Type} `{!KubeClient W}.
Implicit Types s : Env W P.

Lemma Token_spec s token s' :
  keygen_Token s = (Ok token, s') →
  ∃ bytes w', k_rand (e_world s) = (Ok bytes, w') ∧ s' = mkEnv w' (e_log s) (e_st s) ∧ token_of bytes token.
Proof.
  unfold keygen_Token, wrap_err, call, mbind, M_bind. destruct (k_rand (e_world s)) as [[bytes|e] w'] eqn:E; [|done].
  remember (base64url _) as t eqn:Ht. unfold ret. intros [= <- <-]. subst t. exists bytes, w'. split_and!; [done..|apply token_of_encoding].
Qed.

Lemma AccessKey_spec s access s' :
  keygen_AccessKey s = (Ok access, s') →
  ∃ bytes w', k_rand (e_world s) = (Ok bytes, w') ∧ s' = mkEnv w' (e_log s) (e_st s) ∧ access_of bytes access.
Proof.
  unfold keygen_AccessKey, wrap_err, call, mbind, M_bind. destruct (k_rand (e_world s)) as [[bytes|e] w'] eqn:E; [|done].
  remember (hex_encode _) as t eqn:Ht. unfold ret. intros [= <- <-]. subst t. exists bytes, w'. split_and!; [done..|apply access_of_encoding].
Qed.

(** Generated secrets lose none of the randomness and are safe to print: a
    token is 43 URL-safe characters that decode to exactly the 32 random bytes,
    an access key is the prefix and 18 hexadecimal digits that decode to exactly
    the 9 random bytes; and when no randomness is to be had both fail, with
    nothing generated. *)
Theorem generated_secrets s :
  match k_rand (e_world s) with
  | (Ok bytes, w) =>
      ∃ token access, keygen_Token s = (Ok token, mkEnv w (e_log s) (e_st s)) ∧ token_of bytes token ∧
        keygen_AccessKey s = (Ok access, mkEnv w (e_log s) (e_st s)) ∧ access_of bytes access
  | (Err e, w) =>
      keygen_Token s = (Err (ErrWrap "read random" e), mkEnv w (e_log s) (e_st s)) ∧
      keygen_AccessKey s = (Err (ErrWrap "read random" e), mkEnv w (e_log s) (e_st s))
  end.
Proof.
  unfold keygen_Token, keygen_AccessKey, wrap_err, call, mbind, M_bind.
  destruct (k_rand (e_world s)) as [[bytes|e] w]; [|done]. unfold ret.
  exists (base64url (fill tokenBytes bytes)), (accessKeyPrefix +:+ hex_encode (fill accessKeyBytes bytes)).
  split_and!; [done|apply token_of_encoding|done|apply access_of_encoding].
Qed.
End keygen.
