(* ===== verification/Config.v ===== *)
(** * Rendered configuration (src/internal/fsconfig/config.go and
      src/internal/controller/fscluster/config.go)

    The configuration file of one node, assembled from the spec, and the
    revisions that drive rollouts and reloads.  The YAML and JSON encoders and
    SHA-256 are the class [Codec]: the theorems hold for any of them, and say
    what is fed to the hash rather than assume what comes out of it. *)

From S2P Require Import Prelude.
From S2P Require Import Encoding.
From S2P Require Import ApiTypes.
From S2P Require Import Defaults.
From S2P Require Import Nodes.
From S2P Require Import Kube.

(** ** The file schema (fsconfig) *)

Record cfg_TLS := mkcfg_TLS { CertFile : string; KeyFile : string }.

(** Timeouts in nanoseconds. *)
Record cfg_Server := mkcfg_Server {
  srv_Addr : string; ReadTimeout : Z; WriteTimeout : Z; IdleTimeout : Z;
  HealthPath : string; srv_TLS : cfg_TLS;
}.

Record cfg_Storage := mkcfg_Storage { Root : string; Fsync : string }.

Record cfg_Grant := mkcfg_Grant { cg_Bucket : string; cg_Permission : string }.
Record cfg_Key := mkcfg_Key { AccessKey : string; SecretKey : string; key_Grants : list cfg_Grant }.

Record cfg_Auth := mkcfg_Auth { Keys : list cfg_Key; cfg_PublicReadBuckets : list string }.

Record cfg_Admin := mkcfg_Admin { Enabled : bool; adm_Addr : string }.

Record cfg_Cluster := mkcfg_Cluster {
  NodeID : string; cl_Addr : string; cl_AdvertiseAddr : string; Peers : list string;
}.

Record cfg_Observability := mkcfg_Observability {
  ServiceName : string; EnableRequestLogging : bool; EnableMetrics : bool; EnableTracing : bool;
}.

Record Config := mkConfig {
  cfg_server : cfg_Server;
  cfg_storage : cfg_Storage;
  cfg_auth : cfg_Auth;
  cfg_admin : cfg_Admin;
  cfg_cluster : cfg_Cluster;
  cfg_observability : cfg_Observability;
  cfg_revision : string;
}.

(** Zero values of the sections. *)
Definition no_tls : cfg_TLS := mkcfg_TLS "" "".
Definition no_auth : cfg_Auth := mkcfg_Auth [] [].
Definition no_cluster : cfg_Cluster := mkcfg_Cluster "" "" "" [].

(** [Config.Validate]: the checks fs performs at startup. *)
Definition Validate (c : Config) : option error :=
  if bool_decide (srv_Addr (cfg_server c) = "") then Some (errors_New "server.addr is required")
  else if (ReadTimeout (cfg_server c) <=? 0)%Z || (WriteTimeout (cfg_server c) <=? 0)%Z
          || (IdleTimeout (cfg_server c) <=? 0)%Z
  then Some (errors_New "server timeouts must be positive")
  else if bool_decide (Root (cfg_storage c) = "") then Some (errors_New "storage.root is required")
  else if bool_decide (ServiceName (cfg_observability c) = "")
  then Some (errors_New "observability.service_name is required")
  else if bool_decide (NodeID (cfg_cluster c) = "") then
    if bool_decide (cl_AdvertiseAddr (cfg_cluster c) ≠ "") || bool_decide (Peers (cfg_cluster c) ≠ [])
    then Some (errors_New "cluster settings without cluster.node_id")
    else None
  else if bool_decide (cl_AdvertiseAddr (cfg_cluster c) = "")
  then Some (errors_New "cluster.advertise_addr is required (peers must be able to dial this node)")
  else None.

(** ** Encoders *)

(** [errors.Wrap] of a result. *)
Definition result_wrap {A} (msg : string) (r : result A) : result A :=
  match r with Ok a => Ok a | Err e => Err (ErrWrap msg e) end.

Class Codec := {
  yaml_Marshal : Config → result string;
  json_Template : PodTemplateSpec → result string;
  sha256 : string → string;
}.

(** The YAML library: an encoder with an indent writes a document behind what is
    in its buffer, and ends the stream; a decoder refuses unknown fields or not. *)
Class YAML := {
  yaml_Encode : Z → Config → string → result string;
  yaml_Close : Z → string → result string;
  yaml_Decode : bool → string → result Config;
}.

Definition yamlIndent : Z := 2.

Definition Marshal `{!YAML} (cfg : Config) : result string :=
  buf ← result_wrap "encode" (yaml_Encode yamlIndent cfg "");
  result_wrap "close encoder" (yaml_Close yamlIndent buf).

Definition Unmarshal `{!YAML} (data : string) : result Config := result_wrap "decode" (yaml_Decode true data).

(** The encoder the controller uses is this one. *)
Definition yaml_codec `{!YAML} (json : PodTemplateSpec → result string) (hash : string → string) : Codec :=
  {| yaml_Marshal := Marshal; json_Template := json; sha256 := hash |}.

(** ** Constants of config.go *)

Definition StorageRoot : string := "/var/lib/fs".
Definition ConfigDir : string := "/etc/fs".
Definition ConfigFileName : string := "config.yaml".
Definition ConfigPath : string := ConfigDir +:+ "/" +:+ ConfigFileName.
Definition TLSDir : string := ConfigDir +:+ "/tls".
Definition TLSCertPath : string := TLSDir +:+ "/tls.crt".
Definition TLSKeyPath : string := TLSDir +:+ "/tls.key".
Definition second : Z := 1000000000.
Definition serverReadTimeout : Z := 60 * second.
Definition serverWriteTimeout : Z := 120 * second.
Definition serverIdleTimeout : Z := 300 * second.
Definition healthPath : string := "/health".
Definition debugLogLevel : string := "debug".
Definition revisionPrefix : string := "cfg-".
Definition templatePrefix : string := "sts-".
Definition revisionDigits : nat := 12.

Definition listenAddr (port : Z) : string := ":" +:+ pretty port.

(** [RenderOptions] and [RenderedConfig] *)
Record RenderOptions := mkRenderOptions { opt_Keys : list cfg_Key }.
Record RenderedConfig := mkRenderedConfig { Data : string; rc_Revision : string }.

(** ** Assembling a configuration *)

Definition serverConfig (spec : FSClusterSpec) : cfg_Server :=
  mkcfg_Server (listenAddr S3Port) serverReadTimeout serverWriteTimeout serverIdleTimeout healthPath
    (if bool_decide (tls_SecretName (TLS (S3 spec)) ≠ "")
     then mkcfg_TLS TLSCertPath TLSKeyPath else no_tls).

Definition clusterConfig (cluster : FSCluster) (node : Node) : cfg_Cluster :=
  let peers := AdvertiseAddr (fsc_Name cluster) (fsc_Namespace cluster)
    <$> filter (λ name, name ≠ node_Name node) (NodeNames (fsc_Spec cluster) (fsc_Name cluster)) in
  mkcfg_Cluster (node_Name node) (listenAddr PeerPort)
    (AdvertiseAddr (fsc_Name cluster) (fsc_Namespace cluster) (node_Name node)) peers.

Definition observabilityConfig (cluster : FSCluster) : cfg_Observability :=
  let obs := Observability (fsc_Spec cluster) in
  mkcfg_Observability (fsc_Name cluster) (bool_decide (LogLevel obs = debugLogLevel)) true
    (bool_decide (otlp_Endpoint (OTLP obs) ≠ "")).

Definition nodeConfig (cluster : FSCluster) (node : Node) (opts : RenderOptions) : result Config :=
  if bool_decide (fsc_Name cluster = "") || bool_decide (fsc_Namespace cluster = "")
  then Err (errors_New "cluster name and namespace are required")
  else if bool_decide (node_Name node = "") then Err (errors_New "node name is required")
  else
    let spec := fsc_Spec cluster in
    Ok (mkConfig (serverConfig spec) (mkcfg_Storage StorageRoot "")
          (mkcfg_Auth (opt_Keys opts) (PublicReadBuckets (Auth spec)))
          (mkcfg_Admin true (listenAddr AdminPort))
          (if SingleNode spec then no_cluster else clusterConfig cluster node)
          (observabilityConfig cluster) "").

Definition configHeader (cluster : FSCluster) (node : Node) : string :=
  "# Rendered by fs-operator for node " +:+ node_Name node +:+ " of FSCluster "
    +:+ fsc_Namespace cluster +:+ "/" +:+ fsc_Name cluster +:+ ". Do not edit."
    +:+ String (Ascii.ascii_of_nat 10) "".

Definition with_revision (c : Config) (revision : string) : Config :=
  mkConfig (cfg_server c) (cfg_storage c) (cfg_auth c) (cfg_admin c) (cfg_cluster c)
    (cfg_observability c) revision.

(** The part of a configuration only a restart applies: credentials, peers and
    the revision marker left out. *)
Definition restart_part (c : Config) : Config :=
  let cl := cfg_cluster c in
  mkConfig (cfg_server c) (cfg_storage c) no_auth (cfg_admin c)
    (mkcfg_Cluster (NodeID cl) (cl_Addr cl) (cl_AdvertiseAddr cl) []) (cfg_observability c) "".

(** What [ConfigRevision] and [PodTemplateRevision] feed the digest: each entry
    as [len:namelen:data]. *)
Definition digest_entry (x : string * string) : string :=
  pretty (String.length x.1) +:+ ":" +:+ x.1 +:+ pretty (String.length x.2) +:+ ":" +:+ x.2.

Fixpoint digest_stream (l : list (string * string)) : string :=
  match l with
  | [] => ""
  | x :: l' => digest_entry x +:+ digest_stream l'
  end.

Definition config_entries (configs : gmap string RenderedConfig) : list (string * string) :=
  (λ name, (name, default "" (Data <$> configs !! name))) <$> sorted_keys configs.

Section render.
Context `{!Codec}.

Definition format (prefix digest : string) : string :=
  prefix +:+ String.substring 0 revisionDigits (hex_encode digest).

Definition Revision (config : string) : string := format revisionPrefix (sha256 config).

Definition RenderNodeConfig (cluster : FSCluster) (node : Node) (opts : RenderOptions)
    : result RenderedConfig :=
  cfg ← nodeConfig cluster node opts;
  base ← result_wrap ("marshal config of node " +:+ fmt_q (node_Name node)) (yaml_Marshal cfg);
  let cfg := with_revision cfg (Revision base) in
  data ← result_wrap ("marshal config of node " +:+ fmt_q (node_Name node)) (yaml_Marshal cfg);
  Ok (mkRenderedConfig (configHeader cluster node +:+ data) (cfg_revision cfg)).

Fixpoint RenderNodeConfigs (cluster : FSCluster) (nodes : list Node) (opts : RenderOptions)
    (configs : gmap string RenderedConfig) : result (gmap string RenderedConfig) :=
  match nodes with
  | [] => Ok configs
  | node :: nodes' =>
      rendered ← RenderNodeConfig cluster node opts;
      RenderNodeConfigs cluster nodes' opts (<[node_Name node := rendered]> configs)
  end.

Definition ConfigRevision (configs : gmap string RenderedConfig) : string :=
  format revisionPrefix (sha256 (digest_stream (config_entries configs))).

Definition RestartRevision (cluster : FSCluster) (node : Node) (opts : RenderOptions)
    : result string :=
  cfg ← nodeConfig cluster node opts;
  data ← result_wrap ("marshal config of node " +:+ fmt_q (node_Name node))
           (yaml_Marshal (restart_part cfg));
  Ok (Revision data).
End render.

(** * Theorems *)

Lemma pretty_N_char_no_colon (n : N) : pretty_N_char n ≠ ":"%char.
Proof. unfold pretty_N_char. by repeat case_match. Qed.

Lemma pretty_N_go_no_colon (x : N) (s : string) :
  str_has ":" s = false → str_has ":" (pretty_N_go x s) = false.
Proof.
  revert s. induction (N.lt_wf_0 x) as [x _ IH]; intros s Hs.
  destruct (decide (x = 0)%N) as [->|Hx]; [by rewrite pretty_N_go_0|].
  rewrite pretty_N_go_step by lia. apply IH; [apply N.div_lt; lia|].
  simpl. rewrite Hs, bool_decide_false; [done|].
  intros Heq. by apply (pretty_N_char_no_colon (x `mod` 10)%N).
Qed.

Lemma pretty_nat_no_colon (n : nat) : str_has ":" (pretty n) = false.
Proof.
  unfold pretty, pretty_nat, pretty, pretty_N. case_decide; [done|].
  by apply pretty_N_go_no_colon.
Qed.

(** ** What a restart is for *)

(** C36: The restart revision of a node is a function of what only a restart
    can apply.  Credentials, public buckets, volume sizes, widths, and any
    topology change that keeps it clustered (so the node's peers) leave it
    alone. *)
Theorem RestartRevision_ignores_hot `{!Codec} (c c' : FSCluster) (node : Node) (opts opts' : RenderOptions) :
  fsc_Name c = fsc_Name c' → fsc_Namespace c = fsc_Namespace c' →
  tls_SecretName (TLS (S3 (fsc_Spec c))) = tls_SecretName (TLS (S3 (fsc_Spec c'))) →
  Observability (fsc_Spec c) = Observability (fsc_Spec c') →
  SingleNode (fsc_Spec c) = SingleNode (fsc_Spec c') →
  RestartRevision c node opts = RestartRevision c' node opts'.
Proof.
  intros Hn Hns Ht Ho Hs. unfold RestartRevision, nodeConfig. rewrite Hn, Hns, Hs.
  destruct (_ || _); [done|]. destruct (bool_decide (node_Name node = "")); [done|]. simpl.
  enough (restart_part _ = restart_part _) as -> by done.
  unfold restart_part; simpl. unfold serverConfig, observabilityConfig. rewrite Hn, Ht, Ho. f_equal.
  destruct (SingleNode (fsc_Spec c')); [done|]. unfold clusterConfig; simpl. by rewrite Hn, Hns.
Qed.

(** C38: Every configuration the operator renders passes the checks fs makes at
    startup. *)
Theorem nodeConfig_valid (cluster : FSCluster) (node : Node) (opts : RenderOptions) (cfg : Config) :
  nodeConfig cluster node opts = Ok cfg → Validate cfg = None.
Proof.
  unfold nodeConfig. destruct (bool_decide (fsc_Name cluster = "")) eqn:Hn; [done|].
  destruct (bool_decide (fsc_Namespace cluster = "")); [done|]. simpl.
  destruct (bool_decide (node_Name node = "")) eqn:Hnode; [done|]. intros Heq. injection Heq as <-.
  unfold Validate; simpl. rewrite Hn. destruct (SingleNode (fsc_Spec cluster)); [done|]. simpl.
  rewrite Hnode. unfold AdvertiseAddr, PodName. by destruct (node_Name node).
Qed.

(** ** The digest input is unambiguous *)

Lemma str_split_first (c : ascii) (a b x y : string) :
  str_has c a = false → str_has c b = false → a +:+ String c x = b +:+ String c y → a = b ∧ x = y.
Proof.
  revert b. induction a as [|d a IH]; intros b Ha Hb Heq.
  - destruct b as [|d' b]; [by injection Heq as ->|].
    rewrite str_app_cons in Heq. injection Heq as <- _. simpl in Hb. by rewrite bool_decide_true in Hb.
  - destruct b as [|d' b].
    + rewrite str_app_cons in Heq. injection Heq as <- _. simpl in Ha. by rewrite bool_decide_true in Ha.
    + rewrite !str_app_cons in Heq. injection Heq as -> Heq. simpl in Ha, Hb.
      apply orb_false_iff in Ha as [_ Ha], Hb as [_ Hb]. by destruct (IH b Ha Hb Heq) as [-> ->].
Qed.

Lemma str_app_length_inj (a b x y : string) :
  String.length a = String.length b → a +:+ x = b +:+ y → a = b ∧ x = y.
Proof.
  revert b. induction a as [|c a IH]; intros [|d b] Hl Heq; simpl in Hl; try discriminate; [done|].
  rewrite !str_app_cons in Heq. injection Heq as -> Heq. injection Hl as Hl.
  by destruct (IH b Hl Heq) as [-> ->].
Qed.

Lemma length_prefixed_inj (a b x y : string) :
  pretty (String.length a) +:+ ":" +:+ a +:+ x = pretty (String.length b) +:+ ":" +:+ b +:+ y →
  a = b ∧ x = y.
Proof.
  intros H. apply (str_split_first ":") in H as [Hl Hx]; [|apply pretty_nat_no_colon..].
  apply (inj pretty) in Hl. by apply str_app_length_inj in Hx.
Qed.

Lemma digest_stream_cons n d l :
  digest_stream ((n, d) :: l) =
  pretty (String.length n) +:+ ":" +:+ n +:+ (pretty (String.length d) +:+ ":" +:+ d +:+ digest_stream l).
Proof.
  simpl. unfold digest_entry; simpl. by rewrite <- !str_app_assoc.
Qed.

(** What is fed to a digest determines every entry. *)
Lemma digest_stream_injective (l l' : list (string * string)) :
  digest_stream l = digest_stream l' → l = l'.
Proof.
  revert l'. induction l as [|[n d] l IH]; intros [|[n' d'] l'] H; [done| | |].
  1,2: rewrite digest_stream_cons in H; simpl in H.
  1: symmetry in H. 
  1,2: exfalso; destruct (pretty _) as [|c s]; discriminate H.
  rewrite !digest_stream_cons in H. apply length_prefixed_inj in H as [-> H].
  apply length_prefixed_inj in H as [-> H]. by rewrite (IH _ H).
Qed.

(** The configurations a revision is over: each node's name and text, in the
    order of the names. *)
Lemma config_entries_data (c1 c2 : gmap string RenderedConfig) :
  config_entries c1 = config_entries c2 ↔ Data <$> c1 = Data <$> c2.
Proof.
  unfold config_entries. split.
  - intros H. assert (sorted_keys c1 = sorted_keys c2) as Hk.
    { apply (f_equal (fmap fst)) in H. rewrite <- !list_fmap_compose in H.
      by rewrite !list_fmap_id in H. }
    apply map_eq. intros name. rewrite !lookup_fmap.
    pose proof (elem_of_sorted_keys c1 name) as H1. pose proof (elem_of_sorted_keys c2 name) as H2. rewrite Hk in H1.
    destruct (decide (name ∈ sorted_keys c2)) as [Hin|Hin].
    + destruct (proj1 H1 Hin) as [x Hx], (proj1 H2 Hin) as [y Hy]. rewrite Hk in H.
      apply (list_elem_of_lookup_1 _ _) in Hin as [i Hi]. apply (f_equal (λ l, l !! i)) in H.
      rewrite !list_lookup_fmap, Hi in H. simpl in H. rewrite Hx, Hy in *. simpl in *. congruence.
    + destruct (c1 !! name); [by destruct Hin; apply H1|]. destruct (c2 !! name); [by destruct Hin; apply H2|done].
  - intros H. rewrite <- (sorted_keys_fmap Data c1), <- (sorted_keys_fmap Data c2), H.
    apply list_fmap_ext. intros i name _. by rewrite <- !lookup_fmap, H.
Qed.

(** Two texts the truncated digest tells apart, if they differ. *)
Definition uncollided `{!Codec} (prefix a b : string) : Prop :=
  format prefix (sha256 a) = format prefix (sha256 b) → a = b.
