(* ===== verification/Builders.v ===== *)
(** * Object builders (src/internal/controller/fscluster/builders.go,
      statefulset.go, networkpolicy.go, podmonitor.go, accesskeys.go)

    The Kubernetes objects a pass wants to exist, each a function of the
    defaulted cluster.  API versions, protocols (always TCP) and policy types
    (always Ingress) are constants of the builders and carry no state, so the
    object records leave them out. *)

From S2P Require Import Prelude.
From S2P Require Import ApiTypes.
From S2P Require Import Defaults.
From S2P Require Import Nodes.
From S2P Require Import FsClient.
From S2P Require Import Kube.
From S2P Require Import Course.
From S2P Require Import KeyGen.
From S2P Require Import Config.

(** ** Labels and keys (builders.go) *)

Definition LabelName : string := "app.kubernetes.io/name".
Definition LabelInstance : string := "app.kubernetes.io/instance".
Definition LabelManagedBy : string := "app.kubernetes.io/managed-by".
Definition LabelCluster : string := "fs.go-faster.org/cluster".
Definition LabelNode : string := "fs.go-faster.org/node".
Definition LabelRack : string := "fs.go-faster.org/rack".
Definition AppName : string := "fs".
Definition KindStatefulSet : string := "StatefulSet".
Definition OperatorName : string := "fs-operator".

Definition AnnotationRestartRevision : string := "fs.go-faster.org/restart-revision".
Definition AnnotationConfigRevision : string := "fs.go-faster.org/config-revision".
Definition AnnotationTemplateRevision : string := "fs.go-faster.org/template-revision".

Definition ClusterSecretKey : string := "secret".
Definition AdminTokenKey : string := "token".
Definition AccessKeyKey : string := "access-key".
Definition SecretKeyKey : string := "secret-key".

Definition SelectorLabels (cluster : string) : gmap string string :=
  {[ LabelName := AppName; LabelCluster := cluster ]}.

Definition NodeSelectorLabels (cluster node : string) : gmap string string :=
  <[LabelNode := node]> (SelectorLabels cluster).

Definition ObjectLabels (cluster : string) : gmap string string :=
  <[LabelManagedBy := OperatorName]> (<[LabelInstance := cluster]> (SelectorLabels cluster)).

Definition NodeObjectLabels (cluster : string) (node : Node) : gmap string string :=
  let labels := <[LabelNode := node_Name node]> (ObjectLabels cluster) in
  if bool_decide (node_Rack node ≠ "") then <[LabelRack := node_Rack node]> labels else labels.

(** ** Secrets *)

Definition ref_or (ref : option string) (fallback : string) : string :=
  match ref with
  | Some name => if bool_decide (name ≠ "") then name else fallback
  | None => fallback
  end.

Definition ClusterSecretSource (cluster : FSCluster) : string :=
  ref_or (ClusterSecretRef (fsc_Spec cluster)) (ClusterSecretName (fsc_Name cluster)).

Definition RootCredentialsSource (cluster : FSCluster) : string :=
  ref_or (RootCredentialsSecretRef (Auth (fsc_Spec cluster)))
    (RootCredentialsSecretName (fsc_Name cluster)).

Definition newSecret (cluster : FSCluster) (name : string) (data : gmap string string) : Secret :=
  mkSecret name (fsc_Namespace cluster) (ObjectLabels (fsc_Name cluster)) ∅ ∅ data.

Section secrets.
Context {W P : Type} `{!KubeClient W}.

Definition NewClusterSecret (cluster : FSCluster) : M (Env W P) Secret :=
  secret ← wrap_err "mint cluster secret" keygen_Token;
  ret (newSecret cluster (ClusterSecretName (fsc_Name cluster)) {[ ClusterSecretKey := secret ]}).

Definition NewAdminTokenSecret (cluster : FSCluster) : M (Env W P) Secret :=
  token ← wrap_err "mint admin token" keygen_Token;
  ret (newSecret cluster (AdminTokenSecretName (fsc_Name cluster)) {[ AdminTokenKey := token ]}).

Definition NewRootCredentialsSecret (cluster : FSCluster) : M (Env W P) Secret :=
  accessKey ← wrap_err "mint root access key" keygen_AccessKey;
  secretKey ← wrap_err "mint root secret key" keygen_Token;
  ret (newSecret cluster (RootCredentialsSecretName (fsc_Name cluster))
         {[ AccessKeyKey := accessKey; SecretKeyKey := secretKey ]}).
End secrets.

Definition NewNodeConfigSecret (cluster : FSCluster) (node : Node) (config : RenderedConfig) : Secret :=
  mkSecret (ConfigSecretName (node_Name node)) (fsc_Namespace cluster)
    (NodeObjectLabels (fsc_Name cluster) node)
    {[ AnnotationConfigRevision := rc_Revision config ]}
    {[ ConfigFileName := Data config ]} ∅.

(** ** Services and the disruption budget *)

Definition PortNameS3 : string := "http".
Definition PortNamePeer : string := "peer".
Definition PortNameAdmin : string := "admin".
Definition PortNameMetrics : string := "metrics".
Definition PortNamePprof : string := "pprof".

Definition servicePort (name : string) (port : Z) : ServicePort := mkServicePort name port name.

Definition NewPeersService (cluster : FSCluster) : ServiceObj :=
  mkServiceObj (PeersServiceName (fsc_Name cluster)) (fsc_Namespace cluster)
    (ObjectLabels (fsc_Name cluster)) ∅ "" "None" true (SelectorLabels (fsc_Name cluster))
    [servicePort PortNamePeer PeerPort; servicePort PortNameAdmin AdminPort;
     servicePort PortNameMetrics MetricsPort].

Definition NewClientService (cluster : FSCluster) : ServiceObj :=
  let svc := Service (S3 (fsc_Spec cluster)) in
  mkServiceObj (ClientServiceName (fsc_Name cluster)) (fsc_Namespace cluster)
    (ObjectLabels (fsc_Name cluster)) (svc_Annotations svc) (svc_Type svc) "" false
    (SelectorLabels (fsc_Name cluster)) [servicePort PortNameS3 (svc_Port svc)].

Definition NewPodDisruptionBudget (cluster : FSCluster) : PodDisruptionBudget :=
  mkPodDisruptionBudget (fsc_Name cluster) (fsc_Namespace cluster) (ObjectLabels (fsc_Name cluster))
    1 (SelectorLabels (fsc_Name cluster)).

(** ** The pod (statefulset.go) *)

Definition ContainerName : string := "fs".
Definition configVolumeName : string := "config".
Definition tlsVolumeName : string := "tls".
Definition DataVolumeName : string := "data".
Definition runAsUser : Z := 1000.
Definition runAsGroup : Z := 1000.
Definition startupPeriodSeconds : Z := 5.
Definition startupFailureThreshold : Z := 60.
Definition livenessPeriodSeconds : Z := 10.
Definition livenessTimeoutSeconds : Z := 3.
Definition livenessFailureThreshold : Z := 3.
Definition readinessPeriodSeconds : Z := 10.
Definition readinessFailureThreshold : Z := 3.
(** [0o440] *)
Definition secretFileMode : Z := 288.
Definition terminationGracePeriodSeconds : Z := 60.
Definition hostnameTopologyKey : string := "kubernetes.io/hostname".
Definition zoneLabel : string := "topology.kubernetes.io/zone".
Definition preferredAntiAffinityWeight : Z := 100.
Definition readyPath : string := "/ready".
Definition flagConfig : string := "--config".
Definition capAll : string := "ALL".

Definition MetricsScraped (cluster : FSCluster) : bool :=
  let exporter := met_Exporter (Metrics (Observability (fsc_Spec cluster))) in
  bool_decide (exporter = "") || bool_decide (exporter = ExporterPrometheus).

Definition pprofEnabled (cluster : FSCluster) : bool :=
  match Pprof (Observability (fsc_Spec cluster)) with None => true | Some b => b end.

(** [Image(cluster)]: the image reference, a digest before a tag. *)
Definition ImageRef (cluster : FSCluster) : string :=
  let image := Image (fsc_Spec cluster) in
  if strings_ContainsAny (Repository image) "@" then Repository image
  else if bool_decide (Digest image ≠ "") then Repository image +:+ "@" +:+ Digest image
  else Repository image +:+ ":" +:+ Tag image.

Definition containerPort (name : string) (port : Z) : ContainerPort := mkContainerPort name port.

Definition containerPorts (cluster : FSCluster) : list ContainerPort :=
  [containerPort PortNameS3 S3Port; containerPort PortNamePeer PeerPort;
   containerPort PortNameAdmin AdminPort]
  ++ (if MetricsScraped cluster then [containerPort PortNameMetrics MetricsPort] else [])
  ++ (if pprofEnabled cluster then [containerPort PortNamePprof PprofPort] else []).

Definition probe (cluster : FSCluster) (path : string) (period failures : Z) : Probe :=
  mkProbe path PortNameS3
    (if bool_decide (tls_SecretName (TLS (S3 (fsc_Spec cluster))) ≠ "") then "HTTPS" else "HTTP")
    period livenessTimeoutSeconds failures.

(** *** Environment *)

Definition envClusterSecret : string := "FS_CLUSTER_SECRET".
Definition envAdminToken : string := "FS_ADMIN_TOKEN".
Definition envRootAccessKey : string := "FS_ROOT_ACCESS_KEY".
Definition envRootSecretKey : string := "FS_ROOT_SECRET_KEY".
Definition envMetricsAddr : string := "METRICS_ADDR".
Definition envPprofAddr : string := "PPROF_ADDR".
Definition envLogLevel : string := "OTEL_LOG_LEVEL".
Definition envTracesExporter : string := "OTEL_TRACES_EXPORTER".
Definition envLogsExporter : string := "OTEL_LOGS_EXPORTER".
Definition envMetricsExport : string := "OTEL_METRICS_EXPORTER".
Definition envOTLPEndpoint : string := "OTEL_EXPORTER_OTLP_ENDPOINT".
Definition envOTLPProtocol : string := "OTEL_EXPORTER_OTLP_PROTOCOL".
Definition envOTLPTracesProto : string := "OTEL_EXPORTER_OTLP_TRACES_PROTOCOL".
Definition envOTLPLogsProto : string := "OTEL_EXPORTER_OTLP_LOGS_PROTOCOL".
Definition envOTLPMetricsProto : string := "OTEL_EXPORTER_OTLP_METRICS_PROTOCOL".
Definition envOTLPTracesEndpoint : string := "OTEL_EXPORTER_OTLP_TRACES_ENDPOINT".
Definition envOTLPLogsEndpoint : string := "OTEL_EXPORTER_OTLP_LOGS_ENDPOINT".
Definition envOTLPMetricsEndpoint : string := "OTEL_EXPORTER_OTLP_METRICS_ENDPOINT".
Definition envResourceAttrs : string := "OTEL_RESOURCE_ATTRIBUTES".

Definition plainEnv (name value : string) : EnvVar := mkEnvVar name value None.

Definition secretEnv (name secret key : string) : EnvVar :=
  mkEnvVar name "" (Some (SecretKeyRef secret key)).

Definition signalEndpoint (name exporter endpoint : string) : EnvVar :=
  if bool_decide (endpoint = "") || bool_decide (exporter ≠ ExporterOTLP) then plainEnv "" ""
  else plainEnv name endpoint.

Definition signalProtocol (name exporter protocol : string) : EnvVar :=
  if bool_decide (protocol = "") || bool_decide (exporter ≠ ExporterOTLP) then plainEnv "" ""
  else plainEnv name protocol.

Definition telemetryEnv (spec : ObservabilitySpec) : list EnvVar :=
  let t := Traces spec in let l := Logs spec in let m := Metrics spec in
  [plainEnv envTracesExporter (sig_Exporter t);
   plainEnv envLogsExporter (sig_Exporter l);
   plainEnv envMetricsExport (met_Exporter m)]
  ++ (if bool_decide (met_Exporter m = ExporterPrometheus)
      then [plainEnv envMetricsAddr (listenAddr MetricsPort)] else [])
  ++ (if bool_decide (otlp_Endpoint (OTLP spec) ≠ "")
      then [plainEnv envOTLPEndpoint (otlp_Endpoint (OTLP spec))] else [])
  ++ (if bool_decide (otlp_Protocol (OTLP spec) ≠ "")
      then [plainEnv envOTLPProtocol (otlp_Protocol (OTLP spec))] else [])
  ++ filter (λ v, env_Name v ≠ "")
      [signalEndpoint envOTLPTracesEndpoint (sig_Exporter t) (sig_Endpoint t);
       signalEndpoint envOTLPLogsEndpoint (sig_Exporter l) (sig_Endpoint l);
       signalEndpoint envOTLPMetricsEndpoint (met_Exporter m) (met_Endpoint m);
       signalProtocol envOTLPTracesProto (sig_Exporter t) (sig_Protocol t);
       signalProtocol envOTLPLogsProto (sig_Exporter l) (sig_Protocol l);
       signalProtocol envOTLPMetricsProto (met_Exporter m) (met_Protocol m)].

Definition resourceAttributes (cluster : FSCluster) (node : Node) : string :=
  let extra := ResourceAttributes (Observability (fsc_Spec cluster)) in
  strings_Join
    (["fs.cluster=" +:+ fsc_Name cluster; "k8s.namespace.name=" +:+ fsc_Namespace cluster;
      "fs.node=" +:+ node_Name node]
     ++ (if bool_decide (node_Rack node ≠ "") then ["fs.rack=" +:+ node_Rack node] else [])
     ++ ((λ key, key +:+ "=" +:+ default "" (extra !! key)) <$> sorted_keys extra)) ",".

Definition env (cluster : FSCluster) (node : Node) : list EnvVar :=
  let spec := fsc_Spec cluster in
  [secretEnv envClusterSecret (ClusterSecretSource cluster) ClusterSecretKey;
   secretEnv envAdminToken (AdminTokenSecretName (fsc_Name cluster)) AdminTokenKey;
   secretEnv envRootAccessKey (RootCredentialsSource cluster) AccessKeyKey;
   secretEnv envRootSecretKey (RootCredentialsSource cluster) SecretKeyKey;
   plainEnv envLogLevel (LogLevel (Observability spec));
   plainEnv envResourceAttrs (resourceAttributes cluster node)]
  ++ telemetryEnv (Observability spec)
  ++ (if pprofEnabled cluster then [plainEnv envPprofAddr (listenAddr PprofPort)] else [])
  ++ pt_ExtraEnv (spec_PodTemplate spec).

(** *** Volumes *)

Definition volumes (cluster : FSCluster) (node : Node) : list Volume :=
  let name := tls_SecretName (TLS (S3 (fsc_Spec cluster))) in
  mkVolume configVolumeName (ConfigSecretName (node_Name node)) secretFileMode
  :: (if bool_decide (name ≠ "") then [mkVolume tlsVolumeName name secretFileMode] else []).

Definition volumeMounts (cluster : FSCluster) : list VolumeMount :=
  [mkVolumeMount DataVolumeName StorageRoot false; mkVolumeMount configVolumeName ConfigDir true]
  ++ (if bool_decide (tls_SecretName (TLS (S3 (fsc_Spec cluster))) ≠ "")
      then [mkVolumeMount tlsVolumeName TLSDir true] else []).

Definition volumeClaimTemplates (cluster : FSCluster) (node : Node) : list PVC :=
  let storage := Storage (fsc_Spec cluster) in
  [mkPVC DataVolumeName "" (NodeObjectLabels (fsc_Name cluster) node) ["ReadWriteOnce"]
     (Some {[ResourceStorage := Size storage]})
     (if bool_decide (StorageClass storage ≠ "") then Some (StorageClass storage) else None)].

Definition claimRetentionPolicy (cluster : FSCluster) : RetentionPolicy :=
  mkRetentionPolicy
    (if bool_decide (storage_ReclaimPolicy (Storage (fsc_Spec cluster)) = ReclaimDelete)
     then "Delete" else "Retain") "Retain".

(** *** Placement *)

Definition nodeSelector (cluster : FSCluster) (node : Node) : gmap string string :=
  maps_Copy (pt_NodeSelector (spec_PodTemplate (fsc_Spec cluster))) (node_NodeSelector node).

Definition zoneAffinity (node : Node) : option (string * string) :=
  if bool_decide (node_Zone node = "") then None else Some (zoneLabel, node_Zone node).

Definition antiAffinity (cluster : FSCluster) : option PodAntiAffinityRule :=
  let term := mkPodAffinityTerm (SelectorLabels (fsc_Name cluster)) hostnameTopologyKey in
  let mode := PodAntiAffinity (Topology (fsc_Spec cluster)) in
  if bool_decide (mode = AntiAffinityPreferred)
  then Some (AntiPreferred preferredAntiAffinityWeight term)
  else if bool_decide (mode = AntiAffinityNone) then None
  else Some (AntiRequired term).

Definition affinity (cluster : FSCluster) (node : Node) : option Affinity :=
  match zoneAffinity node, antiAffinity cluster with
  | None, None => None
  | za, aa => Some (mkAffinity za aa)
  end.

Definition podSecurityContext : PodSecurityContext :=
  mkPodSecurityContext true runAsUser runAsGroup runAsGroup "RuntimeDefault".

Definition fsContainer (cluster : FSCluster) (node : Node) : Container :=
  let spec := fsc_Spec cluster in
  mkContainer ContainerName (ImageRef cluster) (PullPolicy (Image spec))
    ["s3"; flagConfig; ConfigPath] (containerPorts cluster) (env cluster node)
    (volumeMounts cluster) (pt_Resources (spec_PodTemplate spec))
    (probe cluster healthPath startupPeriodSeconds startupFailureThreshold)
    (probe cluster healthPath livenessPeriodSeconds livenessFailureThreshold)
    (probe cluster readyPath readinessPeriodSeconds readinessFailureThreshold)
    false true [capAll].

Definition podTemplate (cluster : FSCluster) (node : Node) (restartRevision : string) : PodTemplateSpec :=
  let spec := fsc_Spec cluster in
  let labels := NodeObjectLabels (fsc_Name cluster) node in
  let labels := maps_Copy labels (pt_Labels (spec_PodTemplate spec)) in
  let labels := maps_Copy labels (NodeSelectorLabels (fsc_Name cluster) (node_Name node)) in
  let annotations :=
    <[AnnotationRestartRevision := restartRevision]> (pt_Annotations (spec_PodTemplate spec)) in
  mkPodTemplateSpec labels annotations [fsContainer cluster node] (volumes cluster node)
    (PullSecrets (Image spec)) (nodeSelector cluster node) (affinity cluster node)
    (pt_Tolerations (spec_PodTemplate spec)) (pt_PriorityClassName (spec_PodTemplate spec))
    podSecurityContext terminationGracePeriodSeconds false.

Definition NewStatefulSet (cluster : FSCluster) (node : Node) (restartRevision : string) : StatefulSet :=
  mkStatefulSet KindStatefulSet (node_Name node) (fsc_Namespace cluster)
    (NodeObjectLabels (fsc_Name cluster) node) ∅ 0 "" [] 1 (PeersServiceName (fsc_Name cluster))
    (NodeSelectorLabels (fsc_Name cluster) (node_Name node))
    (podTemplate cluster node restartRevision) (volumeClaimTemplates cluster node)
    (claimRetentionPolicy cluster) (mkSetStatus 0 0 0).

(** *** Fingerprints of the templates *)

Section revisions.
Context `{!Codec}.

Definition marshal_template (set : StatefulSet) : result string :=
  result_wrap ("marshal pod template of node " +:+ fmt_q (set_Name set))
    (json_Template (set_Template set)).

Definition TemplateRevision (set : StatefulSet) : result string :=
  template ← marshal_template set;
  Ok (format templatePrefix (sha256 template)).

Fixpoint template_entries (sets : list StatefulSet) : result (list (string * string)) :=
  match sets with
  | [] => Ok []
  | set :: sets' =>
      template ← marshal_template set;
      rest ← template_entries sets';
      Ok ((set_Name set, template) :: rest)
  end.

(** The digest is written entry by entry; a failure discards it. *)
Definition PodTemplateRevision (sets : list StatefulSet) : result string :=
  entries ← template_entries sets;
  Ok (format templatePrefix (sha256 (digest_stream entries))).
End revisions.

(** ** NetworkPolicy (networkpolicy.go) and PodMonitor (podmonitor.go) *)

Definition namespaceNameLabel : string := "kubernetes.io/metadata.name".

Definition NewNetworkPolicy (cluster : FSCluster) (operatorNamespace : string) : NetworkPolicyObj :=
  let clusterPods := SelectorLabels (fsc_Name cluster) in
  let internalFrom := PodSelector clusterPods ::
    (if bool_decide (operatorNamespace ≠ "")
     then [NamespaceSelector {[ namespaceNameLabel := operatorNamespace ]}] else []) in
  let open := svc_Port (Service (S3 (fsc_Spec cluster)))
    :: (if MetricsScraped cluster then [MetricsPort] else [])
    ++ (if pprofEnabled cluster then [PprofPort] else []) in
  mkNetworkPolicyObj (fsc_Name cluster) (fsc_Namespace cluster) (ObjectLabels (fsc_Name cluster))
    clusterPods [mkIngressRule [] open; mkIngressRule internalFrom [PeerPort; AdminPort]].

Definition NewPodMonitor (cluster : FSCluster) : PodMonitorObj :=
  mkPodMonitorObj (fsc_Name cluster) (fsc_Namespace cluster) (ObjectLabels (fsc_Name cluster))
    (SelectorLabels (fsc_Name cluster)) PortNameMetrics "/metrics".

(** ** The credential set (accesskeys.go) *)

Definition MinSecretKeyLength : nat := 16.
Definition EndpointKey : string := "endpoint".

Definition AccessKeySecretName (key : FSAccessKey) : string :=
  if bool_decide (ks_SecretName (ak_Spec key) ≠ "") then ks_SecretName (ak_Spec key)
  else ak_Name key +:+ "-credentials".

Definition AccessKeySecretSource (key : FSAccessKey) : string :=
  ref_or (ExistingSecretRef (ak_Spec key)) (AccessKeySecretName key).

Definition GrantsToConfig (grants : list GrantSpec) : list cfg_Grant :=
  (λ g, mkcfg_Grant (grant_Bucket g) (grant_Permission g)) <$> grants.

Section keys.
Context {W P : Type} `{!KubeClient W}.

(** The loop body: the config keys an access key contributes. *)
Definition resolveKey (cluster : FSCluster) (ak : FSAccessKey) : M (Env W P) (list cfg_Key) :=
  if bool_decide (ref_Name (ks_ClusterRef (ak_Spec ak)) ≠ fsc_Name cluster) then ret []
  else if ak_Deleting ak then ret []
  else
    r ← try (call (k_getSecret (fsc_Namespace cluster) (AccessKeySecretSource ak)));
    match r with
    | Err e => if IsNotFound e then ret []
               else throw (ErrWrap ("get secret of access key " +:+ fmt_q (ak_Name ak)) e)
    | Ok secret =>
        let access := default "" (sec_Data secret !! AccessKeyKey) in
        let secretKey := default "" (sec_Data secret !! SecretKeyKey) in
        if bool_decide (access = "") || (String.length secretKey <? MinSecretKeyLength)
        then ret []
        else ret [mkcfg_Key access secretKey (GrantsToConfig (Grants (ak_Spec ak)))]
    end.

Fixpoint resolveKeys (cluster : FSCluster) (items : list FSAccessKey) : M (Env W P) (list cfg_Key) :=
  match items with
  | [] => ret []
  | ak :: items' =>
      ks ← resolveKey cluster ak;
      rest ← resolveKeys cluster items';
      ret (ks ++ rest)
  end.

Definition collectAccessKeys (cluster : FSCluster) : M (Env W P) (list cfg_Key) :=
  items ← wrap_err "list access keys" (call (k_listKeys (fsc_Namespace cluster)));
  keys ← resolveKeys cluster items;
  ret (sort_by AccessKey keys).
End keys.

(** * Theorems *)

(** ** Labels and selectors *)

Lemma SelectorLabels_node cluster node : SelectorLabels cluster ⊆ NodeSelectorLabels cluster node.
Proof.
  unfold NodeSelectorLabels. apply insert_subseteq. unfold SelectorLabels.
  by rewrite lookup_insert_ne, lookup_singleton_ne by done.
Qed.

(** C39: Whatever labels the user puts on the pod template, a node's pod is
    selected by its own StatefulSet, by both Services and by the disruption
    budget, and by no other node's StatefulSet. *)
Theorem pod_is_selected (cluster : FSCluster) (node : Node) (revision : string) :
  let set := NewStatefulSet cluster node revision in
  let labels := tpl_Labels (set_Template set) in
  set_Selector set ⊆ labels ∧
  so_Selector (NewPeersService cluster) ⊆ labels ∧ so_Selector (NewClientService cluster) ⊆ labels ∧
  pdb_Selector (NewPodDisruptionBudget cluster) ⊆ labels ∧
  (∀ other r, set_Selector (NewStatefulSet cluster other r) ⊆ labels → node_Name other = node_Name node).
Proof.
  cbv zeta. simpl. pose proof (maps_Copy_subseteq
    (maps_Copy (NodeObjectLabels (fsc_Name cluster) node) (pt_Labels (spec_PodTemplate (fsc_Spec cluster))))
    (NodeSelectorLabels (fsc_Name cluster) (node_Name node))) as Hsub.
  pose proof (SelectorLabels_node (fsc_Name cluster) (node_Name node)) as Hnode.
  split_and!; [done|by etrans..|]. intros other _ Ho.
  assert (∀ n, NodeSelectorLabels (fsc_Name cluster) n !! LabelNode = Some n) as Hl
    by (intros; apply lookup_insert_eq).
  pose proof (lookup_weaken _ _ _ _ (Hl (node_Name other)) Ho) as H1.
  pose proof (lookup_weaken _ _ _ _ (Hl (node_Name node)) Hsub) as H2. congruence.
Qed.

(** ** The NetworkPolicy *)

(** Every rule that has no source restriction. *)
Definition open_ports (n : NetworkPolicyObj) : list Z :=
  (filter (λ r, ing_From r = []) (np_Ingress n)) ≫= ing_Ports.

(** The peer and admin ports are admitted from the cluster's own pods and
    the operator's namespace only, unless the S3 Service is put on one of them;
    but the port admitted for S3 is the Service's, which is the container's
    S3 port only when the Service keeps the default: on any other port the
    policy admits S3 from nobody. *)
Theorem network_policy_ports (cluster : FSCluster) (operatorNamespace : string) :
  let policy := NewNetworkPolicy cluster operatorNamespace in
  let port := svc_Port (Service (S3 (fsc_Spec cluster))) in
  ((port ≠ PeerPort ∧ port ≠ AdminPort) ↔
     ((PeerPort ∉ open_ports policy) ∧ (AdminPort ∉ open_ports policy))) ∧
  (S3Port ∈ (np_Ingress policy ≫= ing_Ports) ↔ port = S3Port).
Proof.
  cbv zeta. unfold open_ports, NewNetworkPolicy, MetricsPort, PprofPort, PeerPort, AdminPort, S3Port. simpl.
  destruct (MetricsScraped cluster), (pprofEnabled cluster); simpl; rewrite ?app_nil_r;
    split; rewrite !elem_of_cons, ?elem_of_nil; lia.
Qed.

(** ** The credential set *)

Section collect.
Context {W P : Type} `{!KubeClient W}.

Abbreviation heard := (heard kube_step).
Abbreviation later := (later kube_step).

(** Between two worlds the key's Secret was read, and it makes this credential. *)
Definition key_of (w0 w1 : W) (cluster : FSCluster) (ak : FSAccessKey) (k : cfg_Key) : Prop :=
  ref_Name (ks_ClusterRef (ak_Spec ak)) = fsc_Name cluster ∧ ak_Deleting ak = false ∧
  AccessKey k ≠ "" ∧ MinSecretKeyLength ≤ String.length (SecretKey k) ∧
  key_Grants k = GrantsToConfig (Grants (ak_Spec ak)) ∧
  ∃ secret, heard w0 w1 (k_getSecret (fsc_Namespace cluster) (AccessKeySecretSource ak)) (Ok secret) ∧
    sec_Data secret !! AccessKeyKey = Some (AccessKey k) ∧ sec_Data secret !! SecretKeyKey = Some (SecretKey k).

(** An access key of the cluster that is left out: its Secret is not there, or
    holds no usable pair. *)
Definition unusable (w0 w1 : W) (cluster : FSCluster) (ak : FSAccessKey) : Prop :=
  ∃ r, heard w0 w1 (k_getSecret (fsc_Namespace cluster) (AccessKeySecretSource ak)) r ∧
    match r with
    | Ok secret => default "" (sec_Data secret !! AccessKeyKey) = "" ∨
        (String.length (default "" (sec_Data secret !! SecretKeyKey)) < MinSecretKeyLength)%nat
    | Err e => IsNotFound e = true
    end.

Definition wanted (cluster : FSCluster) (ak : FSAccessKey) : Prop :=
  ref_Name (ks_ClusterRef (ak_Spec ak)) = fsc_Name cluster ∧ ak_Deleting ak = false.

(** What a loop over the access keys makes of them: every credential is of one
    of them, and every one that is wanted and usable has its own. *)
Definition collected (w0 w1 : W) (cluster : FSCluster) (items : list FSAccessKey) (ks : list cfg_Key) : Prop :=
  (∀ k, k ∈ ks → ∃ ak, ak ∈ items ∧ key_of w0 w1 cluster ak k) ∧
  (∀ ak, ak ∈ items → wanted cluster ak → unusable w0 w1 cluster ak ∨ ∃ k, k ∈ ks ∧ key_of w0 w1 cluster ak k).

Lemma key_of_within w0 w1 w2 w3 cluster ak k :
  later w0 w1 → key_of w1 w2 cluster ak k → later w2 w3 → key_of w0 w3 cluster ak k.
Proof.
  intros Ha (?&?&?&?&?& secret & H &?) Hb. split_and!; [done..|]. exists secret. split; [|done].
  eapply heard_later; [|done]. by eapply heard_earlier.
Qed.

Lemma unusable_within w0 w1 w2 w3 cluster ak :
  later w0 w1 → unusable w1 w2 cluster ak → later w2 w3 → unusable w0 w3 cluster ak.
Proof. intros H1 (r & H & ?) H2. exists r. split; [|done]. eapply heard_later; [|done]. by eapply heard_earlier. Qed.

Lemma collected_within w0 w1 w2 w3 cluster items ks :
  later w0 w1 → collected w1 w2 cluster items ks → later w2 w3 → collected w0 w3 cluster items ks.
Proof.
  intros Ha [H1 H2] Hb. split.
  - intros k (ak & Hin & Hk)%H1. exists ak. split; [done|]. by eapply key_of_within.
  - intros ak Hin Hw. destruct (H2 ak Hin Hw) as [H|(k & Hk & H)]; [left; by eapply unusable_within|right].
    exists k. split; [done|]. by eapply key_of_within.
Qed.

Lemma collected_app w0 w1 cluster items items' ks ks' :
  collected w0 w1 cluster items ks → collected w0 w1 cluster items' ks' →
  collected w0 w1 cluster (items ++ items') (ks ++ ks').
Proof.
  intros [H1 H2] [H3 H4]. split.
  - intros k [(ak & ? & ?)%H1|(ak & ? & ?)%H3]%elem_of_app; exists ak; rewrite elem_of_app; auto.
  - intros ak [Hin|Hin]%elem_of_app Hw; [destruct (H2 ak Hin Hw) as [?|(k & ? & ?)]|destruct (H4 ak Hin Hw) as [?|(k & ? & ?)]];
      auto; right; exists k; rewrite elem_of_app; auto.
Qed.

Lemma resolveKey_spec cluster ak (s : Env W P) ks s' :
  resolveKey cluster ak s = (Ok ks, s') →
  later (e_world s) (e_world s') ∧ collected (e_world s) (e_world s') cluster [ak] ks.
Proof.
  unfold collected. setoid_rewrite list_elem_of_singleton. unfold resolveKey, wanted. case_bool_decide as Hc.
  { intros H. injection H as <- <-. split; [reflexivity|]. split; [set_solver|]. intros ? ->. tauto. }
  destruct (ak_Deleting ak) eqn:Hd.
  { intros H. injection H as <- <-. split; [reflexivity|]. split; [set_solver|]. intros ? ->. rewrite Hd. intros [_ [=]]. }
  unfold mbind, M_bind, try. rewrite call_eq. destruct (k_getSecret _ _ (e_world s)) as [r w'] eqn:E.
  pose proof (call_later kube_step E) as Hl.
  apply (heard_now kube_step _ _ _ _ _ (reflexivity _)) in E as Hh.
  assert (∀ s1, unusable (e_world s) w' cluster ak → (ret [] (mkEnv w' (e_log s) (e_st s)) : result (list cfg_Key) * Env W P) = (Ok ks, s1) →
    later (e_world s) (e_world s1) ∧ (∀ k, k ∈ ks → ∃ ak', ak' = ak ∧ key_of (e_world s) (e_world s1) cluster ak' k) ∧
    (∀ ak', ak' = ak → ref_Name (ks_ClusterRef (ak_Spec ak')) = fsc_Name cluster ∧ ak_Deleting ak' = false →
       unusable (e_world s) (e_world s1) cluster ak' ∨ ∃ k, k ∈ ks ∧ key_of (e_world s) (e_world s1) cluster ak' k)) as Hskip.
  { intros s1 Hu [= <- <-]. split; [done|]. split; [set_solver|]. intros ? -> _. by left. }
  destruct r as [secret|e].
  2: { destruct (IsNotFound e) eqn:He; [|done]. apply Hskip. by exists (Err e). }
  cbv zeta. destruct (_ || _) eqn:Hbad.
  { apply Hskip. exists (Ok secret). split; [done|]. rewrite orb_true_iff, bool_decide_eq_true, Nat.ltb_lt in Hbad. exact Hbad. }
  apply orb_false_iff in Hbad as [Ha%bool_decide_eq_false Hlen%Nat.ltb_ge].
  intros [= <- <-]. split; [done|]. match goal with |- context [[?k]] => assert (key_of (e_world s) w' cluster ak k) as Hk end.
  { unfold key_of; simpl. split_and!; try done. exists secret. split; [done|].
    destruct (sec_Data secret !! AccessKeyKey), (sec_Data secret !! SecretKeyKey) eqn:E2; simpl in *; try done.
    unfold MinSecretKeyLength in Hlen. lia. }
  split; [intros k ->%list_elem_of_singleton; by exists ak|]. intros ? -> _. right. eexists. split; [left|exact Hk].
Qed.

Lemma resolveKeys_spec cluster items (s : Env W P) ks s' :
  resolveKeys cluster items s = (Ok ks, s') →
  later (e_world s) (e_world s') ∧ collected (e_world s) (e_world s') cluster items ks.
Proof.
  revert s ks s'. induction items as [|ak items IH]; intros s ks s'; simpl.
  { intros H. injection H as <- <-. split; [reflexivity|]. split; set_solver. }
  unfold mbind, M_bind. destruct (resolveKey cluster ak s) as [[ks1|e] s1] eqn:E1; [|done].
  destruct (resolveKeys cluster items s1) as [[ks2|e] s2] eqn:E2; [|done].
  intros H. injection H as <- <-. apply resolveKey_spec in E1 as [L1 C1]. apply IH in E2 as [L2 C2].
  split; [by etrans|]. apply (collected_app _ _ _ [ak]).
  - by eapply (collected_within _ (e_world s) (e_world s1)); [reflexivity|..].
  - by eapply (collected_within _ (e_world s1) (e_world s2)); [|done|reflexivity].
Qed.

(** C35: The credentials rendered into every node are sorted by access key.  The
    access keys were listed and then each one's Secret read: every credential
    comes from an access key of this cluster that is not being deleted, with its
    grants, from a Secret that held both halves, the secret one long enough for
    fs; and no access key of the cluster is left out unless its Secret was
    absent or held no such pair. *)
Theorem collectAccessKeys_spec (cluster : FSCluster) (s s' : Env W P) (keys : list cfg_Key) :
  collectAccessKeys cluster s = (Ok keys, s') →
  StronglySorted (key_le AccessKey) keys ∧
  ∃ w items, heard (e_world s) w (k_listKeys (fsc_Namespace cluster)) (Ok items) ∧
    collected w (e_world s') cluster items keys.
Proof.
  unfold collectAccessKeys, wrap_err, call. unfold mbind, M_bind.
  destruct (k_listKeys _ _) as [[items|e] w'] eqn:El; [|done].
  destruct (resolveKeys cluster items _) as [[ks|e] s1] eqn:E; [|done].
  intros H. injection H as <- <-. split; [apply sort_by_sorted|].
  exists w', items. split; [by apply (heard_now _ _ (e_world s))|]. unfold collected. setoid_rewrite sort_by_perm.
  by apply resolveKeys_spec in E as [_ E].
Qed.
End collect.

(** ** The cluster-wide revisions *)

Section revised.
Context {CD : Codec}.

(** The same nodes, in the same order, with templates of the same text. *)
Definition same_templates (sets1 sets2 : list StatefulSet) : Prop :=
  Forall2 (λ a b, set_Name a = set_Name b ∧ json_Template (set_Template a) = json_Template (set_Template b))
    sets1 sets2.

Lemma template_entries_same sets1 sets2 l1 l2 :
  template_entries sets1 = Ok l1 → template_entries sets2 = Ok l2 → l1 = l2 ↔ same_templates sets1 sets2.
Proof.
  assert (∀ set sets l, template_entries (set :: sets) = Ok l → ∃ t rest,
    json_Template (set_Template set) = Ok t ∧ template_entries sets = Ok rest ∧ l = (set_Name set, t) :: rest) as Hcons.
  { intros set sets l. simpl. unfold marshal_template. destruct (json_Template _) as [t|]; [|done]. simpl.
    destruct (template_entries sets) as [rest|]; [|done]. intros [= <-]. eauto. }
  revert sets2 l1 l2. induction sets1 as [|a sets1 IH]; intros [|b sets2] l1 l2 H1 H2.
  - simpl in H1, H2. split; [by constructor|congruence].
  - apply Hcons in H2 as (t & rest & _ & _ & ->). simpl in H1. split; [congruence|by intros ?%Forall2_nil_inv_l].
  - apply Hcons in H1 as (t & rest & _ & _ & ->). simpl in H2. split; [congruence|by intros ?%Forall2_nil_inv_r].
  - apply Hcons in H1 as (t1 & rest1 & E1 & R1 & ->), H2 as (t2 & rest2 & E2 & R2 & ->).
    specialize (IH sets2 rest1 rest2 R1 R2). unfold same_templates in *. rewrite Forall2_cons, <- IH, E1, E2.
    naive_solver congruence.
Qed.

(** C37: The cluster-wide revisions stand for what they are over.  As long as the
    truncated hash does not collide on the two inputs, two sets of rendered
    configurations have the same configuration revision exactly when they are
    for the same nodes with the same texts, and two lists of StatefulSets have
    the same template revision exactly when they are for the same nodes, in the
    same order, with the same template texts.  Nothing is left out of either
    revision, and no boundary between entries can be moved. *)
Theorem revisions_determine :
  (∀ c1 c2 : gmap string RenderedConfig,
     uncollided revisionPrefix (digest_stream (config_entries c1)) (digest_stream (config_entries c2)) →
     ConfigRevision c1 = ConfigRevision c2 ↔ Data <$> c1 = Data <$> c2) ∧
  (∀ sets1 sets2 l1 l2, template_entries sets1 = Ok l1 → template_entries sets2 = Ok l2 →
     uncollided templatePrefix (digest_stream l1) (digest_stream l2) →
     PodTemplateRevision sets1 = PodTemplateRevision sets2 ↔ same_templates sets1 sets2).
Proof.
  split.
  - intros c1 c2 Hu. rewrite <- config_entries_data. unfold ConfigRevision. split; [|by intros ->].
    intros H. by apply digest_stream_injective, Hu.
  - intros sets1 sets2 l1 l2 H1 H2 Hu. rewrite <- (template_entries_same _ _ _ _ H1 H2).
    unfold PodTemplateRevision. rewrite H1, H2. simpl. split; [|by intros ->].
    intros H. apply digest_stream_injective, Hu. congruence.
Qed.
End revised.
