(* ===== verification/Pass.v ===== *)
(** * The state of a reconcile pass
      (src/internal/controller/fscluster/controller.go, [health] of status.go,
      [convergence] of convergence.go)

    [pass] is the record the steps share, with one setter per field the steps
    write; [apply], [createOnce], [refuse] and the other helpers every step
    uses are here too.  A step is a computation [M (Env W pass) Outcome]. *)

From S2P Require Import Prelude.
From S2P Require Import ApiTypes.
From S2P Require Import Defaults.
From S2P Require Import Nodes.
From S2P Require Import FsClient.
From S2P Require Import Kube.
From S2P Require Import Config.
From S2P Require Import Builders.
From S2P Require Import Pipeline.

(** ** What a pass observed *)

Record health := mkHealth {
  h_ready : Z;
  h_domains : nat;
  h_downDomains : nat;
  h_current : Z;
  h_configCurrent : Z;
  h_notReady : list string;
}.

Definition no_health : health := mkHealth 0 0 0 0 0 [].

Record convergence := mkConvergence {
  cv_known : bool;
  cv_layout : option Layout;
  cv_nodes : gmap string FsNode;
  cv_converged : bool;
  cv_waiting : string;
}.

Definition no_convergence : convergence := mkConvergence false None ∅ false "".

Definition up (c : convergence) (name : string) : bool :=
  match cv_nodes c !! name with Some node => n_Up node | None => false end.

(** ** The pass

    [configs] and [desired] start nil and are set together by render; the
    status step tells nil from empty.  [decommission] is the map of removed
    nodes' StatefulSets. *)
Record pass := mkPass {
  p_object : FSCluster;
  p_cluster : FSCluster;
  p_nodes : list Node;
  p_configs : option (gmap string RenderedConfig);
  p_restarts : gmap string string;
  p_desired : option (list StatefulSet);
  p_templateRevision : string;
  p_live : gmap string StatefulSet;
  p_health : health;
  p_convergence : convergence;
  p_decommission : gmap string StatefulSet;
  p_layoutApplied : bool;
  p_update : option UpdateStatus;
  p_conditions : list Condition;
  p_failure : option error;
}.

Definition with_defaults (c : FSCluster) (imageRegistry : string) : FSCluster :=
  let spec := WithDefaults (fsc_Spec c) in
  let image := Image spec in
  let image := mkImageSpec (ApplyRegistry (Repository image) imageRegistry) (Tag image)
                 (Digest image) (PullPolicy image) (PullSecrets image) in
  mkFSCluster (fsc_Name c) (fsc_Namespace c) (fsc_Generation c) (fsc_Deleting c)
    (mkFSClusterSpec image (Topology spec) (Storage spec) (spec_Layout spec)
       (ClusterSecretRef spec) (Auth spec) (S3 spec) (UpdatePolicy spec) (Observability spec)
       (spec_NetworkPolicy spec) (spec_PodTemplate spec))
    (fsc_Status c).

Definition newPass (object : FSCluster) (imageRegistry : string) : pass :=
  let cluster := with_defaults object imageRegistry in
  mkPass object cluster (Nodes cluster) None ∅ None "" ∅ no_health no_convergence ∅ false None [] None.

(** *** Setters *)

Definition set_object (o : FSCluster) (p : pass) : pass :=
  mkPass o (p_cluster p) (p_nodes p) (p_configs p) (p_restarts p) (p_desired p)
    (p_templateRevision p) (p_live p) (p_health p) (p_convergence p) (p_decommission p)
    (p_layoutApplied p) (p_update p) (p_conditions p) (p_failure p).

Definition set_decommission (nodes : list Node) (sets : gmap string StatefulSet) (p : pass) : pass :=
  mkPass (p_object p) (p_cluster p) nodes (p_configs p) (p_restarts p) (p_desired p)
    (p_templateRevision p) (p_live p) (p_health p) (p_convergence p) sets
    (p_layoutApplied p) (p_update p) (p_conditions p) (p_failure p).

Definition set_rendered (configs : gmap string RenderedConfig) (restarts : gmap string string)
    (desired : list StatefulSet) (revision : string) (p : pass) : pass :=
  mkPass (p_object p) (p_cluster p) (p_nodes p) (Some configs) restarts (Some desired)
    revision (p_live p) (p_health p) (p_convergence p) (p_decommission p)
    (p_layoutApplied p) (p_update p) (p_conditions p) (p_failure p).

Definition set_observed (live : gmap string StatefulSet) (h : health) (p : pass) : pass :=
  mkPass (p_object p) (p_cluster p) (p_nodes p) (p_configs p) (p_restarts p) (p_desired p)
    (p_templateRevision p) live h (p_convergence p) (p_decommission p)
    (p_layoutApplied p) (p_update p) (p_conditions p) (p_failure p).

Definition set_convergence (c : convergence) (p : pass) : pass :=
  mkPass (p_object p) (p_cluster p) (p_nodes p) (p_configs p) (p_restarts p) (p_desired p)
    (p_templateRevision p) (p_live p) (p_health p) c (p_decommission p)
    (p_layoutApplied p) (p_update p) (p_conditions p) (p_failure p).

Definition set_layoutApplied (p : pass) : pass :=
  mkPass (p_object p) (p_cluster p) (p_nodes p) (p_configs p) (p_restarts p) (p_desired p)
    (p_templateRevision p) (p_live p) (p_health p) (p_convergence p) (p_decommission p)
    true (p_update p) (p_conditions p) (p_failure p).

Definition set_update (u : UpdateStatus) (p : pass) : pass :=
  mkPass (p_object p) (p_cluster p) (p_nodes p) (p_configs p) (p_restarts p) (p_desired p)
    (p_templateRevision p) (p_live p) (p_health p) (p_convergence p) (p_decommission p)
    (p_layoutApplied p) (Some u) (p_conditions p) (p_failure p).

Definition set_conditions (cs : list Condition) (p : pass) : pass :=
  mkPass (p_object p) (p_cluster p) (p_nodes p) (p_configs p) (p_restarts p) (p_desired p)
    (p_templateRevision p) (p_live p) (p_health p) (p_convergence p) (p_decommission p)
    (p_layoutApplied p) (p_update p) cs (p_failure p).

Definition RecordFailure (err : error) (p : pass) : pass :=
  match p_failure p with
  | Some _ => p
  | None =>
      mkPass (p_object p) (p_cluster p) (p_nodes p) (p_configs p) (p_restarts p) (p_desired p)
        (p_templateRevision p) (p_live p) (p_health p) (p_convergence p) (p_decommission p)
        (p_layoutApplied p) (p_update p) (p_conditions p) (Some err)
  end.

Definition setCondition (type status reason message : string) (p : pass) : pass :=
  set_conditions
    (p_conditions p ++ [mkCondition type status reason message (fsc_Generation (p_object p))]) p.

Definition hasCondition (type : string) (p : pass) : bool :=
  existsb (λ c, bool_decide (cond_Type c = type)) (p_conditions p).

(** [p.desired[i]]: a nil slice is empty, and an index out of range panics. *)
Definition desired_sets (p : pass) : list StatefulSet := default [] (p_desired p).

Definition node_config (p : pass) (name : string) : RenderedConfig :=
  default (mkRenderedConfig "" "") (p_configs p ≫= λ m, m !! name).

(** ** Events *)

Definition EventTypeNormal : string := "Normal".
Definition EventTypeWarning : string := "Warning".
Definition pollInterval : Z := 15 * second.
Definition resyncInterval : Z := 300 * second.

(** ** Helpers of the steps *)

(** [delete(content, "status")] of [applyConfiguration]. *)
Definition drop_status (o : kobj) : kobj :=
  match o with
  | OStatefulSet s =>
      OStatefulSet (mkStatefulSet (set_Kind s) (set_Name s) (set_Namespace s) (set_Labels s)
        (set_Annotations s) (set_Generation s) (set_ResourceVersion s) (set_ManagedFields s)
        (set_Replicas s) (set_ServiceName s) (set_Selector s) (set_Template s) (set_Claims s)
        (set_Retention s) (mkSetStatus 0 0 0))
  | _ => o
  end.

Section helpers.
Context {W : Type} `{!KubeClient W, !Interface W}.

Abbreviation step A := (M (Env W pass) A).

Definition applyConfiguration (o : kobj) : step kobj :=
  _ ← wrap_err ("convert " +:+ fmt_q (kobj_Name o)) (lift (k_toUnstructured o));
  ret (drop_status o).

Definition apply (cluster : FSCluster) (o : kobj) : step unit :=
  _ ← wrap_err "set owner" (lift (k_setOwner cluster o));
  config ← applyConfiguration o;
  wrap_err ("apply " +:+ kobj_Kind o +:+ " " +:+ fmt_q (kobj_Name o))
    (issue (AApply config) (k_apply config)).

Definition createOnce (cluster : FSCluster) (o : kobj) : step unit :=
  _ ← wrap_err "set owner" (lift (k_setOwner cluster o));
  r ← try (issue (ACreate o) (k_create o));
  match r with
  | Err e => if IsAlreadyExists e then ret tt
             else throw (ErrWrap ("create " +:+ fmt_q (kobj_Name o)) e)
  | Ok _ => ret tt
  end.

(** [r.Delete], where an object already gone is a success. *)
Definition delete_ignoring_absent (k : kind) (namespace name : string) (orphan : bool) (msg : string)
    : step unit :=
  r ← try (issue (ADelete k namespace name orphan) (k_delete k namespace name orphan));
  match r with
  | Err e => if IsNotFound e then ret tt else throw (ErrWrap msg e)
  | Ok _ => ret tt
  end.

Definition refuse (reason message : string) : step Outcome :=
  _ ← put_st (setCondition ConditionSpecValid ConditionFalse reason message);
  _ ← event EventTypeWarning reason message;
  ret (Block reason).

Definition nodeSets (cluster : FSCluster) : step (list StatefulSet) :=
  wrap_err "list node statefulsets"
    (call (k_listSets (fsc_Namespace cluster) (SelectorLabels (fsc_Name cluster)))).

Definition adminToken : step string :=
  p ← get_st;
  let name := AdminTokenSecretName (fsc_Name (p_cluster p)) in
  secret ← wrap_err ("get admin token secret " +:+ fmt_q name)
             (call (k_getSecret (fsc_Namespace (p_cluster p)) name));
  let token := default "" (sec_Data secret !! AdminTokenKey) in
  if bool_decide (token = "")
  then throw (errors_New ("admin token secret " +:+ fmt_q name +:+ " has no " +:+ fmt_q AdminTokenKey))
  else ret token.

(** The URL of a node's admin API. *)
Definition node_url (p : pass) (node : Node) : string :=
  AdminURL (fsc_Name (p_cluster p)) (fsc_Namespace (p_cluster p)) (node_Name node).
End helpers.

(** ** Running a step in the pipeline *)

Section steps.
Context {W : Type}.

(** An error return carries the zero outcome. *)
Definition run_M (m : M (Env W pass) Outcome) (s : Env W pass) : (Outcome * option error) * Env W pass :=
  match m s with
  | (Ok out, s') => ((out, None), s')
  | (Err e, s') => ((no_outcome, Some e), s')
  end.

Definition step_of (name : string) (always : bool) (m : M (Env W pass) Outcome) : Step (Env W pass) :=
  mkStep name always (run_M m).

Definition env_RecordFailure (err : error) (s : Env W pass) : Env W pass :=
  mkEnv (e_world s) (e_log s) (RecordFailure err (e_st s)).
End steps.

(** * What the helpers do to the log and the pass *)

(** A step that leaves [F] of the pass as it was. *)
Definition keeps {A} (F : pass → A) : relation pass := λ p p', F p' = F p.

#[global] Instance keeps_preorder {A} (F : pass → A) : PreOrder (keeps F).
Proof. split; [done|]. intros p1 p2 p3 H1 H2. unfold keeps in *. congruence. Qed.

(** What no step after observation changes, save the layout step the
    convergence: everything decisions are made from. *)
Definition inputs (p : pass) :=
  (p_cluster p, p_nodes p, p_configs p, p_desired p, p_live p, h_notReady (p_health p),
   p_decommission p).

(** And with what the cluster said of itself. *)
Definition decided (p : pass) := (inputs p, p_convergence p, p_layoutApplied p).

(** And with the object and the counts: what the steps that only act keep. *)
Definition core (p : pass) := (p_object p, p_health p, decided p).

Lemma decided_inv p p' : decided p' = decided p →
  inputs p' = inputs p ∧ p_convergence p' = p_convergence p ∧ p_layoutApplied p' = p_layoutApplied p.
Proof. unfold decided. intros H. repeat split; congruence. Qed.

Lemma core_inv p p' : core p' = core p →
  p_object p' = p_object p ∧ p_health p' = p_health p ∧ decided p' = decided p.
Proof. unfold core. intros H. repeat split; congruence. Qed.

Lemma core_RecordFailure e p : core (RecordFailure e p) = core p.
Proof. unfold RecordFailure. by destruct (p_failure p). Qed.

Lemma inputs_inv p p' : inputs p' = inputs p →
  p_cluster p' = p_cluster p ∧ p_nodes p' = p_nodes p ∧ p_desired p' = p_desired p ∧
  p_live p' = p_live p ∧ h_notReady (p_health p') = h_notReady (p_health p) ∧
  p_decommission p' = p_decommission p.
Proof. unfold inputs. intros H. repeat split; congruence. Qed.

Section frame.
Context {W : Type} `{!KubeClient W, !Interface W} (φ : action → Prop) (Q : relation pass) `{!PreOrder Q}.
Implicit Types s : Env W pass.

Lemma env_rel_mono (ψ : action → Prop) (R : relation pass) s s' :
  (∀ a, φ a → ψ a) → (∀ p p', Q p p' → R p p') → env_rel φ Q s s' → env_rel ψ R s s'.
Proof. intros Hφ HQ [Hl Hs]. split; [by eapply log_ext_mono|by apply HQ]. Qed.

Lemma applyConfiguration_inv o s c s' :
  applyConfiguration o s = (Ok c, s') → c = drop_status o ∧ s' = s.
Proof. unfold applyConfiguration, wrap_err. msimpl. by destruct (k_toUnstructured o); intros; simplify_eq. Qed.

Lemma resp_applyConfiguration o s : resp (env_rel φ Q) (applyConfiguration o) s.
Proof. unfold applyConfiguration. rsolve. Qed.

Lemma resp_apply c o s : φ (AApply (drop_status o)) → resp (env_rel φ Q) (apply c o) s.
Proof.
  intros Ho. unfold apply. rsolve; [apply resp_applyConfiguration|].
  apply applyConfiguration_inv in Hrun0 as [-> ->]. by apply resp_issue.
Qed.

Lemma resp_createOnce c o s : φ (ACreate o) → resp (env_rel φ Q) (createOnce c o) s.
Proof. intros Ho. unfold createOnce. rsolve. by apply resp_issue. Qed.

Lemma resp_delete k ns name b msg s :
  φ (ADelete k ns name b) → resp (env_rel φ Q) (delete_ignoring_absent k ns name b msg) s.
Proof. intros Ho. unfold delete_ignoring_absent. rsolve. by apply resp_issue. Qed.

Lemma resp_refuse reason message s :
  (∀ p, Q p (setCondition ConditionSpecValid ConditionFalse reason message p)) →
  φ (AEvent EventTypeWarning reason message) →
  resp (env_rel φ Q) (refuse reason message) s.
Proof. intros HQ Ho. unfold refuse. rsolve; [by apply resp_put_st|by apply resp_event]. Qed.

Lemma resp_nodeSets c s : resp (env_rel φ Q) (nodeSets c) s.
Proof. unfold nodeSets. rsolve. Qed.

Lemma resp_adminToken s : resp (env_rel φ Q) adminToken s.
Proof. unfold adminToken. rsolve. Qed.
End frame.

Lemma adminToken_state {W : Type} `{!KubeClient W} (s : Env W pass) : e_st (adminToken s).2 = e_st s.
Proof. by apply (resp_adminToken (λ _, True) (keeps id)). Qed.

#[export] Hint Resolve resp_nodeSets resp_adminToken : resp.

(** An API server that takes every write: a class of its own, since no theorem
    about safety assumes it. *)
Class Accepting (W : Type) `{!KubeClient W} : Prop := {
  acc_owner : ∀ c o, k_setOwner c o = Ok tt;
  acc_unstructured : ∀ o, k_toUnstructured o = Ok tt;
  acc_apply : ∀ o w, (k_apply (W := W) o w).1 = Ok tt;
}.

Lemma apply_accepted {W : Type} `{!KubeClient W, !Accepting W} c o (s : Env W pass) :
  ∃ w, apply c o s = (Ok tt, mkEnv w (e_log s ++ [AApply (drop_status o)]) (e_st s)).
Proof.
  unfold apply, applyConfiguration, wrap_err, issue, emit, call. msimpl.
  rewrite acc_owner, acc_unstructured. simpl. pose proof (acc_apply (drop_status o) (e_world s)) as H.
  destruct (k_apply _ _) as [r w]. simpl in H. subst r. by exists w.
Qed.

(** Discharge the leaves [rsolve] stops at: an action that is of the permitted
    kind, an update of the pass that keeps what it should. *)
Ltac rleaf :=
  first [ apply resp_put_st | apply resp_event | apply resp_issue | apply resp_emit
        | apply resp_apply | apply resp_createOnce | apply resp_delete | apply resp_refuse ];
  try (exact _); try (simpl; done).
Ltac rsolve_all := rsolve; try rleaf.
