(* ===== verification/Status.v ===== *)
(** * Observation and status (src/internal/controller/fscluster/status.go)

    [observe] reads the node StatefulSets and counts; [summarize] turns the
    counts into conditions; [reconcileStatus] writes them back. *)

From S2P Require Import Prelude.
From S2P Require Import ApiTypes.
From S2P Require Import Defaults.
From S2P Require Import Nodes.
From S2P Require Import FsClient.
From S2P Require Import Kube.
From S2P Require Import Config.
From S2P Require Import Builders.
From S2P Require Import Pipeline.
From S2P Require Import Pass.

(** ** Observation *)

Definition nodeServing (set : StatefulSet) : bool :=
  (set_Generation set <=? ss_ObservedGeneration (set_Status set))%Z
  && (ss_ReadyReplicas (set_Status set) =? 1)%Z
  && (ss_UpdatedReplicas (set_Status set) =? 1)%Z.

(** [live[name]] exists and serves. *)
Definition serving (live : gmap string StatefulSet) (name : string) : bool :=
  match live !! name with Some set => nodeServing set | None => false end.

Definition template_revision (set : StatefulSet) : string :=
  default "" (set_Annotations set !! AnnotationTemplateRevision).

(** [p.live[sets[i].Name] = &sets[i]]: a later set of the same name wins. *)
Definition index_sets (sets : list StatefulSet) : gmap string StatefulSet :=
  foldl (λ m set, <[set_Name set := set]> m) ∅ sets.

Definition desired_revisions (desired : list StatefulSet) : gmap string string :=
  foldl (λ m set, <[set_Name set := template_revision set]> m) ∅ desired.

(** The loop over the nodes: the health counted so far and the two domain
    sets. *)
Record tally := mkTally { t_health : health; t_domains : gset string; t_down : gset string }.

Definition observe_node (spec : FSClusterSpec) (live : gmap string StatefulSet)
    (desired : gmap string string) (t : tally) (node : Node) : tally :=
  let domain := domainOf spec node in
  let h := t_health t in
  let domains := {[ domain ]} ∪ t_domains t in
  match live !! node_Name node with
  | Some set =>
      if nodeServing set then
        let current :=
          match desired !! node_Name node with
          | Some revision => bool_decide (template_revision set = revision)
          | None => false
          end in
        mkTally
          (mkHealth (wrap32 (h_ready h + 1)) (h_domains h) (h_downDomains h)
             (if current then wrap32 (h_current h + 1) else h_current h)
             (h_configCurrent h) (h_notReady h))
          domains (t_down t)
      else
        mkTally (mkHealth (h_ready h) (h_domains h) (h_downDomains h) (h_current h)
                   (h_configCurrent h) (h_notReady h ++ [node_Name node]))
          domains ({[ domain ]} ∪ t_down t)
  | None =>
      mkTally (mkHealth (h_ready h) (h_domains h) (h_downDomains h) (h_current h)
                 (h_configCurrent h) (h_notReady h ++ [node_Name node]))
        domains ({[ domain ]} ∪ t_down t)
  end.

Definition observe_nodes (p : pass) (live : gmap string StatefulSet) : health :=
  let t := foldl (observe_node (fsc_Spec (p_cluster p)) live (desired_revisions (desired_sets p)))
             (mkTally (p_health p) ∅ ∅) (p_nodes p) in
  let h := t_health t in
  mkHealth (h_ready h) (size (t_domains t)) (size (t_down t)) (h_current h) (h_configCurrent h)
    (h_notReady h).

(** ** Conditions *)

Definition summarizeReadiness (p : pass) : pass :=
  if SingleNode (fsc_Spec (p_cluster p)) then
    if (h_ready (p_health p) =? 1)%Z
    then setCondition ConditionReady ConditionTrue ReasonQuorumAvailable
           "the cluster's only node is serving" p
    else setCondition ConditionReady ConditionFalse ReasonQuorumUnavailable
           "the cluster's only node is not serving" p
  else match cv_layout (p_convergence p) with
  | None =>
      setCondition ConditionReady ConditionFalse ReasonLayoutPending
        "no layout has been applied yet, so no node serves S3" p
  | Some _ =>
      let tolerated := if (DefaultLayoutWidth <=? Z.of_nat (h_domains (p_health p)))%Z then 1 else 0 in
      let message := pretty (h_downDomains (p_health p)) +:+ " of " +:+ pretty (h_domains (p_health p))
        +:+ " failure domains have a node down; writes need all but " +:+ pretty tolerated
        +:+ " serving" in
      if h_downDomains (p_health p) <=? tolerated
      then setCondition ConditionReady ConditionTrue ReasonQuorumAvailable message p
      else setCondition ConditionReady ConditionFalse ReasonQuorumUnavailable message p
  end.

Definition summarizeAlignment (p : pass) : pass :=
  match p_desired p with
  | None => p
  | Some _ =>
      let desired := st_Nodes (fsc_Status (p_object p)) in
      let current := h_current (p_health p) in
      let p :=
        if hasCondition ConditionClusterSizeAligned p then p
        else if (wrap32 (Z.of_nat (size (p_live p))) <? desired)%Z then
          setCondition ConditionClusterSizeAligned ConditionFalse ReasonScalingUp
            (pretty (size (p_live p)) +:+ " of " +:+ pretty desired +:+ " declared nodes exist") p
        else if (current =? desired)%Z then
          setCondition ConditionClusterSizeAligned ConditionTrue ReasonUpToDate
            ("All " +:+ pretty desired +:+ " declared nodes are running") p
        else
          setCondition ConditionClusterSizeAligned ConditionFalse ReasonRollingNodes
            (pretty current +:+ " of " +:+ pretty desired +:+ " nodes run the desired pod template") p in
      if (h_configCurrent (p_health p) =? desired)%Z then
        setCondition ConditionConfigurationInSync ConditionTrue ReasonUpToDate
          "Every node runs the desired configuration" p
      else
        setCondition ConditionConfigurationInSync ConditionFalse ReasonConfigReloadPending
          (pretty (h_configCurrent (p_health p)) +:+ " of " +:+ pretty desired
             +:+ " nodes have applied the desired configuration") p
  end.

Definition summarizeConvergence (p : pass) : pass :=
  if hasCondition ConditionConverged p || negb (cv_known (p_convergence p)) then p
  else if SingleNode (fsc_Spec (p_cluster p)) then
    setCondition ConditionConverged ConditionTrue ReasonConverged
      "A single node has no layout to converge" p
  else if cv_converged (p_convergence p) then
    setCondition ConditionConverged ConditionTrue ReasonConverged
      "Every node is up on the current layout and no data is moving" p
  else if match cv_layout (p_convergence p) with Some l => Transitioning l | None => false end then
    setCondition ConditionConverged ConditionFalse ReasonLayoutTransition
      (cv_waiting (p_convergence p)) p
  else
    setCondition ConditionConverged ConditionFalse ReasonLayoutPending
      (cv_waiting (p_convergence p)) p.

Definition summarizeHealth (p : pass) : pass :=
  let p :=
    match p_failure p with
    | Some e => setCondition ConditionReconcileSucceeded ConditionFalse ReasonReconcileError
                  (err_string e) p
    | None => setCondition ConditionReconcileSucceeded ConditionTrue ReasonReconcileFinished
                "Reconcile pass completed" p
    end in
  let desired := st_Nodes (fsc_Status (p_object p)) in
  let notReady := h_notReady (p_health p) in
  if bool_decide (notReady = []) then
    setCondition ConditionNodesHealthy ConditionTrue ReasonAllNodesReady
      ("All " +:+ pretty desired +:+ " nodes are ready") p
  else
    setCondition ConditionNodesHealthy ConditionFalse ReasonNodesNotReady
      (pretty (h_ready (p_health p)) +:+ " of " +:+ pretty desired
         +:+ " nodes are ready; waiting for " +:+ fmt_v notReady) p.

Definition summarize (p : pass) : pass :=
  summarizeConvergence (summarizeAlignment (summarizeReadiness (summarizeHealth p))).

(** ** Status *)

Section status.
Context `{!Codec}.

Definition upNodes (p : pass) : Z :=
  if SingleNode (fsc_Spec (p_cluster p)) then h_ready (p_health p)
  else foldl (λ n node, if up (p_convergence p) (node_Name node) then wrap32 (n + 1) else n)
         0%Z (p_nodes p).

(** The status fields a pass computes, before the conditions are merged in.
    A layout the pass did not learn of leaves the published one in place. *)
Definition newStatus (p : pass) : FSClusterStatus :=
  let old := fsc_Status (p_object p) in
  let nodes := wrap32 (Z.of_nat (length (p_nodes p))) in
  let layout :=
    match cv_layout (p_convergence p) with
    | Some l => Some (mkLayoutStatus (wrap64 (Version l)) (wrap32 (Z.of_nat (length (Members l))))
                        (wrap32 <$> Widths l) (wrap64 <$> Retained l))
    | None => st_Layout old
    end in
  let s3 := S3 (fsc_Spec (p_cluster p)) in
  let endpoints := mkEndpointsStatus
    (S3Endpoint (fsc_Name (p_cluster p)) (fsc_Namespace (p_cluster p)) (svc_Port (Service s3))
       (bool_decide (tls_SecretName (TLS s3) ≠ ""))) in
  match p_configs p with
  | Some configs =>
      let revision := ConfigRevision configs in
      mkFSClusterStatus (fsc_Generation (p_object p)) nodes (h_ready (p_health p)) (upNodes p)
        revision (p_templateRevision p)
        (if (h_current (p_health p) =? nodes)%Z then revision else st_CurrentRevision old)
        revision layout (p_update p) (Some endpoints) (st_Conditions old)
  | None =>
      mkFSClusterStatus (fsc_Generation (p_object p)) nodes (h_ready (p_health p)) (upNodes p)
        (st_ConfigurationRevision old) (st_StatefulSetRevision old) (st_CurrentRevision old)
        (st_UpdateRevision old) layout (p_update p) (Some endpoints) (st_Conditions old)
  end.

Definition with_status (o : FSCluster) (status : FSClusterStatus) : FSCluster :=
  mkFSCluster (fsc_Name o) (fsc_Namespace o) (fsc_Generation o) (fsc_Deleting o) (fsc_Spec o) status.

Definition with_conditions (o : FSCluster) (cs : list Condition) : FSCluster :=
  let st := fsc_Status o in
  with_status o
    (mkFSClusterStatus (st_ObservedGeneration st) (st_Nodes st) (st_ReadyNodes st) (st_UpNodes st)
       (st_ConfigurationRevision st) (st_StatefulSetRevision st) (st_CurrentRevision st)
       (st_UpdateRevision st) (st_Layout st) (st_Update st) (st_Endpoints st) cs).

Section steps.
Context {W : Type} `{!KubeClient W}.

Definition observe : M (Env W pass) Outcome :=
  p ← get_st;
  sets ← nodeSets (p_cluster p);
  let live := index_sets sets in
  _ ← put_st (λ p, set_observed live (observe_nodes p live) p);
  ret Continue.

Definition reconcileStatus : M (Env W pass) Outcome :=
  p ← get_st;
  let base := p_object p in
  _ ← put_st (λ p, set_object (with_status (p_object p) (newStatus p)) p);
  _ ← put_st summarize;
  p ← get_st;
  let object := with_conditions (p_object p)
    (foldl k_setCondition (st_Conditions (fsc_Status (p_object p))) (p_conditions p)) in
  _ ← put_st (set_object object);
  stored ← wrap_err "update status" (issue (APatchStatus base object) (k_patchStatus base object));
  _ ← put_st (set_object stored);
  _ ← emit (ARecordCluster stored);
  _ ← match st_Update (fsc_Status base), p_update p with
      | Some update, None =>
          match StartedAt update with
          | Some started => emit (ARecordUpdateFinished stored started)
          | None => ret tt
          end
      | _, _ => ret tt
      end;
  _ ← match p_failure p with
      | Some _ => emit (ARecordReconcileError "fscluster")
      | None => ret tt
      end;
  ret Continue.
End steps.
End status.

(** * Theorems *)

(** ** What observation counts *)

Definition down_names (live : gmap string StatefulSet) (nodes : list Node) : list string :=
  node_Name <$> filter (λ node, serving live (node_Name node) = false) nodes.

Definition current_in (live : gmap string StatefulSet) (desired : gmap string string) (name : string) : bool :=
  match live !! name with
  | Some set =>
      nodeServing set && match desired !! name with
                         | Some revision => bool_decide (template_revision set = revision)
                         | None => false
                         end
  | None => false
  end.

Definition count_up (live : gmap string StatefulSet) (nodes : list Node) : Z :=
  Z.of_nat (length (filter (λ node, serving live (node_Name node) = true) nodes)).

Definition count_current (live : gmap string StatefulSet) (desired : gmap string string)
    (nodes : list Node) : Z :=
  Z.of_nat (length (filter (λ node, current_in live desired (node_Name node) = true) nodes)).

Definition domain_set (spec : FSClusterSpec) (nodes : list Node) : gset string :=
  list_to_set (domainOf spec <$> nodes).

Definition down_domain_set (spec : FSClusterSpec) (live : gmap string StatefulSet) (nodes : list Node)
    : gset string :=
  list_to_set (domainOf spec <$> filter (λ node, serving live (node_Name node) = false) nodes).

Lemma wrap32_add a b : wrap32 (wrap32 a + b) = wrap32 (a + b).
Proof.
  unfold wrap32. f_equal.
  replace ((a + 2 ^ 31) mod 2 ^ 32 - 2 ^ 31 + b + 2 ^ 31)%Z with ((a + 2 ^ 31) mod 2 ^ 32 + b)%Z by lia.
  rewrite Zplus_mod_idemp_l. f_equal. lia.
Qed.

Lemma filter_cons_if {A} (f : A → bool) (b : bool) x l :
  filter (λ y, f y = b) (x :: l) =
  (if Bool.eqb (f x) b then [x] else []) ++ filter (λ y, f y = b) l.
Proof. rewrite filter_cons. destruct (f x), b; done. Qed.

(** The loop of [observe], from any tally. *)
Lemma observe_foldl spec live desired nodes t :
  let t' := foldl (observe_node spec live desired) t nodes in
  h_notReady (t_health t') = h_notReady (t_health t) ++ down_names live nodes ∧
  wrap32 (h_ready (t_health t')) = wrap32 (h_ready (t_health t) + count_up live nodes) ∧
  wrap32 (h_current (t_health t')) = wrap32 (h_current (t_health t) + count_current live desired nodes) ∧
  h_configCurrent (t_health t') = h_configCurrent (t_health t) ∧
  t_domains t' = domain_set spec nodes ∪ t_domains t ∧
  t_down t' = down_domain_set spec live nodes ∪ t_down t.
Proof.
  revert t. induction nodes as [|node nodes IH]; intros [h ds dn]; simpl.
  - unfold down_names, count_up, count_current. simpl. rewrite app_nil_r, !Z.add_0_r.
    repeat split; set_solver.
  - specialize (IH (observe_node spec live desired (mkTally h ds dn) node)). simpl in IH.
    destruct IH as (H1 & H2 & H3 & H4 & H5 & H6). rewrite H1, H2, H3, H4, H5, H6. clear.
    unfold down_names, count_up, count_current, domain_set, down_domain_set, observe_node.
    rewrite !filter_cons_if, !length_app, !fmap_app, !Nat2Z.inj_add, fmap_cons, list_to_set_cons,
      list_to_set_app_L.
    assert (Hserve : serving live (node_Name node) =
      match live !! node_Name node with Some set => nodeServing set | None => false end) by done.
    assert (Hcur : current_in live desired (node_Name node) =
      match live !! node_Name node with
      | Some set =>
          nodeServing set && match desired !! node_Name node with
                             | Some revision => bool_decide (template_revision set = revision)
                             | None => false
                             end
      | None => false
      end) by done.
    destruct (live !! node_Name node) as [set|] eqn:Hl; simpl in *;
      [destruct (nodeServing set) eqn:Hs; simpl in *|].
    1: destruct (desired !! node_Name node) as [rev|]; simpl in *; [case_bool_decide|].
    all: rewrite Hserve, Hcur; simpl; rewrite <- ?app_assoc, ?wrap32_add, ?Z.add_0_l, <- ?Z.add_assoc;
      repeat split; try done; try set_solver.
Qed.

Lemma observe_foldl_range spec live desired nodes t :
  in_int32 (h_ready (t_health t)) → in_int32 (h_current (t_health t)) →
  let t' := foldl (observe_node spec live desired) t nodes in
  in_int32 (h_ready (t_health t')) ∧ in_int32 (h_current (t_health t')).
Proof.
  revert t. induction nodes as [|node nodes IH]; intros t Hr Hc; simpl; [done|].
  apply IH; unfold observe_node; repeat (case_match; simpl); auto using wrap32_range.
Qed.

Lemma filter_le_length {A} (P : A → Prop) `{!∀ x, Decision (P x)} (l : list A) :
  length (filter P l) ≤ length l.
Proof. apply length_filter. Qed.

(** What one observation from a fresh pass finds, in one statement. *)
Lemma observe_nodes_spec p live :
  p_health p = no_health → (Z.of_nat (length (p_nodes p)) < 2 ^ 31)%Z →
  let h := observe_nodes p live in
  h_notReady h = down_names live (p_nodes p) ∧
  h_ready h = count_up live (p_nodes p) ∧
  h_current h = count_current live (desired_revisions (desired_sets p)) (p_nodes p) ∧
  h_domains h = size (domain_set (fsc_Spec (p_cluster p)) (p_nodes p)) ∧
  h_downDomains h = size (down_domain_set (fsc_Spec (p_cluster p)) live (p_nodes p)).
Proof.
  intros Hh Hlen. unfold observe_nodes. rewrite Hh.
  set (desired := desired_revisions (desired_sets p)).
  destruct (observe_foldl (fsc_Spec (p_cluster p)) live desired (p_nodes p) (mkTally no_health ∅ ∅))
    as (H1 & H2 & H3 & _ & H5 & H6).
  destruct (observe_foldl_range (fsc_Spec (p_cluster p)) live desired (p_nodes p)
    (mkTally no_health ∅ ∅)) as [R1 R2]; [done..|].
  assert (B1 := filter_le_length (λ node, serving live (node_Name node) = true) (p_nodes p)).
  assert (B2 := filter_le_length (λ node, current_in live desired (node_Name node) = true) (p_nodes p)).
  cbn [h_ready h_current h_notReady h_domains h_downDomains no_health t_health t_domains t_down] in *.
  rewrite Z.add_0_l in H2, H3. rewrite H1, H5, H6, !union_empty_r_L.
  rewrite (wrap32_id _ R1), (wrap32_id (count_up _ _)) in H2 by (unfold count_up, in_int32; lia).
  rewrite (wrap32_id _ R2), (wrap32_id (count_current _ _ _)) in H3
    by (unfold count_current, in_int32; lia).
  done.
Qed.

(** ** Readiness against the write quorum

    The contract of fs the readiness rule is about: a partition has three
    replicas, spread over distinct domains when there are three, over all of
    them otherwise, and a write needs two of the three. *)

Definition spread (domains : gset string) (replicas : list string) : Prop :=
  length replicas = 3 ∧ (∀ d, d ∈ replicas → d ∈ domains) ∧
  if decide (3 ≤ size domains) then NoDup replicas else ∀ d, d ∈ domains → d ∈ replicas.

Definition quorum (down : gset string) (replicas : list string) : Prop :=
  2 ≤ length (filter (λ d, d ∉ down) replicas).

Definition every_write_acknowledged (domains down : gset string) : Prop :=
  ∀ replicas, spread domains replicas → quorum down replicas.

Lemma set_two (X : gset string) : 2 ≤ size X → ∃ a b, a ∈ X ∧ b ∈ X ∧ a ≠ b.
Proof.
  intros H. destruct (size_pos_elem_of X) as [a Ha]; [lia|].
  destruct (size_pos_elem_of (X ∖ {[a]})) as [b Hb].
  { rewrite size_difference, size_singleton by set_solver. lia. }
  exists a, b. set_solver.
Qed.

Lemma set_third (X : gset string) a b : 3 ≤ size X → ∃ c, c ∈ X ∧ c ≠ a ∧ c ≠ b.
Proof.
  intros H. destruct (size_pos_elem_of (X ∖ {[a; b]})) as [c Hc]; [|exists c; set_solver].
  assert (size X ≤ size (X ∖ {[a; b]}) + size ({[a; b]} : gset string)).
  { rewrite <- size_union by set_solver. apply subseteq_size. intros x Hx.
    destruct (decide (x ∈ ({[a; b]} : gset string))); set_solver. }
  assert (size ({[a; b]} : gset string) ≤ 2).
  { change ({[a; b]} : gset string) with ({[a]} ∪ {[b]} : gset string).
    rewrite size_union_alt, size_singleton.
    assert (size ({[b]} ∖ {[a]} : gset string) ≤ size ({[b]} : gset string))
      by (apply subseteq_size; set_solver).
    rewrite size_singleton in *. lia. }
  lia.
Qed.

Lemma size_le_1_eq (X : gset string) a b : size X ≤ 1 → a ∈ X → b ∈ X → a = b.
Proof.
  intros H Ha Hb. destruct (decide (a = b)) as [|Hne]; [done|exfalso].
  assert (size ({[a; b]} : gset string) ≤ size X) by (apply subseteq_size; set_solver).
  change ({[a; b]} : gset string) with ({[a]} ∪ {[b]} : gset string) in *.
  rewrite size_union, !size_singleton in * by set_solver. lia.
Qed.

(** Domains counted against the tolerance decide the quorum exactly. *)
Lemma tolerance_quorum (domains down : gset string) :
  down ⊆ domains →
  size down ≤ (if (DefaultLayoutWidth <=? Z.of_nat (size domains))%Z then 1 else 0)
  ↔ every_write_acknowledged domains down.
Proof.
  intros Hsub. unfold every_write_acknowledged, spread, quorum, DefaultLayoutWidth.
  destruct (Z.leb_spec 3 (Z.of_nat (size domains))) as [Hw|Hw].
  - destruct (decide (3 ≤ size domains)); [|lia]. split.
    + intros Hdown replicas (Hl & _ & Hnd).
      destruct replicas as [|a [|b [|c [|]]]]; try done. rewrite !filter_cons, filter_nil.
      rewrite !NoDup_cons in Hnd.
      assert (∀ x y, x ∈ down → y ∈ down → x = y) by eauto using size_le_1_eq.
      repeat case_decide; simpl; try lia; exfalso;
        repeat match goal with H : ¬ (_ ∉ down) |- _ => apply dec_stable in H end; set_solver.
    + intros Hq. destruct (decide (size down ≤ 1)) as [|Hn]; [done|exfalso].
      destruct (set_two down) as (a & b & Ha & Hb & Hab); [lia|].
      destruct (set_third domains a b) as (c & Hc & Hca & Hcb); [lia|].
      specialize (Hq [a; b; c]). rewrite !filter_cons, filter_nil in Hq.
      rewrite (decide_False (P := a ∉ down)), (decide_False (P := b ∉ down)) in Hq by auto.
      enough (2 ≤ length (if decide (c ∉ down) then [c] else [])) by (case_decide; simpl in *; lia).
      apply Hq. split; [done|]. split; [set_solver|].
      repeat (apply NoDup_cons; split); [set_solver..|constructor].
  - destruct (decide (3 ≤ size domains)); [lia|]. split.
    + intros Hdown replicas (Hl & _). assert (down = ∅) as ->.
      { apply leibniz_equiv, size_empty_iff. lia. }
      destruct replicas as [|a [|b [|c [|]]]]; try done.
      rewrite !filter_cons, filter_nil, !decide_True by set_solver. simpl. lia.
    + intros Hq. destruct (decide (down = ∅)) as [->|Hn]; [by rewrite size_empty|exfalso].
      apply set_choose_L in Hn as [d Hd].
      assert (Hno : ∀ l, domains ≡ {[d]} ∪ l → size l ≤ 1 → l ## {[d]} → False).
      { intros l Hl Hs Hdis.
        destruct (decide (l = ∅)) as [->|Hne].
        - specialize (Hq [d; d; d]). rewrite !filter_cons, filter_nil, !(decide_False (P := d ∉ down)) in Hq by auto.
          enough (2 ≤ @length string []) by (simpl in *; lia).
          apply Hq. split; [done|]. split; set_solver.
        - apply set_choose_L in Hne as [e He].
          specialize (Hq [d; d; e]). rewrite !filter_cons, filter_nil in Hq.
          rewrite !(decide_False (P := d ∉ down)) in Hq by auto.
          enough (2 ≤ length (if decide (e ∉ down) then [e] else [])) by (case_decide; simpl in *; lia).
          apply Hq. split; [done|]. split; [set_solver|].
          intros x Hx. rewrite Hl, elem_of_union, elem_of_singleton in Hx.
          destruct Hx as [->|Hx]; [set_solver|]. rewrite (size_le_1_eq l x e Hs Hx He). set_solver. }
      apply (Hno (domains ∖ {[d]})); [| |set_solver].
      { intros x. destruct (decide (x = d)); set_solver. }
      rewrite size_difference, size_singleton by set_solver. lia.
Qed.

Lemma down_domain_subseteq spec live nodes : down_domain_set spec live nodes ⊆ domain_set spec nodes.
Proof.
  intros d. unfold down_domain_set, domain_set. rewrite !elem_of_list_to_set, !list_elem_of_fmap.
  intros (node & -> & Hin). apply list_elem_of_filter in Hin as [_ Hin]. eauto.
Qed.

(** A serving node is not named down, and a declared one that is not, is. *)
Lemma elem_of_down_names live nodes name :
  name ∈ down_names live nodes ↔ serving live name = false ∧ name ∈ (node_Name <$> nodes).
Proof.
  unfold down_names. rewrite !list_elem_of_fmap. split.
  - intros (node & -> & Hin). apply list_elem_of_filter in Hin as [? ?]. eauto.
  - intros (Hs & node & -> & Hin). exists node. rewrite list_elem_of_filter. done.
Qed.

(** ** The conditions a pass publishes *)

(** The status of the last condition of a type queued by a pass: a later one
    of the same type overwrites it when the status is written. *)
Definition queued (type : string) (p : pass) : option (string * string) :=
  (λ c, (cond_Status c, cond_Reason c)) <$>
    last (filter (λ c, cond_Type c = type) (p_conditions p)).

Lemma queued_setCondition type p t st r m :
  queued type (setCondition t st r m p) =
  if bool_decide (t = type) then Some (st, r) else queued type p.
Proof.
  unfold queued, setCondition, set_conditions. simpl. rewrite filter_app, filter_cons, filter_nil. simpl.
  case_bool_decide as Ht; [rewrite decide_True, last_snoc by done; done|].
  by rewrite decide_False, app_nil_r by done.
Qed.

Lemma queued_same t st r m p : queued t (setCondition t st r m p) = Some (st, r).
Proof. rewrite queued_setCondition. by rewrite bool_decide_true. Qed.

Lemma queued_other type t st r m p :
  t ≠ type → queued type (setCondition t st r m p) = queued type p.
Proof. intros. rewrite queued_setCondition. by rewrite bool_decide_false. Qed.

Ltac queued_simpl :=
  repeat first [rewrite queued_same | rewrite queued_other by done]; try done.

(** The steps of [summarize] queue conditions of their own types and leave the
    observation alone. *)
Definition observed (p : pass) := (core p, p_update p, p_failure p).

Lemma observed_inv p p' : observed p' = observed p →
  p_cluster p' = p_cluster p ∧ p_health p' = p_health p ∧ p_convergence p' = p_convergence p.
Proof. unfold observed, core, decided, inputs. intros Heq. by injection Heq. Qed.

Lemma observed_if (b : bool) p q : observed (if b then p else q) = if b then observed p else observed q.
Proof. by destruct b. Qed.

Lemma if_same {A} (b : bool) (x : A) : (if b then x else x) = x.
Proof. by destruct b. Qed.

Lemma observed_setCondition t st r m p : observed (setCondition t st r m p) = observed p.
Proof. done. Qed.

Lemma summarizeHealth_observed p : observed (summarizeHealth p) = observed p.
Proof.
  unfold summarizeHealth. rewrite observed_if, !observed_setCondition, if_same.
  by destruct (p_failure p).
Qed.

Lemma summarizeReadiness_observed p : observed (summarizeReadiness p) = observed p.
Proof.
  unfold summarizeReadiness. destruct (cv_layout _);
    by rewrite !observed_if, !observed_setCondition, !if_same.
Qed.

Lemma summarizeAlignment_observed p : observed (summarizeAlignment p) = observed p.
Proof.
  unfold summarizeAlignment. destruct (p_desired p); [|done].
  by rewrite !observed_if, !observed_setCondition, !if_same, !observed_if, !observed_setCondition, !if_same.
Qed.

Lemma summarizeConvergence_observed p : observed (summarizeConvergence p) = observed p.
Proof.
  unfold summarizeConvergence. by rewrite !observed_if, !observed_setCondition, !if_same.
Qed.

Lemma summarize_observed p : observed (summarize p) = observed p.
Proof.
  unfold summarize. by rewrite summarizeConvergence_observed, summarizeAlignment_observed,
    summarizeReadiness_observed, summarizeHealth_observed.
Qed.

(** Readiness is decided by [summarizeReadiness] alone. *)
Lemma queued_if type (b : bool) p q :
  queued type (if b then p else q) = if b then queued type p else queued type q.
Proof. by destruct b. Qed.

Lemma queued_summarize_Ready p :
  queued ConditionReady (summarize p) = queued ConditionReady (summarizeReadiness (summarizeHealth p)).
Proof.
  unfold summarize, summarizeConvergence. rewrite !queued_if, !queued_other, !if_same by done.
  unfold summarizeAlignment. destruct (p_desired _); [|done].
  by rewrite !queued_if, !queued_other, !if_same, !queued_if, !queued_other, !if_same by done.
Qed.

(** A clustered pass that has a layout publishes Ready exactly when every
    write can be acknowledged with the nodes that are down. *)
Lemma summarize_Ready_quorum p nodes live :
  SingleNode (fsc_Spec (p_cluster p)) = false → is_Some (cv_layout (p_convergence p)) →
  h_domains (p_health p) = size (domain_set (fsc_Spec (p_cluster p)) nodes) →
  h_downDomains (p_health p) = size (down_domain_set (fsc_Spec (p_cluster p)) live nodes) →
  queued ConditionReady (summarize p) = Some (ConditionTrue, ReasonQuorumAvailable)
  ↔ every_write_acknowledged (domain_set (fsc_Spec (p_cluster p)) nodes)
      (down_domain_set (fsc_Spec (p_cluster p)) live nodes).
Proof.
  intros Hs [l Hl] Hd Hdd. rewrite queued_summarize_Ready.
  destruct (observed_inv _ _ (summarizeHealth_observed p)) as (Hc & Hh & Hv).
  unfold summarizeReadiness. rewrite Hc, Hh, Hv, Hs, Hl, Hd, Hdd, queued_if, !queued_same.
  rewrite <- tolerance_quorum by apply down_domain_subseteq.
  match goal with |- context [if ?x <=? ?y then _ else _] => destruct (Nat.leb_spec x y) end.
  - split; [done|]. done.
  - split; [done|]. lia.
Qed.

(** ** What the two steps do *)

Section frame.
Context {W : Type} `{!KubeClient W, !Codec}.
Implicit Types s : Env W pass.

(** [observe] only reads, and writes the observation. *)
Lemma resp_observe (φ : action → Prop) s :
  resp (env_rel φ (keeps (λ p, (p_object p, p_cluster p, p_nodes p, p_configs p, p_desired p,
    p_convergence p, p_decommission p, p_layoutApplied p)))) observe s.
Proof. unfold observe. rsolve. by apply resp_put_st. Qed.

Lemma observe_Ok s out s' :
  observe s = (Ok out, s') →
  ∃ sets, e_st s' = set_observed (index_sets sets) (observe_nodes (e_st s) (index_sets sets)) (e_st s).
Proof.
  unfold observe, nodeSets, get_st, put_st, call, wrap_err. msimpl.
  destruct (k_listSets _ _ _) as [[sets|e] w]; intros; simplify_eq/=. by exists sets.
Qed.

Definition status_action (a : action) : Prop :=
  match a with APatchStatus _ _ => True | _ => reporting a end.

Lemma resp_reconcileStatus s : resp (env_rel status_action (keeps decided)) reconcileStatus s.
Proof.
  unfold reconcileStatus. rsolve_all.
  unfold keeps. assert (Hob := summarize_observed (e_st s'0)). unfold observed, core in Hob. congruence.
Qed.
End frame.

(** C18: A clustered pass that has a layout publishes [Ready=True] exactly when
    every write can be acknowledged: every spread of three replicas over the
    failure domains of the nodes keeps two replicas in domains without a node
    down. *)
Theorem Ready_iff_writes_acknowledged (p : pass) (live : gmap string StatefulSet) :
  p_health p = no_health → (Z.of_nat (length (p_nodes p)) < 2 ^ 31)%Z →
  SingleNode (fsc_Spec (p_cluster p)) = false → is_Some (cv_layout (p_convergence p)) →
  let p' := set_observed live (observe_nodes p live) p in
  queued ConditionReady (summarize p') = Some (ConditionTrue, ReasonQuorumAvailable)
  ↔ every_write_acknowledged (domain_set (fsc_Spec (p_cluster p)) (p_nodes p))
      (down_domain_set (fsc_Spec (p_cluster p)) live (p_nodes p)).
Proof.
  intros Hh Hlen Hs Hl. cbv zeta.
  destruct (observe_nodes_spec p live Hh Hlen) as (_ & _ & _ & Hd & Hdd).
  by apply (summarize_Ready_quorum (set_observed live (observe_nodes p live) p) (p_nodes p) live).
Qed.

(** An observation names exactly the nodes that do not serve, in order,
    counts the others, and counts as current those of them whose StatefulSet
    carries the desired template revision; no count wraps around. *)
Theorem observe_counts (p : pass) (live : gmap string StatefulSet) :
  p_health p = no_health → (Z.of_nat (length (p_nodes p)) < 2 ^ 31)%Z →
  let h := observe_nodes p live in
  h_notReady h = node_Name <$> filter (λ node, serving live (node_Name node) = false) (p_nodes p) ∧
  (h_ready h + Z.of_nat (length (h_notReady h)) = Z.of_nat (length (p_nodes p)))%Z ∧
  h_current h = count_current live (desired_revisions (desired_sets p)) (p_nodes p) ∧
  (0 <= h_current h <= h_ready h)%Z.
Proof.
  intros Hh Hlen. cbv zeta. destruct (observe_nodes_spec p live Hh Hlen) as (-> & -> & -> & _ & _).
  split; [done|]. unfold down_names, count_up, count_current. rewrite length_fmap. clear Hlen.
  split; [|split; [done|]].
  - induction (p_nodes p) as [|node nodes IH]; [done|]. rewrite !filter_cons_if, !length_app.
    destruct (serving live (node_Name node)); simpl; lia.
  - induction (p_nodes p) as [|node nodes IH]; [done|]. rewrite !filter_cons_if, !length_app.
    assert (current_in live (desired_revisions (desired_sets p)) (node_Name node) = true →
            serving live (node_Name node) = true) as Hcs.
    { unfold current_in, serving. destruct (live !! node_Name node); [|done]. by intros [? _]%andb_true_iff. }
    destruct (current_in live (desired_revisions (desired_sets p)) (node_Name node));
      [rewrite (Hcs eq_refl)|destruct (serving live (node_Name node))]; simpl; lia.
Qed.
