(* ===== verification/Convergence.v ===== *)
(** * Convergence (src/internal/controller/fscluster/convergence.go)

    What the admin API reports about the layout and the nodes, and the verdict
    every disruptive step gates on. *)

From S2P Require Import Prelude.
From S2P Require Import ApiTypes.
From S2P Require Import Defaults.
From S2P Require Import Nodes.
From S2P Require Import FsClient.
From S2P Require Import Kube.
From S2P Require Import Config.
From S2P Require Import Builders.
From S2P Require Import Pipeline.
From S2P Require Import Pass.
From S2P Require Import Status.

(** ** Who to ask *)

Definition servingNodes (p : pass) : list Node :=
  filter (λ node, nodeServing <$> p_live p !! node_Name node = Some true) (p_nodes p).

Definition notServingNodes (p : pass) : list Node :=
  filter (λ node, nodeServing <$> p_live p !! node_Name node = Some false) (p_nodes p).

(** [append(servingNodes(p), notServingNodes(p)...)] *)
Definition askOrder (p : pass) : list Node := servingNodes p ++ notServingNodes p.

(** ** The verdict *)

Fixpoint nodes_converged (nodes : list Node) (view : gmap string FsNode) (version : Z) : bool * string :=
  match nodes with
  | [] => (true, "")
  | node :: nodes' =>
      let name := node_Name node in
      match view !! name with
      | Some n =>
          if n_Up n then
            if (n_LayoutVersion n <? version)%Z
            then (false, "node " +:+ fmt_q name +:+ " is on layout version "
                    +:+ pretty (n_LayoutVersion n) +:+ ", not " +:+ pretty version)
            else nodes_converged nodes' view version
          else (false, "node " +:+ fmt_q name +:+ " is not up in the cluster's view")
      | None => (false, "node " +:+ fmt_q name +:+ " is not up in the cluster's view")
      end
  end.

Definition converged (p : pass) (view : convergence) : bool * string :=
  match cv_layout view with
  | None => (false, "no layout has been applied yet")
  | Some layout =>
      if Transitioning layout then
        (false, "layout version " +:+ pretty (Version layout) +:+ " is moving data; versions "
                  +:+ fmt_vZ (Retained layout) +:+ " are still retained")
      else nodes_converged (p_nodes p) (cv_nodes view) (Version layout)
  end.

(** [view.nodes[n.ID] = n] for the nodes that have an identity. *)
Definition index_view (nodes : list FsNode) : gmap string FsNode :=
  foldl (λ m n, if bool_decide (n_ID n ≠ "") then <[n_ID n := n]> m else m) ∅ nodes.

Definition with_verdict (view : convergence) (v : bool * string) : convergence :=
  mkConvergence (cv_known view) (cv_layout view) (cv_nodes view) v.1 v.2.

Section steps.
Context {W : Type} `{!KubeClient W, !Interface W}.

Definition clusterView (p : pass) (node : Node) (token : string) : M (Env W pass) convergence :=
  let url := node_url p node in
  _ ← call (adm_Client url token);
  r ← try (call (adm_Layout url token));
  layout ← match r with
           | Ok l => ret (Some l)
           | Err e => if err_is KNoLayout e then ret None else throw e
           end;
  nodes ← call (adm_Nodes url token);
  ret (mkConvergence true layout (index_view nodes) false "").

(** The loop: the first node that answers decides. *)
Fixpoint askNodes (p : pass) (nodes : list Node) (token : string) : M (Env W pass) unit :=
  match nodes with
  | [] => ret tt
  | node :: nodes' =>
      r ← try (clusterView p node token);
      match r with
      | Err _ => askNodes p nodes' token
      | Ok view => put_st (set_convergence (with_verdict view (converged p view)))
      end
  end.

Definition gatherConvergence : M (Env W pass) Outcome :=
  p ← get_st;
  if SingleNode (fsc_Spec (p_cluster p)) then
    _ ← put_st (set_convergence (mkConvergence true None ∅ true ""));
    ret Continue
  else
    r ← try adminToken;
    match r with
    | Err _ => ret Continue
    | Ok token =>
        _ ← askNodes p (askOrder p) token;
        ret Continue
    end.
End steps.

(** * Theorems *)

(** ** Who is asked: every node whose StatefulSet exists, serving ones first *)

Lemma elem_of_askOrder p node :
  node ∈ askOrder p ↔ node ∈ p_nodes p ∧ is_Some (p_live p !! node_Name node).
Proof.
  unfold askOrder, servingNodes, notServingNodes. rewrite elem_of_app, !list_elem_of_filter.
  destruct (p_live p !! node_Name node) as [set|] eqn:E; simpl.
  - destruct (nodeServing set); naive_solver.
  - split; [naive_solver|]. intros [_ [? ?]]. done.
Qed.

(** ** The verdict *)

Definition node_settled (view : gmap string FsNode) (version : Z) (name : string) : Prop :=
  ∃ n, view !! name = Some n ∧ n_Up n = true ∧ (version <= n_LayoutVersion n)%Z.

Lemma nodes_converged_true nodes view version :
  (nodes_converged nodes view version).1 = true ↔
  Forall (λ node, node_settled view version (node_Name node)) nodes.
Proof.
  induction nodes as [|node nodes IH]; simpl; [by split; [constructor|]|].
  rewrite Forall_cons. unfold node_settled at 1.
  destruct (view !! node_Name node) as [n|]; simpl; [|naive_solver].
  destruct (n_Up n) eqn:Hup; simpl; [|naive_solver].
  destruct (Z.ltb_spec (n_LayoutVersion n) version); simpl.
  - split; [done|]. intros [(? & ? & ? & ?) _]. simplify_eq. lia.
  - rewrite IH. naive_solver lia.
Qed.

(** A verdict that is not "converged" says what is missing. *)
Lemma nodes_converged_waiting nodes view version :
  (nodes_converged nodes view version).2 = "" ↔ (nodes_converged nodes view version).1 = true.
Proof.
  induction nodes as [|node nodes IH]; simpl; [done|]. by repeat (case_match; simpl).
Qed.

Definition settled (p : pass) (view : convergence) : Prop :=
  ∃ layout, cv_layout view = Some layout ∧ Retained layout = [] ∧
    Forall (λ node, node_settled (cv_nodes view) (Version layout) (node_Name node)) (p_nodes p).

Lemma Transitioning_false l : Transitioning l = false ↔ Retained l = [].
Proof. unfold Transitioning. case_bool_decide; destruct (Retained l); naive_solver. Qed.

Lemma converged_settled p view : (converged p view).1 = true ↔ settled p view.
Proof.
  unfold converged, settled. destruct (cv_layout view) as [l|]; [|naive_solver].
  destruct (Transitioning l) eqn:Ht.
  - split; [done|]. intros (l' & ? & Hr & _). simplify_eq.
    apply Transitioning_false in Hr. congruence.
  - rewrite nodes_converged_true. apply Transitioning_false in Ht. naive_solver.
Qed.

Lemma converged_waiting p view : (converged p view).2 = "" ↔ (converged p view).1 = true.
Proof.
  unfold converged. destruct (cv_layout view) as [l|]; [|done].
  destruct (Transitioning l); [done|]. apply nodes_converged_waiting.
Qed.

(** ** The gossip view is indexed by identity *)


Lemma index_view_inv nodes (m : gmap string FsNode) id n :
  foldl (λ m n, if bool_decide (n_ID n ≠ "") then <[n_ID n := n]> m else m) m nodes !! id = Some n →
  (n ∈ nodes ∧ n_ID n = id ∧ id ≠ "") ∨ m !! id = Some n.
Proof.
  revert m. induction nodes as [|x nodes IH]; intros m; simpl; [by right|].
  intros [H|H]%IH; [left; set_solver|]. case_bool_decide; [|by right].
  apply lookup_insert_Some in H as [[<- <-]|[_ H]]; [left; set_solver|by right].
Qed.

Lemma index_view_lookup nodes id n :
  index_view nodes !! id = Some n → n ∈ nodes ∧ n_ID n = id ∧ id ≠ "".
Proof. intros [H|H]%index_view_inv; [done|]. by rewrite lookup_empty in H. Qed.

(** ** The step *)

Section frame.
Context {W : Type} `{!KubeClient W, !Interface W}.
Implicit Types s : Env W pass.

Lemma resp_clusterView (φ : action → Prop) (Q : relation pass) `{!PreOrder Q} p node token s :
  resp (env_rel φ Q) (clusterView p node token) s.
Proof. unfold clusterView. rsolve. Qed.

Lemma resp_askNodes (φ : action → Prop) p nodes token s :
  resp (env_rel φ (keeps (λ p, (p_object p, inputs p, p_health p, p_layoutApplied p))))
    (askNodes p nodes token) s.
Proof.
  revert s. induction nodes as [|node nodes IH]; intros s; simpl; rsolve_all.
  apply resp_clusterView, _.
Qed.

Lemma resp_gatherConvergence (φ : action → Prop) s :
  resp (env_rel φ (keeps (λ p, (p_object p, inputs p, p_health p, p_layoutApplied p))))
    gatherConvergence s.
Proof. unfold gatherConvergence. rsolve_all. apply resp_askNodes. Qed.

(** A view comes from a node that answered both queries, or has no layout. *)
Lemma clusterView_known p node token s view s' :
  clusterView p node token s = (Ok view, s') → cv_known view = true.
Proof.
  unfold clusterView, call. msimpl.
  destruct (adm_Client _ _ _) as [[]?]; [|done]. destruct (adm_Layout _ _ _) as [[l|e] ?]; simpl.
  2: destruct (err_is KNoLayout e); [|done]; simpl.
  all: destruct (adm_Nodes _ _ _) as [[]?]; [|done]; intros; by simplify_eq.
Qed.

Definition asked_one_of (p : pass) (nodes : list Node) (c : convergence) : Prop :=
  ∃ node token s view s', node ∈ nodes ∧ clusterView p node token s = (Ok view, s') ∧
    c = with_verdict view (converged p view).

(** What is known of the cluster afterwards: nothing new, or the view of one
    of the nodes with the verdict on it. *)
Lemma askNodes_view p nodes token s :
  let s' := (askNodes p nodes token s).2 in
  e_st s' = e_st s ∨
  ∃ c, e_st s' = set_convergence c (e_st s) ∧ asked_one_of p nodes c.
Proof.
  revert s. induction nodes as [|node nodes IH]; intros s; simpl; [by left|].
  assert (Hst : st_rel (keeps id) s (clusterView p node token s).2)
    by (apply (resp_clusterView (λ _, True) (keeps id)); apply _).
  unfold st_rel, keeps in Hst.
  destruct (clusterView p node token s) as [[view|e] s1] eqn:E; unfold put_st; msimpl; rewrite E; simpl.
  - right. eexists. split; [simpl; by rewrite Hst|].
    exists node, token, s, view, s1. split; [set_solver|done].
  - destruct (IH s1) as [H|(c & H & node' & t & s2 & view & s3 & Hin & Hrest)];
      rewrite Hst in H; [by left|right].
    exists c. split; [done|]. exists node', t, s2, view, s3. split; [set_solver|done].
Qed.

(** A pass that believes the cluster converged has a view that says so. *)
Definition view_ok (p : pass) : Prop :=
  cv_converged (p_convergence p) = true →
  SingleNode (fsc_Spec (p_cluster p)) = true ∨
  (cv_known (p_convergence p) = true ∧ settled p (p_convergence p)).

Lemma gatherConvergence_view_ok s :
  cv_converged (p_convergence (e_st s)) = false → view_ok (e_st (gatherConvergence s).2).
Proof.
  intros Hc. unfold gatherConvergence, get_st, put_st. msimpl.
  destruct (SingleNode (fsc_Spec (p_cluster (e_st s)))) eqn:Hs; [intros _; by left|].
  pose proof (adminToken_state s) as Ht.
  destruct (adminToken s) as [[token|e] s1]; simpl in *; [|intros H; rewrite Ht in H; congruence].
  destruct (askNodes_view (e_st s) (askOrder (e_st s)) token s1) as [H|(c & H & Hview)];
    destruct (askNodes _ _ _ _) as [r s2]; simpl in *; rewrite Ht in H.
  - destruct r; simpl; intros Hv; rewrite H in Hv; congruence.
  - destruct Hview as (node & t & s3 & view & s4 & _ & Hcv & ->).
    assert (e_st s2 = set_convergence (with_verdict view (converged (e_st s) view)) (e_st s) →
      view_ok (e_st s2)) as Hok.
    { intros ->. intros Hv. right. simpl in *. rewrite (clusterView_known _ _ _ _ _ _ Hcv).
      split; [done|]. by apply converged_settled in Hv. }
    destruct r; by apply Hok.
Qed.
(** The verdict is "converged" exactly when the view has a layout that
    retains no older version and every node of the pass is up on it; and it
    comes with a reason exactly when it is not. *)
Theorem converged_iff_settled (p : pass) (view : convergence) :
  ((converged p view).1 = true ↔ settled p view) ∧
  ((converged p view).2 = "" ↔ (converged p view).1 = true).
Proof. split; [apply converged_settled|apply converged_waiting]. Qed.

(** Gathering asks nothing of the cluster, changes only the pass's view,
    and that view is the whole answer of one node whose StatefulSet exists,
    with the verdict on it, or what it was before; a single node always counts
    as converged. *)
Theorem gatherConvergence_view s :
  let p := e_st s in
  let s' := (gatherConvergence s).2 in
  e_log s' = e_log s ∧ inputs (e_st s') = inputs p ∧ p_health (e_st s') = p_health p ∧
  (SingleNode (fsc_Spec (p_cluster p)) = true →
     cv_known (p_convergence (e_st s')) = true ∧ cv_converged (p_convergence (e_st s')) = true) ∧
  (SingleNode (fsc_Spec (p_cluster p)) = false →
     p_convergence (e_st s') = p_convergence p ∨
     asked_one_of p (askOrder p) (p_convergence (e_st s'))).
Proof.
  cbv zeta. destruct (resp_gatherConvergence (λ _, False) s) as [(l & Hl & Hf) Hst].
  unfold st_rel, keeps in Hst. split; [|split; [congruence|split; [congruence|]]].
  { destruct l; [by rewrite Hl, app_nil_r|by inversion Hf]. }
  clear Hl Hst. unfold gatherConvergence, get_st, put_st. msimpl.
  destruct (SingleNode (fsc_Spec (p_cluster (e_st s)))); split; try done. intros _.
  pose proof (adminToken_state s) as Ht. destruct (adminToken s) as [[token|e] s1]; simpl in *;
    [|left; by rewrite Ht].
  destruct (askNodes_view (e_st s) (askOrder (e_st s)) token s1) as [H|(c & H & Hview)];
    destruct (askNodes _ _ _ _) as [[] s2]; simpl in *; rewrite Ht in H; rewrite H; auto.
Qed.
End frame.
