(* ===== verification/Rollout.v ===== *)
(** * The rollout (src/internal/controller/fscluster/rollout.go)

    New nodes are created at once; a node whose pod template changed is
    replaced one at a time, and only while the rest of the cluster serves and
    has converged. *)

From S2P Require Import Prelude.
From S2P Require Import ApiTypes.
From S2P Require Import Defaults.
From S2P Require Import Nodes.
From S2P Require Import FsClient.
From S2P Require Import Kube.
From S2P Require Import Config.
From S2P Require Import Builders.
From S2P Require Import Pipeline.
From S2P Require Import Pass.
From S2P Require Import Status.

Definition eventNodeRolling : string := "NodeRolling".
Definition eventRolloutWait : string := "RolloutWaiting".
Definition eventRolloutStuck : string := "RolloutStuck".
Definition eventRolloutDone : string := "RolloutComplete".
Definition eventNodesCreating : string := "NodesCreating".

(** ** The order nodes are replaced in *)

Section order.
Context (rackOf : StatefulSet → string).

(** The racks in order of first appearance, and each rack's queue. *)
Fixpoint racks_of (stale : list StatefulSet) (seen : list string) : list string :=
  match stale with
  | [] => seen
  | set :: stale' =>
      racks_of stale' (if bool_decide (rackOf set ∈ seen) then seen else seen ++ [rackOf set])
  end.

Definition queues_of (stale : list StatefulSet) : gmap string (list StatefulSet) :=
  foldl (λ m set, <[rackOf set := default [] (m !! rackOf set) ++ [set]]> m) ∅ stale.

(** The inner loop: one pass over the racks takes the head of each queue. *)
Fixpoint take_round (racks : list string) (queues : gmap string (list StatefulSet))
    (ordered : list StatefulSet) : gmap string (list StatefulSet) * list StatefulSet :=
  match racks with
  | [] => (queues, ordered)
  | rack :: racks' =>
      match default [] (queues !! rack) with
      | [] => take_round racks' queues ordered
      | set :: queue => take_round racks' (<[rack := queue]> queues) (ordered ++ [set])
      end
  end.

(** The outer loop runs while sets remain; every round takes at least one, so
    [fuel] rounds for [fuel] sets are enough ([rollOrder_perm]). *)
Fixpoint interleave (fuel n : nat) (racks : list string) (queues : gmap string (list StatefulSet))
    (ordered : list StatefulSet) : list StatefulSet :=
  match fuel with
  | O => ordered
  | S fuel' =>
      if length ordered <? n then
        let '(queues, ordered) := take_round racks queues ordered in
        interleave fuel' n racks queues ordered
      else ordered
  end.
End order.

(** [rackOf]: the failure domain of a node by name; a later node of the same
    name wins, an unknown name reads as the empty string. *)
Definition rack_index (spec : FSClusterSpec) (nodes : list Node) : gmap string string :=
  foldl (λ m node, <[node_Name node := domainOf spec node]> m) ∅ nodes.

Definition rollOrder (spec : FSClusterSpec) (stale : list StatefulSet) (nodes : list Node)
    : list StatefulSet :=
  if length stale <? 2 then stale
  else
    let index := rack_index spec nodes in
    let rackOf set := default "" (index !! set_Name set) in
    interleave (length stale) (length stale) (racks_of rackOf stale []) (queues_of rackOf stale) [].

(** ** Fingerprints *)

Definition set_annotations (s : StatefulSet) (annotations : gmap string string) : StatefulSet :=
  mkStatefulSet (set_Kind s) (set_Name s) (set_Namespace s) (set_Labels s) annotations
    (set_Generation s) (set_ResourceVersion s) (set_ManagedFields s) (set_Replicas s)
    (set_ServiceName s) (set_Selector s) (set_Template s) (set_Claims s) (set_Retention s)
    (set_Status s).

Definition stampTemplateRevision `{!Codec} (set : StatefulSet) : result StatefulSet :=
  revision ← TemplateRevision set;
  Ok (set_annotations set (<[AnnotationTemplateRevision := revision]> (set_Annotations set))).

(** ** Rolling *)

Definition downSets (stale : list StatefulSet) (notReady : list string) : list StatefulSet :=
  filter (λ set, set_Name set ∈ notReady) stale.

(** [updateSubject] is the node, or the joined names, an update is about. *)
Definition matches (subject : string) (update : UpdateStatus) : bool :=
  bool_decide (upd_Node update = subject).

(** The phase and node a hold reports. *)
Definition holdSubject (p : pass) : UpdatePhase * string :=
  match st_Update (fsc_Status (p_object p)) with
  | Some update =>
      if bool_decide (Phase update = UpdatePhaseRollingNodes) then (Phase update, upd_Node update)
      else (UpdatePhasePreflight, "")
  | None => (UpdatePhasePreflight, "")
  end.

(** When the wait started: now, or when the published update of the same phase
    and subject did. *)
Definition hold_started (p : pass) (phase : UpdatePhase) (subject : string) (now : Z) : Z :=
  match st_Update (fsc_Status (p_object p)) with
  | Some update =>
      if bool_decide (Phase update = phase) && matches subject update
      then default now (StartedAt update) else now
  | None => now
  end.

Section steps.
Context {W : Type} `{!KubeClient W}.

Definition hold (phase : UpdatePhase) (subject reason : string) : M (Env W pass) Outcome :=
  p ← get_st;
  t ← now;
  let started := hold_started p phase subject t in
  _ ← put_st (set_update (mkUpdateStatus phase subject (Some started)));
  let waiting :=
    _ ← event EventTypeNormal eventRolloutWait ("Rollout " +:+ phase +:+ ": " +:+ reason);
    ret (RequeueAfter pollInterval reason) in
  match ConvergenceTimeout (UpdatePolicy (fsc_Spec (p_cluster p))) with
  | Some timeout =>
      t ← now;
      if (timeout <? time_Sub t started)%Z then
        _ ← put_st (setCondition ConditionConverged ConditionFalse ReasonConvergenceTimeout
              ("Rollout has been " +:+ phase +:+ " for over " +:+ Duration_String timeout +:+ ": "
                 +:+ reason));
        _ ← event EventTypeWarning eventRolloutStuck
              ("Rollout halted for over " +:+ Duration_String timeout +:+ ": " +:+ reason);
        ret (RequeueAfter pollInterval reason)
      else waiting
  | None => waiting
  end.

(** The loop of [classify]: how many were created, and the stale ones in
    declaration order. *)
Fixpoint classify_loop (p : pass) (desired : list StatefulSet) (created : nat)
    (stale : list StatefulSet) : M (Env W pass) (nat * list StatefulSet) :=
  match desired with
  | [] => ret (created, stale)
  | set :: desired' =>
      match p_live p !! set_Name set with
      | None =>
          _ ← apply (p_cluster p) (OStatefulSet set);
          classify_loop p desired' (S created) stale
      | Some live =>
          if bool_decide (template_revision live ≠ template_revision set)
          then classify_loop p desired' created (stale ++ [set])
          else classify_loop p desired' created stale
      end
  end.

Definition classify : M (Env W pass) (nat * list StatefulSet) :=
  p ← get_st;
  x ← classify_loop p (desired_sets p) 0 [];
  ret (x.1, rollOrder (fsc_Spec (p_cluster p)) x.2 (p_nodes p)).

Definition rollingUpdate (node : string) : M (Env W pass) unit :=
  t ← now;
  put_st (set_update (mkUpdateStatus UpdatePhaseRollingNodes node (Some t))).

Definition roll (stale : list StatefulSet) : M (Env W pass) Outcome :=
  p ← get_st;
  match stale with
  | [] =>
      _ ← match st_Update (fsc_Status (p_object p)) with
          | Some _ => event EventTypeNormal eventRolloutDone "Every node runs the desired configuration"
          | None => ret tt
          end;
      ret Continue
  | next :: rest =>
      let '(phase, held) := holdSubject p in
      let notReady := h_notReady (p_health p) in
      match downSets stale notReady with
      | (first :: _) as down =>
          _ ← forM_ down (λ set,
                _ ← apply (p_cluster p) (OStatefulSet set);
                event EventTypeNormal eventNodeRolling
                  ("Replacing node " +:+ fmt_q (set_Name set) +:+ ", which is not serving"));
          _ ← rollingUpdate (set_Name first);
          ret (RequeueAfter pollInterval "replacing nodes that are not serving")
      | [] =>
          if bool_decide (notReady ≠ []) then
            hold phase held ("waiting for node(s) " +:+ fmt_v notReady
                               +:+ " to become ready before replacing another")
          else if negb (cv_known (p_convergence p)) || negb (cv_converged (p_convergence p)) then
            let waiting := cv_waiting (p_convergence p) in
            hold phase held
              ("waiting for the cluster to reconverge before replacing another node: "
                 +:+ (if bool_decide (waiting = "") then "no node answered" else waiting))
          else
            _ ← apply (p_cluster p) (OStatefulSet next);
            _ ← event EventTypeNormal eventNodeRolling
                  ("Replacing node " +:+ fmt_q (set_Name next) +:+ "; " +:+ pretty (length rest)
                     +:+ " node(s) still to roll after it");
            _ ← rollingUpdate (set_Name next);
            ret (RequeueAfter pollInterval "node replacement in flight")
      end
  end.

Definition reconcileNodes : M (Env W pass) Outcome :=
  x ← classify;
  let '(created, stale) := x in
  _ ← (if 0 <? created
       then event EventTypeNormal eventNodesCreating
              ("Creating " +:+ pretty created +:+ " node(s); they join the layout once they are up")
       else ret tt);
  roll stale.
End steps.

(** * Theorems: the order *)

(** ** Round robin: the reference for the interleaving loops *)

Section robin.
Context {A : Type}.
Implicit Types (q : string → list A) (racks : list string).

Definition heads racks q : list A := omap (λ r, head (q r)) racks.

Fixpoint round_robin (fuel : nat) racks q : list A :=
  match fuel with
  | O => []
  | S fuel' => heads racks q ++ round_robin fuel' racks (λ r, tail (q r))
  end.

Definition total racks q : nat := sum_list_with (λ r, length (q r)) racks.

Lemma heads_cons r racks q : heads (r :: racks) q = option_list (head (q r)) ++ heads racks q.
Proof. unfold heads. simpl. by destruct (head (q r)). Qed.

Lemma heads_tails_perm racks q :
  concat (q <$> racks) ≡ₚ heads racks q ++ concat ((λ r, tail (q r)) <$> racks).
Proof.
  induction racks as [|r racks IH]; [done|]. unfold heads. simpl. rewrite IH. unfold heads.
  destruct (q r) as [|x l]; simpl; [done|]. rewrite (Permutation_app_swap_app l). done.
Qed.

Lemma concat_nil racks q : (∀ r, r ∈ racks → q r = []) → concat (q <$> racks) = [].
Proof.
  induction racks as [|r racks IH]; intros H; simpl; [done|].
  rewrite H by set_solver. apply IH. set_solver.
Qed.

Lemma round_robin_perm fuel racks q :
  (∀ r, r ∈ racks → length (q r) ≤ fuel) → round_robin fuel racks q ≡ₚ concat (q <$> racks).
Proof.
  revert q. induction fuel as [|fuel IH]; intros q H; simpl.
  - rewrite concat_nil; [done|]. intros r Hr. specialize (H r Hr). by destruct (q r); simpl in *; [|lia].
  - rewrite heads_tails_perm, IH; [done|]. intros r Hr. specialize (H r Hr).
    destruct (q r); simpl in *; lia.
Qed.

Lemma round_robin_from fuel racks q x :
  x ∈ round_robin fuel racks q → ∃ r, r ∈ racks ∧ x ∈ q r.
Proof.
  revert q. induction fuel as [|fuel IH]; intros q; simpl; [set_solver|].
  rewrite elem_of_app. intros [H|H].
  - unfold heads in H. apply list_elem_of_omap in H as (r & Hr & Hh). exists r.
    split; [done|]. destruct (q r); simplify_eq/=. left.
  - apply IH in H as (r & Hr & Hx). exists r. split; [done|]. destruct (q r); [done|by right].
Qed.

Lemma round_robin_nil fuel racks q : (∀ r, r ∈ racks → q r = []) → round_robin fuel racks q = [].
Proof.
  intros H. destruct (round_robin fuel racks q) as [|x l] eqn:E; [done|].
  destruct (round_robin_from fuel racks q x) as (r & Hr & Hx); [rewrite E; left|].
  rewrite H in Hx by done. by apply elem_of_nil in Hx.
Qed.

Lemma heads_nil racks q : heads racks q = [] ↔ ∀ r, r ∈ racks → q r = [].
Proof.
  unfold heads. induction racks as [|r racks IH]; simpl; [set_solver|].
  destruct (q r) as [|x l] eqn:E; simpl.
  - rewrite IH. set_solver.
  - split; [done|]. intros H. specialize (H r ltac:(left)). congruence.
Qed.

(** The loop ends as soon as the queues do. *)
Lemma total_heads racks q : total racks q = length (heads racks q) + total racks (λ r, tail (q r)).
Proof.
  unfold total. induction racks as [|r racks IH]; [done|]. rewrite heads_cons, length_app. simpl.
  rewrite IH. destruct (q r); simpl; lia.
Qed.

Lemma total_zero racks q : total racks q = 0 → ∀ r, r ∈ racks → q r = [].
Proof.
  unfold total. induction racks as [|r racks IH]; simpl; [set_solver|]. intros H r' Hr'.
  apply elem_of_cons in Hr' as [->|Hr']; [destruct (q r); simpl in *; [done|lia]|]. apply IH; [lia|done].
Qed.

(** *** Two of one rack in a row *)

Context (rackOf : A → string).
Definition racked q : Prop := ∀ r x, x ∈ q r → rackOf x = r.

Lemma racked_tail q : racked q → racked (λ r, tail (q r)).
Proof. intros H r x Hx. apply H. destruct (q r); [done|by right]. Qed.

Lemma heads_racks racks q : racked q → rackOf <$> heads racks q = filter (λ r, q r ≠ []) racks.
Proof.
  intros Hq. induction racks as [|r racks IH]; [done|].
  rewrite heads_cons, fmap_app, IH, filter_cons. case_decide as Hr.
  - destruct (q r) as [|x l] eqn:E; [done|]. simpl. f_equal. apply Hq. rewrite E. left.
  - destruct (q r); [done|]. discriminate Hr.
Qed.

(** Within a rack the declared order is kept. *)
Lemma round_robin_within fuel racks q r :
  racked q → NoDup racks → r ∈ racks → length (q r) ≤ fuel →
  filter (λ x, rackOf x = r) (round_robin fuel racks q) = q r.
Proof.
  revert q. induction fuel as [|fuel IH]; intros q Hq Hnd Hr Hl; simpl.
  - destruct (q r); simpl in *; [done|lia].
  - rewrite filter_app, IH by (try apply racked_tail; try done; destruct (q r); simpl in *; lia).
    enough (filter (λ x, rackOf x = r) (heads racks q) = option_list (head (q r))) as ->
      by (by destruct (q r)).
    clear IH Hl.
    assert (Hout : ∀ rs, r ∉ rs → filter (λ x, rackOf x = r) (heads rs q) = []).
    { intros rs Hrs. induction rs as [|r2 rs IH]; [done|]. rewrite heads_cons, filter_app, IH by set_solver.
      destruct (q r2) as [|x l] eqn:E; [done|]. simpl. rewrite filter_cons, decide_False; [done|].
      rewrite (Hq r2 x) by (rewrite E; left). set_solver. }
    induction racks as [|r' racks IH]; [set_solver|].
    apply NoDup_cons in Hnd as [Hr' Hnd]. rewrite heads_cons, filter_app.
    destruct (decide (r = r')) as [<-|Hne].
    + rewrite Hout, app_nil_r by done. destruct (q r) as [|x l] eqn:E; [done|]. simpl.
      rewrite filter_cons, decide_True by (apply Hq; rewrite E; left). done.
    + rewrite IH by set_solver. destruct (q r') as [|x l] eqn:E; [done|]. simpl.
      rewrite filter_cons, decide_False; [done|]. rewrite (Hq r' x) by (rewrite E; left). done.
Qed.

Lemma NoDup_heads racks q : racked q → NoDup racks → NoDup (rackOf <$> heads racks q).
Proof. intros. rewrite heads_racks by done. by apply NoDup_filter. Qed.

Lemma filter_boundary {B} (P P' : B → Prop) `{!∀ x, Decision (P x)} `{!∀ x, Decision (P' x)}
    (l k k' : list B) a :
  (∀ x, P' x → P x) → NoDup l → filter P l = k ++ [a] → filter P' l = a :: k' →
  ∀ x, x ∈ l → P' x → x = a.
Proof.
  intros Himp Hnd HP HP' x Hx Hp.
  assert (Hff : filter P' (filter P l) = filter P' l).
  { clear -Himp. induction l as [|b l IH]; [done|]. rewrite !filter_cons.
    destruct (decide (P b)) as [Hb|Hb], (decide (P' b)) as [Hb'|Hb']; rewrite ?filter_cons;
      rewrite ?(decide_True _ _ Hb'), ?(decide_False _ _ Hb'), ?IH; try done.
    by destruct Hb; apply Himp. }
  apply (NoDup_filter P) in Hnd. rewrite HP in Hff, Hnd.
  apply NoDup_app in Hnd as (_ & Hdis & _). rewrite filter_app, HP' in Hff.
  destruct (filter P' k) as [|b m] eqn:E.
  - assert (x ∈ filter P' l) as Hin by by apply list_elem_of_filter.
    rewrite HP', <- Hff in Hin. simpl in Hin. apply list_elem_of_filter in Hin. set_solver.
  - simplify_eq/=. exfalso. apply (Hdis a); [|set_solver].
    assert (a ∈ filter P' k) as Hin by (rewrite E; left). by apply list_elem_of_filter in Hin as [_ ?].
Qed.

(** The last of a round and the first of the next share a rack only when that
    rack alone has anything left. *)
Lemma round_boundary racks q l x y l' :
  racked q → NoDup racks → heads racks q = l ++ [x] → heads racks (λ r, tail (q r)) = y :: l' →
  rackOf x = rackOf y → ∀ r, r ∈ racks → tail (q r) ≠ [] → r = rackOf y.
Proof.
  intros Hq Hnd Hx Hy Hxy.
  assert (Hl := heads_racks racks q Hq). assert (Ht := heads_racks racks _ (racked_tail q Hq)).
  rewrite Hx, fmap_app in Hl. rewrite Hy in Ht. simpl in *. rewrite Hxy in Hl.
  intros r Hr Hne. eapply (filter_boundary (λ r, q r ≠ []) (λ r, tail (q r) ≠ [])); [|done..].
  intros r' H E. apply H. by rewrite E.
Qed.

(** Two nodes of one rack follow each other only when no other rack has a node
    left to replace. *)
Lemma round_robin_back_to_back fuel racks q l1 x y l2 :
  racked q → NoDup racks →
  round_robin fuel racks q = l1 ++ x :: y :: l2 → rackOf x = rackOf y →
  Forall (λ z, rackOf z = rackOf x) (y :: l2).
Proof.
  revert q l1. induction fuel as [|fuel IH]; intros q l1 Hq Hnd; simpl.
  { intros H. by destruct l1. }
  intros Heq Hxy. apply app_eq_app in Heq as (k & [[Hh Hr]|[Hh Hr]]).
  - destruct k as [|k1 [|k2 k]]; simpl in Hr.
    + eapply (IH _ []); [by apply racked_tail|done|by rewrite <- Hr|done].
    + injection Hr as <- Hr. destruct fuel as [|fuel]; [discriminate Hr|].
      assert (Hsome : heads racks (λ r, tail (q r)) ≠ []).
      { intros Hn. rewrite round_robin_nil in Hr; [discriminate Hr|]. by apply heads_nil. }
      simpl in Hr. destruct (heads racks (λ r, tail (q r))) as [|y' l'] eqn:Hy; [done|].
      simplify_eq/=. rewrite Forall_forall. intros z Hz. rewrite Hxy.
      destruct (round_robin_from (S fuel) racks (λ r, tail (q r)) z) as (r & Hrr & Hzr).
      { simpl. by rewrite Hy. }
      rewrite (racked_tail q Hq r z Hzr).
      eapply round_boundary; [done|done|exact Hh|exact Hy|done|done|]. intros E. rewrite E in Hzr.
      by apply elem_of_nil in Hzr.
    + injection Hr as <- <- _. exfalso. assert (Hn := NoDup_heads racks q Hq Hnd). rewrite Hh, !fmap_app in Hn. simpl in Hn.
      apply NoDup_app in Hn as (_ & _ & Hn). apply NoDup_cons in Hn as [Hn _]. rewrite Hxy in Hn. set_solver.
  - eapply IH; [by apply racked_tail|done|exact Hr|done].
Qed.
End robin.

(** ** The loops compute the round robin *)

Lemma heads_ext {A} racks (q q' : string → list A) :
  (∀ r, r ∈ racks → q r = q' r) → heads racks q = heads racks q'.
Proof.
  induction racks as [|r racks IH]; intros H; [done|]. rewrite !heads_cons, (H r) by set_solver.
  f_equal. apply IH. set_solver.
Qed.

Lemma round_robin_ext {A} fuel racks (q q' : string → list A) :
  (∀ r, r ∈ racks → q r = q' r) → round_robin fuel racks q = round_robin fuel racks q'.
Proof.
  revert q q'. induction fuel as [|fuel IH]; intros q q' H; simpl; [done|].
  rewrite (heads_ext racks q q') by done. f_equal. apply IH. intros r Hr. by rewrite H.
Qed.

Definition queue_in (m : gmap string (list StatefulSet)) (r : string) : list StatefulSet :=
  default [] (m !! r).

Lemma queue_in_insert m r l r' :
  queue_in (<[r := l]> m) r' = if bool_decide (r' = r) then l else queue_in m r'.
Proof.
  unfold queue_in. case_bool_decide as H; [by subst; rewrite lookup_insert_eq|].
  by rewrite lookup_insert_ne by done.
Qed.

Lemma take_round_cons r racks m ordered :
  take_round (r :: racks) m ordered =
  match queue_in m r with
  | [] => take_round racks m ordered
  | set :: queue => take_round racks (<[r := queue]> m) (ordered ++ [set])
  end.
Proof. done. Qed.

Lemma take_round_spec racks m ordered :
  NoDup racks →
  (take_round racks m ordered).2 = ordered ++ heads racks (queue_in m) ∧
  ∀ r, queue_in (take_round racks m ordered).1 r =
       if bool_decide (r ∈ racks) then tail (queue_in m r) else queue_in m r.
Proof.
  revert m ordered. induction racks as [|r racks IH]; intros m ordered Hnd.
  { simpl. by rewrite app_nil_r. }
  apply NoDup_cons in Hnd as [Hr Hnd]. rewrite heads_cons, take_round_cons.
  set (m' := match queue_in m r with [] => m | _ :: l => <[r := l]> m end).
  set (ordered' := ordered ++ option_list (head (queue_in m r))).
  assert ((match queue_in m r with
           | [] => take_round racks m ordered
           | set :: queue => take_round racks (<[r := queue]> m) (ordered ++ [set])
           end) = take_round racks m' ordered') as ->.
  { subst m' ordered'. destruct (queue_in m r); simpl; by rewrite ?app_nil_r. }
  assert (Hm' : ∀ r', queue_in m' r' = if bool_decide (r' = r) then tail (queue_in m r) else queue_in m r').
  { intros r'. subst m'. destruct (queue_in m r) eqn:E; [|by rewrite queue_in_insert].
    case_bool_decide; by subst. }
  destruct (IH m' ordered' Hnd) as [-> Hq]. split.
  - unfold ordered'. rewrite <- app_assoc. do 2 f_equal. apply heads_ext. intros r' Hr'.
    rewrite Hm', bool_decide_false by set_solver. done.
  - intros r'. rewrite Hq, Hm'. destruct (decide (r' = r)) as [->|Hne].
    + by rewrite bool_decide_false, !bool_decide_true by set_solver.
    + rewrite (bool_decide_false (r' = r)) by done.
      by rewrite (bool_decide_ext (r' ∈ r :: racks) (r' ∈ racks)) by set_solver.
Qed.

Lemma total_ext {A} racks (q q' : string → list A) :
  (∀ r, r ∈ racks → q r = q' r) → total racks q = total racks q'.
Proof.
  unfold total. induction racks as [|r racks IH]; intros H; [done|]. simpl.
  rewrite H by set_solver. f_equal. apply IH. set_solver.
Qed.

Lemma interleave_spec fuel n racks m ordered :
  NoDup racks → length ordered + total racks (queue_in m) = n →
  interleave fuel n racks m ordered = ordered ++ round_robin fuel racks (queue_in m).
Proof.
  revert m ordered. induction fuel as [|fuel IH]; intros m ordered Hnd Hn; simpl.
  { by rewrite app_nil_r. }
  destruct (Nat.ltb_spec (length ordered) n) as [Hlt|Hge].
  - destruct (take_round racks m ordered) as [m' ordered'] eqn:E.
    destruct (take_round_spec racks m ordered Hnd) as [Ho Hq]. rewrite E in Ho, Hq. simpl in *. subst ordered'.
    assert (Ht : ∀ r, r ∈ racks → queue_in m' r = tail (queue_in m r))
      by (intros r Hr; by rewrite Hq, bool_decide_true).
    rewrite IH; [|done|].
    + rewrite <- app_assoc. do 2 f_equal. by apply round_robin_ext.
    + rewrite length_app, (total_ext racks (queue_in m') (λ r, tail (queue_in m r))) by done.
      rewrite total_heads in Hn. lia.
  - rewrite heads_ext with (q' := λ _, []), round_robin_nil.
    + rewrite app_nil_r. rewrite (proj2 (heads_nil racks (λ _, []))) by done. by rewrite app_nil_r.
    + intros r Hr. by rewrite (total_zero racks (queue_in m)) by (done || lia).
    + apply (total_zero racks (queue_in m)). lia.
Qed.

(** *** The racks and their queues *)

Section queues.
Context (rackOf : StatefulSet → string).

Lemma racks_of_spec stale seen :
  NoDup seen →
  NoDup (racks_of rackOf stale seen) ∧
  ∀ r, r ∈ racks_of rackOf stale seen ↔ r ∈ seen ∨ r ∈ (rackOf <$> stale).
Proof.
  revert seen. induction stale as [|x stale IH]; intros seen Hnd; simpl; [set_solver|].
  case_bool_decide as Hx.
  - destruct (IH seen Hnd) as [? Hr]. split; [done|]. intros r. rewrite Hr. set_solver.
  - destruct (IH (seen ++ [rackOf x])) as [? Hr].
    { apply NoDup_app. split; [done|]. split; [set_solver|]. apply NoDup_singleton. }
    split; [done|]. intros r. rewrite Hr. set_solver.
Qed.

Lemma queues_of_spec stale r : queue_in (queues_of rackOf stale) r = filter (λ x, rackOf x = r) stale.
Proof.
  unfold queues_of.
  assert (∀ m, queue_in (foldl (λ m set, <[rackOf set := default [] (m !! rackOf set) ++ [set]]> m) m stale) r
          = queue_in m r ++ filter (λ x, rackOf x = r) stale) as H.
  { induction stale as [|x stale IH]; intros m; simpl; [by rewrite filter_nil, app_nil_r|].
    rewrite IH, queue_in_insert, filter_cons. case_bool_decide as Hr.
    - subst r. rewrite decide_True by done. unfold queue_in. by rewrite <- app_assoc.
    - by rewrite decide_False by congruence. }
  by rewrite H.
Qed.

Lemma queues_perm racks (stale : list StatefulSet) :
  NoDup racks → (∀ x, x ∈ stale → rackOf x ∈ racks) →
  concat ((λ r, filter (λ x, rackOf x = r) stale) <$> racks) ≡ₚ stale.
Proof.
  revert stale. induction racks as [|r racks IH]; intros stale Hnd Hin; simpl.
  { destruct stale as [|x stale]; [done|]. specialize (Hin x ltac:(left)). set_solver. }
  apply NoDup_cons in Hnd as [Hr Hnd].
  etrans; [|apply (filter_app_complement (λ x, rackOf x = r))]. f_equiv.
  rewrite <- (IH (filter (λ x, rackOf x ≠ r) stale) Hnd).
  - apply reflexive_eq. f_equal. apply list_fmap_ext. intros i r' Hr'.
    apply list_elem_of_lookup_2 in Hr'. assert (r' ≠ r) by set_solver. clear -H.
    induction stale as [|x stale IH]; [done|]. rewrite !filter_cons.
    destruct (decide (rackOf x = r')) as [Hx|Hx].
    + rewrite decide_True, filter_cons, decide_True by congruence. by rewrite IH.
    + rewrite IH. case_decide; [|done]. by rewrite filter_cons, decide_False by done.
  - intros x Hx. apply list_elem_of_filter in Hx as [Hne Hx]. specialize (Hin x Hx). set_solver.
Qed.
End queues.

(** ** [rollOrder] is the round robin over the racks *)

Definition rack_in (spec : FSClusterSpec) (nodes : list Node) (set : StatefulSet) : string :=
  default "" (rack_index spec nodes !! set_Name set).

Definition rack_queue (rackOf : StatefulSet → string) (stale : list StatefulSet) (r : string)
    : list StatefulSet := filter (λ x, rackOf x = r) stale.

Section rollOrder.
Context (spec : FSClusterSpec) (nodes : list Node) (stale : list StatefulSet).
Let rackOf := rack_in spec nodes.
Let racks := racks_of rackOf stale [].

Lemma racks_NoDup : NoDup racks.
Proof. apply racks_of_spec. constructor. Qed.

Lemma racks_cover x : x ∈ stale → rackOf x ∈ racks.
Proof.
  intros. apply racks_of_spec; [constructor|]. right. by apply list_elem_of_fmap_2.
Qed.

Lemma racked_queues : racked rackOf (rack_queue rackOf stale).
Proof. intros r x Hx. by apply list_elem_of_filter in Hx as [? _]. Qed.

Lemma total_queues : total racks (rack_queue rackOf stale) = length stale.
Proof.
  etrans; [|apply Permutation_length, (queues_perm rackOf racks stale racks_NoDup racks_cover)].
  unfold total, rack_queue. induction racks as [|r rs IH]; [done|]. simpl. by rewrite length_app, IH.
Qed.

Lemma rollOrder_round_robin :
  1 < length stale →
  rollOrder spec stale nodes = round_robin (length stale) racks (rack_queue rackOf stale).
Proof.
  intros Hl. unfold rollOrder. destruct (Nat.ltb_spec (length stale) 2); [lia|].
  assert (Hq : ∀ r, r ∈ racks → queue_in (queues_of rackOf stale) r = rack_queue rackOf stale r)
    by (intros; apply queues_of_spec).
  change (λ set, default "" (rack_index spec nodes !! set_Name set)) with rackOf.
  rewrite (interleave_spec (length stale) (length stale)); [|apply racks_NoDup|].
  - simpl. by apply round_robin_ext.
  - change (total racks (queue_in (queues_of rackOf stale)) = length stale).
    rewrite (total_ext racks _ _ Hq). apply total_queues.
Qed.

Lemma queue_short r : length (rack_queue rackOf stale r) ≤ length stale.
Proof. apply length_filter. Qed.

(** Every stale node is rolled, once. *)
Lemma rollOrder_perm : rollOrder spec stale nodes ≡ₚ stale.
Proof.
  destruct (decide (1 < length stale)) as [Hl|Hl].
  - rewrite rollOrder_round_robin, round_robin_perm by (try done; intros; apply queue_short).
    apply queues_perm; [apply racks_NoDup|apply racks_cover].
  - unfold rollOrder. destruct (Nat.ltb_spec (length stale) 2); [done|lia].
Qed.

(** Within a rack the declared order is kept. *)
Lemma rollOrder_within r :
  filter (λ x, rackOf x = r) (rollOrder spec stale nodes) = filter (λ x, rackOf x = r) stale.
Proof.
  destruct (decide (1 < length stale)) as [Hl|Hl].
  - rewrite rollOrder_round_robin by done. destruct (decide (r ∈ racks)) as [Hr|Hr].
    + apply (round_robin_within rackOf (length stale) racks (rack_queue rackOf stale) r); [apply racked_queues|apply racks_NoDup|done|apply queue_short].
    + assert (∀ l, (∀ x, x ∈ l → x ∈ stale) → filter (λ x, rackOf x = r) l = []) as Hnil.
      { intros l Hin. induction l as [|x l IH]; [done|]. rewrite filter_cons, decide_False; [set_solver|].
        intros <-. apply Hr, racks_cover. set_solver. }
      rewrite !Hnil; [done..|]. intros x Hx. apply round_robin_from in Hx as (r' & _ & Hx).
      by apply list_elem_of_filter in Hx as [_ Hx].
  - unfold rollOrder. destruct (Nat.ltb_spec (length stale) 2); [done|lia].
Qed.

(** Two nodes of one failure domain in a row: only the tail of the rollout,
    when every other domain is done. *)
Lemma rollOrder_back_to_back l1 x y l2 :
  rollOrder spec stale nodes = l1 ++ x :: y :: l2 → rackOf x = rackOf y →
  Forall (λ z, rackOf z = rackOf x) (y :: l2).
Proof.
  intros Heq Hxy.
  assert (Hl : 1 < length stale).
  { rewrite <- rollOrder_perm, Heq, length_app. simpl. lia. }
  rewrite rollOrder_round_robin in Heq by done.
  eapply round_robin_back_to_back; [apply racked_queues|apply racks_NoDup|done|done].
Qed.
End rollOrder.

(** C13: The rollout order is a rearrangement of the stale nodes that keeps the
    declared order within a failure domain, and puts two nodes of one domain
    next to each other only once every other domain is finished. *)
Theorem rollOrder_interleaves (spec : FSClusterSpec) (nodes : list Node) (stale : list StatefulSet) :
  rollOrder spec stale nodes ≡ₚ stale ∧
  (∀ r, filter (λ x, rack_in spec nodes x = r) (rollOrder spec stale nodes)
        = filter (λ x, rack_in spec nodes x = r) stale) ∧
  (∀ l1 x y l2, rollOrder spec stale nodes = l1 ++ x :: y :: l2 →
     rack_in spec nodes x = rack_in spec nodes y →
     Forall (λ z, rack_in spec nodes z = rack_in spec nodes x) (y :: l2)).
Proof.
  split_and!; [apply rollOrder_perm|apply rollOrder_within|apply rollOrder_back_to_back].
Qed.

(** * Theorems: the step *)

Lemma rack_index_lookup spec nodes node :
  NoDup (node_Name <$> nodes) → node ∈ nodes →
  rack_index spec nodes !! node_Name node = Some (domainOf spec node).
Proof.
  unfold rack_index. intros Hnd Hin.
  enough (∀ m : gmap string string,
    foldl (λ m node, <[node_Name node := domainOf spec node]> m) m nodes !! node_Name node
    = Some (domainOf spec node)) by done.
  revert Hin. induction nodes as [|x nodes IH]; intros Hin m; [set_solver|]. simpl in *.
  apply NoDup_cons in Hnd as [Hx Hnd]. apply elem_of_cons in Hin as [->|Hin]; [|by apply IH].
  assert (∀ m : gmap string string, node_Name x ∉ (node_Name <$> nodes) →
    foldl (λ m node, <[node_Name node := domainOf spec node]> m) m nodes !! node_Name x = m !! node_Name x) as Hout.
  { clear. induction nodes as [|y nodes IH]; intros m Hn; [done|]. simpl.
    rewrite IH by set_solver. apply lookup_insert_ne. set_solver. }
  by rewrite Hout, lookup_insert_eq.
Qed.

Section roll.
Context {W : Type} `{!KubeClient W}.
Implicit Types s : Env W pass.

Lemma resp_hold (φ : action → Prop) phase subject reason s :
  (∀ t r m, φ (AEvent t r m)) → resp (env_rel φ (keeps core)) (hold phase subject reason) s.
Proof. intros Hφ. unfold hold. rsolve_all. Qed.

Lemma resp_rollingUpdate (φ : action → Prop) node s : resp (env_rel φ (keeps core)) (rollingUpdate node) s.
Proof. unfold rollingUpdate. rsolve_all. Qed.

(** Replacing the nodes that are down. *)
Definition may_replace (p : pass) (stale : list StatefulSet) (a : action) : Prop :=
  match a with
  | AApply (OStatefulSet set) =>
      ∃ want, drop_status (OStatefulSet want) = OStatefulSet set ∧ want ∈ stale ∧
        (set_Name want ∈ h_notReady (p_health p) ∨
         h_notReady (p_health p) = [] ∧ cv_known (p_convergence p) = true ∧
         cv_converged (p_convergence p) = true ∧ head stale = Some want)
  | a => reporting a
  end.

Lemma resp_roll stale s :
  resp (env_rel (may_replace (e_st s) stale) (keeps core)) (roll stale) s.
Proof.
  unfold roll. rstep; [apply resp_get_st; apply _|]. injection Hrun as <- <-. clear HR.
  destruct stale as [|next rest]; [rsolve_all|].
  destruct (holdSubject (e_st s)) as [phase held].
  destruct (downSets (next :: rest) (h_notReady (p_health (e_st s)))) as [|first down] eqn:Hdown.
  - destruct (bool_decide (h_notReady (p_health (e_st s)) ≠ [])) eqn:Hnr; [by apply resp_hold|].
    apply bool_decide_eq_false, dec_stable in Hnr.
    destruct (negb (cv_known (p_convergence (e_st s)))
              || negb (cv_converged (p_convergence (e_st s)))) eqn:Hc; [by apply resp_hold|].
    apply orb_false_iff in Hc as [Hk Hc]. apply negb_false_iff in Hk, Hc.
    rsolve_all; [|apply resp_rollingUpdate].
    exists next. split; [done|]. split; [left|]. right. done.
  - rsolve_all; [|apply resp_rollingUpdate].
    rewrite <- Hdown in Hx. apply list_elem_of_filter in Hx as [Hn Hx]. exists x. auto.
Qed.

(** A set that runs with another template than the one desired. *)
Definition is_stale (p : pass) (set : StatefulSet) : bool :=
  match p_live p !! set_Name set with
  | Some live => bool_decide (template_revision live ≠ template_revision set)
  | None => false
  end.

Definition may_create (p : pass) (a : action) : Prop :=
  ∃ want, a = AApply (drop_status (OStatefulSet want)) ∧ want ∈ desired_sets p ∧
    p_live p !! set_Name want = None.

Lemma resp_classify_loop p desired created stale s :
  (∀ x, x ∈ desired → x ∈ desired_sets p) →
  resp (env_rel (may_create p) (keeps core)) (classify_loop p desired created stale) s.
Proof.
  revert created stale s. induction desired as [|set desired IH]; intros created stale s Hin; simpl;
    [rsolve|]. assert (∀ x, x ∈ desired → x ∈ desired_sets p) by set_solver.
  rsolve_all; try (by apply IH). exists set. split; [done|]. split; [apply Hin; left|done].
Qed.

Lemma classify_loop_stale p desired created stale s c l s' :
  classify_loop p desired created stale s = (Ok (c, l), s') →
  l = stale ++ filter (λ set, is_stale p set = true) desired.
Proof.
  revert created stale s. induction desired as [|set desired IH]; intros created stale s; simpl.
  { intros H. injection H as _ -> _. by rewrite app_nil_r. }
  rewrite filter_cons.
  assert (Hs : is_stale p set = match p_live p !! set_Name set with
    | Some live => bool_decide (template_revision live ≠ template_revision set) | None => false end) by done.
  destruct (p_live p !! set_Name set) as [live|].
  - destruct (bool_decide (template_revision live ≠ template_revision set)) eqn:Hb; intros H%IH;
      rewrite Hs; simpl; [|done]. by rewrite H, <- app_assoc.
  - unfold mbind, M_bind. destruct (apply _ _ s) as [[]s1]; [|done]. intros H%IH. by rewrite Hs.
Qed.

(** What one pass of the step may apply: nodes that do not exist yet, nodes
    that are already down, or the one node next in order when every node
    serves and the cluster has converged. *)
Definition may_touch (p : pass) (stale : list StatefulSet) (a : action) : Prop :=
  may_create p a ∨ may_replace p stale a.

Definition stale_order (p : pass) : list StatefulSet :=
  rollOrder (fsc_Spec (p_cluster p)) (filter (λ set, is_stale p set = true) (desired_sets p)) (p_nodes p).

Lemma may_replace_core p p' stale a : core p = core p' → may_replace p stale a → may_replace p' stale a.
Proof.
  intros (_ & Hh & Hd)%core_inv. apply decided_inv in Hd as (_ & Hc & _).
  unfold may_replace. by rewrite Hh, Hc.
Qed.

Lemma resp_reconcileNodes s :
  resp (env_rel (may_touch (e_st s) (stale_order (e_st s))) (keeps core)) reconcileNodes s.
Proof.
  unfold reconcileNodes, classify. rsolve; [|apply resp_event; [apply _|by right]|].
  - injection Hrun as <- <-. eapply env_rel_mono; [| |apply resp_classify_loop; auto]; [by left|done].
  - unfold mbind, M_bind in Hrun. simpl in Hrun.
    destruct (classify_loop _ _ _ _ s) as [[[c' l']|e] s2] eqn:E; [|done]. simplify_eq/=.
    apply classify_loop_stale in E as ->. injection Hrun as _ <- <-.
    destruct HR as [_ HR]. destruct HR0 as [_ HR0]. unfold st_rel, keeps in HR, HR0.
    eapply env_rel_mono; [| |apply resp_roll]; [|done].
    intros act Ha. right. eapply may_replace_core; [|exact Ha]. congruence.
Qed.
End roll.

(** ** Waiting *)

Section waiting.
Context {W : Type} `{!KubeClient W}.

(** The published update is the same wait, begun at [t]. *)
Definition same_wait (p : pass) (phase : UpdatePhase) (subject : string) (t : Z) : Prop :=
  ∃ u, st_Update (fsc_Status (p_object p)) = Some u ∧ Phase u = phase ∧ upd_Node u = subject ∧
    StartedAt u = Some t.

Lemma hold_started_spec p phase subject now :
  same_wait p phase subject (hold_started p phase subject now) ∨
  hold_started p phase subject now = now ∧ ∀ t, ¬ same_wait p phase subject t.
Proof.
  unfold hold_started, same_wait, matches. destruct (st_Update _) as [u|]; [|right; split; [done|naive_solver]].
  destruct (decide (Phase u = phase)) as [Hp|Hp].
  2: { rewrite bool_decide_eq_false_2 by done. right. split; [done|]. naive_solver. }
  destruct (decide (upd_Node u = subject)) as [Hn|Hn].
  2: { rewrite (bool_decide_eq_false_2 (upd_Node u = subject)), andb_false_r by done. right. split; [done|]. naive_solver. }
  rewrite !bool_decide_eq_true_2 by done. simpl. destruct (StartedAt u) as [t|] eqn:Hs; simpl; [left; eauto 6|].
  right. split; [done|]. intros t (u' & Hu & _ & _ & Ht). simplify_eq.
Qed.

(** A rollout that has to wait never fails and never forces anything: it
    polls again, publishes the phase and subject with the time the wait began
    (that of the published update when it is the same wait, now otherwise), and
    queues [Converged=False/ConvergenceTimeout] exactly when the wait has
    lasted longer than the timeout.  Nothing is asked of the cluster. *)
Theorem hold_waits (phase : UpdatePhase) (subject reason : string) (s : Env W pass) :
  let p := e_st s in
  let '(t1, w1) := k_now (e_world s) in
  ∃ started type event message s',
    (same_wait p phase subject started ∨ started = t1 ∧ ∀ t, ¬ same_wait p phase subject t) ∧
    hold phase subject reason s = (Ok (RequeueAfter pollInterval reason), s') ∧
    e_log s' = e_log s ++ [AEvent type event message] ∧
    core (e_st s') = core p ∧
    p_update (e_st s') = Some (mkUpdateStatus phase subject (Some started)) ∧
    let stuck := match ConvergenceTimeout (UpdatePolicy (fsc_Spec (p_cluster p))) with
                 | Some timeout => (timeout <? time_Sub (k_now w1).1 started)%Z
                 | None => false
                 end in
    (p_conditions (e_st s') = p_conditions p ∧ stuck = false ∨
     queued ConditionConverged (e_st s') = Some (ConditionFalse, ReasonConvergenceTimeout) ∧ stuck = true).
Proof.
  pose proof (hold_started_spec (e_st s) phase subject) as Hst.
  unfold hold, get_st, now, put_st, event, emit. msimpl.
  destruct (k_now (e_world s)) as [t1 w1]; simpl. exists (hold_started (e_st s) phase subject t1).
  destruct (ConvergenceTimeout _) as [timeout|]; simpl.
  - destruct (k_now w1) as [t2 w2]; simpl. destruct (timeout <? time_Sub t2 _)%Z; simpl;
      eexists _, _, _, _; split_and!; try done; [right|left]; split; try done. apply queued_same.
  - eexists _, _, _, _; split_and!; try done. by left.
Qed.
End waiting.

(** ** What a rollout does when the API server takes its writes *)

Section accepted.
Context {W : Type} `{!KubeClient W, !Accepting W}.
Implicit Types s : Env W pass.

(** Which of the stale nodes one pass replaces. *)
Definition rolled (p : pass) (stale : list StatefulSet) : list StatefulSet :=
  match downSets stale (h_notReady (p_health p)) with
  | [] => if bool_decide (h_notReady (p_health p) = []) && cv_known (p_convergence p)
             && cv_converged (p_convergence p)
          then option_list (head stale) else []
  | down => down
  end.

(** The StatefulSets a log applies, as they are sent. *)
Definition applies (l : list action) : list StatefulSet :=
  omap (λ a, match a with AApply (OStatefulSet set) => Some set | _ => None end) l.

Definition bare (set : StatefulSet) : StatefulSet :=
  match drop_status (OStatefulSet set) with OStatefulSet set => set | _ => set end.

Lemma applies_app l1 l2 : applies (l1 ++ l2) = applies l1 ++ applies l2.
Proof. apply omap_app. Qed.

Lemma applied_sets_applies l : applied_sets l = set_Name <$> applies l.
Proof.
  induction l as [|a l IH]; [done|].
  change (a :: l) with ([a] ++ l). rewrite applied_sets_app, applies_app, fmap_app, IH. f_equal.
  destruct a as [o| | | | | | | | | | | | | | | | | | |]; [by destruct o|done..].
Qed.

Lemma hold_quiet phase subject reason s :
  ∃ l out s', hold phase subject reason s = (Ok out, s') ∧ e_log s' = e_log s ++ l ∧ applies l = [].
Proof.
  unfold hold, get_st, now, put_st, event, emit. msimpl.
  destruct (k_now (e_world s)) as [t w]; simpl.
  destruct (ConvergenceTimeout _) as [timeout|]; simpl; [|by eexists _, _, _].
  destruct (k_now w) as [t' w']; simpl.
  destruct (timeout <? time_Sub t' _)%Z; simpl; by eexists _, _, _.
Qed.

Lemma replace_loop c down s :
  ∃ l s', forM_ down (λ set,
      apply c (OStatefulSet set) ≫= λ _, event EventTypeNormal eventNodeRolling
        ("Replacing node " +:+ fmt_q (set_Name set) +:+ ", which is not serving")) s = (Ok tt, s') ∧
    e_log s' = e_log s ++ l ∧ e_st s' = e_st s ∧ applies l = bare <$> down.
Proof.
  revert s. induction down as [|set down IH]; intros s; simpl.
  { exists [], s. by rewrite app_nil_r. }
  destruct (apply_accepted c (OStatefulSet set) s) as [w Hw].
  erewrite bind_Ok; [|rewrite (bind_Ok _ _ _ _ _ Hw); reflexivity].
  match goal with |- context [forM_ _ _ ?s1] => destruct (IH s1) as (l & s' & -> & Hl & Hs & Ha) end.
  eexists _, s'. split; [done|]. rewrite Hl. simpl. rewrite <- !app_assoc. split; [done|]. split; [done|].
  by rewrite !applies_app, Ha.
Qed.

Lemma roll_applies (stale : list StatefulSet) (s : Env W pass) :
  ∃ l out s', roll stale s = (Ok out, s') ∧ e_log s' = e_log s ++ l ∧
    applies l = bare <$> rolled (e_st s) stale.
Proof.
  unfold roll, rolled. unfold mbind at 1, M_bind at 1. simpl. destruct stale as [|next rest].
  { destruct (st_Update _); unfold event, emit; msimpl.
    - eexists _, _, _. split_and!; [done..|]. by repeat case_match.
    - exists [], Continue, s. rewrite app_nil_r. by repeat case_match. }
  destruct (holdSubject (e_st s)) as [phase held].
  destruct (downSets (next :: rest) (h_notReady (p_health (e_st s)))) as [|first down].
  - destruct (decide (h_notReady (p_health (e_st s)) = [])) as [Hn|Hn].
    2: { rewrite bool_decide_true, bool_decide_false by done. simpl.
         destruct (hold_quiet phase held ("waiting for node(s) " +:+ fmt_v (h_notReady (p_health (e_st s)))
           +:+ " to become ready before replacing another") s) as (l & out & s' & H1 & H2 & H3).
         exists l, out, s'. done. }
    rewrite (bool_decide_true _ Hn), (bool_decide_false (h_notReady _ ≠ [])) by (intros Hx; by apply Hx).
    simpl. destruct (cv_known (p_convergence (e_st s))), (cv_converged (p_convergence (e_st s))); simpl.
    1: { destruct (apply_accepted (p_cluster (e_st s)) (OStatefulSet next) s) as [w Hw].
         rewrite (bind_Ok _ _ _ _ _ Hw). unfold rollingUpdate, now, put_st, event, emit. msimpl.
         destruct (k_now w) as [t w']. simpl. eexists _, _, _. split; [done|]. simpl.
         rewrite <- !app_assoc. done. }
    all: match goal with |- ∃ l out s', hold ?a ?b ?c ?d = _ ∧ _ =>
      destruct (hold_quiet a b c d) as (l & out & s' & H1 & H2 & H3); by exists l, out, s' end.
  - destruct (replace_loop (p_cluster (e_st s)) (first :: down) s) as (l & s' & H1 & H2 & H3 & H4).
    rewrite (bind_Ok _ _ _ _ _ H1).
    unfold rollingUpdate, now, put_st. msimpl. destruct (k_now (e_world s')) as [t w]. simpl.
    eexists l, _, _. split; [done|]. done.
Qed.

(** C14: When the API server takes the writes, one pass of the rollout replaces
    exactly: the stale nodes that are down, if any; otherwise the next node in
    order, if no node at all is down and the cluster has converged; otherwise
    none.  It never fails. *)
Theorem roll_replaces (stale : list StatefulSet) (s : Env W pass) :
  ∃ l out s', roll stale s = (Ok out, s') ∧ e_log s' = e_log s ++ l ∧
    applied_sets l = set_Name <$> rolled (e_st s) stale.
Proof.
  destruct (roll_applies stale s) as (l & out & s' & ? & ? & Ha). exists l, out, s'. split_and!; [done..|].
  by rewrite applied_sets_applies, Ha, <- list_fmap_compose.
Qed.
End accepted.

(** Only stale nodes are replaced. *)
Lemma rolled_stale p set : set ∈ rolled p (stale_order p) → set ∈ stale_order p.
Proof.
  unfold rolled. destruct (downSets _ _) as [|d ds] eqn:E.
  - destruct (_ && _); [|by intros ?%elem_of_nil].
    destruct (stale_order p); [by intros ?%elem_of_nil|]. simpl. set_solver.
  - rewrite <- E. unfold downSets. by intros [_ ?]%list_elem_of_filter.
Qed.
