(* ===== verification/LayoutStep.v ===== *)
(** * The layout step (src/internal/controller/fscluster/layout.go)

    Keeps the cluster layout describing the declared nodes.  The step applies a
    layout only when it differs from the current one, nothing is moving, no fewer
    StatefulSets exist than the spec has nodes, and every node of the new layout
    is up. *)

From S2P Require Import Prelude.
From S2P Require Import ApiTypes.
From S2P Require Import Defaults.
From S2P Require Import Nodes.
From S2P Require Import FsClient.
From S2P Require Import Kube.
From S2P Require Import Course.
From S2P Require Import Config.
From S2P Require Import Builders.
From S2P Require Import Pipeline.
From S2P Require Import Pass.
From S2P Require Import Status.
From S2P Require Import Convergence.

Definition eventLayoutApplied : string := "LayoutApplied".

(** ** What the spec asks for *)

Definition desiredRoles (p : pass) : list Role :=
  let capacity := wrapu64 (q_Value (Size (Storage (fsc_Spec (p_cluster p))))) in
  sort_by role_ID
    ((λ node, mkRole (node_Name node) (node_Zone node) (node_Rack node) capacity)
       <$> filter (λ node, p_decommission p !! node_Name node = None) (p_nodes p)).

Definition desiredWidths (spec : FSClusterSpec) : list Z :=
  slices_Compact (sort_ints (spec_Widths (spec_Layout spec))).

Definition sameLayout (current : Layout) (roles : list Role) (widths : list Z) : bool :=
  bool_decide (sort_by role_ID (Members current) = roles)
  && bool_decide (sort_ints (Widths current) = widths).

Section steps.
Context {W : Type} `{!KubeClient W, !Interface W}.

Definition holdLayout (reason : string) : M (Env W pass) Outcome :=
  _ ← put_st (setCondition ConditionClusterSizeAligned ConditionFalse ReasonLayoutPending reason);
  ret (RequeueAfter pollInterval reason).

(** The loop over the nodes, with the last error that was not a rejection. *)
Fixpoint tryLayout (p : pass) (nodes : list Node) (roles : list Role) (widths : list Z)
    (token : string) (last : option error) : M (Env W pass) Layout :=
  match nodes with
  | [] => throw (ErrWrap "apply layout"
            (default (errors_New "no node to apply the layout through") last))
  | node :: nodes' =>
      let url := node_url p node in
      _ ← call (adm_Client url token);
      r ← try (issue (AApplyLayout url roles widths) (adm_ApplyLayout url token roles widths));
      match r with
      | Ok applied => ret applied
      | Err e => if err_is KLayoutRejected e then throw e
                 else tryLayout p nodes' roles widths token (Some e)
      end
  end.

Definition applyLayout (roles : list Role) (widths : list Z) (token : string)
    : M (Env W pass) Layout :=
  p ← get_st;
  tryLayout p (askOrder p) roles widths token None.

Definition firstDown (c : convergence) (roles : list Role) : option Role :=
  head (filter (λ role, up c (role_ID role) = false) roles).

Definition reconcileLayout : M (Env W pass) Outcome :=
  p ← get_st;
  if SingleNode (fsc_Spec (p_cluster p)) then ret Continue
  else
    let roles := desiredRoles p in
    let widths := desiredWidths (fsc_Spec (p_cluster p)) in
    let current := cv_layout (p_convergence p) in
    if negb (cv_known (p_convergence p)) then
      holdLayout "no node's admin API answered, so the layout cannot be read"
    else if match current with Some l => sameLayout l roles widths | None => false end then
      ret Continue
    else if match current with Some l => Transitioning l | None => false end then
      holdLayout ("layout version " +:+ pretty (default 0%Z (Version <$> current))
                    +:+ " is still moving data; the next change waits for it")
    else if size (p_live p) <? length (p_nodes p) then
      ret (RequeueAfter pollInterval "waiting for every node to be created")
    else match firstDown (p_convergence p) roles with
    | Some role =>
        holdLayout ("node " +:+ fmt_q (role_ID role)
          +:+ " is not up in the cluster's view; it gets a share of the data once it is")
    | None =>
        token ← adminToken;
        r ← try (applyLayout roles widths token);
        match r with
        | Err e =>
            if err_is KLayoutRejected e then
              let message := "fs refused the layout: " +:+ err_string e in
              _ ← put_st (setCondition ConditionClusterSizeAligned ConditionFalse
                    ReasonLayoutRejected message);
              _ ← event EventTypeWarning ReasonLayoutRejected message;
              ret (RequeueAfter pollInterval "layout rejected")
            else throw e
        | Ok applied =>
            _ ← event EventTypeNormal eventLayoutApplied
                  ("Applied layout version " +:+ pretty (Version applied) +:+ ": "
                     +:+ pretty (length roles) +:+ " node(s), widths " +:+ fmt_vZ widths);
            _ ← put_st (λ p, set_layoutApplied (set_convergence
                  (mkConvergence (cv_known (p_convergence p)) (Some applied)
                     (cv_nodes (p_convergence p)) false
                     ("layout version " +:+ pretty (Version applied) +:+ " was just applied")) p));
            ret (RequeueAfter pollInterval "layout applied; waiting for the cluster to move data")
        end
    end.
End steps.

(** * Theorems *)

(** ** What is asked for *)

Definition kept_nodes (p : pass) : list Node :=
  filter (λ node, p_decommission p !! node_Name node = None) (p_nodes p).

Lemma desiredRoles_perm p :
  role_ID <$> desiredRoles p ≡ₚ node_Name <$> kept_nodes p.
Proof.
  unfold desiredRoles. rewrite sort_by_perm, <- list_fmap_compose. done.
Qed.

Lemma desiredRoles_NoDup p : NoDup (node_Name <$> p_nodes p) → NoDup (role_ID <$> desiredRoles p).
Proof.
  intros H. rewrite desiredRoles_perm. unfold kept_nodes. revert H.
  induction (p_nodes p) as [|x l IH]; [done|]. simpl. intros [Hx Hnd]%NoDup_cons.
  rewrite filter_cons. case_decide; [|by apply IH]. simpl. apply NoDup_cons. split; [|by apply IH].
  rewrite list_elem_of_fmap. intros (y & Hy & Hin). apply list_elem_of_filter in Hin as [_ Hin].
  apply Hx. rewrite Hy. by apply list_elem_of_fmap_2.
Qed.

Lemma desiredRoles_sorted p : StronglySorted (key_le role_ID) (desiredRoles p).
Proof. apply sort_by_sorted. Qed.

Lemma desiredWidths_sorted spec : StronglySorted Z.lt (desiredWidths spec).
Proof. apply slices_Compact_sorted, sort_ints_sorted. Qed.

Lemma elem_of_desiredWidths spec w : w ∈ desiredWidths spec ↔ w ∈ spec_Widths (spec_Layout spec).
Proof. unfold desiredWidths. by rewrite slices_Compact_elem, sort_ints_perm. Qed.

(** C16: The layout the operator asks for has one role per declared node, sorted
    by identity, with the node's zone and rack and the declared volume size as
    its capacity; nodes being removed have none; the widths are those of the
    spec, ascending and without repetition. *)
Theorem desired_layout_spec (p : pass) :
  NoDup (node_Name <$> p_nodes p) →
  let roles := desiredRoles p in
  StronglySorted (key_le role_ID) roles ∧ NoDup (role_ID <$> roles) ∧
  (∀ r, r ∈ roles ↔ ∃ node, node ∈ p_nodes p ∧ p_decommission p !! node_Name node = None ∧
     r = mkRole (node_Name node) (node_Zone node) (node_Rack node)
           (wrapu64 (q_Value (Size (Storage (fsc_Spec (p_cluster p))))))) ∧
  StronglySorted Z.lt (desiredWidths (fsc_Spec (p_cluster p))) ∧
  (∀ w, w ∈ desiredWidths (fsc_Spec (p_cluster p)) ↔ w ∈ spec_Widths (spec_Layout (fsc_Spec (p_cluster p)))).
Proof.
  intros Hnd. cbv zeta. split_and!;
    [apply desiredRoles_sorted|by apply desiredRoles_NoDup| |apply desiredWidths_sorted|
     intros; apply elem_of_desiredWidths].
  intros r. unfold desiredRoles. rewrite sort_by_perm, list_elem_of_fmap.
  setoid_rewrite list_elem_of_filter. naive_solver.
Qed.

(** ** The comparison: order of members and widths does not matter *)

Lemma StronglySorted_lt_le (l : list Z) : StronglySorted Z.lt l → StronglySorted Z.le l.
Proof.
  induction 1 as [|x l Hs IH Hx]; constructor; [done|]. eapply Forall_impl; [done|]. simpl. lia.
Qed.

Lemma sort_ints_unique (l l' : list Z) : StronglySorted Z.le l' → l ≡ₚ l' → sort_ints l = l'.
Proof.
  intros Hs Hp. apply (StronglySorted_unique Z.le); [apply sort_ints_sorted|done|].
  by rewrite sort_ints_perm.
Qed.

Lemma sameLayout_spec current roles widths :
  NoDup (role_ID <$> roles) → StronglySorted (key_le role_ID) roles → StronglySorted Z.lt widths →
  sameLayout current roles widths = true ↔ Members current ≡ₚ roles ∧ Widths current ≡ₚ widths.
Proof.
  intros Hnd Hr Hw. unfold sameLayout. rewrite andb_true_iff, !bool_decide_eq_true. split.
  - intros [<- <-]. split; symmetry; [apply sort_by_perm|apply sort_ints_perm].
  - intros [Hm Hwp]. split; [|by apply sort_ints_unique; [apply StronglySorted_lt_le|]].
    symmetry. apply sort_by_unique; [by rewrite Hm|by rewrite Hm|done].
Qed.

(** ** Trying nodes *)

Section steps.
Context {W : Type} `{!KubeClient W, !Interface W}.
Implicit Types s : Env W pass.

Definition offer (p : pass) (roles : list Role) (widths : list Z) (node : Node) : action :=
  AApplyLayout (node_url p node) roles widths.

(** The layout is offered to nodes in order, each at most once. *)
Lemma tryLayout_prefix p nodes roles widths token last s :
  ∃ k, k ≤ length nodes ∧
    e_log (tryLayout p nodes roles widths token last s).2
      = e_log s ++ (offer p roles widths <$> take k nodes) ∧
    e_st (tryLayout p nodes roles widths token last s).2 = e_st s.
Proof.
  revert last s. induction nodes as [|node nodes IH]; intros last s; simpl.
  { exists 0. by rewrite app_nil_r. }
  unfold call, issue, emit, call. msimpl.
  destruct (adm_Client _ _ _) as [[[]|e] w1]; simpl.
  2: { exists 0. by split; [lia|]; rewrite app_nil_r. }
  destruct (adm_ApplyLayout _ _ _ _ _) as [[applied|e] w2]; simpl.
  { exists 1. split; [lia|done]. }
  destruct (err_is KLayoutRejected e); simpl.
  { exists 1. split; [lia|done]. }
  destruct (IH (Some e) (mkEnv w2 (e_log s ++ [AApplyLayout (node_url p node) roles widths]) (e_st s)))
    as (k & Hk & Hl & Hs). exists (S k). split; [lia|]. rewrite Hl, Hs. simpl. by rewrite <- app_assoc.
Qed.

(** A rejection is final: no other node is asked. *)
Lemma tryLayout_rejected p node nodes roles widths token last s w1 e w2 :
  adm_Client (node_url p node) token (e_world s) = (Ok tt, w1) →
  adm_ApplyLayout (node_url p node) token roles widths w1 = (Err e, w2) →
  err_is KLayoutRejected e = true →
  tryLayout p (node :: nodes) roles widths token last s
  = (Err e, mkEnv w2 (e_log s ++ [offer p roles widths node]) (e_st s)).
Proof.
  intros Hc Ha Hr. simpl. unfold call, issue, emit, call. msimpl. rewrite Hc. simpl.
  rewrite Ha. simpl. by rewrite Hr.
Qed.

(** ** The gates *)

Definition layout_gates (p : pass) : Prop :=
  SingleNode (fsc_Spec (p_cluster p)) = false ∧
  cv_known (p_convergence p) = true ∧
  (∀ l, cv_layout (p_convergence p) = Some l →
     Retained l = [] ∧ sameLayout l (desiredRoles p) (desiredWidths (fsc_Spec (p_cluster p))) = false) ∧
  length (p_nodes p) ≤ size (p_live p) ∧
  (∀ name, name ∈ (node_Name <$> kept_nodes p) → up (p_convergence p) name = true).

Definition may_change_layout (p : pass) (a : action) : Prop :=
  match a with
  | AApplyLayout url roles widths =>
      layout_gates p ∧ roles = desiredRoles p ∧ widths = desiredWidths (fsc_Spec (p_cluster p)) ∧
      ∃ node, node ∈ askOrder p ∧ url = node_url p node
  | a => reporting a
  end.

(** What the step leaves of the pass's view: unchanged, or the layout just
    applied, marked as not settled. *)
Definition view_after (p p' : pass) : Prop :=
  p_object p' = p_object p ∧ inputs p' = inputs p ∧ p_health p' = p_health p ∧
  (p_convergence p' = p_convergence p ∧ p_layoutApplied p' = p_layoutApplied p ∨
   p_layoutApplied p' = true ∧ cv_converged (p_convergence p') = false).

#[global] Instance view_after_preorder : PreOrder view_after.
Proof.
  split; [intros p; split_and!; [done..|by left]|].
  intros p1 p2 p3 (? & ? & ? & Hv1) (? & ? & ? & Hv2). unfold view_after.
  split; [congruence|]. split; [congruence|]. split; [congruence|].
  destruct Hv1 as [[? ?]|[? ?]], Hv2 as [[? ?]|[? ?]]; [left|right|right|right]; split; congruence.
Qed.

Lemma view_after_condition p t st r m : view_after p (setCondition t st r m p).
Proof. split_and!; [done..|by left]. Qed.

Lemma resp_adminToken_keeps φ s : resp (env_rel φ view_after) adminToken s.
Proof. apply resp_adminToken, _. Qed.

Lemma firstDown_None c roles : firstDown c roles = None → ∀ r, r ∈ roles → up c (role_ID r) = true.
Proof.
  unfold firstDown. intros H r Hr. destruct (up c (role_ID r)) eqn:E; [done|].
  assert (r ∈ filter (λ role, up c (role_ID role) = false) roles) as Hin by by apply list_elem_of_filter.
  destruct (filter _ roles); [by apply elem_of_nil in Hin|done].
Qed.

Lemma resp_applyLayout p roles widths token s :
  e_st s = p →
  (∀ node, node ∈ askOrder p → may_change_layout p (offer p roles widths node)) →
  resp (env_rel (may_change_layout p) view_after) (applyLayout roles widths token) s.
Proof.
  intros Hp Ho. unfold applyLayout. rstep; [rsolve|]. injection Hrun as <- <-. rewrite Hp.
  destruct (tryLayout_prefix p (askOrder p) roles widths token None s) as (k & _ & Hl & Hs).
  split; [|unfold st_rel; by rewrite Hs].
  eexists. split; [exact Hl|]. rewrite Forall_fmap, Forall_forall. intros node Hn. apply Ho.
  by eapply subseteq_take.
Qed.

Lemma resp_reconcileLayout s :
  resp (env_rel (may_change_layout (e_st s)) view_after) reconcileLayout s.
Proof.
  unfold reconcileLayout, holdLayout. rstep; [rsolve|]. injection Hrun as <- <-. clear HR.
  set (p := e_st s). destruct (SingleNode (fsc_Spec (p_cluster p))) eqn:Hs; [rsolve|]. cbv zeta.
  destruct (negb (cv_known (p_convergence p))) eqn:Hk.
  { rsolve_all. apply view_after_condition. }
  destruct (match cv_layout (p_convergence p) with
            | Some l => sameLayout l (desiredRoles p) (desiredWidths (fsc_Spec (p_cluster p)))
            | None => false end) eqn:Hsame; [rsolve|].
  destruct (match cv_layout (p_convergence p) with Some l => Transitioning l | None => false end) eqn:Ht.
  { rsolve_all. apply view_after_condition. }
  destruct (size (p_live p) <? length (p_nodes p)) eqn:Hsz; [rsolve|].
  destruct (firstDown (p_convergence p) (desiredRoles p)) eqn:Hd.
  { rsolve_all. apply view_after_condition. }
  assert (Hg : layout_gates p).
  { split; [done|]. split; [by apply negb_false_iff|]. split.
    - intros l Hl. rewrite Hl in Hsame, Ht. split; [by apply Transitioning_false|done].
    - split; [by apply Nat.ltb_ge|]. intros name Hn. rewrite <- desiredRoles_perm in Hn.
      apply list_elem_of_fmap in Hn as (r & -> & Hr). by eapply firstDown_None. }
  assert (Hoff : ∀ node, node ∈ askOrder p → may_change_layout p
    (offer p (desiredRoles p) (desiredWidths (fsc_Spec (p_cluster p))) node))
    by (intros node Hn; split_and!; [done..|by exists node]).
  rsolve_all.
  - apply resp_applyLayout; [|done]. pose proof (adminToken_state s) as Ha. by rewrite Hrun in Ha.
  - split_and!; [done..|by right].
  - apply view_after_condition.
Qed.
(** ** What the nodes replied *)

(** The layout was offered between two worlds, and these are the nodes it was
    offered to with their replies: every reply but the last is a failure that is
    not a rejection, since a rejection or an acceptance ends the offering. *)
Inductive offered (token : string) (roles : list Role) (widths : list Z)
    : W → list (string * result Layout) → W → Prop :=
  | offered_none w w' : later pass_step w w' → offered token roles widths w [] w'
  | offered_refused w w1 w2 w3 url e replies :
      later pass_step w w1 → adm_ApplyLayout url token roles widths w1 = (Err e, w2) →
      (err_is KLayoutRejected e = true → replies = []) →
      offered token roles widths w2 replies w3 →
      offered token roles widths w ((url, Err e) :: replies) w3
  | offered_taken w w1 w2 w3 url applied :
      later pass_step w w1 → adm_ApplyLayout url token roles widths w1 = (Ok applied, w2) →
      later pass_step w2 w3 → offered token roles widths w [(url, Ok applied)] w3.

Lemma offered_earlier token roles widths w0 w replies w' :
  later pass_step w0 w → offered token roles widths w replies w' → offered token roles widths w0 replies w'.
Proof.
  intros H Ho. destruct Ho as [w w'|w w1|w w1];
    [apply offered_none|apply (offered_refused _ _ _ w0 w1 w2)|apply (offered_taken _ _ _ w0 w1 w2)];
    solve [done|by etrans].
Qed.

Lemma offered_later token roles widths w replies w' w1 :
  offered token roles widths w replies w' → later pass_step w' w1 → offered token roles widths w replies w1.
Proof.
  induction 1 as [| |w wa wb]; intros; [apply offered_none; by etrans|eapply offered_refused; eauto|].
  apply (offered_taken _ _ _ w wa wb); [done..|by etrans].
Qed.

Definition a_offered (a : action) : option string :=
  match a with AApplyLayout url _ _ => Some url | _ => None end.

Lemma a_offered_reporting l : Forall reporting l → omap a_offered l = [].
Proof. induction 1 as [|a l Ha Hl IH]; [done|]. by destruct a. Qed.

(** What the pass knows of the layout after these replies. *)
Definition told (replies : list (string * result Layout)) (p p' : pass) : Prop :=
  match last replies with
  | Some (_, Ok applied) =>
      p_layoutApplied p' = true ∧ cv_layout (p_convergence p') = Some applied ∧
      cv_converged (p_convergence p') = false
  | _ => p_convergence p' = p_convergence p ∧ p_layoutApplied p' = p_layoutApplied p
  end.

(** The answer a sequence of replies gives. *)
Definition reply_of (replies : list (string * result Layout)) (r : result Layout) : Prop :=
  match r with
  | Ok applied => ∃ url, last replies = Some (url, Ok applied)
  | Err _ => ∀ url applied, last replies ≠ Some (url, Ok applied)
  end.

Lemma reply_of_cons url e replies r : reply_of replies r → reply_of ((url, Err e) :: replies) r.
Proof. unfold reply_of. rewrite last_cons. destruct r, (last replies); naive_solver. Qed.

Lemma tryLayout_replies p nodes roles widths token lst s r s' :
  tryLayout p nodes roles widths token lst s = (r, s') →
  ∃ replies, offered token roles widths (e_world s) replies (e_world s') ∧ reply_of replies r ∧
    e_st s' = e_st s ∧
    e_log s' = e_log s ++ ((λ url, AApplyLayout url roles widths) <$> replies.*1).
Proof.
  revert lst s. induction nodes as [|node nodes IH]; intros lst s; simpl.
  { intros [= <- <-]. exists []. rewrite app_nil_r. split_and!; [by apply offered_none|by intros ??|done..]. }
  unfold call, issue, emit, call. msimpl.
  destruct (adm_Client _ _ _) as [[[]|e] w1] eqn:Ec; simpl; apply (call_later pass_step) in Ec as Hc.
  2: { intros [= <- <-]. exists []. rewrite app_nil_r. split_and!; [by apply offered_none|by intros ??|done..]. }
  destruct (adm_ApplyLayout _ _ _ _ _) as [[applied|e] w2] eqn:Ea; simpl.
  { intros [= <- <-]. exists [(node_url p node, Ok applied)].
    split_and!; [by eapply offered_taken|by eexists|done..]. }
  destruct (err_is KLayoutRejected e) eqn:Er; simpl.
  { intros [= <- <-]. exists [(node_url p node, Err e)].
    split_and!; [by eapply offered_refused, offered_none|by intros ??|done..]. }
  intros (replies & Ho & Hr & Hs & Hl)%IH. simpl in *. exists ((node_url p node, Err e) :: replies).
  split_and!; [eapply offered_refused; [done..|congruence|done]|by apply reply_of_cons|done|].
  rewrite Hl. simpl. by rewrite <- app_assoc.
Qed.

(** Everything else the step does leaves the layout alone, and the pass's view of it. *)
Definition keeps_view (p p' : pass) : Prop :=
  p_convergence p' = p_convergence p ∧ p_layoutApplied p' = p_layoutApplied p.

#[local] Instance keeps_view_preorder : PreOrder keeps_view.
Proof. split; [done|]. intros p1 p2 p3 [] []. split; congruence. Qed.

#[local] Instance reporting_lasting : Lasting pass_step (λ (_ : W) a, reporting a).
Proof. by intros w w' a. Qed.

Abbreviation aside := (timed pass_step (λ _ a, reporting a) keeps_view).

(** What the whole step did to the layout, in the nodes' own words. *)
Definition layout_course (roles : list Role) (widths : list Z) (s s' : Env W pass) : Prop :=
  ∃ token replies l, e_log s' = e_log s ++ l ∧ omap a_offered l = replies.*1 ∧
    offered token roles widths (e_world s) replies (e_world s') ∧ told replies (e_st s) (e_st s').

Lemma aside_course roles widths s s' : aside s s' → layout_course roles widths s s'.
Proof.
  intros (Hw & (l & Hl & Hf) & Hq). exists "", [], l. split_and!; [done| |by apply offered_none|done].
  by apply a_offered_reporting.
Qed.

(** Between what was done aside, the offering. *)
Lemma offered_course roles widths token replies s s1 s2 s3 :
  aside s s1 → offered token roles widths (e_world s1) replies (e_world s2) →
  e_log s2 = e_log s1 ++ ((λ url, AApplyLayout url roles widths) <$> replies.*1) →
  later pass_step (e_world s2) (e_world s3) → (∃ l, e_log s3 = e_log s2 ++ l ∧ Forall reporting l) →
  told replies (e_st s) (e_st s3) →
  layout_course roles widths s s3.
Proof.
  intros (Hw & (l & Hl & Hf) & Hq) Ho Hl2 Hw3 (l3 & Hl3 & Hf3) Ht.
  exists token, replies, (l ++ ((λ url, AApplyLayout url roles widths) <$> replies.*1) ++ l3).
  split_and!; [|..|done].
  - rewrite Hl3, Hl2, Hl. by rewrite !app_assoc.
  - rewrite !omap_app, (a_offered_reporting l), (a_offered_reporting l3), app_nil_r by done. simpl. clear.
    induction replies as [|x replies IH]; [done|]. simpl. by f_equal.
  - eapply offered_earlier; [done|]. by eapply offered_later.
Qed.

Lemma aside_adminToken s : resp aside adminToken s.
Proof. unfold adminToken. rsolve. Qed.

(** An attempt to change the layout: the token, the offering, what is made of
    its end. *)
Lemma attempt_course roles widths (finish : result Layout → M (Env W pass) Outcome) s :
  (∀ token s1 r s2 replies, aside s s1 → e_st s1 = e_st s → applyLayout roles widths token s1 = (r, s2) →
     reply_of replies r → e_st s2 = e_st s1 →
     let s3 := (finish r s2).2 in
     later pass_step (e_world s2) (e_world s3) ∧ (∃ l, e_log s3 = e_log s2 ++ l ∧ Forall reporting l) ∧
     told replies (e_st s) (e_st s3)) →
  layout_course roles widths s (((token ← adminToken; r ← try (applyLayout roles widths token); finish r) s).2).
Proof.
  intros Hfin. pose proof (aside_adminToken s) as Ha. pose proof (adminToken_state s) as Hst.
  unfold mbind at 1, M_bind at 1. unfold resp in Ha.
  destruct (adminToken s) as [[token|e] s1]; simpl in *; [|by apply aside_course].
  unfold mbind at 1, M_bind at 1, try. destruct (applyLayout roles widths token s1) as [r s2] eqn:E.
  pose proof E as E'. unfold applyLayout in E'.
  rewrite (bind_Ok _ _ _ _ _ (eq_refl : get_st s1 = (Ok (e_st s1), s1))) in E'.
  apply tryLayout_replies in E' as (replies & Ho & Hr & Hs & Hl).
  destruct (Hfin token s1 r s2 replies) as (Hw3 & Hl3 & Ht); try done.
  by eapply offered_course.
Qed.

Lemma reconcileLayout_course s :
  layout_course (desiredRoles (e_st s)) (desiredWidths (fsc_Spec (p_cluster (e_st s)))) s (reconcileLayout s).2.
Proof.
  unfold reconcileLayout. rewrite (bind_Ok _ _ _ _ _ (eq_refl : get_st s = (Ok (e_st s), s))).
  cbv zeta. set (p := e_st s).
  assert (Hhold : ∀ reason, layout_course (desiredRoles p) (desiredWidths (fsc_Spec (p_cluster p))) s
    (holdLayout reason s).2).
  { intros reason. apply aside_course, (timed_put_st pass_step (λ _ a, reporting a) keeps_view). done. }
  destruct (SingleNode _); [by apply aside_course|]. destruct (negb _); [apply Hhold|].
  destruct (match cv_layout _ with Some _ => _ | None => _ end); [by apply aside_course|].
  destruct (match cv_layout _ with Some _ => _ | None => _ end); [apply Hhold|].
  destruct (_ <? _); [by apply aside_course|]. destruct (firstDown _ _); [apply Hhold|].
  apply attempt_course. intros token s1 r s2 replies _ Hst _ Hr Hs2. cbv zeta.
  destruct r as [applied|e]; simpl in Hr.
  - destruct Hr as [url Hlast]. msimpl. split_and!; [done| |].
    + eexists. split; [reflexivity|]. by repeat constructor.
    + unfold told. by rewrite Hlast.
  - assert (Htold : ∀ q, keeps_view p q → told replies p q).
    { intros q Hq. unfold told. destruct (last replies) as [[url [applied|?]]|]; [by destruct (Hr url applied)|done..]. }
    destruct (err_is KLayoutRejected e); msimpl.
    + split_and!; [done| |apply Htold; unfold keeps_view; simpl; by rewrite Hs2, Hst].
      eexists. split; [reflexivity|]. by repeat constructor.
    + split_and!; [done|exists []; by rewrite app_nil_r|]. apply Htold. by rewrite Hs2, Hst.
Qed.

(** C15: The layout is offered only to the nodes of the cluster, only with the
    declared roles and widths, and only when the pass read the current layout, it
    differs, nothing is moving, no fewer StatefulSets exist than the spec has
    nodes, and every node that is to have a share is up in the cluster's view.
    Every offer in the log has its reply; the offering ends with the first
    acceptance or rejection.  When the last reply is an acceptance, the accepted
    layout becomes the pass's layout, which no longer counts as converged and is
    marked as just applied (so that nothing is removed on the strength of it);
    without one, the pass's view is as it was. *)
Theorem reconcileLayout_gated s :
  let p := e_st s in
  let s' := (reconcileLayout s).2 in
  ∃ l token replies, e_log s' = e_log s ++ l ∧ Forall (may_change_layout p) l ∧
    omap a_offered l = replies.*1 ∧
    offered token (desiredRoles p) (desiredWidths (fsc_Spec (p_cluster p))) (e_world s) replies (e_world s') ∧
    told replies p (e_st s') ∧
    p_object (e_st s') = p_object p ∧ inputs (e_st s') = inputs p ∧ p_health (e_st s') = p_health p.
Proof.
  destruct (resp_reconcileLayout s) as [(l & Hl & Hf) Hv].
  destruct (reconcileLayout_course s) as (token & replies & l' & Hl' & Hu & Ho & Ht).
  rewrite Hl in Hl'. apply app_inv_head in Hl' as <-. destruct Hv as (? & ? & ? & _).
  exists l, token, replies. by split_and!.
Qed.

(** C17: Members and widths are compared as sets: the step leaves a layout
    alone exactly when it already has the declared roles and widths, in any
    order.  A node that echoes an applied layout thus ends the change. *)
Theorem reconcileLayout_settles s layout :
  let p := e_st s in
  NoDup (node_Name <$> p_nodes p) →
  SingleNode (fsc_Spec (p_cluster p)) = false → cv_known (p_convergence p) = true →
  cv_layout (p_convergence p) = Some layout →
  (reconcileLayout s = (Ok Continue, s) ↔
   Members layout ≡ₚ desiredRoles p ∧ Widths layout ≡ₚ desiredWidths (fsc_Spec (p_cluster p))).
Proof.
  cbv zeta. intros Hnd Hs Hk Hl.
  rewrite <- sameLayout_spec by auto using desiredRoles_NoDup, desiredRoles_sorted, desiredWidths_sorted.
  unfold reconcileLayout. rewrite (bind_Ok _ _ _ _ _ (eq_refl : get_st s = (Ok (e_st s), s))).
  rewrite Hs, Hk, Hl. simpl. destruct (sameLayout _ _ _) eqn:Hsame; [done|]. split; [|done].
  intros Heq. exfalso. revert Heq. destruct (Transitioning layout); [done|].
  destruct (size _ <? length _); [done|]. destruct (firstDown _ _); [done|].
  unfold mbind at 1, M_bind at 1. destruct (adminToken s) as [[token|e] s1]; [|done].
  unfold mbind at 1, M_bind at 1, try. destruct (applyLayout _ _ token s1) as [[applied|e] s2]; [done|].
  by destruct (err_is KLayoutRejected e).
Qed.

(** A layout is offered to the nodes whose StatefulSet exists, one after
    the other, each at most once, and a rejection by the first is final. *)
Theorem applyLayout_order roles widths token s :
  let p := e_st s in
  (∃ k, k ≤ length (askOrder p) ∧
     e_log (applyLayout roles widths token s).2
       = e_log s ++ (offer p roles widths <$> take k (askOrder p)) ∧
     e_st (applyLayout roles widths token s).2 = p) ∧
  (∀ node rest w1 e w2, askOrder p = node :: rest →
     adm_Client (node_url p node) token (e_world s) = (Ok tt, w1) →
     adm_ApplyLayout (node_url p node) token roles widths w1 = (Err e, w2) →
     err_is KLayoutRejected e = true →
     (applyLayout roles widths token s).1 = Err e ∧
     e_log (applyLayout roles widths token s).2 = e_log s ++ [offer p roles widths node]).
Proof.
  cbv zeta. unfold applyLayout. rewrite (bind_Ok _ _ _ _ _ (eq_refl : get_st s = (Ok (e_st s), s))).
  split; [apply tryLayout_prefix|]. intros node rest w1 e w2 -> Hc Ha Hr.
  by rewrite (tryLayout_rejected _ _ _ _ _ _ _ _ _ _ _ Hc Ha Hr).
Qed.
End steps.
