(* ===== verification/Decommission.v ===== *)
(** * Removing nodes (src/internal/controller/fscluster/decommission.go)

    A node the spec stopped declaring stays in the pass, keeps running, and is
    deleted only once the layout the cluster runs gives it no share and nothing
    is moving. *)

From S2P Require Import Prelude.
From S2P Require Import ApiTypes.
From S2P Require Import Defaults.
From S2P Require Import Nodes.
From S2P Require Import FsClient.
From S2P Require Import Kube.
From S2P Require Import Config.
From S2P Require Import Builders.
From S2P Require Import Pipeline.
From S2P Require Import Pass.
From S2P Require Import Status.
From S2P Require Import Convergence.
From S2P Require Import Rollout.

Definition eventNodeDraining : string := "NodeDraining".
Definition eventNodeRemoved : string := "NodeRemoved".

(** [active] and [names] of the decommission. *)
Definition active (sets : gmap string StatefulSet) : bool := 0 <? size sets.
Definition names (sets : gmap string StatefulSet) : list string := sorted_keys sets.

Definition nodeFromSet (set : StatefulSet) : Node :=
  mkNode (set_Name set) (default "" (set_Labels set !! LabelRack)) 0 "" ∅.

(** The loop of [planDecommission] over the sets that exist. *)
Fixpoint plan_sets (declared : list string) (existing : list StatefulSet) (nodes : list Node)
    (sets : gmap string StatefulSet) : list Node * gmap string StatefulSet :=
  match existing with
  | [] => (nodes, sets)
  | set :: existing' =>
      if bool_decide (set_Name set ∈ declared) then plan_sets declared existing' nodes sets
      else plan_sets declared existing' (nodes ++ [nodeFromSet set]) (<[set_Name set := set]> sets)
  end.

(** The live set with what only the server owns removed, ready to be applied. *)
Definition kept_base (live : StatefulSet) : StatefulSet :=
  mkStatefulSet KindStatefulSet (set_Name live) (set_Namespace live) (set_Labels live)
    (set_Annotations live) (set_Generation live) "" [] (set_Replicas live) (set_ServiceName live)
    (set_Selector live) (set_Template live) (set_Claims live) (set_Retention live)
    (mkSetStatus 0 0 0).

Definition keptStatefulSet `{!Codec} (live : StatefulSet) : result StatefulSet :=
  stampTemplateRevision (kept_base live).

Section steps.
Context {W : Type} `{!KubeClient W}.

Definition planDecommission : M (Env W pass) Outcome :=
  p ← get_st;
  existing ← nodeSets (p_cluster p);
  let '(nodes, sets) := plan_sets (node_Name <$> p_nodes p) existing (p_nodes p) (p_decommission p) in
  _ ← put_st (set_decommission nodes sets);
  if negb (active sets) then ret Continue
  else
    let announced := match st_Update (fsc_Status (p_object p)) with
                     | Some update => bool_decide (Phase update = UpdatePhaseDraining)
                     | None => false
                     end in
    _ ← (if announced then ret tt
         else event EventTypeNormal eventNodeDraining
                ("Removing node(s) " +:+ strings_Join (names sets) ", "
                   +:+ ": leaving the layout, kept running until their data has moved"));
    ret Continue.

Definition holdDrain (ns : list string) (reason : string) : M (Env W pass) Outcome :=
  _ ← put_st (setCondition ConditionClusterSizeAligned ConditionFalse ReasonDraining reason);
  hold UpdatePhaseDraining (strings_Join ns ", ") reason.

Definition removeNode (p : pass) (set : StatefulSet) : M (Env W pass) unit :=
  _ ← delete_ignoring_absent KindSet (set_Namespace set) (set_Name set) false
        ("delete statefulset " +:+ fmt_q (set_Name set));
  delete_ignoring_absent KindSecret (fsc_Namespace (p_cluster p)) (ConfigSecretName (set_Name set)) false
    ("delete config secret " +:+ fmt_q (ConfigSecretName (set_Name set))).

(** The first removed node, in name order, that the layout still gives a
    share. *)
Definition firstMember (layout : Layout) (ns : list string) : option string :=
  head (filter (λ name, is_Some (Member layout name)) ns).

(** Why nodes must be kept, if they must. *)
Definition drainGate (p : pass) (ns : list string) : string + Layout :=
  match cv_known (p_convergence p), cv_layout (p_convergence p) with
  | true, Some layout =>
      if p_layoutApplied p then
        inl ("layout version " +:+ pretty (Version layout)
               +:+ " was just applied; their data starts moving now")
      else if Transitioning layout then
        inl ("layout version " +:+ pretty (Version layout) +:+ " is moving their data; versions "
               +:+ fmt_vZ (Retained layout) +:+ " are still retained")
      else match firstMember layout ns with
      | Some name =>
          inl ("node " +:+ fmt_q name +:+ " is still in layout version " +:+ pretty (Version layout)
                 +:+ "; it leaves with the next layout change")
      | None => inr layout
      end
  | _, _ => inl "no node answered, so whether their data has moved is unknown"
  end.

Definition reconcileDecommission : M (Env W pass) Outcome :=
  p ← get_st;
  if negb (active (p_decommission p)) then ret Continue
  else
    let ns := names (p_decommission p) in
    match drainGate p ns with
    | inl reason => holdDrain ns reason
    | inr layout =>
        _ ← forM_ ns (λ name,
              match p_decommission p !! name with
              | None => throw go_panic
              | Some set =>
                  _ ← removeNode p set;
                  event EventTypeNormal eventNodeRemoved
                    ("Removed node " +:+ fmt_q name +:+ ": layout version "
                       +:+ pretty (Version layout) +:+ " holds its data elsewhere")
              end);
        ret Continue
    end.
End steps.

(** * Theorems *)

(** ** Planning *)

Definition undeclared (declared : list string) (existing : list StatefulSet) : list StatefulSet :=
  filter (λ set, set_Name set ∉ declared) existing.

Lemma plan_sets_nodes declared existing nodes sets :
  (plan_sets declared existing nodes sets).1 = nodes ++ (nodeFromSet <$> undeclared declared existing).
Proof.
  revert nodes sets. induction existing as [|set existing IH]; intros nodes sets; simpl.
  { by rewrite app_nil_r. }
  unfold undeclared. rewrite filter_cons. case_bool_decide as Hd.
  - rewrite decide_False by auto. apply IH.
  - rewrite decide_True by done. rewrite IH. simpl. by rewrite <- app_assoc.
Qed.

(** The sets kept are the live ones of undeclared nodes, under their names. *)
Definition removed_ok (declared : list string) (sets : gmap string StatefulSet) : Prop :=
  ∀ name set, sets !! name = Some set → set_Name set = name ∧ name ∉ declared.

Lemma plan_sets_removed declared existing nodes sets :
  removed_ok declared sets → removed_ok declared (plan_sets declared existing nodes sets).2.
Proof.
  revert nodes sets. induction existing as [|set existing IH]; intros nodes sets Hok; simpl; [done|].
  case_bool_decide as Hd; [by apply IH|]. apply IH. intros name set' Hl.
  apply lookup_insert_Some in Hl as [[<- <-]|[_ Hl]]; [done|by apply Hok].
Qed.

Lemma plan_sets_lookup declared existing nodes sets name :
  is_Some ((plan_sets declared existing nodes sets).2 !! name) ↔
  is_Some (sets !! name) ∨ name ∈ (set_Name <$> undeclared declared existing).
Proof.
  revert nodes sets. induction existing as [|set existing IH]; intros nodes sets; simpl; [set_solver|].
  unfold undeclared. rewrite filter_cons. case_bool_decide as Hd.
  - rewrite decide_False by auto. apply IH.
  - rewrite decide_True by done. rewrite IH, fmap_cons, elem_of_cons, lookup_insert_is_Some.
    destruct (decide (set_Name set = name)); unfold undeclared; naive_solver.
Qed.

(** ** The gate *)

Definition gone (p : pass) (name : string) : Prop :=
  cv_known (p_convergence p) = true ∧ p_layoutApplied p = false ∧
  ∃ layout, cv_layout (p_convergence p) = Some layout ∧ Retained layout = [] ∧
    name ∉ (role_ID <$> Members layout).

Lemma firstMember_None layout ns :
  firstMember layout ns = None ↔ ∀ name, name ∈ ns → name ∉ (role_ID <$> Members layout).
Proof.
  unfold firstMember. setoid_rewrite <- Member_None.
  induction ns as [|n ns IH]; [set_solver|]. rewrite filter_cons. case_decide as Hm.
  - split; [done|]. intros H. rewrite H in Hm by left. by destruct Hm.
  - rewrite IH. apply eq_None_not_Some in Hm. set_solver.
Qed.

Lemma drainGate_inr p ns layout :
  drainGate p ns = inr layout ↔
  cv_known (p_convergence p) = true ∧ p_layoutApplied p = false ∧
  cv_layout (p_convergence p) = Some layout ∧ Retained layout = [] ∧
  ∀ name, name ∈ ns → name ∉ (role_ID <$> Members layout).
Proof.
  unfold drainGate. destruct (cv_known _), (cv_layout _) as [l|]; try naive_solver.
  destruct (p_layoutApplied p); [naive_solver|].
  destruct (Transitioning l) eqn:Ht.
  - split; [done|]. intros (_ & _ & ? & Hr & _). simplify_eq.
    apply Transitioning_false in Hr. congruence.
  - apply Transitioning_false in Ht. destruct (firstMember l ns) as [n|] eqn:Hm.
    + split; [done|]. intros (_ & _ & ? & _ & Hn). simplify_eq.
      apply firstMember_None in Hn. congruence.
    + rewrite firstMember_None in Hm. naive_solver.
Qed.

(** ** The steps *)

Section steps.
Context {W : Type} `{!KubeClient W}.
Implicit Types s : Env W pass.

(** [planDecommission] changes the nodes and the removed sets, no more. *)
Lemma resp_planDecommission (φ : action → Prop) s :
  (∀ t r m, φ (AEvent t r m)) →
  resp (env_rel φ (keeps (λ p, (p_object p, p_cluster p, p_configs p, p_desired p, p_live p,
    p_health p, p_convergence p, p_layoutApplied p)))) planDecommission s.
Proof. intros. unfold planDecommission. rsolve_all. Qed.

Definition may_drain (p : pass) (a : action) : Prop :=
  match a with
  | ADelete KindSet ns name orphan =>
      orphan = false ∧ ∃ set, p_decommission p !! name = Some set ∧ ns = set_Namespace set ∧ gone p name
  | ADelete KindSecret _ secret _ => ∃ name, secret = ConfigSecretName name ∧ gone p name
  | ADelete _ _ _ _ => False
  | a => reporting a
  end.

Lemma resp_reconcileDecommission s :
  removed_ok [] (p_decommission (e_st s)) →
  resp (env_rel (may_drain (e_st s)) (keeps core)) reconcileDecommission s.
Proof.
  intros Hok. unfold reconcileDecommission, holdDrain, removeNode. rstep; [rsolve|].
  injection Hrun as <- <-. clear HR. set (p := e_st s) in *. destruct (negb (active (p_decommission p))); [rsolve|]. cbv zeta.
  destruct (drainGate p (names (p_decommission p))) as [reason|layout] eqn:Hg.
  { rsolve_all. by apply resp_hold. }
  apply drainGate_inr in Hg as (Hk & Ha & Hl & Hr & Hm).
  rsolve_all; assert (gone p x) as Hgone
    by (split; [done|]; split; [done|]; exists layout; split_and!; auto); apply Hok in Heqo as Hn;
    destruct Hn as [-> _].
  - simpl. eauto.
  - simpl. eauto.
Qed.
End steps.

(** ** What a node being removed keeps *)

(** A node being removed keeps the StatefulSet it runs: same name, pod
    template, claims and labels; only the recorded template revision is
    refreshed. *)
Theorem keptStatefulSet_unchanged {CD : Codec} (live set : StatefulSet) :
  keptStatefulSet live = Ok set →
  set_Name set = set_Name live ∧ set_Template set = set_Template live ∧
  set_Claims set = set_Claims live ∧ set_Labels set = set_Labels live ∧
  ∃ template, json_Template (set_Template live) = Ok template ∧
    template_revision set = format templatePrefix (sha256 template).
Proof.
  unfold keptStatefulSet, stampTemplateRevision, TemplateRevision, marshal_template. simpl.
  destruct (json_Template (set_Template live)) as [t|] eqn:E; simpl; [|done].
  intros H. injection H as <-. simpl. split_and!; [done..|]. exists t.
  unfold template_revision. simpl. by rewrite lookup_insert_eq.
Qed.
