(* ===== verification/StorageStep.v ===== *)
(** * Storage (src/internal/controller/fscluster/storage.go)

    A data volume may only grow.  Growing one node expands its claim and
    orphan-deletes its StatefulSet, so that a later pass recreates the set
    around the running pod and then replaces the pod. *)

From S2P Require Import Prelude.
From S2P Require Import ApiTypes.
From S2P Require Import Defaults.
From S2P Require Import Nodes.
From S2P Require Import FsClient.
From S2P Require Import Kube.
From S2P Require Import Course.
From S2P Require Import Config.
From S2P Require Import Builders.
From S2P Require Import Pipeline.
From S2P Require Import Pass.
From S2P Require Import Status.

Definition eventStorageExpanding : string := "StorageExpanding".

(** ** Comparing claims *)

Definition index_claims (claims : list PVC) : gmap string Quantity :=
  foldl (λ m c, <[pvc_Name c := pvc_Storage c]> m) ∅ claims.

Fixpoint diff_claims (sizes : gmap string Quantity) (desired : list PVC) (shrunk : list string)
    (changed : bool) : list string * bool :=
  match desired with
  | [] => (shrunk, changed)
  | claim :: desired' =>
      match sizes !! pvc_Name claim with
      | None => diff_claims sizes desired' shrunk true
      | Some have =>
          match q_Cmp have (pvc_Storage claim) with
          | 1%Z => diff_claims sizes desired' (shrunk ++ [pvc_Name claim]) changed
          | (-1)%Z => diff_claims sizes desired' shrunk true
          | _ => diff_claims sizes desired' shrunk changed
          end
      end
  end.

Definition diskDiff (live desired : list PVC) : list string * bool :=
  diff_claims (index_claims live) desired [] false.

(** ** Adopted pods *)

Definition adoptedStalePod (set : StatefulSet) : bool :=
  (set_Generation set <=? ss_ObservedGeneration (set_Status set))%Z
  && (ss_ReadyReplicas (set_Status set) =? 1)%Z
  && (ss_UpdatedReplicas (set_Status set) =? 0)%Z.

Definition otherNodesNotReady (p : pass) (except : string) : list string :=
  filter (λ name, name ≠ except) (h_notReady (p_health p)).

(** [pvc.Spec.Resources.Requests[corev1.ResourceStorage] = want]; [None] is the
    panic of a write into a nil map. *)
Definition set_storage (p : PVC) (q : Quantity) : option PVC :=
  match pvc_Requests p with
  | None => None
  | Some requests =>
      Some (mkPVC (pvc_Name p) (pvc_Namespace p) (pvc_Labels p) (pvc_AccessModes p)
              (Some (<[ResourceStorage := q]> requests)) (pvc_StorageClassName p))
  end.

Section steps.
Context {W : Type} `{!KubeClient W}.

(** [None]: nothing to adopt. *)
Fixpoint adopt_loop (p : pass) (nodes : list Node) : M (Env W pass) (option Outcome) :=
  match nodes with
  | [] => ret None
  | node :: nodes' =>
      let name := node_Name node in
      match p_live p !! name with
      | None => adopt_loop p nodes'
      | Some live =>
          if negb (adoptedStalePod live) then adopt_loop p nodes'
          else
            let waiting := otherNodesNotReady p name in
            if bool_decide (waiting ≠ []) then
              ret (Some (RequeueAfter pollInterval ("waiting for node(s) " +:+ fmt_v waiting
                +:+ " before replacing node " +:+ fmt_q name +:+ "'s pod")))
            else
              _ ← delete_ignoring_absent KindPod (fsc_Namespace (p_cluster p)) (PodName name) false
                    ("replace pod of node " +:+ fmt_q name);
              _ ← event EventTypeNormal eventStorageExpanding
                    ("Replacing node " +:+ fmt_q name +:+ "'s pod so it picks up its new storage");
              ret (Some (RequeueAfter pollInterval ("replacing node " +:+ fmt_q name
                +:+ "'s pod after recreating its StatefulSet")))
      end
  end.

Definition finishAdoption : M (Env W pass) (option Outcome) :=
  p ← get_st;
  adopt_loop p (p_nodes p).

Definition growClaim (p : pass) (node : Node) (tmpl : PVC) : M (Env W pass) unit :=
  let want := pvc_Storage tmpl in
  let name := PVCName (pvc_Name tmpl) (node_Name node) in
  r ← try (call (k_getPVC (fsc_Namespace (p_cluster p)) name));
  match r with
  | Err e => if IsNotFound e then ret tt else throw (ErrWrap ("get pvc " +:+ fmt_q name) e)
  | Ok pvc =>
      if (0 <=? q_Cmp (pvc_Storage pvc) want)%Z then ret tt
      else
        match set_storage pvc want with
        | None => throw go_panic
        | Some grown =>
            wrap_err ("expand pvc " +:+ fmt_q name) (issue (AUpdatePVC grown) (k_updatePVC grown))
        end
  end.

Definition growClaims (p : pass) (node : Node) (desired : StatefulSet) : M (Env W pass) unit :=
  forM_ (set_Claims desired) (growClaim p node).

Definition expandNode (p : pass) (node : Node) (desired : StatefulSet) : M (Env W pass) Outcome :=
  let name := node_Name node in
  _ ← growClaims p node desired;
  _ ← delete_ignoring_absent KindSet (fsc_Namespace (p_cluster p)) name true
        ("orphan-delete statefulset " +:+ fmt_q name);
  _ ← event EventTypeNormal eventStorageExpanding
        ("Applying storage changes to node " +:+ fmt_q name
           +:+ " (recreating its StatefulSet, then its pod)");
  _ ← put_st (setCondition ConditionClusterSizeAligned ConditionFalse ReasonStorageExpanding
        ("Applying storage changes to node " +:+ fmt_q name));
  ret (RequeueAfter pollInterval "recreating node with new storage").

(** The drift loop: the first shrink found, or the nodes that changed, each
    with the set the spec asks for. *)
Inductive drift :=
  | Shrink (node : string) (claims : list string)
  | Drifted (nodes : list (Node * StatefulSet))
  | IndexPanic.

Fixpoint drift_loop (live : gmap string StatefulSet) (nodes : list Node) (desired : list StatefulSet)
    (drifted : list (Node * StatefulSet)) : drift :=
  match nodes with
  | [] => Drifted drifted
  | node :: nodes' =>
      match live !! node_Name node with
      | None => drift_loop live nodes' (tail desired) drifted
      | Some l =>
          match desired with
          | [] => IndexPanic
          | want :: desired' =>
              let '(shrunk, changed) := diskDiff (set_Claims l) (set_Claims want) in
              if bool_decide (shrunk ≠ []) then Shrink (node_Name node) shrunk
              else drift_loop live nodes' desired'
                     (if changed : bool then drifted ++ [(node, want)] else drifted)
          end
      end
  end.

Definition reconcileStorage : M (Env W pass) Outcome :=
  done ← finishAdoption;
  match done with
  | Some outcome => ret outcome
  | None =>
      p ← get_st;
      match drift_loop (p_live p) (p_nodes p) (desired_sets p) [] with
      | IndexPanic => throw go_panic
      | Shrink node shrunk =>
          refuse ReasonStorageShrinkForbidden ("node " +:+ fmt_q node +:+ " volume(s) " +:+ fmt_v shrunk
            +:+ " would shrink; storage may only grow")
      | Drifted [] => ret Continue
      | Drifted ((node, want) :: _) =>
          let waiting := h_notReady (p_health p) in
          if bool_decide (waiting ≠ []) then
            ret (RequeueAfter pollInterval
                   ("waiting for node(s) " +:+ fmt_v waiting +:+ " before storage changes"))
          else if negb (cv_known (p_convergence p)) || negb (cv_converged (p_convergence p)) then
            ret (RequeueAfter pollInterval
                   "waiting for the cluster to reconverge before storage changes")
          else expandNode p node want
      end
  end.
End steps.

(** * Theorems *)

(** ** The difference of claims *)

Definition claim_shrinks (sizes : gmap string Quantity) (c : PVC) : Prop :=
  ∃ have, sizes !! pvc_Name c = Some have ∧ (q_nanos (pvc_Storage c) < q_nanos have)%Z.

(** A claim to be added, or larger than it is. *)
Definition claim_grows (sizes : gmap string Quantity) (c : PVC) : bool :=
  match sizes !! pvc_Name c with
  | None => true
  | Some have => bool_decide (q_nanos have < q_nanos (pvc_Storage c))%Z
  end.

#[global] Instance claim_shrinks_dec sizes c : Decision (claim_shrinks sizes c).
Proof.
  unfold claim_shrinks. destruct (sizes !! pvc_Name c) as [h|].
  - destruct (decide (q_nanos (pvc_Storage c) < q_nanos h)%Z); [left; eauto|right; naive_solver].
  - right. naive_solver.
Defined.

Lemma diff_claims_spec sizes desired shrunk changed :
  diff_claims sizes desired shrunk changed =
  (shrunk ++ (pvc_Name <$> filter (claim_shrinks sizes) desired),
   changed || existsb (claim_grows sizes) desired).
Proof.
  revert shrunk changed. induction desired as [|c desired IH]; intros shrunk changed; simpl.
  { by rewrite app_nil_r, orb_false_r. }
  rewrite filter_cons.
  unfold claim_grows at 1. destruct (sizes !! pvc_Name c) as [have|] eqn:E.
  - unfold q_Cmp. destruct (Z.compare_spec (q_nanos have) (q_nanos (pvc_Storage c))) as [Hc|Hc|Hc]; rewrite IH.
    + rewrite decide_False, (bool_decide_false (_ < _)%Z); [done|lia|].
      intros (h & Hh & ?). simplify_eq. lia.
    + rewrite decide_False, (bool_decide_true (_ < _)%Z), orb_true_r; [done|lia|].
      intros (h & Hh & ?). simplify_eq. lia.
    + rewrite decide_True, (bool_decide_false (_ < _)%Z); [|lia|by exists have].
      simpl. by rewrite <- app_assoc.
  - rewrite IH, decide_False, orb_true_r; [done|].
    intros (h & Hh & ?). congruence.
Qed.

Lemma diskDiff_shrunk live desired :
  (diskDiff live desired).1 = pvc_Name <$> filter (claim_shrinks (index_claims live)) desired.
Proof. unfold diskDiff. by rewrite diff_claims_spec. Qed.

(** ** The loop over the nodes *)

Definition node_shrinks (live : gmap string StatefulSet) (x : Node * StatefulSet) : Prop :=
  ∃ l c, live !! node_Name x.1 = Some l ∧ c ∈ set_Claims x.2 ∧ claim_shrinks (index_claims (set_Claims l)) c.

Lemma drift_loop_spec live nodes desired drifted :
  length nodes = length desired →
  match drift_loop live nodes desired drifted with
  | Shrink node claims =>
      claims ≠ [] ∧ ∃ x, x ∈ zip nodes desired ∧ node_Name x.1 = node ∧ node_shrinks live x
  | Drifted l =>
      Forall (λ x, ¬ node_shrinks live x) (zip nodes desired) ∧
      (∀ x, x ∈ l → x ∈ drifted ∨ x ∈ zip nodes desired)
  | IndexPanic => False
  end.
Proof.
  revert desired drifted. induction nodes as [|node nodes IH]; intros desired drifted Hl; simpl.
  { split; [constructor|auto]. }
  destruct desired as [|want desired]; [discriminate Hl|]. simpl in *. injection Hl as Hl.
  assert (Hstep : ∀ d, ¬ node_shrinks live (node, want) → (∀ x, x ∈ d → x ∈ drifted ∨ x = (node, want)) →
    match drift_loop live nodes desired d with
    | Shrink node' claims =>
        claims ≠ [] ∧ ∃ x, x ∈ (node, want) :: zip nodes desired ∧ node_Name x.1 = node' ∧ node_shrinks live x
    | Drifted l =>
        Forall (λ x, ¬ node_shrinks live x) ((node, want) :: zip nodes desired) ∧
        (∀ x, x ∈ l → x ∈ drifted ∨ x ∈ (node, want) :: zip nodes desired)
    | IndexPanic => False
    end).
  { intros d Hns Hd. specialize (IH desired d Hl). destruct (drift_loop live nodes desired d).
    - destruct IH as (? & x & ? & ? & ?). split; [done|]. exists x. set_solver.
    - destruct IH as [? Hin]. split; [by constructor|]. intros x [Hx|Hx]%Hin; set_solver.
    - done. }
  destruct (live !! node_Name node) as [l|] eqn:E.
  - destruct (diskDiff (set_Claims l) (set_Claims want)) as [shrunk changed] eqn:Hdd.
    pose proof (diskDiff_shrunk (set_Claims l) (set_Claims want)) as Hsh. rewrite Hdd in Hsh. simpl in Hsh.
    case_bool_decide as Hs.
    + split; [done|]. exists (node, want). split; [left|]. split; [done|].
      destruct (filter (claim_shrinks (index_claims (set_Claims l))) (set_Claims want)) as [|c cs] eqn:Hf;
        [by subst|].
      assert (c ∈ filter (claim_shrinks (index_claims (set_Claims l))) (set_Claims want)) as Hc
        by (rewrite Hf; left).
      apply list_elem_of_filter in Hc as [? ?]. exists l, c. done.
    + apply Hstep; [|destruct changed; set_solver].
      intros (l' & c & Hl' & Hc & Hcs). simpl in *. simplify_eq.
      assert (c ∈ filter (claim_shrinks (index_claims (set_Claims l))) (set_Claims want)) as Hin
        by by apply list_elem_of_filter.
      apply fmap_nil_inv in Hs. rewrite Hs in Hin. by apply elem_of_nil in Hin.
  - apply Hstep; [|auto]. intros (l' & c & Hl' & _). simpl in *. congruence.
Qed.

(** ** What the step may do *)

(** The cluster is whole: the contract of every voluntary disruption. *)
Definition whole (p : pass) : Prop :=
  h_notReady (p_health p) = [] ∧ cv_known (p_convergence p) = true ∧
  cv_converged (p_convergence p) = true.

Section steps.
Context {W : Type} `{!KubeClient W}.
Implicit Types s : Env W pass.

Definition may_store (p : pass) (a : action) : Prop :=
  match a with
  | ADelete KindPod _ pod orphan =>
      orphan = false ∧ ∃ name live, pod = PodName name ∧ p_live p !! name = Some live ∧
        adoptedStalePod live = true ∧ otherNodesNotReady p name = []
  | ADelete KindSet _ name orphan => orphan = true ∧ whole p ∧ name ∈ (node_Name <$> p_nodes p)
  | ADelete _ _ _ _ => False
  | AUpdatePVC _ => whole p
  | a => reporting a
  end.

Lemma resp_adopt_loop p nodes s :
  resp (env_rel (may_store p) (keeps core)) (adopt_loop p nodes) s.
Proof.
  revert s. induction nodes as [|node nodes IH]; intros s; simpl; [rsolve|].
  rsolve_all. split; [done|]. exists (node_Name node), s0.
  apply negb_false_iff in Heqb. apply bool_decide_eq_false, dec_stable in Heqb0. done.
Qed.

Lemma resp_growClaim p q node tmpl s :
  whole p → resp (env_rel (may_store p) (keeps core)) (growClaim q node tmpl) s.
Proof.
  intros Hw. unfold growClaim. rsolve_all.
Qed.

Lemma resp_expandNode p q node want s :
  whole p → node ∈ p_nodes p →
  resp (env_rel (may_store p) (keeps core)) (expandNode q node want) s.
Proof.
  intros Hw Hn. unfold expandNode, growClaims. rsolve_all; [by apply resp_growClaim|].
  split_and!; [done|done|]. by apply list_elem_of_fmap_2.
Qed.

Lemma finishAdoption_core s r s' : finishAdoption s = (r, s') → core (e_st s') = core (e_st s).
Proof.
  intros E. pose proof (resp_adopt_loop (e_st s) (p_nodes (e_st s)) s) as [_ H].
  change (adopt_loop _ _ s) with (finishAdoption s) in H. by rewrite E in H.
Qed.

Lemma may_store_core p p' a : core p' = core p → may_store p' a → may_store p a.
Proof.
  intros (_ & Hh & Hd)%core_inv. apply decided_inv in Hd as (Hi & Hc & _).
  apply inputs_inv in Hi as (_ & Hn & _ & Hl & _ & _).
  unfold may_store, whole, otherNodesNotReady. by rewrite Hh, Hc, Hl, Hn.
Qed.

(** The index of the drift loop stays in range when render has run. *)
Definition rendered (p : pass) : Prop := node_Name <$> p_nodes p = set_Name <$> desired_sets p.

Lemma rendered_length p : rendered p → length (p_nodes p) = length (desired_sets p).
Proof. intros H. by rewrite <- (length_fmap node_Name), H, length_fmap. Qed.

Lemma resp_reconcileStorage s :
  rendered (e_st s) → resp (env_rel (may_store (e_st s)) (keeps core)) reconcileStorage s.
Proof.
  intros Hr. unfold reconcileStorage. rstep; [apply resp_adopt_loop|].
  destruct a as [out|]; [rsolve|]. rstep; [rsolve|]. injection Hrun0 as <- <-. clear HR0.
  apply finishAdoption_core in Hrun as Hcore.
  pose proof (core_inv _ _ Hcore) as (_ & Hh & Hd). apply decided_inv in Hd as (Hi & Hc & _).
  apply inputs_inv in Hi as (_ & Hn & Hdes & Hl & _ & _).
  pose proof (drift_loop_spec (p_live (e_st s')) (p_nodes (e_st s')) (desired_sets (e_st s')) []) as Hdl.
  unfold desired_sets in Hdl. rewrite Hn, Hdes in Hdl. specialize (Hdl (rendered_length _ Hr)).
  unfold desired_sets. rewrite Hn, Hdes.
  destruct (drift_loop (p_live (e_st s')) _ _ _) as [node claims|l|] eqn:E; [rsolve_all| |done].
  destruct l as [|[node want] l]; [rsolve|]. destruct Hdl as [_ Hin]. rewrite Hh, Hc.
  destruct (bool_decide (h_notReady (p_health (e_st s)) ≠ [])) eqn:Hnr; [rsolve|].
  apply bool_decide_eq_false, dec_stable in Hnr.
  destruct (negb (cv_known (p_convergence (e_st s))) || negb (cv_converged (p_convergence (e_st s)))) eqn:Hcv;
    [rsolve|].
  apply orb_false_iff in Hcv as [?%negb_false_iff ?%negb_false_iff].
  apply resp_expandNode; [done|].
  destruct (Hin (node, want)) as [Hx|Hx]; [left|by apply elem_of_nil in Hx|].
  by apply elem_of_zip_l in Hx.
Qed.

(** A claim of a node's desired set was read, after [w0], and sent with the
    larger request the set declares, before [w1]. *)
Definition grows_a_claim (w0 w1 : W) (p : pass) (grown : PVC) : Prop :=
  ∃ node want tmpl pvc w, (node, want) ∈ zip (p_nodes p) (desired_sets p) ∧ tmpl ∈ set_Claims want ∧
    heard kube_step w0 w (k_getPVC (fsc_Namespace (p_cluster p)) (PVCName (pvc_Name tmpl) (node_Name node))) (Ok pvc) ∧
    set_storage pvc (pvc_Storage tmpl) = Some grown ∧ (q_nanos (pvc_Storage pvc) < q_nanos (pvc_Storage tmpl))%Z ∧
    made kube_step w w1 (k_updatePVC grown).

Definition claims_heard (w0 : W) (p : pass) (w1 : W) (a : action) : Prop :=
  match a with AUpdatePVC grown => grows_a_claim w0 w1 p grown | _ => True end.

#[local] Instance claims_heard_lasting w0 p : Lasting kube_step (claims_heard w0 p).
Proof.
  intros w w' [] Hw; simpl; auto. intros (node & want & tmpl & pvc & w1 & H & ?&?&?&?& Hm).
  exists node, want, tmpl, pvc, w1. split_and!; [done..|]. by eapply made_later.
Qed.

#[local] Instance any_pass_preorder : PreOrder (λ _ _ : pass, True).
Proof. by split. Qed.

Abbreviation growing w0 p := (timed kube_step (claims_heard w0 p) (λ _ _ : pass, True)).

Lemma timed_adopt_loop w0 p0 p nodes s : resp (growing w0 p0) (adopt_loop p nodes) s.
Proof.
  revert s. induction nodes as [|node nodes IH]; intros s; simpl; [rsolve|].
  unfold delete_ignoring_absent. tsolve.
Qed.

Lemma timed_growClaim w0 p q node want tmpl s :
  fsc_Namespace (p_cluster q) = fsc_Namespace (p_cluster p) →
  (node, want) ∈ zip (p_nodes p) (desired_sets p) → tmpl ∈ set_Claims want → later kube_step w0 (e_world s) →
  resp (growing w0 p) (growClaim q node tmpl) s.
Proof.
  intros Hq Hn Ht Hw. unfold growClaim. rstep; [rsolve|]. destruct a as [pvc|e]; [|rsolve].
  unfold try in Hrun. rewrite call_eq in Hrun. destruct (k_getPVC _ _ (e_world s)) as [r w'] eqn:E. injection Hrun as -> <-.
  tsolve. simpl. exists node, want, tmpl, pvc, w'. split_and!; [done|done| |done| |by apply made_now].
  - rewrite <- Hq. by apply (heard_now _ _ (e_world s)).
  - apply Z.leb_gt in Heqb. unfold q_Cmp in Heqb.
    by destruct (Z.compare_spec (q_nanos (pvc_Storage pvc)) (q_nanos (pvc_Storage tmpl))).
Qed.

Lemma timed_expandNode w0 p q node want s :
  fsc_Namespace (p_cluster q) = fsc_Namespace (p_cluster p) →
  (node, want) ∈ zip (p_nodes p) (desired_sets p) → later kube_step w0 (e_world s) →
  resp (growing w0 p) (expandNode q node want) s.
Proof.
  intros Hq Hn Hw. unfold expandNode, growClaims, delete_ignoring_absent. rstep; [|tsolve].
  apply resp_forM_; [apply _|]. intros tmpl s' Ht HR. apply (timed_growClaim _ _ _ _ want); [done..|].
  etrans; [exact Hw|exact (proj1 HR)].
Qed.

Lemma timed_reconcileStorage s :
  rendered (e_st s) → resp (growing (e_world s) (e_st s)) reconcileStorage s.
Proof.
  intros Hr. unfold reconcileStorage. rstep; [apply timed_adopt_loop|].
  destruct a as [out|]; [rsolve|]. rstep; [rsolve|]. injection Hrun0 as <- <-.
  apply finishAdoption_core in Hrun as Hcore.
  pose proof (core_inv _ _ Hcore) as (_ & _ & Hd). apply decided_inv in Hd as (Hi & _ & _).
  apply inputs_inv in Hi as (Hcl & Hn & Hdes & _ & _ & _).
  pose proof (drift_loop_spec (p_live (e_st s')) (p_nodes (e_st s')) (desired_sets (e_st s')) []) as Hdl.
  unfold desired_sets in Hdl. rewrite Hn, Hdes in Hdl. specialize (Hdl (rendered_length _ Hr)).
  unfold desired_sets. rewrite Hn, Hdes.
  destruct (drift_loop (p_live (e_st s')) _ _ _) as [node claims|l|] eqn:E; [unfold refuse; tsolve| |done].
  destruct l as [|[node want] l]; [rsolve|]. destruct Hdl as [_ Hin]. rstep; [rsolve|]. rstep; [rsolve|].
  apply timed_expandNode; [by rewrite Hcl| |exact (proj1 HR)].
  by destruct (Hin (node, want)) as [Hx|Hx]; [left|apply elem_of_nil in Hx|].
Qed.

(** C24: The storage step enlarges a claim, and takes a StatefulSet off its pod
    (never deleting the pod with it), only while every node serves and the
    cluster has converged; a claim it writes is one of a declared node's, read
    during the step, with the larger request its desired set declares; and it
    deletes a pod only when its StatefulSet says the pod is ready on an older
    revision and every other node serves. *)
Theorem reconcileStorage_gated s :
  rendered (e_st s) →
  let s' := (reconcileStorage s).2 in
  ∃ l, e_log s' = e_log s ++ l ∧ Forall (may_store (e_st s)) l ∧
    Forall (claims_heard (e_world s) (e_st s) (e_world s')) l ∧ core (e_st s') = core (e_st s).
Proof.
  intros Hr. destruct (resp_reconcileStorage s Hr) as [(l & Hl & Hf) Hv].
  destruct (timed_reconcileStorage s Hr) as (_ & (l' & Hl' & Hf') & _). exists l.
  rewrite Hl in Hl'. apply app_inv_head in Hl' as <-. by split_and!.
Qed.

Lemma adopt_loop_none p nodes s :
  (∀ node live, node ∈ nodes → p_live p !! node_Name node = Some live → adoptedStalePod live = false) →
  adopt_loop p nodes s = (Ok None, s).
Proof.
  induction nodes as [|node nodes IH]; intros H; simpl; [done|].
  destruct (p_live p !! node_Name node) as [live|] eqn:E; [|apply IH; set_solver].
  rewrite (H node live) by (done || left). simpl. apply IH. set_solver.
Qed.

(** C25: When a declared claim is smaller than the one a node runs with (and no
    adopted pod is left to replace), the step blocks the pass with
    [StorageShrinkForbidden] and does nothing but report it. *)
Theorem shrink_refused s x :
  let p := e_st s in
  rendered p →
  (∀ node live, node ∈ p_nodes p → p_live p !! node_Name node = Some live → adoptedStalePod live = false) →
  x ∈ zip (p_nodes p) (desired_sets p) → node_shrinks (p_live p) x →
  ∃ message,
    reconcileStorage s =
    (Ok (Block ReasonStorageShrinkForbidden),
     mkEnv (e_world s) (e_log s ++ [AEvent EventTypeWarning ReasonStorageShrinkForbidden message])
       (setCondition ConditionSpecValid ConditionFalse ReasonStorageShrinkForbidden message p)).
Proof.
  cbv zeta. intros Hr Ha Hx Hs. unfold reconcileStorage.
  assert (finishAdoption s = (Ok None, s)) as Hf by (by apply adopt_loop_none).
  rewrite (bind_Ok _ _ _ _ _ Hf). rewrite (bind_Ok _ _ _ _ _ (eq_refl : get_st s = (Ok (e_st s), s))).
  pose proof (drift_loop_spec (p_live (e_st s)) _ _ [] (rendered_length _ Hr)) as Hd.
  destruct (drift_loop _ _ _ _) as [node claims|l|]; [|exfalso|done].
  - eexists. reflexivity.
  - destruct Hd as [Hd _]. rewrite Forall_forall in Hd. by apply (Hd x).
Qed.
End steps.
