(* ===== verification/Rounds.v ===== *)
(** * The rollout over many passes (src/internal/controller/fscluster/rollout.go)

    One pass of [reconcileNodes] does little: it creates what is missing and
    replaces at most one node that serves.  Here passes follow one another: the
    StatefulSets a pass applies come up before the next pass observes them, and
    the cluster reconverges in between.  The rollout then finishes, within as
    many passes as there are outdated nodes. *)

From S2P Require Import Prelude.
From S2P Require Import Nodes.
From S2P Require Import FsClient.
From S2P Require Import Kube.
From S2P Require Import Config.
From S2P Require Import Builders.
From S2P Require Import Pass.
From S2P Require Import Status.
From S2P Require Import Rollout.
From S2P Require Import StorageStep.

(** ** What happens between passes *)

(** An applied StatefulSet once its pod runs the template it was given. *)
Definition started (set : StatefulSet) : StatefulSet :=
  mkStatefulSet (set_Kind set) (set_Name set) (set_Namespace set) (set_Labels set) (set_Annotations set)
    (set_Generation set) (set_ResourceVersion set) (set_ManagedFields set) (set_Replicas set)
    (set_ServiceName set) (set_Selector set) (set_Template set) (set_Claims set) (set_Retention set)
    (mkSetStatus (set_Generation set) 1 1).

Definition settle (sets : list StatefulSet) (live : gmap string StatefulSet) : gmap string StatefulSet :=
  foldl (λ m set, <[set_Name set := started set]> m) live sets.

(** The StatefulSet is missing, or runs another template. *)
Definition outdated (live : gmap string StatefulSet) (set : StatefulSet) : Prop :=
  match live !! set_Name set with
  | Some l => template_revision l ≠ template_revision set
  | None => True
  end.

#[global] Instance outdated_dec live set : Decision (outdated live set).
Proof. unfold outdated. destruct (live !! set_Name set); apply _. Defined.

Definition left_to_do (D : list StatefulSet) (live : gmap string StatefulSet) : nat :=
  length (filter (outdated live) D).

(** A pass that has observed [live], rendered [D] for [nodes], and found the
    cluster converged. *)
Definition sees (D : list StatefulSet) (nodes : list Node) (live : gmap string StatefulSet) (p : pass) : Prop :=
  desired_sets p = D ∧ p_nodes p = nodes ∧ p_live p = live ∧
  h_notReady (p_health p) = down_names live nodes ∧
  cv_known (p_convergence p) = true ∧ cv_converged (p_convergence p) = true.

(** No node is down for another reason than its template. *)
Definition unblocked (D : list StatefulSet) (live : gmap string StatefulSet) : Prop :=
  ∀ set, set ∈ D → outdated live set ∨ serving live (set_Name set) = true.

Section rounds.
Context {W : Type} `{!KubeClient W, !Accepting W}.
Implicit Types s : Env W pass.

(** One pass, and what comes up of what it applied. *)
Definition round s (live : gmap string StatefulSet) : gmap string StatefulSet :=
  settle (applies (drop (length (e_log s)) (e_log (reconcileNodes s).2))) live.

(** [n] passes, each on the state [mk] builds from what is live then. *)
Fixpoint rounds (mk : nat → gmap string StatefulSet → Env W pass) (n : nat)
    (live : gmap string StatefulSet) : gmap string StatefulSet :=
  match n with
  | 0 => live
  | S n' => rounds (λ k, mk (S k)) n' (round (mk 0 live) live)
  end.

(** ** One pass *)

Definition missing (p : pass) (set : StatefulSet) : Prop := p_live p !! set_Name set = None.

#[local] Instance missing_dec p set : Decision (missing p set).
Proof. unfold missing. apply _. Defined.

Lemma classify_loop_applies p desired created stale s :
  ∃ l c s', classify_loop p desired created stale s
      = (Ok (c, stale ++ filter (λ set, is_stale p set = true) desired), s') ∧
    e_log s' = e_log s ++ l ∧ e_st s' = e_st s ∧ applies l = bare <$> filter (missing p) desired.
Proof.
  revert created stale s. induction desired as [|set desired IH]; intros created stale s; simpl.
  { exists [], created, s. by rewrite !app_nil_r. }
  rewrite !filter_cons. pose proof (eq_refl (is_stale p set)) as Hst. unfold is_stale at 2 in Hst.
  destruct (p_live p !! set_Name set) as [live|] eqn:E.
  - rewrite (decide_False (P := missing p set)) by (unfold missing; congruence).
    rewrite Hst. destruct (bool_decide (template_revision live ≠ template_revision set)).
    + destruct (IH created (stale ++ [set]) s) as (l & c & s' & -> & H). exists l, c, s'.
      split; [|done]. rewrite decide_True by done. by rewrite <- app_assoc.
    + destruct (IH created stale s) as (l & c & s' & -> & H). exists l, c, s'. by rewrite decide_False.
  - rewrite (decide_True (P := missing p set)) by done. rewrite Hst, (decide_False (P := false = true)) by done.
    destruct (apply_accepted (p_cluster p) (OStatefulSet set) s) as [w Hw]. rewrite (bind_Ok _ _ _ _ _ Hw).
    match goal with |- context [classify_loop p desired _ _ ?s1] =>
      destruct (IH (S created) stale s1) as (l & c & s' & -> & Hl & Hs & Ha) end.
    eexists _, c, s'. split; [done|]. rewrite Hl. cbn [e_log]. rewrite <- app_assoc. split; [done|].
    split; [done|]. by rewrite applies_app, Ha.
Qed.

Definition touched (p : pass) : list StatefulSet :=
  filter (missing p) (desired_sets p) ++ rolled p (stale_order p).

Lemma reconcileNodes_applies s :
  ∃ l out s', reconcileNodes s = (Ok out, s') ∧ e_log s' = e_log s ++ l ∧
    applies l = bare <$> touched (e_st s).
Proof.
  unfold reconcileNodes, classify.
  destruct (classify_loop_applies (e_st s) (desired_sets (e_st s)) 0 [] s) as (l1 & c & s1 & E & Hl1 & Hs1 & Ha1).
  erewrite bind_Ok; [|erewrite bind_Ok; [|reflexivity]; erewrite bind_Ok; [|exact E]; reflexivity].
  cbn [fst snd app]. fold (stale_order (e_st s)).
  destruct (0 <? c).
  - erewrite bind_Ok; [|reflexivity].
    match goal with |- context [roll ?st ?s2] =>
      destruct (roll_applies st s2) as (l2 & out & s' & -> & Hl2 & Ha2) end.
    exists (l1 ++ [AEvent EventTypeNormal eventNodesCreating
      ("Creating " +:+ pretty c +:+ " node(s); they join the layout once they are up")] ++ l2), out, s'.
    split; [done|]. cbn [e_log e_st] in *. rewrite Hl2, Hl1, Hs1 in *. rewrite <- !app_assoc. split; [done|].
    rewrite !applies_app, Ha1, Ha2. unfold touched. by rewrite fmap_app.
  - erewrite bind_Ok; [|reflexivity].
    destruct (roll_applies (stale_order (e_st s)) s1) as (l2 & out & s' & -> & Hl2 & Ha2).
    exists (l1 ++ l2), out, s'. split; [done|]. rewrite Hl2, Hl1, Hs1 in *. rewrite <- app_assoc. split; [done|].
    rewrite applies_app, Ha1, Ha2. unfold touched. by rewrite fmap_app.
Qed.
(** *** What it touches *)

Section progress.
Context (D : list StatefulSet) (nodes : list Node) (live : gmap string StatefulSet) (p : pass).
Context (Hsees : sees D nodes live p) (Hnames : node_Name <$> nodes = set_Name <$> D).
Context (Hun : unblocked D live).

Lemma elem_of_stale_order set : set ∈ stale_order p ↔ set ∈ D ∧ is_stale p set = true.
Proof.
  destruct Hsees as (HD & _). unfold stale_order. rewrite rollOrder_perm, list_elem_of_filter, HD. tauto.
Qed.

Lemma is_stale_outdated set : is_stale p set = true → outdated live set.
Proof.
  destruct Hsees as (_ & _ & Hl & _). unfold is_stale, outdated. rewrite Hl.
  destruct (live !! set_Name set); [|done]. by rewrite bool_decide_eq_true.
Qed.

Lemma outdated_cases set : outdated live set → missing p set ∨ is_stale p set = true.
Proof.
  destruct Hsees as (_ & _ & Hl & _). unfold is_stale, outdated, missing. rewrite Hl.
  destruct (live !! set_Name set); [rewrite bool_decide_eq_true|]; auto.
Qed.

Lemma touched_outdated set : set ∈ touched p → set ∈ D ∧ outdated live set.
Proof.
  destruct Hsees as (HD & _ & Hl & _). unfold touched. rewrite HD.
  intros [[Hm Hin]%list_elem_of_filter|Hr%rolled_stale]%elem_of_app.
  - split; [done|]. unfold missing in Hm. rewrite Hl in Hm. unfold outdated. by rewrite Hm.
  - apply elem_of_stale_order in Hr as [? ?%is_stale_outdated]. done.
Qed.

Lemma down_rolls name : name ∈ h_notReady (p_health p) → ∃ set, set ∈ touched p.
Proof.
  destruct Hsees as (HD & Hn & Hl & Hnr & _). rewrite Hnr. unfold down_names.
  intros (node & -> & [Hs Hin]%list_elem_of_filter)%list_elem_of_fmap.
  assert (node_Name node ∈ set_Name <$> D) as (set & Hname & Hset)%list_elem_of_fmap
    by (rewrite <- Hnames; by apply list_elem_of_fmap_2).
  destruct (Hun set Hset) as [Ho|Ho]; [|rewrite <- Hname in Ho; congruence].
  unfold touched. destruct (outdated_cases set Ho) as [Hm|Hst].
  - exists set. apply elem_of_app. left. apply list_elem_of_filter. by rewrite HD.
  - assert (set ∈ downSets (stale_order p) (h_notReady (p_health p))) as Hd.
    { apply list_elem_of_filter. split; [|by apply elem_of_stale_order].
      rewrite Hnr, <- Hname. unfold down_names. apply list_elem_of_fmap_2, list_elem_of_filter. done. }
    unfold rolled. destruct (downSets _ _) as [|d ds]; [by apply elem_of_nil in Hd|]. exists d. set_solver.
Qed.

Lemma touched_progress set : set ∈ D → outdated live set → ∃ set', set' ∈ touched p.
Proof.
  intros Hin Ho. destruct (h_notReady (p_health p)) as [|n ns] eqn:Hnr.
  2: { apply (down_rolls n). rewrite Hnr. left. }
  destruct Hsees as (HD & _ & _ & _ & Hk & Hc). destruct (outdated_cases set Ho) as [Hm|Hst].
  { exists set. apply elem_of_app. left. apply list_elem_of_filter. by rewrite HD. }
  assert (set ∈ stale_order p) as Hs by by apply elem_of_stale_order.
  unfold touched, rolled. rewrite Hnr, Hk, Hc, bool_decide_eq_true_2 by done. cbn [andb].
  destruct (downSets _ _) as [|d ds]; [|exists d; set_solver].
  destruct (stale_order p) as [|x xs]; [by apply elem_of_nil in Hs|]. exists x. simpl. set_solver.
Qed.
End progress.

(** ** What comes up *)

Lemma settle_lookup sets live n :
  (∃ set, set ∈ sets ∧ set_Name set = n ∧ settle sets live !! n = Some (started set)) ∨
  (n ∉ set_Name <$> sets) ∧ settle sets live !! n = live !! n.
Proof.
  unfold settle. induction sets as [|x sets IH] using rev_ind; [right; split; [apply not_elem_of_nil|done]|].
  rewrite foldl_app, fmap_app. simpl. destruct (decide (set_Name x = n)) as [<-|Hne].
  - left. exists x. split; [set_solver|]. by rewrite lookup_insert_eq.
  - rewrite lookup_insert_ne by done. destruct IH as [(set & ? & ?)|[Hn ?]]; [left; exists set; set_solver|].
    right. split; [|done]. set_solver.
Qed.

Lemma serving_started set : nodeServing (started set) = true.
Proof. unfold nodeServing. simpl. by rewrite Z.leb_refl. Qed.

Lemma length_filter_le {A} (P P' : A → Prop) `{!∀ x, Decision (P x), !∀ x, Decision (P' x)} (l : list A) :
  (∀ y, y ∈ l → P' y → P y) → length (filter P' l) ≤ length (filter P l).
Proof.
  induction l as [|z l IH]; intros Hsub; [done|].
  assert (length (filter P' l) ≤ length (filter P l)) by (apply IH; set_solver).
  rewrite !filter_cons. destruct (decide (P' z)), (decide (P z)); simpl; [lia|exfalso; set_solver|lia|lia].
Qed.

Lemma length_filter_lt {A} (P P' : A → Prop) `{!∀ x, Decision (P x), !∀ x, Decision (P' x)} (l : list A) x :
  (∀ y, y ∈ l → P' y → P y) → x ∈ l → P x → ¬ P' x → length (filter P' l) < length (filter P l).
Proof.
  intros Hsub Hin Hx Hx'. induction l as [|y l IH]; [by apply elem_of_nil in Hin|].
  assert (Hle : length (filter P' l) ≤ length (filter P l)) by (apply length_filter_le; set_solver).
  rewrite !filter_cons. apply elem_of_cons in Hin as [<-|Hin].
  - destruct (decide (P' x)), (decide (P x)); simpl; [done|done|lia|done].
  - assert (length (filter P' l) < length (filter P l)) by (apply IH; [set_solver|done]).
    destruct (decide (P' y)), (decide (P y)); simpl; [lia|exfalso; set_solver|lia|lia].
Qed.

(** One round does part of what is left, and blocks nothing. *)
Lemma round_progress D nodes live s :
  sees D nodes live (e_st s) → node_Name <$> nodes = set_Name <$> D → NoDup (set_Name <$> D) →
  unblocked D live →
  unblocked D (round s live) ∧
  left_to_do D (round s live) ≤ pred (left_to_do D live).
Proof.
  intros Hsees Hnames Hnd Hun. unfold round.
  destruct (reconcileNodes_applies s) as (l & out & s' & -> & Hl & Ha). cbn [snd].
  rewrite Hl, drop_app_length, Ha. set (T := touched (e_st s)).
  assert (HT : ∀ set, set ∈ T → set ∈ D ∧ outdated live set) by by eapply touched_outdated.
  (* a set of [D] has come up, or is as it was *)
  assert (Hset : ∀ set, set ∈ D →
    settle (bare <$> T) live !! set_Name set = Some (started (bare set)) ∨
    (set ∉ T) ∧ settle (bare <$> T) live !! set_Name set = live !! set_Name set).
  { intros set Hin. destruct (settle_lookup (bare <$> T) live (set_Name set)) as [(x & Hx & Hn & ->)|[Hn ->]].
    - left. apply list_elem_of_fmap in Hx as (y & -> & Hy). simpl in Hn. do 2 f_equal.
      apply HT in Hy as [Hy _]. apply list_elem_of_lookup in Hy as [i Hi], Hin as [j Hj].
      assert (i = j) as <-; [|congruence]. eapply (NoDup_lookup _ _ _ (set_Name set) Hnd).
      + by rewrite list_lookup_fmap, Hi, <- Hn.
      + by rewrite list_lookup_fmap, Hj.
    - right. split; [|done]. intros HinT. apply Hn. rewrite <- list_fmap_compose. apply list_elem_of_fmap.
      by exists set. }
  split.
  - intros set Hin. unfold outdated, serving. destruct (Hset set Hin) as [->|[_ ->]]; [|by apply Hun].
    right. apply serving_started.
  - assert (Hsub : ∀ z, z ∈ D → outdated (settle (bare <$> T) live) z → outdated live z).
    { intros z Hz. unfold outdated. destruct (Hset z Hz) as [->|[_ ->]]; [|done]. by intros []. }
    unfold left_to_do. destruct (filter (outdated live) D) as [|x xs] eqn:E.
    { pose proof (length_filter_le _ _ D Hsub) as H. by rewrite E in H. }
    assert (x ∈ filter (outdated live) D) as [Hx Hin]%list_elem_of_filter by (rewrite E; left).
    destruct (touched_progress D nodes live (e_st s) Hsees Hnames Hun x Hin Hx) as [y Hy]. fold T in Hy.
    pose proof (HT y Hy) as [HyD Hyo]. rewrite <- E.
    enough (length (filter (outdated (settle (bare <$> T) live)) D) < length (filter (outdated live) D)) by lia.
    apply (length_filter_lt _ _ D y); [done|done|done|].
    unfold outdated. destruct (Hset y HyD) as [->|[Hny _]]; [|done]. intros Hne. by apply Hne.
Qed.

Lemma rounds_progress D nodes n live (mk : nat → gmap string StatefulSet → Env W pass) :
  (∀ k live, sees D nodes live (e_st (mk k live))) →
  node_Name <$> nodes = set_Name <$> D → NoDup (set_Name <$> D) → unblocked D live →
  unblocked D (rounds mk n live) ∧ left_to_do D (rounds mk n live) ≤ left_to_do D live - n.
Proof.
  intros Hsees Hnames Hnd. revert mk live Hsees. induction n as [|n IH]; intros mk live Hsees Hun; simpl.
  { split; [done|lia]. }
  destruct (round_progress D nodes live (mk 0 live) (Hsees 0 live) Hnames Hnd Hun) as [Hun' Hlt].
  destruct (IH (λ k, mk (S k)) (round (mk 0 live) live)) as [H1 H2]; [done|done|].
  split; [done|]. lia.
Qed.

(** C6: A rollout ends.  Starting from any state in which no node is down for
    another reason than its template, when the API server takes the writes,
    what a pass applies comes up before the next one and the cluster
    reconverges in between, [n] passes leave no node missing, outdated or down
    as soon as [n] is the number of nodes that were missing or outdated; and no
    pass of them fails. *)
Theorem rollout_terminates (D : list StatefulSet) (nodes : list Node) (live : gmap string StatefulSet)
    (mk : nat → gmap string StatefulSet → Env W pass) (n : nat) :
  (∀ k live, sees D nodes live (e_st (mk k live))) →
  node_Name <$> nodes = set_Name <$> D → NoDup (set_Name <$> D) → unblocked D live →
  left_to_do D live ≤ n →
  let live' := rounds mk n live in
  (∀ set, set ∈ D → ∃ l, live' !! set_Name set = Some l ∧ template_revision l = template_revision set) ∧
  down_names live' nodes = [] ∧
  (∀ k live, ∃ out s', reconcileNodes (mk k live) = (Ok out, s')).
Proof.
  intros Hsees Hnames Hnd Hun Hn. cbv zeta.
  destruct (rounds_progress D nodes n live mk Hsees Hnames Hnd Hun) as [Hun' Hleft].
  set (live' := rounds mk n live) in *.
  assert (Hnone : ∀ set, set ∈ D → ¬ outdated live' set).
  { intros set Hin Ho. assert (left_to_do D live' = 0) as H0 by lia.
    apply length_zero_iff_nil in H0.
    assert (set ∈ filter (outdated live') D) as H by by apply list_elem_of_filter.
    rewrite H0 in H. by apply elem_of_nil in H. }
  split_and!.
  - intros set Hin. pose proof (Hnone set Hin) as Ho. unfold outdated in Ho.
    destruct (live' !! set_Name set) as [l|]; [|by destruct Ho]. exists l. split; [done|].
    destruct (decide (template_revision l = template_revision set)); [done|by destruct Ho].
  - unfold down_names. destruct (filter _ nodes) as [|node rest] eqn:E; [done|exfalso].
    assert (node ∈ filter (λ node, serving live' (node_Name node) = false) nodes)
      as [Hs Hin]%list_elem_of_filter by (rewrite E; left).
    assert (node_Name node ∈ set_Name <$> D) as (set & Hname & Hset)%list_elem_of_fmap
      by (rewrite <- Hnames; by apply list_elem_of_fmap_2).
    destruct (Hun' set Hset) as [Ho|Ho]; [by eapply Hnone|rewrite <- Hname in Ho; congruence].
  - intros k l. destruct (reconcileNodes_applies (mk k l)) as (? & out & s' & ? & _). eauto.
Qed.
End rounds.
