(* ===== verification/Reload.v ===== *)
(** * Hot reload (src/internal/controller/fscluster/reload.go)

    A serving node on the desired pod template whose configuration is stale is
    reloaded, and counted only once it reports the desired revision. *)

From S2P Require Import Prelude.
From S2P Require Import ApiTypes.
From S2P Require Import Defaults.
From S2P Require Import Nodes.
From S2P Require Import FsClient.
From S2P Require Import Kube.
From S2P Require Import Course.
From S2P Require Import Config.
From S2P Require Import Builders.
From S2P Require Import Pipeline.
From S2P Require Import Pass.
From S2P Require Import Status.

Definition eventConfigReloaded : string := "ConfigReloaded".
Definition eventReloadFailed : string := "ReloadFailed".

Definition set_configCurrent (n : Z) (p : pass) : pass :=
  let h := p_health p in
  set_observed (p_live p)
    (mkHealth (h_ready h) (h_domains h) (h_downDomains h) (h_current h) n (h_notReady h)) p.

Section steps.
Context {W : Type} `{!KubeClient W, !Interface W}.

(** Whether the node runs the desired revision, and whether to come back.  The
    errors of the admin API are looked at here and never returned. *)
Definition reloadNode (p : pass) (index : nat) (node : Node) (token : string)
    : M (Env W pass) (bool * bool) :=
  let desired := rc_Revision (node_config p (node_Name node)) in
  match p_live p !! node_Name node with
  | None => ret (false, true)
  | Some live =>
      if negb (nodeServing live) then ret (false, true)
      else match desired_sets p !! index with
      | None => throw go_panic
      | Some want =>
          if bool_decide (template_revision live ≠ template_revision want) then ret (false, true)
          else
            let url := node_url p node in
            r ← try (call (adm_Client url token));
            match r with
            | Err _ => ret (false, true)
            | Ok _ =>
                r ← try (call (adm_Info url token));
                match r with
                | Err _ => ret (false, true)
                | Ok info =>
                    if bool_decide (info_ConfigRevision info = desired) then ret (true, false)
                    else
                      r ← try (issue (AReload url) (adm_Reload url token));
                      match r with
                      | Err e =>
                          _ ← event EventTypeWarning eventReloadFailed
                                ("Reload of node " +:+ fmt_q (node_Name node) +:+ " failed: "
                                   +:+ err_string e);
                          ret (false, true)
                      | Ok res =>
                          if bool_decide (rr_ConfigRevision res = desired) then
                            _ ← event EventTypeNormal eventConfigReloaded
                                  ("Node " +:+ fmt_q (node_Name node) +:+ " reloaded to configuration "
                                     +:+ desired);
                            ret (true, false)
                          else ret (false, true)
                      end
                end
            end
      end
  end.

Fixpoint reload_loop (p : pass) (index : nat) (nodes : list Node) (token : string)
    (configCurrent : Z) (pending : bool) : M (Env W pass) (Z * bool) :=
  match nodes with
  | [] => ret (configCurrent, pending)
  | node :: nodes' =>
      x ← reloadNode p index node token;
      let '(converged, wait) := x in
      reload_loop p (S index) nodes' token
        (if converged : bool then wrap32 (configCurrent + 1) else configCurrent) (pending || wait)
  end.

Definition reconcileReload : M (Env W pass) Outcome :=
  r ← try adminToken;
  match r with
  | Err _ => ret (RequeueAfter pollInterval "admin token unavailable")
  | Ok token =>
      p ← get_st;
      x ← reload_loop p 0 (p_nodes p) token 0 false;
      let '(configCurrent, pending) := x in
      _ ← put_st (set_configCurrent configCurrent);
      if pending : bool
      then ret (RequeueAfter pollInterval "waiting for nodes to apply the desired configuration")
      else ret Continue
  end.
End steps.

(** * Theorems *)

Section reload.
Context {W : Type} `{!KubeClient W, !Interface W}.
Implicit Types s : Env W pass.

(** A node is reloaded only while it serves the desired pod template. *)
Definition may_reload (p : pass) (a : action) : Prop :=
  match a with
  | AReload url =>
      ∃ i node live want, p_nodes p !! i = Some node ∧ url = node_url p node ∧
        p_live p !! node_Name node = Some live ∧ nodeServing live = true ∧
        desired_sets p !! i = Some want ∧ template_revision live = template_revision want
  | a => reporting a
  end.

Lemma resp_reloadNode (Q : relation pass) `{!PreOrder Q} p i node token s :
  p_nodes p !! i = Some node →
  resp (env_rel (may_reload p) Q) (reloadNode p i node token) s.
Proof.
  intros Hn. unfold reloadNode. rsolve_all.
  apply negb_false_iff in Heqb. apply bool_decide_eq_false, dec_stable in Heqb0.
  exists i, node, s0, s1. done.
Qed.

Lemma resp_reload_loop (Q : relation pass) `{!PreOrder Q} p i nodes token c b s :
  (∀ j node, nodes !! j = Some node → p_nodes p !! (i + j) = Some node) →
  resp (env_rel (may_reload p) Q) (reload_loop p i nodes token c b) s.
Proof.
  revert i c b s. induction nodes as [|node nodes IH]; intros i c b s Hn; simpl; [rsolve|].
  rstep.
  - apply resp_reloadNode; [apply _|]. specialize (Hn 0 node eq_refl). by rewrite Nat.add_0_r in Hn.
  - destruct a. apply IH. intros j node' Hj. rewrite <- (Hn (S j) node' Hj). f_equal. lia.
Qed.

(** Every step but this one leaves the count; this one leaves the rest. *)
Lemma resp_reconcileReload s :
  resp (env_rel (may_reload (e_st s)) (keeps (λ p, (p_object p, decided p)))) reconcileReload s.
Proof.
  unfold reconcileReload. rstep; [rsolve|]. destruct a as [token|e]; [|rsolve].
  pose proof (adminToken_state s) as Ht. unfold try in Hrun. destruct (adminToken s) as [r s1].
  injection Hrun as -> <-. simpl in Ht. rstep; [rsolve|]. injection Hrun as <- <-. rewrite Ht.
  rsolve_all. by apply resp_reload_loop; [apply _|].
Qed.

(** A node that may be asked: it serves the desired pod template. *)
Definition askable (p : pass) (i : nat) (node : Node) : Prop :=
  ∃ live want, p_live p !! node_Name node = Some live ∧ nodeServing live = true ∧
    desired_sets p !! i = Some want ∧ template_revision live = template_revision want.

(** What became of a node between two worlds, and whether it counts: it was not
    asked, or did not answer, or answered what it runs, when asked and, if that
    was not the desired revision, when reloaded. *)
Inductive node_verdict (w0 w1 : W) (p : pass) (token : string) (i : nat) (node : Node) : bool → Prop :=
  | nv_absent : p_live p !! node_Name node = None → node_verdict w0 w1 p token i node false
  | nv_down live : p_live p !! node_Name node = Some live → nodeServing live = false →
      node_verdict w0 w1 p token i node false
  | nv_stale live want : p_live p !! node_Name node = Some live → desired_sets p !! i = Some want →
      template_revision live ≠ template_revision want → node_verdict w0 w1 p token i node false
  | nv_unreachable e : heard pass_step w0 w1 (adm_Client (node_url p node) token) (Err e) →
      node_verdict w0 w1 p token i node false
  | nv_silent e : heard pass_step w0 w1 (adm_Info (node_url p node) token) (Err e) →
      node_verdict w0 w1 p token i node false
  | nv_current info : askable p i node → heard pass_step w0 w1 (adm_Info (node_url p node) token) (Ok info) →
      info_ConfigRevision info = rc_Revision (node_config p (node_Name node)) →
      node_verdict w0 w1 p token i node true
  | nv_refused w info e : heard pass_step w0 w (adm_Info (node_url p node) token) (Ok info) →
      info_ConfigRevision info ≠ rc_Revision (node_config p (node_Name node)) →
      heard pass_step w w1 (adm_Reload (node_url p node) token) (Err e) →
      node_verdict w0 w1 p token i node false
  | nv_reloaded w info res : askable p i node → heard pass_step w0 w (adm_Info (node_url p node) token) (Ok info) →
      info_ConfigRevision info ≠ rc_Revision (node_config p (node_Name node)) →
      heard pass_step w w1 (adm_Reload (node_url p node) token) (Ok res) →
      node_verdict w0 w1 p token i node
        (bool_decide (rr_ConfigRevision res = rc_Revision (node_config p (node_Name node)))).

Lemma verdict_within w0 w1 w2 w3 p token i node v :
  later pass_step w0 w1 → node_verdict w1 w2 p token i node v → later pass_step w2 w3 →
  node_verdict w0 w3 p token i node v.
Proof.
  intros H1 Hv H2.
  assert (∀ {A} (m : M W A) r, heard pass_step w1 w2 m r → heard pass_step w0 w3 m r) as Hh
    by (intros A m r H; exact (heard_later _ _ _ _ _ _ (heard_earlier _ _ _ _ _ _ H1 H) H2)).
  destruct Hv as [|live|live want|e|e|info|w info e|w info res];
    [by apply nv_absent|by eapply nv_down|by eapply nv_stale|eapply nv_unreachable; eauto|eapply nv_silent; eauto
    |eapply nv_current; eauto| |].
  - apply (nv_refused _ _ _ _ _ _ w info e); [by apply (heard_earlier _ w0 w1)|done|by apply (heard_later _ w w2)].
  - apply (nv_reloaded _ _ _ _ _ _ w info); [done|by apply (heard_earlier _ w0 w1)|done|by apply (heard_later _ w w2)].
Qed.

(** A node converges or is waited for, as its verdict says. *)
Lemma reloadNode_verdict p i node token s c w s' :
  reloadNode p i node token s = (Ok (c, w), s') →
  w = negb c ∧ node_verdict (e_world s) (e_world s') p token i node c.
Proof.
  unfold reloadNode, issue, event, emit, call. msimpl.
  destruct (p_live p !! _) as [live|] eqn:El; [|intros; simplify_eq/=; split; [done|by apply nv_absent]].
  destruct (nodeServing live) eqn:Es; simpl; [|intros; simplify_eq/=; split; [done|by eapply nv_down]].
  destruct (desired_sets p !! i) as [want|] eqn:Ed; [|done].
  case_bool_decide as Ht; [intros; simplify_eq/=; split; [done|by eapply nv_stale]|].
  assert (askable p i node) as Hask by (exists live, want; by split_and!).
  destruct (adm_Client _ _ _) as [[[]|e] w1] eqn:Hc; simpl; pose proof (call_later pass_step Hc) as Hw1.
  2: { intros; simplify_eq/=. split; [done|]. eapply nv_unreachable. by apply (heard_now _ _ (e_world s)). }
  destruct (adm_Info _ _ _) as [[info|e] w2] eqn:Hinfo; simpl;
    pose proof (heard_now pass_step (e_world s) w1 w2 _ _ Hw1 Hinfo) as Hh.
  2: { intros; simplify_eq/=. split; [done|]. by eapply nv_silent. }
  case_bool_decide; [intros; simplify_eq/=; split; [done|]; by eapply nv_current|]. simpl.
  destruct (adm_Reload _ _ _) as [[res|e] w3] eqn:Hres; simpl.
  2: { intros; simplify_eq/=. split; [done|]. eapply nv_refused; [done..|]. by apply (heard_now _ _ w2). }
  pose proof (nv_reloaded (e_world s) w3 p token i node w2 info res Hask Hh) as Hv.
  assert (heard pass_step w2 w3 (adm_Reload (node_url p node) token) (Ok res)) as Hr by by apply (heard_now _ _ w2).
  case_bool_decide; intros; simplify_eq/=; (split; [done|by apply Hv]).
Qed.

Lemma timed_reloadNode p i node token s :
  resp (timed pass_step (λ _ _, True) eq) (reloadNode p i node token) s.
Proof. unfold reloadNode. tsolve. Qed.

Definition counted (verdicts : list bool) : nat := length (filter (λ v, v = true) verdicts).

(** The loop reaches a verdict on every node, counts the good ones, and something
    is pending exactly when there is a bad one. *)
Lemma reload_loop_count p i nodes token c b s c' b' s' :
  reload_loop p i nodes token c b s = (Ok (c', b'), s') →
  later pass_step (e_world s) (e_world s') ∧
  ∃ vs, length vs = length nodes ∧
    (∀ j node v, nodes !! j = Some node → vs !! j = Some v →
       node_verdict (e_world s) (e_world s') p token (i + j) node v) ∧
    wrap32 c' = wrap32 (c + Z.of_nat (counted vs)) ∧ (in_int32 c → in_int32 c') ∧
    b' = b || negb (forallb id vs).
Proof.
  revert i c b s. induction nodes as [|node nodes IH]; intros i c b s; simpl.
  { intros H. injection H as <- <- <-. split; [reflexivity|]. exists []. by rewrite Z.add_0_r, orb_false_r. }
  unfold mbind, M_bind. destruct (reloadNode p i node token s) as [[[conv wait]|e] s1] eqn:E; [|done].
  pose proof (timed_later _ _ _ _ _ _ _ (timed_reloadNode p i node token s) E) as Hw1.
  intros (Hw2 & vs & Hlen & Hvs & Hc & Hi & Hb)%IH. apply reloadNode_verdict in E as [-> Hv].
  split; [by etrans|]. exists (conv :: vs). split; [simpl; by rewrite Hlen|]. split; [|split; [|split]].
  - intros [|j] node' v Hn Hj; simplify_eq/=.
    + rewrite Nat.add_0_r. by eapply verdict_within; [reflexivity|exact Hv|].
    + rewrite Nat.add_succ_r, <- Nat.add_succ_l. eapply verdict_within; [exact Hw1|by apply Hvs|reflexivity].
  - rewrite Hc. unfold counted. rewrite filter_cons. destruct conv; simpl; [|done].
    by rewrite wrap32_add, <- Z.add_assoc, Nat2Z.inj_succ, <- Z.add_1_l.
  - destruct conv; [intros _; apply Hi, wrap32_range|done].
  - rewrite Hb. destruct conv, b; done.
Qed.

Lemma forallb_counted vs : forallb id vs = bool_decide (Forall (λ v, v = true) vs).
Proof.
  induction vs as [|[] vs IH]; [done| |]; cbn [forallb id andb].
  - rewrite IH. apply bool_decide_ext. rewrite Forall_cons. naive_solver.
  - symmetry. apply bool_decide_eq_false_2. by intros [? _]%Forall_cons.
Qed.

(** C26: With the admin token at hand, the step reaches a verdict on every node of
    the pass and counts exactly the good ones.  A verdict is good when the node
    serves the desired pod template and, asked with that token or then reloaded
    with it during the step, reported the desired configuration revision itself;
    it is bad only when the node has no StatefulSet, does not serve, runs another
    pod template, could not be asked, failed to answer, or reported another
    revision even after a reload or a failed one.  The step asks to come back
    exactly when some verdict is bad.  (The count is exact: a topology has far
    fewer than 2^31 nodes.) *)
Theorem reload_counts_confirmed s token s1 out s' :
  adminToken s = (Ok token, s1) → reconcileReload s = (Ok out, s') →
  (Z.of_nat (length (p_nodes (e_st s))) < 2 ^ 31)%Z →
  ∃ verdicts, length verdicts = length (p_nodes (e_st s)) ∧
    (∀ i node v, p_nodes (e_st s) !! i = Some node → verdicts !! i = Some v →
       node_verdict (e_world s1) (e_world s') (e_st s) token i node v) ∧
    h_configCurrent (p_health (e_st s')) = Z.of_nat (counted verdicts) ∧
    (out = Continue ↔ Forall (λ v, v = true) verdicts).
Proof.
  intros Ht Hrun Hlen. pose proof (adminToken_state s) as Hst. rewrite Ht in Hst. simpl in Hst.
  unfold reconcileReload in Hrun. erewrite bind_Ok in Hrun by (unfold try; rewrite Ht; reflexivity).
  cbv beta iota in Hrun.
  rewrite (bind_Ok _ _ _ _ _ (eq_refl : get_st s1 = (Ok (e_st s1), s1))) in Hrun. rewrite Hst in Hrun.
  unfold mbind at 1, M_bind at 1 in Hrun.
  destruct (reload_loop _ _ _ _ _ _ s1) as [[[c b]|e] s2] eqn:E; [|done].
  apply reload_loop_count in E as (_ & vs & Hvl & Hvs & Hc & Hi & Hb). exists vs.
  pose proof (length_filter (λ v, v = true) vs) as Hle. fold (counted vs) in Hle.
  rewrite Z.add_0_l, (wrap32_id (Z.of_nat (counted vs))), (wrap32_id c) in Hc
    by (unfold in_int32; lia || by apply Hi).
  unfold put_st in Hrun. revert Hrun. msimpl. simpl in Hb. rewrite forallb_counted in Hb.
  case_bool_decide as Hall; subst b; simpl; intros Hrun; simplify_eq/=; by split_and!.
Qed.
End reload.
