(* ===== verification/Controller.v ===== *)
(** * The FSCluster controller (src/internal/controller/fscluster/controller.go,
      with the steps of networkpolicy.go and podmonitor.go)

    The remaining steps, the pipeline that composes all of them, and
    [Reconcile]. *)

From S2P Require Import Prelude.
From S2P Require Import ApiTypes.
From S2P Require Import Defaults.
From S2P Require Import Nodes.
From S2P Require Import Validation.
From S2P Require Import FsClient.
From S2P Require Import Kube.
From S2P Require Import Course.
From S2P Require Import KeyGen.
From S2P Require Import Config.
From S2P Require Import Builders.
From S2P Require Import Pipeline.
From S2P Require Import Pass.
From S2P Require Import Status.
From S2P Require Import Convergence.
From S2P Require Import Rollout.
From S2P Require Import LayoutStep.
From S2P Require Import Decommission.
From S2P Require Import StorageStep.
From S2P Require Import Reload.

Definition eventPodMonitorUnavailable : string := "PodMonitorUnavailable".

Section steps.
Context {W : Type} `{!KubeClient W, !Interface W, !Codec}.

(** The fields of [Reconciler] that are configuration. *)
Context (OperatorNamespace FSImageRegistry : string).

(** ** Validation and secrets *)

Definition validate : M (Env W pass) Outcome :=
  p ← get_st;
  let spec := fsc_Spec (p_cluster p) in
  order ← mapOrder;
  match Cluster order spec with
  | Some failure => refuse (f_Reason failure) (f_Message failure)
  | None =>
      _ ← forM_ (ClusterWarnings spec) (event EventTypeWarning ReasonUnsupportedTopology);
      _ ← put_st (setCondition ConditionSpecValid ConditionTrue ReasonSpecValid
            "Spec passes cross-field validation");
      ret Continue
  end.

(** The first of the keys a Secret has nothing under. *)
Definition missingKey (secret : Secret) (keys : list string) : option string :=
  head (filter (λ key, default "" (sec_Data secret !! key) = "") keys).

Definition requireSecret (p : pass) (name : string) (keys : list string) : M (Env W pass) Outcome :=
  r ← try (call (k_getSecret (fsc_Namespace (p_cluster p)) name));
  match r with
  | Err e =>
      if IsNotFound e then refuse ReasonSecretNotFound ("Secret " +:+ fmt_q name +:+ " does not exist")
      else throw (ErrWrap ("get secret " +:+ fmt_q name) e)
  | Ok secret =>
      match missingKey secret keys with
      | Some key => refuse ReasonSecretInvalid
                      ("Secret " +:+ fmt_q name +:+ " has no " +:+ fmt_q key)
      | None => ret Continue
      end
  end.

Definition generateSecret (p : pass) (skip : bool) (build : FSCluster → M (Env W pass) Secret)
    : M (Env W pass) unit :=
  if skip then ret tt
  else
    object ← build (p_cluster p);
    createOnce (p_cluster p) (OSecret object).

Definition reconcileSecrets : M (Env W pass) Outcome :=
  p ← get_st;
  let spec := fsc_Spec (p_cluster p) in
  _ ← generateSecret p (bool_decide (ClusterSecretRef spec ≠ None)) NewClusterSecret;
  _ ← generateSecret p (bool_decide (RootCredentialsSecretRef (Auth spec) ≠ None))
        NewRootCredentialsSecret;
  _ ← generateSecret p false NewAdminTokenSecret;
  outcome ← requireSecret p (ClusterSecretSource (p_cluster p)) [ClusterSecretKey];
  if Blocked outcome then ret outcome
  else
    outcome ← requireSecret p (RootCredentialsSource (p_cluster p)) [AccessKeyKey; SecretKeyKey];
    if Blocked outcome then ret outcome else ret Continue.

Definition reconcileServices : M (Env W pass) Outcome :=
  p ← get_st;
  _ ← forM_ [OService (NewPeersService (p_cluster p)); OService (NewClientService (p_cluster p))]
        (apply (p_cluster p));
  ret Continue.

(** ** Rendering *)

(** The StatefulSet a node should run. *)
Definition desiredSet (p : pass) (node : Node) (revision : string) : result StatefulSet :=
  match p_decommission p !! node_Name node with
  | Some set => keptStatefulSet set
  | None => stampTemplateRevision (NewStatefulSet (p_cluster p) node revision)
  end.

Fixpoint render_nodes (p : pass) (nodes : list Node) (opts : RenderOptions)
    (restarts : gmap string string) (desired : list StatefulSet)
    : result (gmap string string * list StatefulSet) :=
  match nodes with
  | [] => Ok (restarts, desired)
  | node :: nodes' =>
      revision ← RestartRevision (p_cluster p) node opts;
      set ← desiredSet p node revision;
      render_nodes p nodes' opts (<[node_Name node := revision]> restarts) (desired ++ [set])
  end.

Definition render : M (Env W pass) Outcome :=
  p ← get_st;
  keys ← collectAccessKeys (p_cluster p);
  let opts := mkRenderOptions keys in
  configs ← lift (RenderNodeConfigs (p_cluster p) (p_nodes p) opts ∅);
  x ← lift (render_nodes p (p_nodes p) opts ∅ []);
  let '(restarts, desired) := x in
  templateRevision ← lift (PodTemplateRevision desired);
  _ ← put_st (set_rendered configs restarts desired templateRevision);
  ret Continue.

Definition reconcileNodeConfigs : M (Env W pass) Outcome :=
  p ← get_st;
  _ ← forM_ (p_nodes p) (λ node,
        apply (p_cluster p)
          (OSecret (NewNodeConfigSecret (p_cluster p) node (node_config p (node_Name node)))));
  ret Continue.

(** ** Budget, NetworkPolicy, PodMonitor *)

Definition reconcileBudget : M (Env W pass) Outcome :=
  p ← get_st;
  _ ← apply (p_cluster p) (OBudget (NewPodDisruptionBudget (p_cluster p)));
  ret Continue.

Definition deleteIfExists (k : kind) (kindName namespace name : string) : M (Env W pass) unit :=
  delete_ignoring_absent k namespace name false ("delete " +:+ kindName +:+ " " +:+ fmt_q name).

Definition reconcileNetworkPolicy : M (Env W pass) Outcome :=
  p ← get_st;
  let policy := NewNetworkPolicy (p_cluster p) OperatorNamespace in
  if negb (spec_NetworkPolicy (fsc_Spec (p_cluster p))) then
    _ ← deleteIfExists KindPolicy "NetworkPolicy" (np_Namespace policy) (np_Name policy);
    ret Continue
  else
    _ ← apply (p_cluster p) (OPolicy policy);
    ret Continue.

Definition podMonitorAvailable : M (Env W pass) bool :=
  r ← try (call k_podMonitorMapped);
  match r with Err _ => ret false | Ok _ => ret true end.

Definition reconcilePodMonitor : M (Env W pass) Outcome :=
  p ← get_st;
  let wanted := PodMonitor (Observability (fsc_Spec (p_cluster p))) in
  available ← podMonitorAvailable;
  if negb available then
    _ ← (if wanted : bool
         then event EventTypeWarning eventPodMonitorUnavailable
           "observability.podMonitor is set but the monitoring.coreos.com CRDs are not installed"
         else ret tt);
    ret Continue
  else
    let monitor := NewPodMonitor (p_cluster p) in
    if negb wanted then
      _ ← deleteIfExists KindMonitor "PodMonitor" (pm_Namespace monitor) (pm_Name monitor);
      ret Continue
    else
      _ ← apply (p_cluster p) (OMonitor monitor);
      ret Continue.

(** ** The pipeline *)

Definition steps_before_nodes : list (Step (Env W pass)) :=
  [step_of "validate" false validate;
   step_of "decommission" false planDecommission;
   step_of "render" false render;
   step_of "observe" true observe;
   step_of "secrets" false reconcileSecrets;
   step_of "services" false reconcileServices;
   step_of "configs" false reconcileNodeConfigs;
   step_of "convergence" false gatherConvergence;
   step_of "storage" false reconcileStorage].

Definition steps_after_drain : list (Step (Env W pass)) :=
  [step_of "reload" false reconcileReload;
   step_of "budget" false reconcileBudget;
   step_of "networkpolicy" false reconcileNetworkPolicy;
   step_of "podmonitor" false reconcilePodMonitor;
   step_of "status" true reconcileStatus].

Definition pipeline : list (Step (Env W pass)) :=
  steps_before_nodes
  ++ [step_of "nodes" false reconcileNodes;
      step_of "layout" false reconcileLayout;
      step_of "drain" false reconcileDecommission]
  ++ steps_after_drain.

(** ** Reconcile *)

(** [Run] on the state of a fresh pass, from a world and a log. *)
Definition run_pass (object : FSCluster) (w : W) (log : list action) : result Z * Env W pass :=
  Run env_RecordFailure pipeline (mkEnv w log (newPass object FSImageRegistry)).

(** The requeue delay a reconcile answers with, and the world and log it
    leaves.  An object that is gone, or going, is forgotten. *)
Definition Reconcile (namespace name : string) (w : W) : result Z * (W * list action) :=
  match k_getCluster namespace name w with
  | (Err e, w) =>
      if IsNotFound e then (Ok 0%Z, (w, [AForget namespace name])) else (Err e, (w, []))
  | (Ok object, w) =>
      if fsc_Deleting object then
        (Ok 0%Z, (w, [AForget (fsc_Namespace object) (fsc_Name object)]))
      else
        let '(r, s) := run_pass object w [] in
        let r := match r with
                 | Ok after => Ok (if (after =? 0)%Z then resyncInterval else after)
                 | Err e => Err e
                 end in
        (r, (e_world s, e_log s))
  end.

(** The watch on access keys: the cluster a key belongs to. *)
Definition accessKeyToCluster (key : FSAccessKey) : list (string * string) :=
  if bool_decide (ref_Name (ks_ClusterRef (ak_Spec key)) = "") then []
  else [(ak_Namespace key, ref_Name (ks_ClusterRef (ak_Spec key)))].
End steps.

(** * Theorems: what each step does *)

(** Actions that touch no node: no StatefulSet, pod, claim, layout or running
    configuration. *)
Definition benign (a : action) : Prop :=
  match a with
  | AApply (OStatefulSet _) | ADelete KindSet _ _ _ | ADelete KindPod _ _ _ | ADelete KindSecret _ _ _
  | AUpdatePVC _ | AApplyLayout _ _ _ | AReload _ => False
  | _ => True
  end.

Lemma reporting_benign a : reporting a → benign a.
Proof. by destruct a. Qed.

Section frame.
Context {W : Type} `{!KubeClient W, !Interface W} {CD : Codec} (OperatorNamespace : string).
Implicit Types s : Env W pass.

Lemma resp_validate s : resp (env_rel reporting (keeps core)) validate s.
Proof. unfold validate. rsolve_all. Qed.

Lemma resp_collectAccessKeys (φ : action → Prop) (Q : relation pass) `{!PreOrder Q} c s :
  resp (env_rel φ Q) (collectAccessKeys c) s.
Proof.
  unfold collectAccessKeys. rsolve. revert s' Hrun HR. generalize a as items. intros items.
  assert (∀ s, resp (env_rel φ Q) (resolveKeys c items) s); [|auto].
  induction items as [|ak items IH]; intros s1; simpl; [rsolve|].
  rstep; [unfold resolveKey; rsolve|]. rsolve.
Qed.

Lemma resp_render (φ : action → Prop) s :
  resp (env_rel φ (keeps (λ p, (p_object p, p_cluster p, p_nodes p, p_live p, p_health p,
    p_convergence p, p_decommission p, p_layoutApplied p)))) render s.
Proof. unfold render. rsolve_all. apply resp_collectAccessKeys, _. Qed.

Definition creates_secret (a : action) : Prop :=
  match a with ACreate (OSecret _) => True | a => reporting a end.

Lemma resp_requireSecret φ p name keys s :
  (∀ t r m, φ (AEvent t r m)) → resp (env_rel φ (keeps core)) (requireSecret p name keys) s.
Proof. intros. unfold requireSecret. rsolve_all. Qed.

Lemma resp_reconcileSecrets s : resp (env_rel creates_secret (keeps core)) reconcileSecrets s.
Proof.
  unfold reconcileSecrets, generateSecret, NewClusterSecret, NewRootCredentialsSecret, NewAdminTokenSecret,
    keygen_Token, keygen_AccessKey.
  rsolve_all; by apply resp_requireSecret.
Qed.

Lemma resp_reconcileServices s : resp (env_rel benign (keeps core)) reconcileServices s.
Proof.
  unfold reconcileServices. rsolve_all.
  apply elem_of_cons in Hx as [->|Hx]; [done|]. by apply list_elem_of_singleton in Hx as ->.
Qed.

Lemma resp_reconcileNodeConfigs s : resp (env_rel benign (keeps core)) reconcileNodeConfigs s.
Proof. unfold reconcileNodeConfigs. rsolve_all. Qed.

Lemma resp_reconcileBudget s : resp (env_rel benign (keeps core)) reconcileBudget s.
Proof. unfold reconcileBudget. rsolve_all. Qed.

Lemma resp_reconcileNetworkPolicy s :
  resp (env_rel benign (keeps core)) (reconcileNetworkPolicy OperatorNamespace) s.
Proof. unfold reconcileNetworkPolicy, deleteIfExists. rsolve_all. Qed.

Lemma resp_reconcilePodMonitor s : resp (env_rel benign (keeps core)) reconcilePodMonitor s.
Proof. unfold reconcilePodMonitor, podMonitorAvailable, deleteIfExists. rsolve_all. Qed.

(** ** Rendering names the sets after the nodes *)

Lemma stampTemplateRevision_name set set' : stampTemplateRevision set = Ok set' → set_Name set' = set_Name set.
Proof.
  unfold stampTemplateRevision. destruct (TemplateRevision set); simpl; intros; by simplify_eq.
Qed.

Lemma desiredSet_name p node revision set :
  removed_ok [] (p_decommission p) → desiredSet p node revision = Ok set → set_Name set = node_Name node.
Proof.
  intros Hok. unfold desiredSet. destruct (p_decommission p !! node_Name node) as [live|] eqn:E.
  - intros H. apply stampTemplateRevision_name in H as ->. by apply Hok in E as [? _].
  - intros H. by apply stampTemplateRevision_name in H as ->.
Qed.

Lemma render_nodes_names p nodes opts restarts desired restarts' desired' :
  removed_ok [] (p_decommission p) →
  render_nodes p nodes opts restarts desired = Ok (restarts', desired') →
  set_Name <$> desired' = (set_Name <$> desired) ++ (node_Name <$> nodes).
Proof.
  intros Hok. revert restarts desired. induction nodes as [|node nodes IH]; intros restarts desired; simpl.
  { intros H. injection H as _ <-. by rewrite app_nil_r. }
  destruct (RestartRevision _ _ _) as [revision|]; simpl; [|done].
  destruct (desiredSet p node revision) as [set|] eqn:E; simpl; [|done]. intros ->%IH.
  rewrite fmap_app, <- app_assoc. simpl. by rewrite (desiredSet_name p node revision set).
Qed.

Lemma render_rendered s out s' :
  removed_ok [] (p_decommission (e_st s)) → render s = (Ok out, s') → rendered (e_st s').
Proof.
  intros Hok. unfold render, get_st, put_st. msimpl.
  pose proof (resp_collectAccessKeys (λ _, True) (keeps id) (p_cluster (e_st s)) s) as [_ Hk].
  destruct (collectAccessKeys _ s) as [[keys|e] s1]; [|done]. unfold st_rel, keeps in Hk. simpl in *.
  destruct (RenderNodeConfigs _ _ _ _) as [configs|]; [|done].
  destruct (render_nodes _ _ _ _ _) as [[restarts desired]|] eqn:E; [|done].
  destruct (PodTemplateRevision desired); [|done]. intros H. injection H as <- <-.
  apply render_nodes_names in E; [|done]. unfold rendered, desired_sets. simpl.
  rewrite Hk. symmetry. exact E.
Qed.

(** ** Validation here and at admission *)

(** No check reads the image, which is all the registry rewrite changes. *)
Lemma Cluster_with_defaults order (object : FSCluster) registry :
  Cluster order (fsc_Spec (with_defaults object registry)) = Cluster order (defaulted object).
Proof. reflexivity. Qed.

Lemma forM_event (l : list string) t reason s :
  forM_ l (event t reason) s
  = (Ok tt, mkEnv (e_world s) (e_log s ++ (AEvent t reason <$> l)) (e_st s)).
Proof.
  revert s. induction l as [|x l IH]; intros s; simpl; [by rewrite app_nil_r; destruct s|].
  rewrite (bind_Ok _ _ _ _ _ (eq_refl : event t reason x s
    = (Ok tt, mkEnv (e_world s) (e_log s ++ [AEvent t reason x]) (e_st s)))).
  rewrite IH. simpl. by rewrite <- app_assoc.
Qed.

(** Validation draws the orders of its ranges, and decides. *)
Lemma validate_eq s :
  ∃ order w, validate s =
    match Cluster order (fsc_Spec (p_cluster (e_st s))) with
    | Some f => refuse (f_Reason f) (f_Message f) (mkEnv w (e_log s) (e_st s))
    | None =>
        (Ok Continue, mkEnv w
           (e_log s ++ (AEvent EventTypeWarning ReasonUnsupportedTopology <$>
              ClusterWarnings (fsc_Spec (p_cluster (e_st s)))))
           (setCondition ConditionSpecValid ConditionTrue ReasonSpecValid
              "Spec passes cross-field validation" (e_st s)))
    end.
Proof.
  destruct (mapOrder_eq s) as (order & w & Eo). exists order, w. unfold validate.
  rewrite (bind_Ok _ _ _ _ _ (eq_refl : get_st s = (Ok (e_st s), s))).
  rewrite (bind_Ok _ _ _ _ _ Eo). destruct (Cluster order _); [done|].
  by rewrite (bind_Ok _ _ _ _ _ (forM_event _ _ _ _)).
Qed.


(** ** Secrets *)

#[local] Instance any_pass_preorder : PreOrder (λ _ _ : pass, True).
Proof. by split. Qed.

Abbreviation passing := (timed pass_step (λ _ _, True) (λ _ _ : pass, True)).

Lemma timed_generateSecret p skip build s :
  (∀ s, resp passing (build (p_cluster p)) s) → resp passing (generateSecret p skip build) s.
Proof. intros Hb. unfold generateSecret, createOnce. tsolve; auto. Qed.

Lemma timed_requireSecret p name keys s : resp passing (requireSecret p name keys) s.
Proof. unfold requireSecret, refuse. tsolve. Qed.

(** The step goes on past a required Secret only when it was read, with its
    keys. *)
Lemma requireSecret_present p name keys s out s' :
  requireSecret p name keys s = (Ok out, s') → Blocked out = false →
  ∃ secret, heard pass_step (e_world s) (e_world s') (k_getSecret (fsc_Namespace (p_cluster p)) name) (Ok secret) ∧
    Forall (λ key, default "" (sec_Data secret !! key) ≠ "") keys.
Proof.
  unfold requireSecret, mbind, M_bind, try. rewrite call_eq.
  destruct (k_getSecret _ _ (e_world s)) as [[secret|e] w'] eqn:E; simpl.
  - destruct (missingKey secret keys) as [key|] eqn:Hm; [by unfold refuse, put_st, event, emit; msimpl; intros; simplify_eq/=|].
    intros [= <- <-] _. exists secret. split; [by apply (heard_now _ _ (e_world s))|]. apply Forall_forall. intros key Hk Hempty.
    unfold missingKey in Hm.
    assert (key ∈ filter (λ key, default "" (sec_Data secret !! key) = "") keys) as Hin
      by by apply list_elem_of_filter.
    destruct (filter _ keys); [by apply elem_of_nil in Hin|done].
  - destruct (IsNotFound e); [|done]. by unfold refuse, put_st, event, emit; msimpl; intros; simplify_eq/=.
Qed.

(** C31: The secrets step only ever creates Secrets (an existing one is left as
    it is, never rewritten), and lets the pass go on only after it read both the
    cluster secret and the root credentials, with the keys fs reads, whatever it
    created before. *)
Theorem reconcileSecrets_spec s :
  let p := e_st s in
  (∃ l, e_log (reconcileSecrets s).2 = e_log s ++ l ∧ Forall creates_secret l ∧
     core (e_st (reconcileSecrets s).2) = core p) ∧
  (∀ out s', reconcileSecrets s = (Ok out, s') → Blocked out = false →
     ∃ w cluster root,
       heard pass_step (e_world s) w
         (k_getSecret (fsc_Namespace (p_cluster p)) (ClusterSecretSource (p_cluster p))) (Ok cluster) ∧
       heard pass_step w (e_world s')
         (k_getSecret (fsc_Namespace (p_cluster p)) (RootCredentialsSource (p_cluster p))) (Ok root) ∧
       default "" (sec_Data cluster !! ClusterSecretKey) ≠ "" ∧
       default "" (sec_Data root !! AccessKeyKey) ≠ "" ∧ default "" (sec_Data root !! SecretKeyKey) ≠ "").
Proof.
  cbv zeta. split.
  { destruct (resp_reconcileSecrets s) as [(l & Hl & Hf) Hs]. by exists l. }
  intros out s' Hrun Hb. unfold reconcileSecrets in Hrun.
  rewrite (bind_Ok _ _ _ _ _ (eq_refl : get_st s = (Ok (e_st s), s))) in Hrun. revert Hrun.
  unfold mbind, M_bind.
  destruct (generateSecret _ _ NewClusterSecret s) as [[[]|e] s1] eqn:G1; [|done].
  destruct (generateSecret _ _ NewRootCredentialsSecret s1) as [[[]|e] s2] eqn:G2; [|done].
  destruct (generateSecret _ _ NewAdminTokenSecret s2) as [[[]|e] s3] eqn:G3; [|done].
  apply (timed_later pass_step (λ _ _, True) (λ _ _, True)) in G1, G2, G3;
    try (apply timed_generateSecret; intros s0;
         unfold NewClusterSecret, NewRootCredentialsSecret, NewAdminTokenSecret, keygen_Token, keygen_AccessKey; tsolve).
  destruct (requireSecret _ _ _ s3) as [[o1|e] s4] eqn:E1; [|done].
  destruct (Blocked o1) eqn:B1; [intros H; injection H as <- _; congruence|].
  destruct (requireSecret _ _ _ s4) as [[o2|e] s5] eqn:E2; [|done].
  destruct (Blocked o2) eqn:B2; [intros H; injection H as <- _; congruence|]. intros [= <- <-].
  apply requireSecret_present in E1 as (sec1 & H1 & F1); [|done].
  apply requireSecret_present in E2 as (sec2 & H2 & F2); [|done].
  rewrite !Forall_cons in *. exists (e_world s4), sec1, sec2.
  split; [eapply heard_earlier; [|exact H1]; by do 2 (etrans; [eassumption|])|].
  split; [done|]. destruct F1, F2 as (? & ? & _). done.
Qed.
End frame.
