(* ===== verification/Safety.v ===== *)
(** * Safety of a whole reconcile pass

    The theorems about single steps, carried through the pipeline of
    controller.go: what the log of one pass can contain, whatever the API
    server, the nodes and the encoders answer, and wherever the pass stops.
    [Grounded] takes the invariant of the phases along the pipeline. *)

From S2P Require Import Prelude.
From S2P Require Import ApiTypes.
From S2P Require Import Defaults.
From S2P Require Import Nodes.
From S2P Require Import Validation.
From S2P Require Import FsClient.
From S2P Require Import Kube.
From S2P Require Import Config.
From S2P Require Import Builders.
From S2P Require Import Pipeline.
From S2P Require Import Pass.
From S2P Require Import Status.
From S2P Require Import Convergence.
From S2P Require Import Rollout.
From S2P Require Import LayoutStep.
From S2P Require Import Decommission.
From S2P Require Import StorageStep.
From S2P Require Import Reload.
From S2P Require Import Controller.

(** ** Assertions along the pipeline

    [L] holds of the pass and the log throughout; [F] while nothing has stopped
    the pass. *)

Section inv.
Context {W : Type}.
Implicit Types s : Env W pass.

Definition inv (F : pass → Prop) (L : pass → list action → Prop) (b : bool) (s : Env W pass) : Prop :=
  L (e_st s) (e_log s) ∧ (b = false → F (e_st s)).

Lemma inv_stable (F : pass → Prop) (L : pass → list action → Prop) :
  (∀ p p', core p' = core p → F p → F p') → (∀ p p' l, core p' = core p → L p l → L p' l) →
  stable env_RecordFailure (inv F L).
Proof.
  intros HF HL b e s [H1 H2]. split; simpl.
  - eapply HL; [apply core_RecordFailure|done].
  - intros Hb. eapply HF; [apply core_RecordFailure|auto].
Qed.

Lemma step_ok_resp name always m (φ : pass → action → Prop) (Q : relation pass)
    (F F' : pass → Prop) (L L' : pass → list action → Prop) :
  (∀ s, (always = false → F (e_st s)) → resp (env_rel (φ (e_st s)) Q) m s) →
  (∀ p l, L p l → L' p l) →
  (∀ p p' l l', (always = false → F p) → L p l → Q p p' → Forall (φ p) l' → L' p' (l ++ l')) →
  (∀ s out s', F (e_st s) → Q (e_st s) (e_st s') → m s = (Ok out, s') → Blocked out = false → F' (e_st s')) →
  step_ok (inv F L) (inv F' L') (step_of name always m).
Proof.
  intros Hm Hskip HL HF. split.
  - intros s _ [H1 _]. split; [by apply Hskip|done].
  - intros b s out err s' Hb [H1 H2] Hrun. simpl in *.
    assert (Hal : always = false → F (e_st s)).
    { intros ->. apply H2. by destruct Hb. }
    assert (Hs' : s' = (m s).2).
    { unfold run_M in Hrun. by destruct (m s) as [[]?]; simplify_eq. }
    destruct (Hm s Hal) as [(l' & Hl' & Hf) Hst]. unfold st_rel in Hst. rewrite <- Hs' in *.
    split; [rewrite Hl'; by eapply HL|]. intros [-> Hstop]%orb_false_iff.
    unfold run_M in Hrun. destruct (m s) as [[o|e] s1] eqn:E; simplify_eq/=.
    eapply HF; eauto.
Qed.

(** A step that keeps what the assertions talk about. *)
Lemma step_ok_frame name always m (φ : action → Prop) (Q : relation pass)
    (F : pass → Prop) (L : pass → list action → Prop) :
  (∀ s, (always = false → F (e_st s)) → resp (env_rel φ Q) m s) →
  (∀ p p', Q p p' → F p → F p') →
  (∀ p p' l l', Q p p' → L p l → Forall φ l' → L p' (l ++ l')) →
  step_ok (inv F L) (inv F L) (step_of name always m).
Proof.
  intros Hm HF HL. apply (step_ok_resp name always m (λ _, φ) Q); [done|done|eauto|eauto].
Qed.
End inv.

(** ** What a pass replaces and removes *)

(** The log applies the node's StatefulSet, or deletes its pod. *)
Definition replaces (l : list action) (name : string) : Prop :=
  (∃ set, AApply (OStatefulSet set) ∈ l ∧ set_Name set = name) ∨
  (∃ ns orphan, ADelete KindPod ns (PodName name) orphan ∈ l).

Lemma replaces_app l1 l2 n : replaces (l1 ++ l2) n ↔ replaces l1 n ∨ replaces l2 n.
Proof. unfold replaces. setoid_rewrite elem_of_app. naive_solver. Qed.

(** Entries that replace and remove no node. *)
Definition quiet (a : action) : Prop :=
  match a with
  | AApply (OStatefulSet _) | ADelete KindSet _ _ _ | ADelete KindPod _ _ _ => False
  | _ => True
  end.

Lemma benign_quiet a : benign a → quiet a.
Proof. destruct a as [[]| |[]| | | | | | | | | | | | | | | | |]; done. Qed.

Lemma reporting_quiet a : reporting a → quiet a.
Proof. by destruct a. Qed.

Lemma Forall_quiet (φ : action → Prop) l : (∀ a, φ a → quiet a) → Forall φ l → Forall quiet l.
Proof. intros H Hl. by eapply Forall_impl. Qed.

Lemma replaces_quiet l n : Forall quiet l → ¬ replaces l n.
Proof.
  rewrite Forall_forall. intros H [(set & Hin & _)|(ns & b & Hin)]; by apply H in Hin.
Qed.

Lemma PodName_inj n m : PodName n = PodName m → n = m.
Proof. intros H. by apply (str_split_last "-" n m "0" "0") in H as [? _]. Qed.

(** A node that was serving is replaced alone, and only while every node
    serves and the cluster has settled (a layout this pass itself applied
    since then aside). *)
Definition one_at_a_time (p : pass) (l : list action) : Prop :=
  (∀ n m, replaces l n → replaces l m → serving (p_live p) n = true → serving (p_live p) m = true → n = m) ∧
  (∀ n, replaces l n → serving (p_live p) n = true →
     h_notReady (p_health p) = [] ∧
     (cv_converged (p_convergence p) = true ∨ p_layoutApplied p = true)).

Definition removals_safe (declared : list string) (p : pass) (l : list action) : Prop :=
  ∀ ns n, ADelete KindSet ns n false ∈ l → (n ∉ declared) ∧ gone p n.

Lemma adopted_not_serving set : adoptedStalePod set = true → nodeServing set = false.
Proof.
  unfold adoptedStalePod, nodeServing.
  rewrite !andb_true_iff, !Z.eqb_eq. intros [[_ _] ->]. by rewrite andb_false_r.
Qed.

(** ** The phases of a pass *)

Section phases.
Context {W : Type} `{!KubeClient W, !Interface W} {CD : Codec}.
Context (OperatorNamespace FSImageRegistry : string) (object : FSCluster).
Implicit Types s : Env W pass.

Let c := with_defaults object FSImageRegistry.
Let declared := node_Name <$> Nodes c.

(** What each step has established when the pass goes on. *)
Definition fresh (p : pass) : Prop :=
  p_cluster p = c ∧ p_health p = no_health ∧ p_layoutApplied p = false.
Definition F0 (p : pass) : Prop := fresh p ∧ p_nodes p = Nodes c ∧ p_decommission p = ∅.
Definition F1 (p : pass) : Prop := fresh p ∧ removed_ok declared (p_decommission p).
Definition F2 (p : pass) : Prop := F1 p ∧ rendered p.
Definition F3 (p : pass) : Prop :=
  p_cluster p = c ∧ removed_ok declared (p_decommission p) ∧ rendered p ∧
  h_notReady (p_health p) = down_names (p_live p) (p_nodes p).

(** Before anything is decided nothing is touched and nothing is known to have
    converged; then only nodes that do not serve are replaced. *)
Definition L1 (p : pass) (l : list action) : Prop :=
  Forall quiet l ∧ cv_converged (p_convergence p) = false.
Definition L1' (p : pass) (l : list action) : Prop := Forall quiet l ∧ view_ok p.
Definition L2 (p : pass) (l : list action) : Prop :=
  (∀ n, replaces l n → serving (p_live p) n = false) ∧ (∀ ns n, ADelete KindSet ns n false ∉ l) ∧ view_ok p.
Definition L3 (p : pass) (l : list action) : Prop :=
  one_at_a_time p l ∧ (∀ ns n, ADelete KindSet ns n false ∉ l) ∧ view_ok p.
Definition L4 (p : pass) (l : list action) : Prop :=
  one_at_a_time p l ∧ removals_safe declared p l ∧ view_ok p.

(** Every assertion is about the core of the pass. *)
Lemma removed_ok_nil D sets : removed_ok D sets → removed_ok [] sets.
Proof. intros H name set Hl. apply H in Hl as [? _]. split; [done|]. apply not_elem_of_nil. Qed.

Lemma view_ok_decided p p' : decided p' = decided p → view_ok p → view_ok p'.
Proof.
  intros (Hi & Hc & _)%decided_inv. apply inputs_inv in Hi as (Hcl & Hn & _).
  unfold view_ok, settled. by rewrite Hc, Hcl, Hn.
Qed.

Lemma one_decided p p' l : decided p' = decided p → one_at_a_time p l → one_at_a_time p' l.
Proof.
  intros (Hi & Hc & Ha)%decided_inv. apply inputs_inv in Hi as (_ & _ & _ & Hl & Hn & _).
  unfold one_at_a_time. by rewrite Hc, Ha, Hl, Hn.
Qed.

Lemma gone_decided p p' n : decided p' = decided p → gone p n → gone p' n.
Proof. intros (_ & Hc & Ha)%decided_inv. unfold gone. by rewrite Hc, Ha. Qed.

Lemma core_decided p p' : core p' = core p → decided p' = decided p.
Proof. by intros (_ & _ & ?)%core_inv. Qed.

Lemma L3_decided p p' l : decided p' = decided p → L3 p l → L3 p' l.
Proof.
  intros H (H1 & H2 & H3). split_and!; [by eapply one_decided|done|by eapply view_ok_decided].
Qed.

Lemma L4_decided p p' l : decided p' = decided p → L4 p l → L4 p' l.
Proof.
  intros H (H1 & H2 & H3). split_and!; [by eapply one_decided| |by eapply view_ok_decided].
  intros ns n Hin. destruct (H2 ns n Hin). split; [done|by eapply gone_decided].
Qed.

Lemma F3_decided p p' : decided p' = decided p → F3 p → F3 p'.
Proof.
  intros (Hi & _)%decided_inv. apply inputs_inv in Hi as (Hc & Hn & Hd & Hl & Hr & Hx).
  unfold F3, rendered, desired_sets. by rewrite Hc, Hn, Hd, Hl, Hr, Hx.
Qed.

(** More quiet entries change nothing. *)
Lemma one_quiet p l l' : Forall quiet l' → one_at_a_time p l → one_at_a_time p (l ++ l').
Proof.
  intros Hb [H1 H2].
  assert (∀ n, replaces (l ++ l') n → replaces l n)
    by (intros n [?|?]%replaces_app; [done|by edestruct replaces_quiet]).
  split; eauto.
Qed.

Lemma not_deleted_quiet ns n b l : Forall quiet l → ADelete KindSet ns n b ∉ l.
Proof. rewrite Forall_forall. intros H Hin. by apply H in Hin. Qed.

Lemma L3_quiet p l l' : Forall quiet l' → L3 p l → L3 p (l ++ l').
Proof.
  intros Hb (H1 & H2 & H3). split_and!; [by apply one_quiet| |done].
  intros ns n [?|?]%elem_of_app; [by eapply H2|by eapply not_deleted_quiet].
Qed.

Lemma L4_quiet p l l' : Forall quiet l' → L4 p l → L4 p (l ++ l').
Proof.
  intros Hb (H1 & H2 & H3). split_and!; [by apply one_quiet| |done].
  intros ns n [?|Hin]%elem_of_app; [by eapply H2|]. by apply not_deleted_quiet in Hin.
Qed.

(** *** One lemma per step *)

Lemma F_core (F : pass → Prop) : (F = F0 ∨ F = F1 ∨ F = F2 ∨ F = F3) →
  ∀ p p', core p' = core p → F p → F p'.
Proof.
  intros HF p p' Hc. pose proof (core_inv _ _ Hc) as (_ & Hh & Hd).
  pose proof (decided_inv _ _ Hd) as (Hi & _ & Ha). apply inputs_inv in Hi as (Hcl & Hn & Hds & Hl & _ & Hx).
  destruct HF as [->|[->|[->| ->]]]; unfold F0, F1, F2, F3, fresh, F1, fresh, rendered, desired_sets;
    rewrite ?Hcl, ?Hh, ?Ha, ?Hn, ?Hds, ?Hl, ?Hx; done.
Qed.

Lemma L1_core p p' l l' : core p' = core p → Forall quiet l' → L1 p l → L1 p' (l ++ l').
Proof.
  intros Hc Hq [H1 H2]. apply core_decided, decided_inv in Hc as (_ & Hv & _).
  split; [by apply Forall_app|]. by rewrite Hv.
Qed.

Lemma step_validate : step_ok (inv F0 L1) (inv F0 L1) (step_of "validate" false validate).
Proof.
  apply (step_ok_frame _ _ _ reporting (keeps core)); [intros; apply resp_validate| |].
  - apply F_core; auto.
  - intros p p' l l' HQ HL Hl'. apply (L1_core p); [done| |done]. eapply Forall_quiet; [apply reporting_quiet|done].
Qed.

Lemma planDecommission_Ok s out s' :
  planDecommission s = (Ok out, s') →
  ∃ existing,
    let x := plan_sets (node_Name <$> p_nodes (e_st s)) existing (p_nodes (e_st s)) (p_decommission (e_st s)) in
    e_st s' = set_decommission x.1 x.2 (e_st s).
Proof.
  unfold planDecommission, nodeSets, get_st, put_st, call, wrap_err, event, emit. msimpl.
  destruct (k_listSets _ _ _) as [[existing|e] w]; [|done]. simpl.
  destruct (plan_sets _ _ _ _) as [nodes sets] eqn:E. simpl. intros H. exists existing. rewrite E. simpl.
  destruct (negb (active sets)); [by simplify_eq/=|].
  destruct (match st_Update _ with Some _ => _ | None => _ end); by simplify_eq/=.
Qed.

Lemma step_plan : step_ok (inv F0 L1) (inv F1 L1) (step_of "decommission" false planDecommission).
Proof.
  eapply (step_ok_resp _ _ _ (λ _, reporting)); [intros; by apply resp_planDecommission|done| |].
  - intros p p' l l' _ [H1 H2] HQ Hl'. split.
    + apply Forall_app. split; [done|]. eapply Forall_quiet; [apply reporting_quiet|done].
    + unfold keeps in HQ. assert (p_convergence p' = p_convergence p) as -> by congruence. done.
  - intros s out s' ((Hc & Hh & Ha) & Hn & Hd) _ Hrun _.
    apply planDecommission_Ok in Hrun as [existing ->]. split; [done|]. simpl.
    rewrite Hd, Hn. apply plan_sets_removed. intros name set Hl. by rewrite lookup_empty in Hl.
Qed.

Lemma step_render : step_ok (inv F1 L1) (inv F2 L1) (step_of "render" false render).
Proof.
  eapply (step_ok_resp _ _ _ (λ _ _, False)); [intros; apply resp_render|done| |].
  - intros p p' l l' _ [H1 H2] HQ Hl'. split.
    + apply Forall_app. split; [done|]. by eapply Forall_impl; [exact Hl'|].
    + unfold keeps in HQ. assert (p_convergence p' = p_convergence p) as -> by congruence. done.
  - intros s out s' ((Hc & Hh & Ha) & Hd) HQ Hrun _. unfold keeps in HQ.
    pose proof (render_rendered s out s' (removed_ok_nil _ _ Hd) Hrun) as Hr.
    split; [|done]. unfold F1, fresh.
    assert (p_decommission (e_st s') = p_decommission (e_st s)) as -> by congruence.
    split_and!; [congruence..|done].
Qed.

Lemma step_observe : step_ok (inv F2 L1) (inv F3 L1) (step_of "observe" true observe).
Proof.
  eapply (step_ok_resp _ _ _ (λ _ _, False)); [intros; apply resp_observe|done| |].
  - intros p p' l l' _ [H1 H2] HQ Hl'. split.
    + apply Forall_app. split; [done|]. by eapply Forall_impl; [exact Hl'|].
    + unfold keeps in HQ. assert (p_convergence p' = p_convergence p) as -> by congruence. done.
  - intros s out s' (((Hc & Hh & Ha) & Hd) & Hr) HQ Hrun _.
    apply observe_Ok in Hrun as [sets ->]. unfold F3, rendered. simpl. split_and!; [done..|].
    unfold observe_nodes. rewrite Hh.
    by destruct (observe_foldl (fsc_Spec (p_cluster (e_st s))) (index_sets sets)
      (desired_revisions (desired_sets (e_st s))) (p_nodes (e_st s)) (mkTally no_health ∅ ∅)) as [-> _].
Qed.

Lemma step_L1_benign name m :
  (∀ s, resp (env_rel benign (keeps core)) m s) → step_ok (inv F3 L1) (inv F3 L1) (step_of name false m).
Proof.
  intros Hm. apply (step_ok_frame _ _ _ benign (keeps core)); [auto|apply F_core; auto|].
  intros p p' l l' HQ HL Hl'. apply (L1_core p); [done| |done].
  eapply Forall_quiet; [apply benign_quiet|done].
Qed.

Lemma step_secrets : step_ok (inv F3 L1) (inv F3 L1) (step_of "secrets" false reconcileSecrets).
Proof.
  apply step_L1_benign. intros s. eapply env_rel_mono; [| |apply resp_reconcileSecrets]; [|done].
  intros a. destruct a as [o| | | | | | | | | | | | | | | | | | |]; [by destruct o|done..].
Qed.

(** The step may establish the view only from an unknown one. *)
Definition gathers (p p' : pass) : Prop :=
  (p_object p', inputs p', p_health p', p_layoutApplied p') =
  (p_object p, inputs p, p_health p, p_layoutApplied p) ∧
  (cv_converged (p_convergence p) = false → view_ok p').

Lemma F3_inputs p p' : inputs p' = inputs p → F3 p → F3 p'.
Proof.
  intros (Hc & Hn & Hd & Hl & Hr & Hx)%inputs_inv.
  unfold F3, rendered, desired_sets. by rewrite Hc, Hn, Hd, Hl, Hr, Hx.
Qed.

Lemma step_convergence : step_ok (inv F3 L1) (inv F3 L1') (step_of "convergence" false gatherConvergence).
Proof.
  apply (step_ok_resp _ _ _ (λ _ _, False) gathers).
  - intros s _. destruct (resp_gatherConvergence (λ _, False) s) as [H1 H2]. split; [done|].
    split; [exact H2|]. apply gatherConvergence_view_ok.
  - intros p l [H1 H2]. split; [done|]. intros H. congruence.
  - intros p p' l l' _ [H1 H2] [_ HQ] Hl'. split; [|auto]. apply Forall_app. split; [done|].
    by eapply Forall_impl; [exact Hl'|].
  - intros s out s' HF [HQ _] _ _. eapply F3_inputs; [|done]. congruence.
Qed.

Lemma L2_of_L1' p l : L1' p l → L2 p l.
Proof.
  intros [H1 H2]. split_and!; [|by intros; apply not_deleted_quiet|done].
  intros n Hn. by apply replaces_quiet in Hn.
Qed.

Lemma serving_core p p' : core p' = core p → p_live p' = p_live p.
Proof.
  intros Hc. apply core_decided, decided_inv in Hc as (Hi & _ & _).
  by apply inputs_inv in Hi as (_ & _ & _ & ? & _).
Qed.

Lemma may_store_replaces p l n :
  Forall (may_store p) l → replaces l n → serving (p_live p) n = false.
Proof.
  rewrite Forall_forall. intros H [(set & Hin & _)|(ns & b & Hin)]; [by apply H in Hin|].
  apply H in Hin as (_ & name & live & ->%PodName_inj & Hl & Ha & _).
  unfold serving. rewrite Hl. by apply adopted_not_serving.
Qed.

Lemma step_storage : step_ok (inv F3 L1') (inv F3 L2) (step_of "storage" false reconcileStorage).
Proof.
  apply (step_ok_resp _ _ _ may_store (keeps core)).
  - intros s HF. apply resp_reconcileStorage. by destruct (HF eq_refl) as (_ & _ & ? & _).
  - apply L2_of_L1'.
  - intros p p' l l' _ [H1 H2] HQ Hl'. split_and!.
    + rewrite (serving_core _ _ HQ). intros n [Hn|Hn]%replaces_app; [by apply replaces_quiet in Hn|].
      by eapply may_store_replaces.
    + intros ns n [Hin|Hin]%elem_of_app; [by eapply not_deleted_quiet|].
      rewrite Forall_forall in Hl'. by apply Hl' in Hin as [? _].
    + by eapply view_ok_decided; [apply core_decided|].
  - intros s out s' HF HQ _ _. eapply F_core; [auto|exact HQ|done].
Qed.

(** What the rollout applies of the serving nodes. *)
Lemma may_touch_serving p l n :
  F3 p → Forall (may_touch p (stale_order p)) l → replaces l n → serving (p_live p) n = true →
  h_notReady (p_health p) = [] ∧ cv_converged (p_convergence p) = true ∧
  ∃ want, head (stale_order p) = Some want ∧ set_Name want = n.
Proof.
  intros (_ & _ & _ & Hnr). rewrite Forall_forall.
  intros H [(set & Hin & Hn)|(ns & b & Hin)] Hs; apply H in Hin; clear H.
  2: { destruct Hin as [(want & ? & _)|Hin]; [discriminate|done]. }
  destruct Hin as [(want & Heq & _ & Hl)|(want & Heq & _ & Hcase)].
  - injection Heq as ->. simpl in Hn. subst n. unfold serving in Hs. by rewrite Hl in Hs.
  - injection Heq as <-. simpl in Hn. subst n. destruct Hcase as [Hd|(? & _ & ? & ?)]; [|eauto].
    rewrite Hnr, elem_of_down_names in Hd. destruct Hd. congruence.
Qed.

Lemma may_touch_not_deleted p l ns n b :
  Forall (may_touch p (stale_order p)) l → ADelete KindSet ns n b ∉ l.
Proof.
  rewrite Forall_forall. intros H Hin. apply H in Hin as [(want & ? & _)|Hin]; [discriminate|done].
Qed.

Lemma L3_of_L2 p l : L2 p l → L3 p l.
Proof.
  intros (H1 & H2 & H3). split_and!; [|done|done].
  split; [intros n m Hn _ Hs|intros n Hn Hs]; apply H1 in Hn; congruence.
Qed.

Lemma step_nodes : step_ok (inv F3 L2) (inv F3 L3) (step_of "nodes" false reconcileNodes).
Proof.
  apply (step_ok_resp _ _ _ (λ p, may_touch p (stale_order p)) (keeps core)).
  - intros s _. apply resp_reconcileNodes.
  - apply L3_of_L2.
  - intros p p' l l' HF (H1 & H2 & H3) HQ Hl'. specialize (HF eq_refl).
    apply (L3_decided p); [by apply core_decided|]. split_and!; [|intros ns n [?|?]%elem_of_app|done].
    + assert (Hnew : ∀ n, replaces (l ++ l') n → serving (p_live p) n = true → replaces l' n).
      { intros n [Hn|Hn]%replaces_app Hs; [|done]. apply H1 in Hn. congruence. }
      split.
      * intros n m Hn Hm Hsn Hsm.
        destruct (may_touch_serving p l' n) as (_ & _ & w1 & E1 & <-); auto.
        destruct (may_touch_serving p l' m) as (_ & _ & w2 & E2 & <-); auto. congruence.
      * intros n Hn Hs. destruct (may_touch_serving p l' n) as (? & ? & _); auto.
    + by eapply H2.
    + by eapply may_touch_not_deleted.
  - intros s out s' HF HQ _ _. eapply F_core; [auto|exact HQ|done].
Qed.

Lemma step_layout : step_ok (inv F3 L3) (inv F3 L3) (step_of "layout" false reconcileLayout).
Proof.
  apply (step_ok_resp _ _ _ may_change_layout view_after).
  - intros s _. apply resp_reconcileLayout.
  - done.
  - intros p p' l l' _ HL (_ & Hi & _ & Hv) Hl'.
    apply (L3_quiet p l l') in HL as (H1 & H2 & H3).
    2: { eapply Forall_quiet; [|exact Hl']. by intros []. }
    pose proof (inputs_inv _ _ Hi) as (Hcl & Hn & _ & Hl & Hr & _).
    destruct Hv as [[Hc Ha]|[Ha Hc]].
    + apply (L3_decided p); [unfold decided; congruence|done].
    + split_and!; [|done|intros ?; congruence]. unfold one_at_a_time in *. rewrite Hl, Hr, Ha.
      destruct H1 as [H1 H1']. split; [done|]. intros n Hn' Hs. split; [by eapply H1'|auto].
  - intros s out s' HF (_ & Hi & _) _ _. by eapply F3_inputs.
Qed.

Lemma L4_of_L3 p l : L3 p l → L4 p l.
Proof. intros (H1 & H2 & H3). split_and!; [done| |done]. intros ns n Hin. by apply H2 in Hin. Qed.

Lemma may_drain_replaces p l n : Forall (may_drain p) l → ¬ replaces l n.
Proof.
  rewrite Forall_forall. intros H [(set & Hin & _)|(ns & b & Hin)]; by apply H in Hin.
Qed.

Lemma step_drain : step_ok (inv F3 L3) (inv (λ _, True) L4) (step_of "drain" false reconcileDecommission).
Proof.
  apply (step_ok_resp _ _ _ may_drain (keeps core)).
  - intros s HF. apply resp_reconcileDecommission. destruct (HF eq_refl) as (_ & ? & _).
    by eapply removed_ok_nil.
  - apply L4_of_L3.
  - intros p p' l l' HF (H1 & H2 & H3) HQ Hl'. apply (L4_decided p); [by apply core_decided|].
    destruct (HF eq_refl) as (_ & Hrm & _). split_and!; [| |done].
    + destruct H1 as [H1 H1'].
      assert (∀ n, replaces (l ++ l') n → replaces l n)
        by (intros n [?|?]%replaces_app; [done|by edestruct may_drain_replaces]).
      split; eauto.
    + intros ns n [Hin|Hin]%elem_of_app; [by apply H2 in Hin|]. rewrite Forall_forall in Hl'.
      apply Hl' in Hin as (_ & set & Hset & _ & Hg). split; [|done]. by apply Hrm in Hset as [_ ?].
  - done.
Qed.

Lemma step_L4 name always m (φ : action → Prop) :
  (∀ s, resp (env_rel φ (keeps decided)) m s) → (∀ a, φ a → quiet a) →
  step_ok (inv (λ _, True) L4) (inv (λ _, True) L4) (step_of name always m).
Proof.
  intros Hm Hφ. apply (step_ok_frame _ _ _ φ (keeps decided)); [auto|done|].
  intros p p' l l' HQ HL Hl'. apply (L4_decided p); [done|]. apply L4_quiet; [|done].
  by eapply Forall_quiet.
Qed.

(** *** The whole pipeline *)

Lemma L1_stable p p' l : core p' = core p → L1 p l → L1 p' l.
Proof. intros Hc HL. rewrite <- (app_nil_r l). by apply (L1_core p). Qed.

Lemma L1'_stable p p' l : core p' = core p → L1' p l → L1' p' l.
Proof. intros Hc [H1 H2]. split; [done|]. by eapply view_ok_decided; [apply core_decided|]. Qed.

Lemma L2_stable p p' l : core p' = core p → L2 p l → L2 p' l.
Proof.
  intros Hc (H1 & H2 & H3). rewrite <- (serving_core p p' Hc) in H1.
  split_and!; [done|done|]. by eapply view_ok_decided; [apply core_decided|].
Qed.

Lemma phase_stable F L :
  F = F0 ∨ F = F1 ∨ F = F2 ∨ F = F3 → L = L1 ∨ L = L1' ∨ L = L2 ∨ L = L3 →
  stable env_RecordFailure (inv F L (W := W)).
Proof.
  intros HF HL. apply inv_stable; [by apply F_core|]. intros p p' l Hc.
  destruct HL as [->|[->|[->| ->]]]; [by apply L1_stable|by apply L1'_stable|by apply L2_stable|].
  by apply L3_decided, core_decided.
Qed.

Lemma drained_stable : stable env_RecordFailure (inv (λ _, True) L4 (W := W)).
Proof. apply inv_stable; [done|]. intros p p' l Hc. by apply L4_decided, core_decided. Qed.

Lemma keeps_core_decided (φ : action → Prop) {A} (m : M (Env W pass) A) s :
  resp (env_rel φ (keeps core)) m s → resp (env_rel φ (keeps decided)) m s.
Proof. apply env_rel_mono; [done|]. intros p p'. apply core_decided. Qed.

End phases.

(** * Theorems about a pass *)

Section pass.
Context {W : Type} `{!KubeClient W, !Interface W} {CD : Codec}.
Context (OperatorNamespace FSImageRegistry : string).
Implicit Types s : Env W pass.

(** ** A refused spec *)

(** Only the status: events, the status patch, metrics. *)
Definition status_only (l : list action) : Prop := Forall status_action l.

(** A pass that has stopped runs no step but the always-run ones. *)
Lemma step_stopped name (m : M (Env W pass) Outcome) (L : pass → list action → Prop) :
  step_ok (inv (λ _, False) L) (inv (λ _, False) L) (step_of name false m).
Proof.
  split; [done|]. intros b s out err s' [->|?] [_ Hf]; [by destruct (Hf eq_refl)|discriminate].
Qed.

Lemma refuse_inv reason message s :
  refuse reason message s =
  (Ok (Block reason), mkEnv (e_world s) (e_log s ++ [AEvent EventTypeWarning reason message])
     (setCondition ConditionSpecValid ConditionFalse reason message (e_st s))).
Proof. done. Qed.

Definition refused_with (f : Failure) (p : pass) (l : list action) : Prop :=
  status_only l ∧ queued ConditionSpecValid p = Some (ConditionFalse, f_Reason f).

Lemma validate_refuses order f s :
  Cluster order (fsc_Spec (p_cluster (e_st s))) = Some f →
  ∃ w message, validate s = refuse (f_Reason f) message (mkEnv w (e_log s) (e_st s)).
Proof.
  intros H. destruct (validate_eq s) as (order' & w & ->).
  pose proof (Cluster_order order order' (fsc_Spec (p_cluster (e_st s)))) as Hr. rewrite H in Hr.
  destruct (Cluster order' _) as [f'|]; simplify_eq/=. exists w, (f_Message f'). by rewrite Hr.
Qed.

Lemma queued_conditions type p p' : p_conditions p' = p_conditions p → queued type p' = queued type p.
Proof. unfold queued. by intros ->. Qed.

Lemma refused_stable f : stable env_RecordFailure (inv (λ _, False) (refused_with f) (W := W)).
Proof.
  intros b e s [[H1 H2] H3]. split; [|done]. split; [done|]. simpl. erewrite queued_conditions; [done|].
  unfold RecordFailure. by destruct (p_failure _).
Qed.

Lemma queued_summarize_SpecValid p : queued ConditionSpecValid (summarize p) = queued ConditionSpecValid p.
Proof.
  assert (Hh : ∀ p, queued ConditionSpecValid (summarizeHealth p) = queued ConditionSpecValid p).
  { intros q. unfold summarizeHealth. rewrite queued_if, !queued_other, if_same by done.
    destruct (p_failure q); by rewrite queued_other. }
  assert (Hr : ∀ p, queued ConditionSpecValid (summarizeReadiness p) = queued ConditionSpecValid p).
  { intros q. unfold summarizeReadiness. destruct (cv_layout _);
      by rewrite !queued_if, !queued_other, !if_same by done. }
  assert (Ha : ∀ p, queued ConditionSpecValid (summarizeAlignment p) = queued ConditionSpecValid p).
  { intros q. unfold summarizeAlignment. destruct (p_desired q); [|done].
    by rewrite !queued_if, !queued_other, !if_same, !queued_if, !queued_other, !if_same by done. }
  unfold summarize, summarizeConvergence.
  by rewrite !queued_if, !queued_other, !if_same, Ha, Hr, Hh by done.
Qed.

Lemma resp_observe_SpecValid s :
  resp (env_rel status_action (keeps (queued ConditionSpecValid))) observe s.
Proof. unfold observe. rsolve_all. Qed.

Lemma resp_status_SpecValid s :
  resp (env_rel status_action (keeps (queued ConditionSpecValid))) reconcileStatus s.
Proof. unfold reconcileStatus. rsolve_all. apply queued_summarize_SpecValid. Qed.

Lemma step_refused_frame f name (m : M (Env W pass) Outcome) :
  (∀ s, resp (env_rel status_action (keeps (queued ConditionSpecValid))) m s) →
  step_ok (inv (λ _, False) (refused_with f)) (inv (λ _, False) (refused_with f)) (step_of name true m).
Proof.
  intros Hm. apply (step_ok_frame _ _ _ status_action (keeps (queued ConditionSpecValid))); [auto|done|].
  intros p p' l l' HQ [H1 H2] Hl'. split; [by apply Forall_app|]. unfold keeps in HQ. by rewrite HQ.
Qed.

(** C5: A spec that fails validation is not applied: the whole pass only
    reports (events, metrics and the status), and what it reports is
    [SpecValid=False] with the reason of the refusal, whatever order the maps of
    the refused spec's checks are ranged over in. *)
Theorem refused_spec_touches_nothing (object : FSCluster) (w : W) (order : MapOrder) (f : Failure) :
  Cluster order (fsc_Spec (with_defaults object FSImageRegistry)) = Some f →
  let s := (run_pass OperatorNamespace FSImageRegistry object w []).2 in
  status_only (e_log s) ∧
  queued ConditionSpecValid (e_st s) = Some (ConditionFalse, f_Reason f).
Proof.
  intros Hf. cbv zeta. unfold run_pass. rewrite Run_state.
  unfold pipeline, steps_before_nodes, steps_after_drain. cbn [app]. rewrite !run_loop_cons.
  match goal with |- context [lp_state ?l] =>
    enough (inv (λ _, False) (refused_with f) (lp_stopped l) (lp_state l)) as [? _] by done end.
  unfold run_loop; cbn [foldl].
  eapply run_step_ok; [apply refused_stable|apply step_refused_frame, resp_status_SpecValid|].
  do 12 (eapply run_step_ok; [apply refused_stable|apply step_stopped|]).
  eapply run_step_ok; [apply refused_stable|apply step_refused_frame, resp_observe_SpecValid|].
  do 2 (eapply run_step_ok; [apply refused_stable|apply step_stopped|]).
  unfold run_step. cbn [lp_stopped step_of AlwaysRun andb step_Run lp_state]. unfold run_M.
  match goal with |- context [validate ?s0] =>
    destruct (validate_refuses order f s0 Hf) as (w' & message & ->) end.
  rewrite refuse_inv. simpl.
  split; [|done]. split; [by repeat constructor|]. apply queued_same.
Qed.

(** ** When the object is looked at again *)

(** The delays a step may ask for: none, or the poll interval. *)
Definition poll_or_none (out : Outcome) : Prop :=
  out_RequeueAfter out = 0%Z ∨ out_RequeueAfter out = pollInterval.

Lemma step_delay name always (m : M (Env W pass) Outcome) :
  answers poll_or_none m →
  ∀ s, poll_or_none (step_Run (step_of name always m) s).1.1.
Proof.
  intros Hm s. simpl. unfold run_M. destruct (m s) as [[out|e] s'] eqn:E; [by eapply Hm|by left].
Qed.

Lemma answers_requireSecret p name keys : answers poll_or_none (requireSecret p name keys).
Proof. unfold requireSecret. answer. Qed.

Lemma answers_adopt_loop p nodes :
  answers (from_option poll_or_none True) (adopt_loop p nodes).
Proof. induction nodes; simpl; answer; done. Qed.

Lemma pipeline_delays :
  Forall (λ step, ∀ s, poll_or_none (step_Run step s).1.1) (pipeline OperatorNamespace).
Proof.
  unfold pipeline, steps_before_nodes, steps_after_drain. cbn [app].
  repeat (apply Forall_cons; split; [apply step_delay|]); [..|by apply Forall_nil].
  - unfold validate. answer.
  - unfold planDecommission. answer.
  - unfold render. answer.
  - unfold observe. answer.
  - unfold reconcileSecrets. apply answers_bind; intros ?. cbv zeta. do 3 (apply answers_bind; intros ?).
    eapply answers_bind'; [apply answers_requireSecret|]. intros out Hout.
    destruct (Blocked out); [by apply answers_ret|].
    eapply answers_bind'; [apply answers_requireSecret|]. intros out' Hout'.
    destruct (Blocked out'); apply answers_ret; [done|by left].
  - unfold reconcileServices. answer.
  - unfold reconcileNodeConfigs. answer.
  - unfold gatherConvergence. answer.
  - unfold reconcileStorage. eapply answers_bind'; [unfold finishAdoption|].
    { apply answers_bind. intros ?. apply answers_adopt_loop. }
    intros [out|] Hout; [by apply answers_ret|].
    unfold expandNode. answer.
  - unfold reconcileNodes, roll. answer.
  - unfold reconcileLayout, holdLayout. answer.
  - unfold reconcileDecommission, holdDrain. answer.
  - unfold reconcileReload. answer.
  - unfold reconcileBudget. answer.
  - unfold reconcileNetworkPolicy. answer.
  - unfold reconcilePodMonitor. answer.
  - unfold reconcileStatus. answer.
Qed.

Definition comes_back (d : Z) : Prop := d = pollInterval ∨ d = resyncInterval.

(** C27: An object that exists and is not being deleted is never dropped: a
    reconcile of it fails (and is retried), or asks to be run again after the
    poll interval or the resync interval.  One that is gone or going is only
    forgotten: nothing is applied or deleted, and no delay asked for. *)
Theorem Reconcile_requeues (namespace name : string) (w : W) :
  let r := Reconcile OperatorNamespace FSImageRegistry namespace name w in
  match k_getCluster namespace name w with
  | (Ok object, _) =>
      if fsc_Deleting object
      then r.1 = Ok 0%Z ∧ r.2.2 = [AForget (fsc_Namespace object) (fsc_Name object)]
      else ∀ d, r.1 = Ok d → comes_back d
  | (Err e, _) => r.1 = (if IsNotFound e then Ok 0%Z else Err e) ∧
      r.2.2 = (if IsNotFound e then [AForget namespace name] else [])
  end.
Proof.
  cbv zeta. unfold Reconcile. destruct (k_getCluster namespace name w) as [[object|e] w1].
  2: { by destruct (IsNotFound e). }
  destruct (fsc_Deleting object); [done|]. intros d. unfold run_pass, Run.
  pose proof (run_loop_delay env_RecordFailure (λ d, d = 0%Z ∨ d = pollInterval) (pipeline OperatorNamespace)
    (mkLoop 0 false None (mkEnv w1 [] (newPass object FSImageRegistry)))
    pipeline_delays (or_introl eq_refl)) as Hd.
  destruct (lp_failure _); [done|]. destruct Hd as [Hd|Hd]; rewrite Hd; cbn; intros H; injection H as <-;
    [by right|by left].
Qed.
End pass.
