(* ===== verification/Grounded.v ===== *)
(** * What a pass does rests on what the nodes said in it

    [Safety] states what a pass may do in terms of what it believes of the
    cluster.  Here the belief is traced to its source: before a serving node is
    replaced, or a removed one deleted, a node of the pass was asked for the
    layout, and for the nodes it sees, during that very pass, and its answers are
    what the belief says. *)

From S2P Require Import Prelude.
From S2P Require Import ApiTypes.
From S2P Require Import Defaults.
From S2P Require Import Nodes.
From S2P Require Import FsClient.
From S2P Require Import Kube.
From S2P Require Import Course.
From S2P Require Import KeyGen.
From S2P Require Import Config.
From S2P Require Import Builders.
From S2P Require Import Pipeline.
From S2P Require Import Pass.
From S2P Require Import Status.
From S2P Require Import Convergence.
From S2P Require Import Rollout.
From S2P Require Import LayoutStep.
From S2P Require Import Decommission.
From S2P Require Import StorageStep.
From S2P Require Import Reload.
From S2P Require Import Controller.
From S2P Require Import Safety.

Section calls.
Context {W : Type} `{!KubeClient W, !Interface W} {CD : Codec}.
Context (OperatorNamespace FSImageRegistry : string).
Implicit Types s : Env W pass.

Abbreviation later := (later pass_step).
Abbreviation heard := (heard pass_step).
Abbreviation made := (made pass_step).

(** ** Every write of the log was made *)

Definition calls_made (w0 w1 : W) (a : action) : Prop :=
  match a with
  | AApply o => made w0 w1 (k_apply o)
  | ADelete k ns name orphan => made w0 w1 (k_delete k ns name orphan)
  | _ => True
  end.

#[local] Instance calls_made_lasting w0 : Lasting pass_step (calls_made w0).
Proof. intros w w' [] Hw; simpl; auto; intros; by eapply made_later. Qed.

#[local] Instance any_preorder : PreOrder (λ _ _ : pass, True).
Proof. by split. Qed.

Abbreviation calling w0 := (since pass_step w0 (calls_made w0) (λ _ _ : pass, True)).

Lemma calling_apply w0 c o s : resp (calling w0) (apply c o) s.
Proof. unfold apply, applyConfiguration. tsolve. intros. by apply made_now. Qed.

Lemma calling_createOnce w0 c o s : resp (calling w0) (createOnce c o) s.
Proof. unfold createOnce. tsolve. Qed.

Lemma calling_delete w0 k ns name b msg s : resp (calling w0) (delete_ignoring_absent k ns name b msg) s.
Proof. unfold delete_ignoring_absent. tsolve. intros. by apply made_now. Qed.

Lemma calling_adminToken w0 s : resp (calling w0) adminToken s.
Proof. unfold adminToken. tsolve. Qed.

Lemma calling_nodeSets w0 c s : resp (calling w0) (nodeSets c) s.
Proof. unfold nodeSets. tsolve. Qed.

Lemma calling_hold w0 phase subject reason s : resp (calling w0) (hold phase subject reason) s.
Proof. unfold hold. tsolve. Qed.

#[local] Hint Resolve calling_apply calling_createOnce calling_delete calling_adminToken calling_nodeSets
  calling_hold : resp.

(** *** Step by step *)

Lemma calling_clusterView w0 p node token s : resp (calling w0) (clusterView p node token) s.
Proof. unfold clusterView. tsolve. Qed.
#[local] Hint Resolve calling_clusterView : resp.

Lemma calling_askNodes w0 p nodes token s : resp (calling w0) (askNodes p nodes token) s.
Proof. revert s. induction nodes; intros s; simpl; tsolve. Qed.

Lemma calling_adopt_loop w0 p nodes s : resp (calling w0) (adopt_loop p nodes) s.
Proof. revert s. induction nodes; intros s; simpl; tsolve. Qed.

Lemma calling_classify_loop w0 p desired n l s : resp (calling w0) (classify_loop p desired n l) s.
Proof. revert n l s. induction desired; intros n l s; simpl; tsolve. Qed.

Lemma calling_tryLayout w0 p nodes roles widths token last s :
  resp (calling w0) (tryLayout p nodes roles widths token last) s.
Proof. revert last s. induction nodes; intros last s; simpl; tsolve. Qed.

Lemma calling_reload_loop w0 p i nodes token c b s : resp (calling w0) (reload_loop p i nodes token c b) s.
Proof. revert i c b s. induction nodes; intros i c b s; simpl; [rsolve|]. unfold reloadNode. tsolve. Qed.

Lemma calling_resolveKeys w0 cluster items s : resp (calling w0) (resolveKeys cluster items) s.
Proof. revert s. induction items; intros s; simpl; [rsolve|]. unfold resolveKey. tsolve. Qed.

#[local] Hint Resolve calling_askNodes calling_adopt_loop calling_classify_loop calling_tryLayout
  calling_reload_loop calling_resolveKeys : resp.

Lemma pipeline_calling w0 :
  Forall (λ step, ∀ s, calling w0 s (step_Run step s).2) (pipeline OperatorNamespace).
Proof.
  assert (∀ name always (m : M (Env W pass) Outcome),
    (∀ s, resp (calling w0) m s) → ∀ s, calling w0 s (step_Run (step_of name always m) s).2) as Hof.
  { intros name always m Hm s. specialize (Hm s). unfold resp in Hm. simpl. unfold run_M.
    by destruct (m s) as [[]?]. }
  unfold pipeline, steps_before_nodes, steps_after_drain. cbn [app].
  repeat (apply Forall_cons; split; [apply Hof; intros s|]); [..|by apply Forall_nil].
  - unfold validate, refuse. tsolve.
  - unfold planDecommission. tsolve.
  - unfold render, collectAccessKeys. tsolve.
  - unfold observe. tsolve.
  - unfold reconcileSecrets, generateSecret, requireSecret, refuse, NewClusterSecret, NewRootCredentialsSecret,
      NewAdminTokenSecret, keygen_Token, keygen_AccessKey. tsolve.
  - unfold reconcileServices. tsolve.
  - unfold reconcileNodeConfigs. tsolve.
  - unfold gatherConvergence. tsolve.
  - unfold reconcileStorage, finishAdoption, expandNode, growClaims, growClaim, refuse. tsolve.
  - unfold reconcileNodes, classify, roll, rollingUpdate. tsolve.
  - unfold reconcileLayout, holdLayout, applyLayout. tsolve.
  - unfold reconcileDecommission, holdDrain, removeNode. tsolve.
  - unfold reconcileReload. tsolve.
  - unfold reconcileBudget. tsolve.
  - unfold reconcileNetworkPolicy, deleteIfExists. tsolve.
  - unfold reconcilePodMonitor, podMonitorAvailable, deleteIfExists. tsolve.
  - unfold reconcileStatus. tsolve.
Qed.

(** ** What was heard, and what it justifies *)

(** A node of the pass was asked for the layout and for the nodes it sees, and
    this is the view its answers make. *)
Definition view_heard (w0 w1 : W) (p : pass) (c : convergence) : Prop :=
  ∃ node token w r nodes, node ∈ p_nodes p ∧
    heard w0 w (adm_Layout (node_url p node) token) r ∧
    heard w w1 (adm_Nodes (node_url p node) token) (Ok nodes) ∧
    cv_layout c = match r with Ok layout => Some layout | Err _ => None end ∧
    cv_nodes c = index_view nodes.

(** The view says that nothing moves and every node of the pass is up; or that
    nothing moves and a node has no share. *)
Definition settled_heard (w0 w1 : W) (p : pass) : Prop := ∃ c, view_heard w0 w1 p c ∧ settled p c.

Definition unshared_heard (w0 w1 : W) (p : pass) (name : string) : Prop :=
  ∃ c layout, view_heard w0 w1 p c ∧ cv_layout c = Some layout ∧ Retained layout = [] ∧
    name ∉ (role_ID <$> Members layout).

(** Before a StatefulSet of a serving node is applied, or one is deleted with its
    pod, that was heard. *)
Definition grounded (w0 : W) (p : pass) (w1 : W) (a : action) : Prop :=
  match a with
  | AApply (OStatefulSet set) =>
      serving (p_live p) (set_Name set) = true →
      SingleNode (fsc_Spec (p_cluster p)) = true ∨
      ∃ w, settled_heard w0 w p ∧ made w w1 (k_apply (OStatefulSet set))
  | ADelete KindSet ns name false =>
      ∃ w, unshared_heard w0 w p name ∧ made w w1 (k_delete KindSet ns name false)
  | _ => True
  end.

Lemma view_heard_later w0 w1 w2 p c : later w1 w2 → view_heard w0 w1 p c → view_heard w0 w2 p c.
Proof.
  intros H (node & token & w & r & nodes & ?&?& Hn &?&?). exists node, token, w, r, nodes.
  split_and!; [done..| |done|done]. by eapply heard_later.
Qed.

#[local] Instance grounded_lasting w0 p : Lasting pass_step (grounded w0 p).
Proof.
  intros w w' [[]| |[] ? ? []| | | | | | | | | | | | | | | | |] Hw; simpl; auto.
  - intros H [?|(w1 & ? & ?)]%H; [by left|right]. exists w1. split; [done|]. by eapply made_later.
  - intros (w1 & ? & ?). exists w1. split; [done|]. by eapply made_later.
Qed.

Lemma quiet_grounded w0 p w1 a : quiet a → grounded w0 p w1 a.
Proof. by destruct a as [[]| |[] ? ? []| | | | | | | | | | | | | | | | |]. Qed.

Lemma view_heard_inputs w0 w1 p p' c : inputs p' = inputs p → view_heard w0 w1 p c → view_heard w0 w1 p' c.
Proof.
  intros (Hc & Hn & _)%inputs_inv (node & token & w & r & nodes & H). exists node, token, w, r, nodes.
  unfold node_url in *. by rewrite Hc, Hn.
Qed.

Lemma grounded_inputs w0 p p' w1 a : inputs p' = inputs p → grounded w0 p w1 a → grounded w0 p' w1 a.
Proof.
  intros Hi. pose proof (inputs_inv _ _ Hi) as (Hc & Hn & _ & Hl & _).
  destruct a as [[]| |[] ? ? []| | | | | | | | | | | | | | | | |]; simpl; auto.
  - rewrite Hc, Hl. intros H [?|(w & (c & Hv & Hs) & ?)]%H; [by left|right]. exists w. split; [|done].
    exists c. split; [by eapply view_heard_inputs|]. unfold settled in *. by rewrite Hn.
  - intros (w & (c & layout & Hv & Hrest) & ?). exists w. split; [|done]. exists c, layout.
    split; [by eapply view_heard_inputs|done].
Qed.

(** *** What the convergence step hears *)

Lemma clusterView_heard p node token s view s' :
  node ∈ p_nodes p → clusterView p node token s = (Ok view, s') →
  view_heard (e_world s) (e_world s') p view.
Proof.
  intros Hn. unfold clusterView, mbind, M_bind, try. cbv zeta. rewrite call_eq.
  destruct (adm_Client _ _ _) as [[[]|e] w1] eqn:Hc; [|done]. rewrite call_eq. cbn [e_world e_log e_st].
  destruct (adm_Layout _ _ w1) as [r w2] eqn:Hl.
  assert (heard (e_world s) w2 (adm_Layout (node_url p node) token) r) as Hheard
    by (apply (heard_now _ _ w1); [exact (call_later pass_step Hc)|done]).
  destruct r as [l|e]; [|destruct (err_is KNoLayout e); [|done]]; unfold ret; rewrite call_eq; cbn [e_world e_log e_st];
    (destruct (adm_Nodes _ _ w2) as [[nodes|e'] w3] eqn:Hns; [|done]); intros [= <- <-].
  - exists node, token, w2, (Ok l), nodes. split_and!; [done..| |done|done]. by apply (heard_now _ _ w2).
  - exists node, token, w2, (Err e), nodes. split_and!; [done..| |done|done]. by apply (heard_now _ _ w2).
Qed.

Lemma view_heard_earlier w0 w1 w2 p c : later w0 w1 → view_heard w1 w2 p c → view_heard w0 w2 p c.
Proof.
  intros H (node & token & w & r & nodes & ?& Hl &?&?&?). exists node, token, w, r, nodes.
  split_and!; [done| |done..]. by eapply heard_earlier.
Qed.

Lemma askNodes_heard p nodes token s :
  (∀ node, node ∈ nodes → node ∈ p_nodes p) → e_st s = p →
  let s' := (askNodes p nodes token s).2 in
  e_st s' = p ∨ ∃ view, e_st s' = set_convergence (with_verdict view (converged p view)) p ∧
    view_heard (e_world s) (e_world s') p view.
Proof.
  revert s. induction nodes as [|node nodes IH]; intros s Hin Hs; simpl; [by left|].
  assert (st_rel (keeps id) s (clusterView p node token s).2) as Hst
    by (apply (resp_clusterView (λ _, True) (keeps id)); apply _).
  unfold st_rel, keeps in Hst.
  destruct (clusterView p node token s) as [[view|e] s1] eqn:E; unfold put_st; msimpl; rewrite E; simpl.
  - right. exists view. rewrite Hst, Hs. split; [done|]. apply (clusterView_heard _ _ _ _ _ _ (Hin node ltac:(left)) E).
  - destruct (IH s1) as [H|(view & H & Hv)]; [set_solver|by rewrite Hst|by left|right].
    exists view. split; [done|]. eapply view_heard_earlier; [|exact Hv].
    pose proof (calling_clusterView (e_world s) p node token s) as Hc. unfold resp in Hc. rewrite E in Hc.
    exact (proj1 (Hc (reflexivity _))).
Qed.

(** What the pass knows of the cluster it heard, unless it applied a layout
    since; a single node has no peers to ask. *)
Definition knows (w0 w1 : W) (p : pass) : Prop :=
  cv_known (p_convergence p) = true → p_layoutApplied p = false →
  (SingleNode (fsc_Spec (p_cluster p)) = true ∧ cv_layout (p_convergence p) = None) ∨
  view_heard w0 w1 p (p_convergence p).

Lemma knows_nothing w0 w1 p : cv_known (p_convergence p) = false → knows w0 w1 p.
Proof. intros H Hk. congruence. Qed.

Lemma knows_later w0 w1 w2 p : later w1 w2 → knows w0 w1 p → knows w0 w2 p.
Proof. intros Hw H Hk Ha. destruct (H Hk Ha); [by left|right]. by eapply view_heard_later. Qed.

Lemma knows_earlier w0 w1 w2 p : later w0 w1 → knows w1 w2 p → knows w0 w2 p.
Proof. intros Hw H Hk Ha. destruct (H Hk Ha); [by left|right]. by eapply view_heard_earlier. Qed.

(** The inputs stay, and so does what is known, unless a layout is applied. *)
Definition onward (p p' : pass) : Prop :=
  inputs p' = inputs p ∧
  (p_convergence p' = p_convergence p ∧ p_layoutApplied p' = p_layoutApplied p ∨ p_layoutApplied p' = true).

Lemma onward_decided p p' : decided p' = decided p → onward p p'.
Proof. intros (? & ? & ?)%decided_inv. split; [done|by left]. Qed.

Lemma onward_core p p' : core p' = core p → onward p p'.
Proof. intros. by apply onward_decided, core_decided. Qed.

Lemma onward_layout p p' : view_after p p' → onward p p'.
Proof. intros (_ & Hi & _ & [?|[? _]]); split; auto. Qed.

Lemma knows_onward w0 w p p' : onward p p' → knows w0 w p → knows w0 w p'.
Proof.
  intros (Hi & [[Hc Ha]|Ha]) H Hk Ha'; [|congruence].
  rewrite Hc in *. rewrite Ha in Ha'. pose proof (inputs_inv _ _ Hi) as (Hcl & _).
  rewrite Hcl. destruct (H Hk Ha') as [?|?]; [by left|right]. by eapply view_heard_inputs.
Qed.

Lemma gatherConvergence_heard s :
  cv_known (p_convergence (e_st s)) = false →
  knows (e_world s) (e_world (gatherConvergence s).2) (e_st (gatherConvergence s).2).
Proof.
  intros Hk. unfold gatherConvergence, get_st, put_st. msimpl.
  destruct (SingleNode (fsc_Spec (p_cluster (e_st s)))) eqn:Hs; [intros _ _; by left|].
  pose proof (adminToken_state s) as Ht. pose proof (calling_adminToken (e_world s) s (reflexivity _)) as [Hw _].
  destruct (adminToken s) as [[token|e] s1]; simpl in *; [|apply knows_nothing; by rewrite Ht].
  destruct (askNodes_heard (e_st s) (askOrder (e_st s)) token s1) as [H|(view & H & Hv)];
    [by intros node [? _]%elem_of_askOrder|done|..];
    destruct (askNodes _ _ _ _) as [[] s2]; simpl in *; try (apply knows_nothing; by rewrite H);
    intros _ _; right; rewrite H; (eapply view_heard_earlier; [exact Hw|]);
    (apply (view_heard_inputs _ _ (e_st s)); [done|exact Hv]).
Qed.

(** ** Along the pipeline

    Beside an assertion of [Safety]: the world is later than [w0], what the pass
    knows it heard since, and what it did rests on that; [E] says how far the
    pass is. *)
Definition founded (w0 : W) (E : pass → Prop) (s : Env W pass) : Prop :=
  later w0 (e_world s) ∧ E (e_st s) ∧ knows w0 (e_world s) (e_st s) ∧
  Forall (grounded w0 (e_st s) (e_world s)) (e_log s).

(** Nothing was asked yet; no layout was applied yet. *)
Definition unasked (p : pass) : Prop := cv_known (p_convergence p) = false ∧ p_layoutApplied p = false.
Definition unlaid (p : pass) : Prop := p_layoutApplied p = false.

Lemma founded_stable w0 (E : pass → Prop) :
  (∀ p p', core p' = core p → E p → E p') → ∀ e s, founded w0 E s → founded w0 E (env_RecordFailure e s).
Proof.
  intros HE e s (H1 & H2 & H3 & H4). pose proof (core_RecordFailure e (e_st s)) as Hc.
  pose proof (core_decided _ _ Hc) as (Hi & Hv & Ha)%decided_inv. split_and!; [done|by eapply HE| |].
  - apply (knows_onward _ _ (e_st s)); [by apply onward_core|done].
  - eapply Forall_impl; [exact H4|]. intros a. by apply grounded_inputs.
Qed.

Lemma quiet_founded w0 (E : pass → Prop) s :
  later w0 (e_world s) → E (e_st s) → cv_known (p_convergence (e_st s)) = false → Forall quiet (e_log s) →
  founded w0 E s.
Proof.
  intros. split_and!; [done..|by apply knows_nothing|].
  eapply Forall_impl; [done|]. intros a. apply quiet_grounded.
Qed.

Lemma run_M_eq (m : M (Env W pass) Outcome) s : (run_M m s).2 = (m s).2.
Proof. unfold run_M. by destruct (m s) as [[]?]. Qed.

(** A step that acts, if at all, on what the pass knows already. *)
Lemma founded_step w0 name always (m : M (Env W pass) Outcome) (φ : pass → action → Prop) (Q : relation pass)
    (F : pass → Prop) (E E' : pass → Prop) :
  step_of name always m ∈ pipeline OperatorNamespace →
  (∀ s, F (e_st s) → resp (env_rel (φ (e_st s)) Q) m s) →
  (∀ p p', Q p p' → onward p p') →
  (∀ p p', Q p p' → E p → E' p') →
  (∀ p w w' a, F p → E p → knows w0 w p → φ p a → calls_made w w' a → grounded w0 p w' a) →
  ∀ s, F (e_st s) → founded w0 E s → founded w0 E' (run_M m s).2.
Proof.
  intros Hin Hm HQ HE Hφ s HF (Hw & HEs & Hk & Hg). unfold founded. rewrite run_M_eq.
  pose proof (pipeline_calling (e_world s)) as Hp. rewrite Forall_forall in Hp. specialize (Hp _ Hin s (reflexivity _)).
  simpl in Hp. rewrite run_M_eq in Hp. destruct Hp as (Hw' & (l1 & E1 & H1) & _).
  destruct (Hm s HF) as [(l2 & E2 & H2) Hst]. unfold st_rel in Hst.
  rewrite E1 in E2. apply app_inv_head in E2 as <-. pose proof (HQ _ _ Hst) as Hv.
  pose proof Hv as [Hi _]. split_and!.
  - by etrans.
  - by eapply HE.
  - eapply knows_onward; [exact Hv|]. by eapply knows_later.
  - rewrite E1. apply Forall_app. split; (eapply Forall_impl; [|intros a Ha; apply (grounded_inputs _ (e_st s)); [exact Hi|exact Ha]]).
    + eapply Forall_impl; [exact Hg|]. intros a. by apply (lasting pass_step).
    + rewrite Forall_forall in H1, H2 |- *. intros a Ha. eapply Hφ; eauto.
Qed.

(** Two assertions carried together, the second with the help of the first. *)
Definition both (I : bool → Env W pass → Prop) (J : Env W pass → Prop) (b : bool) (s : Env W pass) : Prop :=
  I b s ∧ J s.

Lemma both_stable I w0 (E : pass → Prop) :
  stable env_RecordFailure I → (∀ p p', core p' = core p → E p → E p') →
  stable env_RecordFailure (both I (founded w0 E)).
Proof. intros HI HE b e s [H1 H2]. split; [by apply HI|by apply founded_stable]. Qed.

Lemma step_ok_both I I' (J J' : Env W pass → Prop) name always (m : M (Env W pass) Outcome) :
  step_ok I I' (step_of name always m) →
  (∀ s, always = false → I true s → J s → J' s) →
  (∀ b s, b = false ∨ always = true → I b s → J s → J' (run_M m s).2) →
  step_ok (both I J) (both I' J') (step_of name always m).
Proof.
  intros [H1 H2] HJ HJ'. split.
  - intros s Ha [HI Hs]. split; [by apply H1|by eapply HJ].
  - intros b s out err s' Hb [HI Hs] Hrun. split; [by eapply H2|].
    specialize (HJ' b s Hb HI Hs). simpl in Hrun. by rewrite Hrun in HJ'.
Qed.

(** *** One lemma per kind of step *)

Section steps.
Context (object : FSCluster) (w0 : W).

Abbreviation F3 := (F3 FSImageRegistry object).
Abbreviation L4 := (L4 FSImageRegistry object).

(** Before a node is asked. *)
Definition early (s : Env W pass) : Prop := later w0 (e_world s) ∧ unasked (e_st s).

Lemma unasked_core p p' : core p' = core p → unasked p → unasked p'.
Proof. intros (_ & Hc & Ha)%core_decided%decided_inv [H1 H2]. unfold unasked. by rewrite Hc, Ha. Qed.

Lemma unlaid_core p p' : core p' = core p → unlaid p → unlaid p'.
Proof. intros (_ & _ & Ha)%core_decided%decided_inv H. unfold unlaid. by rewrite Ha. Qed.

Lemma early_stable I : stable env_RecordFailure I → stable env_RecordFailure (both I early).
Proof.
  intros HI b e s [H1 [Hw H2]]. split; [by apply HI|]. split; [done|].
  eapply unasked_core; [apply core_RecordFailure|done].
Qed.

Lemma step_later step s : step ∈ pipeline OperatorNamespace → later (e_world s) (e_world (step_Run step s).2).
Proof.
  intros Hin. pose proof (pipeline_calling (e_world s)) as H. rewrite Forall_forall in H.
  by destruct (H _ Hin s (reflexivity _)) as [? _].
Qed.

Lemma ground_early I I' name always (m : M (Env W pass) Outcome) (φ : action → Prop) (Q : relation pass) :
  step_ok I I' (step_of name always m) →
  step_of name always m ∈ pipeline OperatorNamespace →
  (∀ s, resp (env_rel φ Q) m s) →
  (∀ p p', Q p p' → p_convergence p' = p_convergence p ∧ p_layoutApplied p' = p_layoutApplied p) →
  step_ok (both I early) (both I' early) (step_of name always m).
Proof.
  intros Hok Hin Hm HQ. apply step_ok_both; [done|done|]. intros b s _ _ [Hw [H1 H2]].
  pose proof (step_later _ s Hin) as Hw'. simpl in Hw'. split; [by etrans|].
  rewrite run_M_eq in *. destruct (Hm s) as [_ [Hc Ha]%HQ]. unfold unasked. by rewrite Hc, Ha.
Qed.

Lemma core_unasked p p' : keeps core p p' →
  p_convergence p' = p_convergence p ∧ p_layoutApplied p' = p_layoutApplied p.
Proof. by intros (_ & ? & ?)%core_decided%decided_inv. Qed.

(** Asking. *)
Lemma ground_convergence F F' :
  step_ok (inv F L1) (inv F' L1') (step_of "convergence" false (gatherConvergence (W := W))) →
  step_ok (both (inv F L1) early) (both (inv F' L1') (founded w0 unlaid))
    (step_of "convergence" false gatherConvergence).
Proof.
  intros Hok. apply step_ok_both; [done| |].
  - intros s _ [[Hq _] _] [Hw [Hk Ha]]. by apply quiet_founded.
  - intros b s _ [[Hq _] _] [Hw [Hk Ha]].
    assert (step_of "convergence" false gatherConvergence ∈ pipeline OperatorNamespace) as Hin
      by (do 7 right; left).
    pose proof (step_later _ s Hin) as Hw'. simpl in Hw'. rewrite run_M_eq in *.
    destruct (resp_gatherConvergence (λ _, False) s) as [(l & Hl & Hf) Hst]. unfold st_rel, keeps in Hst.
    destruct l as [|a l]; [|by inversion Hf]. rewrite app_nil_r in Hl.
    split_and!; [by etrans| |eapply knows_earlier, gatherConvergence_heard; done|].
    + unfold unlaid. congruence.
    + rewrite Hl. eapply Forall_impl; [exact Hq|]. intros a. apply quiet_grounded.
Qed.

(** Acting. *)
Lemma ground_step I I' (F : pass → Prop) (E E' : pass → Prop) name always (m : M (Env W pass) Outcome)
    (φ : pass → action → Prop) (Q : relation pass) :
  step_ok I I' (step_of name always m) →
  step_of name always m ∈ pipeline OperatorNamespace →
  (∀ s, I false s → F (e_st s)) → (always = true → ∀ p, F p) →
  (∀ s, F (e_st s) → resp (env_rel (φ (e_st s)) Q) m s) →
  (∀ p p', Q p p' → onward p p') →
  (∀ p, E p → E' p) → (∀ p p', Q p p' → E p → E' p') →
  (∀ p w w' a, F p → E p → knows w0 w p → φ p a → calls_made w w' a → grounded w0 p w' a) →
  step_ok (both I (founded w0 E)) (both I' (founded w0 E')) (step_of name always m).
Proof.
  intros Hok Hin HF Hal Hm HQ HE HE' Hφ. apply step_ok_both; [done| |].
  - intros s _ _ (H1 & H2 & H3 & H4). split_and!; auto.
  - intros b s Hb HI Hs.
    assert (F (e_st s)) as HFs by (destruct Hb as [->|?]; auto).
    by apply (founded_step w0 name always m φ Q F E E'); auto.
Qed.

(** *** What each kind of action rests on *)

Lemma may_touch_grounded p w w' a :
  F3 p ∧ view_ok p → unlaid p → knows w0 w p → may_touch p (stale_order p) a → calls_made w w' a →
  grounded w0 p w' a.
Proof.
  intros [(_ & _ & _ & Hnr) Hview] Ha Hk Ht Hc.
  destruct a as [[]| |[] ? ? []| | | | | | | | | | | | | | | | |]; try done.
  2: by destruct Ht as [(want & ? & _)|Hin].
  simpl. intros Hs. destruct Ht as [(want & Heq & _ & Hl)|(want & Heq & _ & [Hd|(_ & Hkn & Hv & _)])].
  all: simplify_eq/=.
  - unfold serving in Hs. by rewrite Hl in Hs.
  - rewrite Hnr, elem_of_down_names in Hd. destruct Hd. congruence.
  - destruct (Hk Hkn Ha) as [[? _]|Hh]; [by left|].
    destruct (Hview Hv) as [?|[_ Hset]]; [by left|right].
    exists w. split; [by exists (p_convergence p)|exact Hc].
Qed.

Lemma may_drain_grounded p w w' a :
  knows w0 w p → may_drain p a → calls_made w w' a → grounded w0 p w' a.
Proof.
  intros Hk Hd Hc. destruct a as [[]| |[] ? ? []| | | | | | | | | | | | | | | | |]; try done.
  destruct Hd as (_ & set & _ & _ & Hkn & Ha & layout & Hl & Hr & Hm).
  destruct (Hk Hkn Ha) as [[_ ?]|Hh]; [congruence|].
  exists w. split; [|exact Hc]. by exists (p_convergence p), layout.
Qed.

Lemma may_store_grounded p (w' : W) a : may_store p a → grounded w0 p w' a.
Proof. destruct a as [[]| |[] ? ? []| | | | | | | | | | | | | | | | |]; try done. by intros [? _]. Qed.

(** After the drain. *)
Lemma ground_after name always (m : M (Env W pass) Outcome) (φ : action → Prop) :
  step_of name always m ∈ pipeline OperatorNamespace →
  (∀ s, resp (env_rel φ (keeps decided)) m s) → (∀ a, φ a → quiet a) →
  step_ok (both (inv (λ _, True) L4) (founded w0 (λ _, True))) (both (inv (λ _, True) L4) (founded w0 (λ _, True)))
    (step_of name always m).
Proof.
  intros Hin Hm Hφ. apply (ground_step _ _ (λ _, True) _ _ _ _ _ (λ _, φ) (keeps decided)); try done.
  - by eapply step_L4.
  - apply onward_decided.
  - intros p w w' a _ _ _ Ha _. by apply quiet_grounded, Hφ.
Qed.

Lemma resp_reload_quiet s : resp (env_rel quiet (keeps decided)) reconcileReload s.
Proof.
  eapply env_rel_mono; [| |apply resp_reconcileReload]; [by intros []|].
  intros p p' Hk. unfold keeps in *. congruence.
Qed.

Ltac in_pipeline :=
  unfold pipeline, steps_before_nodes, steps_after_drain; cbn [app];
  repeat first [apply list_elem_of_here|apply list_elem_of_further].

Lemma both_early_stable F :
  F = Safety.F0 FSImageRegistry object ∨ F = Safety.F1 FSImageRegistry object ∨
  F = Safety.F2 FSImageRegistry object ∨ F = F3 →
  stable env_RecordFailure (both (inv F L1) early).
Proof. intros HF. apply early_stable. eapply phase_stable; eauto. Qed.

Lemma both_phase_stable L :
  L = L1' ∨ L = L2 ∨ L = L3 → stable env_RecordFailure (both (inv F3 L) (founded w0 unlaid)).
Proof. intros HL. apply both_stable; [|apply unlaid_core]. eapply phase_stable; eauto. Qed.

Lemma both_drained_stable :
  stable env_RecordFailure (both (inv (λ _, True) L4) (founded w0 (λ _, True))).
Proof. apply both_stable; [apply drained_stable|done]. Qed.

Tactic Notation "early_phase" uconstr(step) uconstr(resp_step) :=
  eapply run_step_ok; [apply both_early_stable; auto|eapply ground_early;
    [apply step|in_pipeline|intros ?; apply resp_step; done
    |intros ? ? ?; first [by apply core_unasked|unfold keeps in *; split; congruence]]
    |]; try (intros ?; apply resp_step; done).
Tactic Notation "after_phase" :=
  eapply run_step_ok; [apply both_drained_stable|eapply ground_after; [in_pipeline| |]|].

(** What holds of the log once the pass has read the cluster. *)
Lemma early_founded w :
  later w0 w →
  let l := run_loop env_RecordFailure (take 8 (pipeline OperatorNamespace))
    (mkLoop 0 false None (mkEnv w [] (newPass object FSImageRegistry))) in
  both (inv F3 L1') (founded w0 unlaid) (lp_stopped l) (lp_state l).
Proof.
  intros Hw. cbv zeta. unfold pipeline, steps_before_nodes, steps_after_drain. cbn [app take].
  unfold run_loop; cbn [foldl].
  eapply run_step_ok; [apply both_phase_stable; auto|apply ground_convergence, step_convergence|].
  early_phase (step_L1_benign FSImageRegistry object) resp_reconcileNodeConfigs.
  early_phase (step_L1_benign FSImageRegistry object) resp_reconcileServices.
  early_phase (step_secrets FSImageRegistry object) resp_reconcileSecrets.
  early_phase (step_observe FSImageRegistry object) (resp_observe (λ _, False)).
  early_phase (step_render FSImageRegistry object) (resp_render (λ _, False)).
  early_phase (step_plan FSImageRegistry object) (resp_planDecommission reporting).
  early_phase (step_validate FSImageRegistry object) resp_validate.
  split; [split; [split; [constructor|done]|]|]; done.
Qed.

(** The steps that act on what was read. *)
Lemma acting_founded l :
  both (inv F3 L1') (founded w0 unlaid) (lp_stopped l) (lp_state l) →
  let l' := run_loop env_RecordFailure (take 4 (drop 8 (pipeline OperatorNamespace))) l in
  both (inv (λ _, True) L4) (founded w0 (λ _, True)) (lp_stopped l') (lp_state l').
Proof.
  intros Hl. cbv zeta. unfold pipeline, steps_before_nodes, steps_after_drain. cbn [app drop take].
  unfold run_loop; cbn [foldl].
  eapply run_step_ok; [apply both_drained_stable| |].
  { eapply (ground_step _ _ F3 (λ _, True) _ _ _ _ may_drain (keeps core)); try done;
      [apply step_drain|in_pipeline|by intros s [_ HF]; apply HF| |apply onward_core|].
    - intros s (_ & Hrm & _). apply resp_reconcileDecommission. by eapply removed_ok_nil.
    - intros p v v' a _ _. apply may_drain_grounded. }
  eapply run_step_ok; [apply both_stable; [eapply phase_stable; eauto|done]| |].
  { eapply (ground_step _ _ (λ _, True) unlaid _ _ _ _ may_change_layout view_after); try done;
      [apply step_layout|in_pipeline|intros; apply resp_reconcileLayout|apply onward_layout|].
    intros p v v' a _ _ _ Ha _. apply quiet_grounded. by destruct a. }
  eapply run_step_ok; [apply both_phase_stable; auto| |].
  { eapply (ground_step _ _ (λ p, F3 p ∧ view_ok p) unlaid _ _ _ _ (λ p, may_touch p (stale_order p)) (keeps core)); try done;
      [apply step_nodes|in_pipeline|intros s [(_ & _ & ?) HF]; auto
      |intros; apply resp_reconcileNodes|apply onward_core|apply unlaid_core|apply may_touch_grounded]. }
  eapply run_step_ok; [apply both_phase_stable; auto| |exact Hl].
  eapply (ground_step _ _ F3 unlaid _ _ _ _ may_store (keeps core)); try done;
    [apply step_storage|in_pipeline|by intros s [_ HF]; apply HF| |apply onward_core|apply unlaid_core|].
  - intros s (_ & _ & ? & _). by apply resp_reconcileStorage.
  - intros p v v' a _ _ _ Ha _. by apply may_store_grounded.
Qed.

(** And those that follow. *)
Lemma after_founded l :
  both (inv (λ _, True) L4) (founded w0 (λ _, True)) (lp_stopped l) (lp_state l) →
  let l' := run_loop env_RecordFailure (drop 12 (pipeline OperatorNamespace)) l in
  both (inv (λ _, True) L4) (founded w0 (λ _, True)) (lp_stopped l') (lp_state l').
Proof.
  intros Hl. cbv zeta. unfold pipeline, steps_before_nodes, steps_after_drain. cbn [app drop].
  unfold run_loop; cbn [foldl].
  after_phase; [apply resp_reconcileStatus|by intros []|].
  after_phase; [intros; apply keeps_core_decided, resp_reconcilePodMonitor|apply benign_quiet|].
  after_phase; [intros; apply keeps_core_decided, resp_reconcileNetworkPolicy|apply benign_quiet|].
  after_phase; [intros; apply keeps_core_decided, resp_reconcileBudget|apply benign_quiet|].
  after_phase; [apply resp_reload_quiet|done|].
  exact Hl.
Qed.

Lemma pass_founded w :
  later w0 w →
  let s := (run_pass OperatorNamespace FSImageRegistry object w []).2 in
  L4 (e_st s) (e_log s) ∧ Forall (grounded w0 (e_st s) (e_world s)) (e_log s).
Proof.
  intros Hw. pose proof (after_founded _ (acting_founded _ (early_founded w Hw))) as H. cbv zeta in *.
  unfold run_pass. rewrite Run_state. rewrite <- !run_loop_app in H.
  destruct H as [[H1 _] (_ & _ & _ & H2)]. by split.
Qed.
End steps.

(** * Theorems *)

(** C1: In one pass over any cluster, at most one node that was serving is
    replaced (its StatefulSet re-applied or its pod deleted), and only when
    every node of the pass was serving and the cluster had converged.  That is
    not only what the pass believed: unless the node is alone, a node of the pass
    was asked during it, before the StatefulSet was applied, for the layout and
    for the nodes it sees, and answered a layout that retains no older version
    with every node of the pass up on it. *)
Theorem pass_one_at_a_time (object : FSCluster) (w : W) :
  let s := (run_pass OperatorNamespace FSImageRegistry object w []).2 in
  one_at_a_time (e_st s) (e_log s) ∧ view_ok (e_st s) ∧
  ∀ set, AApply (OStatefulSet set) ∈ e_log s → serving (p_live (e_st s)) (set_Name set) = true →
    SingleNode (fsc_Spec (p_cluster (e_st s))) = true ∨
    ∃ w1, settled_heard w w1 (e_st s) ∧ made w1 (e_world s) (k_apply (OStatefulSet set)).
Proof.
  destruct (pass_founded object w w (reflexivity w)) as [(H1 & _ & H3) Hg]. rewrite Forall_forall in Hg.
  split_and!; [done..|]. intros set Hin. exact (Hg _ Hin).
Qed.

(** C2: A pass deletes a node's StatefulSet (pod included) only if the spec no
    longer declares the node, and, earlier in the same pass, a node answered it
    with a layout that gives that node no share and retains no older version,
    and the pass applied no layout since. *)
Theorem pass_removals_safe (object : FSCluster) (w : W) :
  let s := (run_pass OperatorNamespace FSImageRegistry object w []).2 in
  let c := with_defaults object FSImageRegistry in
  removals_safe (NodeNames (fsc_Spec c) (fsc_Name c)) (e_st s) (e_log s) ∧
  ∀ ns name, ADelete KindSet ns name false ∈ e_log s →
    ∃ w1, unshared_heard w w1 (e_st s) name ∧ made w1 (e_world s) (k_delete KindSet ns name false).
Proof.
  destruct (pass_founded object w w (reflexivity w)) as [(_ & H2 & _) Hg]. rewrite Forall_forall in Hg.
  cbv zeta. rewrite <- Nodes_names. split; [exact H2|]. intros ns name Hin. exact (Hg _ Hin).
Qed.
End calls.
