(* ===== verification/World.v ===== *)
(** * The world a cluster is reconciled in

    What a sequence of passes changes and what it depends on: the StatefulSets of
    one cluster's nodes, the layout fs runs, which nodes are up.  [ClusterWorld]
    states what the API server and the admin API promise about them: an
    operation changes what it is asked to change and nothing else, reads answer
    the truth, and, while the world is calm, nothing fails.  The StatefulSet
    controller, the nodes and the users act between the passes. *)

From S2P Require Import Prelude.
From S2P Require Import ApiTypes.
From S2P Require Import Defaults.
From S2P Require Import Nodes.
From S2P Require Import FsClient.
From S2P Require Import Kube.
From S2P Require Import Config.
From S2P Require Import Builders.
From S2P Require Import Pass.
From S2P Require Import Status.
From S2P Require Import Convergence.
From S2P Require Import Rollout.
From S2P Require Import LayoutStep.
From S2P Require Import Decommission.
From S2P Require Import StorageStep.
From S2P Require Import Controller.

(** ** What is observed of a world *)

Record Obs := mkObs {
  o_sets : gmap string StatefulSet;
  o_layout : option Layout;
  (** The nodes the cluster's gossip sees up. *)
  o_up : gset string;
  (** Nothing the operator calls fails. *)
  o_calm : bool;
}.

Definition put_set (name : string) (s : StatefulSet) (o : Obs) : Obs :=
  mkObs (<[name := s]> (o_sets o)) (o_layout o) (o_up o) (o_calm o).
Definition drop_set (name : string) (o : Obs) : Obs :=
  mkObs (delete name (o_sets o)) (o_layout o) (o_up o) (o_calm o).
Definition put_layout (l : Layout) (o : Obs) : Obs :=
  mkObs (o_sets o) (Some l) (o_up o) (o_calm o).

(** The Secrets a pass cannot go without, and what it reads in them. *)
Definition needed_secrets (b : FSCluster) : list (string * list string) :=
  [(ClusterSecretSource b, [ClusterSecretKey]);
   (RootCredentialsSource b, [AccessKeyKey; SecretKeyKey]);
   (AdminTokenSecretName (fsc_Name b), [AdminTokenKey])].

(** The layout a spec asks for. *)
Definition spec_roles (b : FSCluster) : list Role :=
  sort_by role_ID
    ((λ node, mkRole (node_Name node) (node_Zone node) (node_Rack node)
        (wrapu64 (q_Value (Size (Storage (fsc_Spec b)))))) <$> Nodes b).

(** A deletion that leaves nothing behind. *)
Definition is_gone (r : result unit) : bool :=
  match r with Ok _ => true | Err e => IsNotFound e end.

(** Reads and writes of other objects. *)
Definition frames {W A} (obs : W → Obs) (m : M W A) : Prop := ∀ w, obs (m w).2 = obs w.

(** ** What is promised about it

    [b] is the cluster with its defaults. *)
Class ClusterWorld (W : Type) `{!KubeClient W, !Interface W} (b : FSCluster) := {
  obs : W → Obs;
  (** What the API server's defaulting makes of a pod template. *)
  cw_default : PodTemplateSpec → PodTemplateSpec;
  cw_default_idem : ∀ t, cw_default (cw_default t) = cw_default t;

  (** Nothing but the writes below changes what is observed. *)
  cw_listSets_frame : ∀ ns labels, frames obs (k_listSets ns labels);
  cw_listKeys_frame : ∀ ns, frames obs (k_listKeys ns);
  cw_getCluster_frame : ∀ ns name, frames obs (k_getCluster ns name);
  cw_getSecret_frame : ∀ ns name, frames obs (k_getSecret ns name);
  cw_getPVC_frame : ∀ ns name, frames obs (k_getPVC ns name);
  cw_apply_frame : ∀ o, (∀ s, o ≠ OStatefulSet s) → frames obs (k_apply o);
  cw_create_frame : ∀ o, (∀ s, o ≠ OStatefulSet s) → frames obs (k_create o);
  cw_delete_frame : ∀ k ns name orphan, k ≠ KindSet → frames obs (k_delete k ns name orphan);
  cw_updatePVC_frame : ∀ c, frames obs (k_updatePVC c);
  cw_patchStatus_frame : ∀ base o, frames obs (k_patchStatus base o);
  cw_podMonitor_frame : frames obs k_podMonitorMapped;
  cw_now_frame : ∀ w, obs (k_now w).2 = obs w;
  cw_mapOrder_frame : frames obs (draw k_mapOrder);
  cw_rand_frame : frames obs k_rand;
  cw_Client_frame : ∀ url token, frames obs (adm_Client url token);
  cw_Info_frame : ∀ url token, frames obs (adm_Info url token);
  cw_Reload_frame : ∀ url token, frames obs (adm_Reload url token);
  cw_Layout_frame : ∀ url token, frames obs (adm_Layout url token);
  cw_Nodes_frame : ∀ url token, frames obs (adm_Nodes url token);

  (** A list is of what exists. *)
  cw_listSets : ∀ w sets, (k_listSets (fsc_Namespace b) (SelectorLabels (fsc_Name b)) w).1 = Ok sets →
    sets ≡ₚ (map_to_list (o_sets (obs w))).*2;

  (** A write does what it says, or nothing when it fails; a failure may also
      come after the write was done. *)
  cw_apply_set : ∀ s w, let x := k_apply (OStatefulSet s) w in
    (obs x.2 = obs w ∧ is_ok x.1 = false) ∨
    ∃ s', obs x.2 = put_set (set_Name s) s' (obs w) ∧
      set_Name s' = set_Name s ∧ set_Namespace s' = set_Namespace s ∧ set_Claims s' = set_Claims s ∧
      template_revision s' = template_revision s ∧ set_Template s' = cw_default (set_Template s);
  cw_delete_set : ∀ ns name orphan w, let x := k_delete KindSet ns name orphan w in
    (obs x.2 = obs w ∧ (ns = fsc_Namespace b → is_gone x.1 = false)) ∨ obs x.2 = drop_set name (obs w);
  cw_ApplyLayout : ∀ url token roles widths w, let x := adm_ApplyLayout url token roles widths w in
    (obs x.2 = obs w ∧ is_ok x.1 = false) ∨
    ∃ l, obs x.2 = put_layout l (obs w) ∧ Members l = roles ∧ Widths l = widths ∧
      ∀ l', x.1 = Ok l' → l' = l;

  (** Owners and conversions do not depend on the world. *)
  cw_owner : ∀ c o, k_setOwner c o = Ok tt;
  cw_unstructured : ∀ o, k_toUnstructured o = Ok tt;

  (** What is asked of a calm world is answered. *)
  cw_calm_listSets : ∀ w, o_calm (obs w) = true →
    is_ok (k_listSets (fsc_Namespace b) (SelectorLabels (fsc_Name b)) w).1 = true;
  cw_calm_listKeys : ∀ w, o_calm (obs w) = true → is_ok (k_listKeys (fsc_Namespace b) w).1 = true;
  cw_calm_getSecret : ∀ name w e, o_calm (obs w) = true →
    (k_getSecret (fsc_Namespace b) name w).1 = Err e → IsNotFound e = true;
  cw_calm_needed : ∀ name keys w, o_calm (obs w) = true → (name, keys) ∈ needed_secrets b →
    ∃ secret, (k_getSecret (fsc_Namespace b) name w).1 = Ok secret ∧ missingKey secret keys = None;
  cw_calm_create : ∀ o w e, o_calm (obs w) = true → (k_create o w).1 = Err e → IsAlreadyExists e = true;
  cw_calm_apply : ∀ o w, o_calm (obs w) = true → is_ok (k_apply o w).1 = true;
  cw_calm_delete : ∀ k ns name orphan w, o_calm (obs w) = true → is_gone (k_delete k ns name orphan w).1 = true;
  cw_calm_rand : ∀ w, o_calm (obs w) = true → is_ok (k_rand w).1 = true;

  (** A node that is up answers: with the layout, or that there is none; with a
      view in which the nodes that are up are, on that layout or a later one; and
      it takes the layout the spec asks for. *)
  cw_up_Client : ∀ name token w, o_calm (obs w) = true → name ∈ o_up (obs w) →
    (adm_Client (AdminURL (fsc_Name b) (fsc_Namespace b) name) token w).1 = Ok tt;
  cw_up_Layout : ∀ name token w, o_calm (obs w) = true → name ∈ o_up (obs w) →
    match (adm_Layout (AdminURL (fsc_Name b) (fsc_Namespace b) name) token w).1 with
    | Ok l => o_layout (obs w) = Some l
    | Err e => err_is KNoLayout e = true ∧ o_layout (obs w) = None
    end;
  cw_up_Nodes : ∀ name token w, o_calm (obs w) = true → name ∈ o_up (obs w) →
    ∃ nodes, (adm_Nodes (AdminURL (fsc_Name b) (fsc_Namespace b) name) token w).1 = Ok nodes ∧
      ∀ m, m ∈ o_up (obs w) → ∃ n, index_view nodes !! m = Some n ∧ n_Up n = true ∧
        ∀ l, o_layout (obs w) = Some l → (Version l <= n_LayoutVersion n)%Z;
  cw_up_ApplyLayout : ∀ name token w, o_calm (obs w) = true → name ∈ o_up (obs w) →
    is_ok (adm_ApplyLayout (AdminURL (fsc_Name b) (fsc_Namespace b) name) token
      (spec_roles b) (desiredWidths (fsc_Spec b)) w).1 = true;
}.

(** ** What the spec asks for *)

(** The encoders never fail. *)
Class Encodes {CD : Codec} : Prop := {
  enc_yaml : ∀ c, is_ok (yaml_Marshal c) = true;
  enc_template : ∀ t, is_ok (json_Template t) = true;
}.

Section spec.
Context {CD : Codec} (b : FSCluster).

(** The StatefulSet of a declared node: what [render] makes of it whatever the
    access keys ([render_spec] below). *)
Definition spec_set (node : Node) : StatefulSet :=
  match RestartRevision b node (mkRenderOptions []) ≫= λ revision,
        stampTemplateRevision (NewStatefulSet b node revision) with
  | Ok set => set
  | Err _ => NewStatefulSet b node ""
  end.

Definition spec_sets : list StatefulSet := spec_set <$> Nodes b.
Definition declared : list string := node_Name <$> Nodes b.

(** The revision of a set's own template: what a set that is kept should carry. *)
Definition own_revision (s : StatefulSet) : string :=
  match TemplateRevision s with Ok r => r | Err _ => "" end.

(** A node the rollout has something to do for: missing, or not carrying the
    revision it should. *)
Definition behind (o : Obs) (name : string) : Prop :=
  match o_sets o !! name, index_sets spec_sets !! name with
  | Some s, Some want => template_revision s ≠ template_revision want
  | Some s, None => template_revision s ≠ own_revision s
  | None, Some _ => True
  | None, None => False
  end.

#[global] Instance behind_dec o name : Decision (behind o name).
Proof. unfold behind. destruct (o_sets o !! name), (index_sets spec_sets !! name); apply _. Defined.

Definition todo (o : Obs) : list string :=
  filter (behind o) (remove_dups (declared ++ (map_to_list (o_sets o)).*1)).

(** Nodes that run although the spec does not declare them. *)
Definition extra (o : Obs) : list string :=
  filter (λ name, name ∉ declared) (map_to_list (o_sets o)).*1.

(** The layout is the one the spec asks for. *)
Definition laid (o : Obs) : Prop :=
  match o_layout o with
  | Some l => sameLayout l (spec_roles b) (desiredWidths (fsc_Spec b)) = true
  | None => False
  end.

#[global] Instance laid_dec o : Decision (laid o).
Proof. unfold laid. destruct (o_layout o); apply _. Defined.

(** What is left before the cluster is what the spec says: the rollout, the
    layout, the removals. *)
Definition distance (o : Obs) : nat :=
  length (todo o) + (if decide (laid o) then 0 else 1) + (if decide (extra o = []) then 0 else 1).

(** Every set is in the cluster's namespace under its own name, and the sets of
    nodes no longer declared come from a server that has already defaulted their
    template. *)
Definition placed (default : PodTemplateSpec → PodTemplateSpec) (o : Obs) : Prop :=
  ∀ name s, o_sets o !! name = Some s →
    set_Name s = name ∧ set_Namespace s = fsc_Namespace b ∧ name ≠ "" ∧
    (name ∉ declared → default (set_Template s) = set_Template s).

(** No volume change is pending: every set has the volumes the spec asks for (the
    set of a node no longer declared, those it has itself). *)
Definition sized (o : Obs) : Prop :=
  ∀ name s, o_sets o !! name = Some s →
    diskDiff (set_Claims s) (set_Claims (default s (index_sets spec_sets !! name))) = ([], false).

(** Both at once, set by set. *)
Definition well (default : PodTemplateSpec → PodTemplateSpec) (o : Obs) : Prop :=
  ∀ name s, o_sets o !! name = Some s →
    set_Name s = name ∧ set_Namespace s = fsc_Namespace b ∧ name ≠ "" ∧
    match index_sets spec_sets !! name with
    | Some want => diskDiff (set_Claims s) (set_Claims want) = ([], false)
    | None => diskDiff (set_Claims s) (set_Claims s) = ([], false) ∧
        default (set_Template s) = set_Template s
    end.

(** The spec can be run. *)
Record runnable : Prop := mkRunnable {
  run_names : fsc_Name b ≠ "" ∧ fsc_Namespace b ≠ "";
  run_topology : topology_admitted (Topology (fsc_Spec b)) = true;
}.
End spec.

(** * Theorems *)

(** ** Sets by name *)

Lemma index_sets_lookup l name s :
  NoDup (set_Name <$> l) → index_sets l !! name = Some s ↔ s ∈ l ∧ set_Name s = name.
Proof.
  unfold index_sets. induction l as [|x l IH] using rev_ind; simpl.
  { intros _. rewrite lookup_empty. set_solver. }
  rewrite fmap_app, foldl_app. simpl. intros (Hnd & Hx & _)%NoDup_app. rewrite elem_of_app, list_elem_of_singleton.
  destruct (decide (set_Name x = name)) as [<-|Hne].
  - rewrite lookup_insert_eq. split; [intros [= ->]; auto|]. intros [[Hin| ->] Hn]; [|done].
    exfalso. apply (Hx (set_Name s)); [by apply list_elem_of_fmap_2|]. rewrite Hn. left.
  - rewrite lookup_insert_ne, IH by done. naive_solver.
Qed.

Lemma index_sets_is_Some l name : NoDup (set_Name <$> l) →
  is_Some (index_sets l !! name) ↔ name ∈ set_Name <$> l.
Proof.
  intros Hnd. rewrite list_elem_of_fmap. split.
  - intros [s Hs]. apply index_sets_lookup in Hs as [? ?]; [|done]. eauto.
  - intros (s & -> & Hin). exists s. by apply index_sets_lookup.
Qed.

(** A list of what a map holds, whatever its order, indexes to the map. *)
Lemma index_sets_listed (m : gmap string StatefulSet) l :
  (∀ name s, m !! name = Some s → set_Name s = name) → l ≡ₚ (map_to_list m).*2 → index_sets l = m.
Proof.
  intros Hm Hl.
  assert (Hnames : set_Name <$> (map_to_list m).*2 = (map_to_list m).*1).
  { rewrite <- list_fmap_compose. apply list_fmap_ext. intros i [n s] Hi. simpl.
    apply list_elem_of_lookup_2, elem_of_map_to_list in Hi. by apply Hm. }
  assert (Hnd : NoDup (set_Name <$> l)) by (rewrite Hl, Hnames; apply NoDup_fst_map_to_list).
  apply map_eq. intros name. apply option_eq. intros s. rewrite index_sets_lookup, Hl by done.
  rewrite list_elem_of_fmap. split.
  - intros [([n s'] & -> & Hin%elem_of_map_to_list) <-]. simpl. by rewrite (Hm n s').
  - intros Hs. split; [|by apply Hm]. exists (name, s). split; [done|]. by apply elem_of_map_to_list.
Qed.

Lemma own_revision_template `{!Codec} s s' : set_Template s' = set_Template s → own_revision s' = own_revision s.
Proof.
  intros Ht. unfold own_revision, TemplateRevision, marshal_template. rewrite Ht. by destruct (json_Template _).
Qed.

(** ** The declared sets *)

Section spec.
Context {CD : Codec} (b : FSCluster).

Lemma spec_set_facts node :
  set_Name (spec_set b node) = node_Name node ∧ set_Namespace (spec_set b node) = fsc_Namespace b ∧
  set_Claims (spec_set b node) = volumeClaimTemplates b node.
Proof.
  unfold spec_set. destruct (RestartRevision b node _) as [r|]; simpl; [|done].
  unfold stampTemplateRevision. by destruct (TemplateRevision _).
Qed.

Lemma spec_sets_names : set_Name <$> spec_sets b = declared b.
Proof.
  unfold spec_sets, declared. rewrite <- list_fmap_compose. apply list_fmap_ext.
  intros i node _. apply spec_set_facts.
Qed.

Lemma spec_claims set : set ∈ spec_sets b → diskDiff (set_Claims set) (set_Claims set) = ([], false).
Proof.
  unfold spec_sets. rewrite list_elem_of_fmap. intros (node & -> & _).
  destruct (spec_set_facts node) as (_ & _ & ->). unfold volumeClaimTemplates, diskDiff, index_claims.
  cbn [foldl diff_claims]. rewrite lookup_insert_eq. unfold q_Cmp. by rewrite Z.compare_refl.
Qed.

Context (Hrun : runnable b).

Lemma declared_NoDup : NoDup (declared b).
Proof. apply Nodes_NoDup, run_topology, Hrun. Qed.

Lemma spec_sets_NoDup : NoDup (set_Name <$> spec_sets b).
Proof. rewrite spec_sets_names. apply declared_NoDup. Qed.

Lemma spec_index_declared name : is_Some (index_sets (spec_sets b) !! name) ↔ name ∈ declared b.
Proof. rewrite index_sets_is_Some, spec_sets_names; [done|apply spec_sets_NoDup]. Qed.

Lemma spec_index_None name : index_sets (spec_sets b) !! name = None ↔ name ∉ declared b.
Proof. by rewrite <- spec_index_declared, eq_None_not_Some. Qed.

Lemma well_split default o : well b default o ↔ placed b default o ∧ sized b o.
Proof.
  split.
  - intros H. split; intros name s Hs; destruct (H name s Hs) as (H1 & H2 & H3 & Hc).
    + split; [done|]. split; [done|]. split; [done|]. intros Hn. apply spec_index_None in Hn. rewrite Hn in Hc. apply Hc.
    + destruct (index_sets _ !! name); [done|]. apply Hc.
  - intros [Hp Hs] name s Hl. destruct (Hp name s Hl) as (? & ? & ? & Hd). specialize (Hs name s Hl).
    split; [done|]. split; [done|]. split; [done|].
    destruct (index_sets _ !! name) eqn:E; [done|]. split; [done|]. by apply Hd, spec_index_None.
Qed.

Lemma spec_index_node node : node ∈ Nodes b → index_sets (spec_sets b) !! node_Name node = Some (spec_set b node).
Proof.
  intros Hin. apply index_sets_lookup; [apply spec_sets_NoDup|]. split; [|apply spec_set_facts].
  by apply list_elem_of_fmap_2.
Qed.

(** ** What is left to do *)

Lemma elem_of_todo o name : name ∈ todo b o ↔ behind b o name.
Proof.
  unfold todo. rewrite list_elem_of_filter, elem_of_remove_dups, elem_of_app. split; [by intros [? _]|].
  intros H. split; [done|]. unfold behind in H.
  destruct (o_sets o !! name) as [s|] eqn:E.
  - right. apply list_elem_of_fmap. exists (name, s). split; [done|]. by apply elem_of_map_to_list.
  - left. apply spec_index_declared. destruct (index_sets _ !! name); [eauto|done].
Qed.

Lemma todo_NoDup o : NoDup (todo b o).
Proof. apply NoDup_filter, NoDup_remove_dups. Qed.

Lemma elem_of_extra o name : name ∈ extra b o ↔ name ∉ declared b ∧ is_Some (o_sets o !! name).
Proof.
  unfold extra. rewrite list_elem_of_filter, list_elem_of_fmap. split.
  - intros (? & [n s] & -> & Hin%elem_of_map_to_list). simpl. eauto.
  - intros (? & s & Hs). split; [done|]. exists (name, s). split; [done|]. by apply elem_of_map_to_list.
Qed.

Lemma extra_nil o : extra b o = [] ↔ ∀ name, is_Some (o_sets o !! name) → name ∈ declared b.
Proof.
  split.
  - intros H name Hs. destruct (decide (name ∈ declared b)); [done|].
    assert (name ∈ extra b o) as Hin by by apply elem_of_extra. rewrite H in Hin. by apply elem_of_nil in Hin.
  - intros H. destruct (extra b o) as [|n l] eqn:E; [done|].
    assert (n ∈ extra b o) as [Hn Hs]%elem_of_extra by (rewrite E; left). destruct Hn. by apply H.
Qed.

Lemma spec_roles_NoDup : NoDup (role_ID <$> spec_roles b).
Proof. unfold spec_roles. rewrite sort_by_perm, <- list_fmap_compose. apply declared_NoDup. Qed.

Lemma laid_spec o : laid b o ↔ ∃ l, o_layout o = Some l ∧ Members l ≡ₚ spec_roles b ∧
  Widths l ≡ₚ desiredWidths (fsc_Spec b).
Proof.
  unfold laid. destruct (o_layout o) as [l|]; [|split; [done|]; by intros (? & ? & _)].
  rewrite sameLayout_spec; [naive_solver|apply spec_roles_NoDup|apply sort_by_sorted|apply desiredWidths_sorted].
Qed.

(** ** Progress without regress

    What a pass does to a world never adds to what is left. *)
Record evolves (o o' : Obs) : Prop := mkEvolves {
  ev_behind : ∀ name, behind b o' name → behind b o name;
  ev_dom : ∀ name, is_Some (o_sets o' !! name) → name ∈ declared b ∨ is_Some (o_sets o !! name);
  ev_laid : laid b o → laid b o';
}.

#[global] Instance evolves_preorder : PreOrder evolves.
Proof.
  split; [split; auto|]. intros o1 o2 o3 [H1 H2 H3] [H4 H5 H6]. split; auto.
  intros name Hn. apply H5 in Hn as [?|Hn]; auto.
Qed.

Lemma length_le_of_subset (l k : list string) : NoDup l → (∀ x, x ∈ l → x ∈ k) → length l ≤ length k.
Proof. intros Hnd Hlk. by apply submseteq_length, NoDup_submseteq. Qed.

Lemma length_lt_of_subset (l k : list string) x :
  NoDup l → (∀ x, x ∈ l → x ∈ k) → x ∈ k → x ∉ l → length l < length k.
Proof.
  intros Hnd Hlk Hx Hx'. apply (length_le_of_subset (x :: l) k); [by constructor|].
  intros y [->|?]%elem_of_cons; auto.
Qed.

Lemma evolves_extra o o' : evolves o o' → extra b o = [] → extra b o' = [].
Proof. intros Hev. rewrite !extra_nil. intros H name Hn. destruct (ev_dom _ _ Hev name Hn); auto. Qed.

Lemma evolves_todo o o' : evolves o o' → length (todo b o') ≤ length (todo b o).
Proof.
  intros Hev. apply length_le_of_subset; [apply todo_NoDup|]. intros n. rewrite !elem_of_todo. apply Hev.
Qed.

Lemma evolves_distance o o' : evolves o o' → distance b o' ≤ distance b o.
Proof.
  intros Hev. unfold distance. pose proof (evolves_todo o o' Hev). pose proof (ev_laid _ _ Hev).
  pose proof (evolves_extra o o' Hev). repeat case_decide; try lia; naive_solver.
Qed.

(** Three ways to get closer. *)
Lemma distance_rolled o o' name : evolves o o' → behind b o name → ¬ behind b o' name → distance b o' < distance b o.
Proof.
  intros Hev Hb Hb'. unfold distance.
  assert (length (todo b o') < length (todo b o)).
  { apply (length_lt_of_subset _ _ name); [apply todo_NoDup| |by apply elem_of_todo|by rewrite elem_of_todo].
    intros n. rewrite !elem_of_todo. apply Hev. }
  pose proof (ev_laid _ _ Hev). pose proof (evolves_extra o o' Hev). repeat case_decide; try lia; naive_solver.
Qed.

Lemma distance_laid o o' : evolves o o' → ¬ laid b o → laid b o' → distance b o' < distance b o.
Proof.
  intros Hev Hb Hb'. unfold distance. pose proof (evolves_todo o o' Hev). pose proof (evolves_extra o o' Hev).
  repeat case_decide; try lia; naive_solver.
Qed.

Lemma distance_drained o o' : evolves o o' → extra b o ≠ [] → extra b o' = [] → distance b o' < distance b o.
Proof.
  intros Hev Hb Hb'. unfold distance. pose proof (evolves_todo o o' Hev). pose proof (ev_laid _ _ Hev).
  repeat case_decide; try lia; naive_solver.
Qed.

Lemma distance_0 o : distance b o = 0 ↔ (∀ name, ¬ behind b o name) ∧ laid b o ∧ extra b o = [].
Proof.
  unfold distance. split.
  - intros H. repeat case_decide; try lia. split_and!; [|done..]. intros n Hn%elem_of_todo.
    destruct (todo b o); [by apply elem_of_nil in Hn|simpl in H; lia].
  - intros (H1 & H2 & H3). rewrite !decide_True by done. destruct (todo b o) as [|n l] eqn:E; [done|].
    destruct (H1 n). apply elem_of_todo. rewrite E. left.
Qed.

(** ** The writes of a pass *)

Context (default : PodTemplateSpec → PodTemplateSpec).

(** A set a pass may apply: the one the spec asks for, or that of a node being
    removed, as it runs. *)
Definition sound (o : Obs) (d : StatefulSet) : Prop :=
  set_Namespace d = fsc_Namespace b ∧ set_Name d ≠ "" ∧
  match index_sets (spec_sets b) !! set_Name d with
  | Some want => template_revision d = template_revision want ∧ set_Claims d = set_Claims want
  | None => is_Some (o_sets o !! set_Name d) ∧ template_revision d = own_revision d ∧
      diskDiff (set_Claims d) (set_Claims d) = ([], false) ∧ default (set_Template d) = set_Template d
  end.

(** What the server makes of it. *)
Definition stored (d s : StatefulSet) : Prop :=
  set_Name s = set_Name d ∧ set_Namespace s = set_Namespace d ∧ set_Claims s = set_Claims d ∧
  template_revision s = template_revision d ∧ set_Template s = default (set_Template d).

Lemma put_set_behind o d s name : sound o d → stored d s →
  behind b (put_set (set_Name d) s o) name ↔ name ≠ set_Name d ∧ behind b o name.
Proof.
  intros (_ & _ & Hd) (_ & _ & _ & Hr & Ht). unfold behind. simpl.
  destruct (decide (name = set_Name d)) as [->|Hne].
  2: { rewrite lookup_insert_ne by done. tauto. }
  rewrite lookup_insert_eq. split; [|tauto].
  destruct (index_sets _ !! set_Name d) as [want|]; [destruct Hd; congruence|].
  destruct Hd as (_ & Hown & _ & Hdef). rewrite (own_revision_template d s) by congruence. congruence.
Qed.

Lemma put_set_evolves o d s : sound o d → stored d s → evolves o (put_set (set_Name d) s o).
Proof.
  intros Hd Hs. split; [|simpl|done].
  - intros name Hn. by apply put_set_behind in Hn as [_ ?].
  - intros name. rewrite lookup_insert_is_Some. intros [<-|[_ ?]]; [|auto].
    destruct Hd as (_ & _ & Hd). destruct (index_sets _ !! set_Name d) eqn:E; [|naive_solver].
    left. apply spec_index_declared. eauto.
Qed.

Lemma put_set_well o d s : (∀ t, default (default t) = default t) →
  sound o d → stored d s → well b default o → well b default (put_set (set_Name d) s o).
Proof.
  intros Hidem (Hns & Hne & Hd) (Hn & Hns' & Hc & _ & Ht) Hw name x. simpl. rewrite lookup_insert_Some.
  intros [[<- <-]|[_ Hx]]; [|by apply Hw]. split_and!; [done|congruence|done|].
  destruct (index_sets _ !! set_Name d) as [want|] eqn:E.
  - apply index_sets_lookup in E as [Hin _]; [|apply spec_sets_NoDup]. destruct Hd as [_ Hd].
    rewrite Hc, Hd. by apply spec_claims.
  - destruct Hd as (_ & _ & Hdiff & Hdef). rewrite Hc, Ht, Hidem. done.
Qed.

Lemma drop_set_evolves o name : name ∉ declared b → evolves o (drop_set name o).
Proof.
  intros Hn. split; [|simpl|done].
  - intros n. unfold behind; simpl. destruct (decide (n = name)) as [->|Hne].
    + rewrite lookup_delete_eq. apply spec_index_None in Hn. by rewrite Hn.
    + by rewrite lookup_delete_ne.
  - intros n [s Hs]. apply lookup_delete_Some in Hs as [_ Hs]. right. eauto.
Qed.

Lemma drop_set_well o name : well b default o → well b default (drop_set name o).
Proof. intros Hw n s. simpl. intros [_ Hs]%lookup_delete_Some. by apply Hw. Qed.

Lemma put_layout_laid o l : Members l = spec_roles b → Widths l = desiredWidths (fsc_Spec b) →
  laid b (put_layout l o).
Proof. intros Hm Hw. apply laid_spec. exists l. rewrite Hm, Hw. done. Qed.

Lemma put_layout_evolves o l : Members l = spec_roles b → Widths l = desiredWidths (fsc_Spec b) →
  evolves o (put_layout l o).
Proof. intros Hm Hw. split; auto. intros _. by apply put_layout_laid. Qed.
End spec.
