(* ===== verification/Loop.v ===== *)
(** * Passes after passes: the whole pipeline in a cluster's world

    What one reconcile does to the world it runs in, whatever it meets, and what
    it gets done when nothing fails; and from that, what any sequence of passes
    arrives at. *)

From S2P Require Import Prelude.
From S2P Require Import ApiTypes.
From S2P Require Import Defaults.
From S2P Require Import Nodes.
From S2P Require Import Validation.
From S2P Require Import FsClient.
From S2P Require Import Kube.
From S2P Require Import KeyGen.
From S2P Require Import Config.
From S2P Require Import Builders.
From S2P Require Import Pipeline.
From S2P Require Import Pass.
From S2P Require Import Status.
From S2P Require Import Convergence.
From S2P Require Import Rollout.
From S2P Require Import LayoutStep.
From S2P Require Import Decommission.
From S2P Require Import StorageStep.
From S2P Require Import Reload.
From S2P Require Import Controller.
From S2P Require Import World.

Section loop.
Context {W : Type} `{!KubeClient W, !Interface W} {CD : Codec} {EN : Encodes}.
Context (OperatorNamespace FSImageRegistry : string) (b : FSCluster) `{CW : !ClusterWorld W b}.
Implicit Types s : Env W pass.

(** What is observed of the world of a run. *)
Abbreviation seen s := (obs (b := b) (e_world s)).

(** ** Steps that leave the sets and the layout alone *)

Definition unmoved : relation (Env W pass) := λ s s', seen s' = seen s.

#[local] Instance unmoved_preorder : PreOrder unmoved.
Proof. split; [done|]. intros s1 s2 s3 H1 H2. unfold unmoved in *. congruence. Qed.

Lemma un_call {A} (m : M W A) s : frames obs m → resp unmoved (call m) s.
Proof. intros H. unfold resp, call, unmoved. pose proof (H (e_world s)). by destruct (m (e_world s)). Qed.

Lemma un_emit a s : resp unmoved (emit a) s.
Proof. done. Qed.

Lemma un_issue {A} a (m : M W A) s : frames obs m → resp unmoved (issue a m) s.
Proof. intros H. apply resp_bind; [apply _|apply un_emit|]. intros. by apply un_call. Qed.

Lemma un_put_st f s : resp unmoved (put_st f) s.
Proof. done. Qed.

Lemma un_get_st s : resp unmoved get_st s.
Proof. done. Qed.

Lemma un_now s : resp unmoved now s.
Proof.
  unfold resp, now, unmoved. pose proof (cw_now_frame (b := b) (e_world s)). by destruct (k_now (e_world s)).
Qed.

#[local] Hint Resolve un_call un_emit un_issue un_put_st un_get_st un_now : resp.
#[local] Hint Unfold event : resp.
#[local] Hint Resolve cw_listSets_frame cw_listKeys_frame cw_getCluster_frame cw_getSecret_frame cw_getPVC_frame
  cw_create_frame cw_updatePVC_frame cw_patchStatus_frame cw_podMonitor_frame cw_rand_frame cw_Client_frame
  cw_Info_frame cw_Reload_frame cw_Layout_frame cw_Nodes_frame : resp.

Lemma un_applyConfiguration o s : resp unmoved (applyConfiguration o) s.
Proof. unfold applyConfiguration. rsolve. Qed.

Lemma un_apply c o s : (∀ x, o ≠ OStatefulSet x) → resp unmoved (apply c o) s.
Proof.
  intros Ho. unfold apply. rsolve; [apply un_applyConfiguration|].
  apply applyConfiguration_inv in Hrun0 as [-> ->]. apply un_issue, cw_apply_frame.
  intros x. destruct o as [set| | | | |]; try done. by destruct (Ho set).
Qed.

Lemma un_createOnce c o s : (∀ x, o ≠ OStatefulSet x) → resp unmoved (createOnce c o) s.
Proof. intros Ho. unfold createOnce. rsolve. Qed.

Lemma un_delete k ns name orphan msg s :
  k ≠ KindSet → resp unmoved (delete_ignoring_absent k ns name orphan msg) s.
Proof. intros Hk. unfold delete_ignoring_absent. rsolve. by apply un_issue, cw_delete_frame. Qed.

Lemma un_refuse reason message s : resp unmoved (refuse reason message) s.
Proof. unfold refuse. rsolve. Qed.

Lemma un_nodeSets c s : resp unmoved (nodeSets c) s.
Proof. unfold nodeSets. rsolve. Qed.

Lemma un_adminToken s : resp unmoved adminToken s.
Proof. unfold adminToken. rsolve. Qed.

#[local] Hint Resolve un_refuse un_nodeSets un_adminToken un_applyConfiguration : resp.

Lemma un_mapOrder s : resp unmoved mapOrder s.
Proof. apply un_call, cw_mapOrder_frame. Qed.

#[local] Hint Resolve un_mapOrder : resp.

Lemma un_validate s : resp unmoved validate s.
Proof. unfold validate. rsolve. Qed.

Lemma un_planDecommission s : resp unmoved planDecommission s.
Proof. unfold planDecommission. rsolve. Qed.

Lemma un_resolveKeys c items s : resp unmoved (resolveKeys c items) s.
Proof. revert s. induction items as [|ak items IH]; intros s; simpl; unfold resolveKey; rsolve. Qed.

#[local] Hint Resolve un_resolveKeys : resp.

Lemma un_render s : resp unmoved render s.
Proof. unfold render, collectAccessKeys. rsolve. Qed.

Lemma un_observe s : resp unmoved observe s.
Proof. unfold observe. rsolve. Qed.

Lemma un_reconcileSecrets s : resp unmoved reconcileSecrets s.
Proof.
  unfold reconcileSecrets, generateSecret, requireSecret, NewClusterSecret, NewRootCredentialsSecret,
    NewAdminTokenSecret, keygen_Token, keygen_AccessKey.
  rsolve; by apply un_createOnce.
Qed.

Lemma un_reconcileServices s : resp unmoved reconcileServices s.
Proof. unfold reconcileServices. rsolve; auto using un_apply. apply un_apply. set_solver. Qed.

Lemma un_reconcileNodeConfigs s : resp unmoved reconcileNodeConfigs s.
Proof. unfold reconcileNodeConfigs. rsolve; auto using un_apply. Qed.

Lemma un_clusterView p node token s : resp unmoved (clusterView p node token) s.
Proof. unfold clusterView. rsolve. Qed.

Lemma un_askNodes p nodes token s : resp unmoved (askNodes p nodes token) s.
Proof.
  revert s. induction nodes as [|node nodes IH]; intros s; simpl; rsolve; auto using un_clusterView.
Qed.

Lemma un_gatherConvergence s : resp unmoved gatherConvergence s.
Proof. unfold gatherConvergence. rsolve; auto using un_askNodes. Qed.

Lemma un_hold phase subject reason s : resp unmoved (hold phase subject reason) s.
Proof. unfold hold. rsolve. Qed.

Lemma un_adopt_loop p nodes s : resp unmoved (adopt_loop p nodes) s.
Proof.
  revert s. induction nodes as [|node nodes IH]; intros s; simpl; rsolve; auto using un_delete.
Qed.

Lemma un_reload_loop p i nodes token n pending s : resp unmoved (reload_loop p i nodes token n pending) s.
Proof.
  revert i n pending s. induction nodes as [|node nodes IH]; intros i n pending s; simpl; unfold reloadNode;
    rsolve; auto.
Qed.

Lemma un_reconcileReload s : resp unmoved reconcileReload s.
Proof. unfold reconcileReload. rsolve; auto using un_reload_loop. Qed.

Lemma un_reconcileBudget s : resp unmoved reconcileBudget s.
Proof. unfold reconcileBudget. rsolve; auto using un_apply. Qed.

Lemma un_reconcileNetworkPolicy s : resp unmoved (reconcileNetworkPolicy OperatorNamespace) s.
Proof. unfold reconcileNetworkPolicy, deleteIfExists. rsolve; auto using un_delete, un_apply. Qed.

Lemma un_reconcilePodMonitor s : resp unmoved reconcilePodMonitor s.
Proof.
  unfold reconcilePodMonitor, podMonitorAvailable, deleteIfExists. rsolve; auto using un_delete, un_apply.
Qed.

Lemma un_reconcileStatus s : resp unmoved reconcileStatus s.
Proof. unfold reconcileStatus. rsolve. Qed.

(** ** The rollout *)

(** Only declared and kept sets are applied, and nothing else is changed. *)
Record rolls_obs (o o' : Obs) : Prop := mkRolls {
  ro_evolves : evolves b o o';
  ro_well : well b (cw_default (b := b)) o → well b (cw_default (b := b)) o';
  ro_grew : ∀ name, is_Some (o_sets o !! name) → is_Some (o_sets o' !! name);
  ro_rest : o_layout o' = o_layout o ∧ o_up o' = o_up o ∧ o_calm o' = o_calm o;
}.

#[local] Instance rolls_obs_preorder : PreOrder rolls_obs.
Proof.
  split; [split; [done|done|done|done]|]. intros o1 o2 o3 [H1 H2 H3 H4] [H5 H6 H7 H8].
  split; [by etrans|auto|auto|]. destruct H4 as (? & ? & ?), H8 as (? & ? & ?). split_and!; congruence.
Qed.

Definition rolls : relation (Env W pass) := λ s s', rolls_obs (seen s) (seen s').

#[local] Instance rolls_preorder : PreOrder rolls.
Proof. unfold rolls. split; [intros s|intros s1 s2 s3 H1 H2]; [reflexivity|by etrans]. Qed.

Lemma unmoved_rolls {A} (m : M (Env W pass) A) s : resp unmoved m s → resp rolls m s.
Proof. unfold resp, unmoved, rolls. intros ->. reflexivity. Qed.

Abbreviation sound_in s d := (sound b (cw_default (b := b)) (seen s) d).

Lemma sound_rolls s s' d : rolls s s' → sound_in s d → sound_in s' d.
Proof.
  intros [_ _ Hg _] (H1 & H2 & H3). split_and!; [done..|].
  destruct (index_sets _ !! set_Name d); [done|]. destruct H3 as (? & ? & ?). auto.
Qed.

Context (Hrun : runnable b).

(** Applying a set, by what the server answers. *)
Lemma apply_set_rolls d o w :
  obs w = o → sound b (cw_default (b := b)) o d →
  let x := k_apply (OStatefulSet (bare d)) w in
  rolls_obs o (obs x.2) ∧ (is_ok x.1 = true → ¬ behind b (obs x.2) (set_Name d)).
Proof.
  intros <- Hd. cbv zeta. destruct (cw_apply_set (b := b) (bare d) w) as [[-> ->]|(s' & -> & Hs')].
  { by split. }
  assert (stored (cw_default (b := b)) d s') as Hst by by destruct Hs' as (? & ? & ? & ? & ?).
  split.
  - split; simpl; [by eapply put_set_evolves|by eapply put_set_well; [|apply cw_default_idem|..]| |done].
    intros name Hn. destruct (decide (set_Name d = name)) as [<-|Hne].
    + rewrite lookup_insert_eq. eauto.
    + by rewrite lookup_insert_ne.
  - intros _ Hb. by apply (put_set_behind b _ (obs w) d s' (set_Name d) Hd Hst) in Hb as [? _].
Qed.

Lemma apply_set_eq c d s :
  apply c (OStatefulSet d) s =
  let '(r, w) := k_apply (OStatefulSet (bare d)) (e_world s) in
  (match r with Ok a => Ok a
   | Err e => Err (ErrWrap ("apply " +:+ kobj_Kind (OStatefulSet d) +:+ " " +:+ fmt_q (set_Name d)) e) end,
   mkEnv w (e_log s ++ [AApply (OStatefulSet (bare d))]) (e_st s)).
Proof.
  unfold apply, applyConfiguration, wrap_err, issue, emit, call. msimpl.
  rewrite (cw_owner (b := b)), (cw_unstructured (b := b)). simpl. by destruct (k_apply _ _) as [[] ?].
Qed.

Lemma ro_apply c d s : sound_in s d → resp rolls (apply c (OStatefulSet d)) s.
Proof.
  intros Hd. unfold resp. rewrite apply_set_eq.
  destruct (apply_set_rolls d (seen s) (e_world s) eq_refl Hd) as [H _]. by destruct (k_apply _ _).
Qed.

Lemma wp_apply_set c d s :
  o_calm (seen s) = true → sound_in s d →
  wp (apply c (OStatefulSet d)) (λ _ s', rolls s s' ∧ e_st s' = e_st s ∧ ¬ behind b (seen s') (set_Name d)) s.
Proof.
  intros Hc Hd. unfold wp. rewrite apply_set_eq.
  destruct (apply_set_rolls d (seen s) (e_world s) eq_refl Hd) as [H1 H2].
  pose proof (cw_calm_apply (b := b) (OStatefulSet (bare d)) (e_world s) Hc) as Hok.
  destruct (k_apply _ _) as [[[]|] w]; [|done]. eexists _, _. split; [done|]. simpl. auto.
Qed.

Lemma classify_loop_subset p desired created stale s x s' :
  classify_loop p desired created stale s = (Ok x, s') → ∀ d, d ∈ x.2 → d ∈ stale ∨ d ∈ desired.
Proof.
  revert created stale s. induction desired as [|set desired IH]; intros created stale s; simpl.
  { intros H d. injection H as <- _. auto. }
  destruct (p_live p !! set_Name set) as [live|].
  - destruct (bool_decide _); intros H d Hd; eapply IH in H; [|exact Hd| |exact Hd]; set_solver.
  - unfold mbind, M_bind. destruct (apply _ _ s) as [[] s1]; [|done]. intros H d Hd.
    eapply IH in H; [|exact Hd]. set_solver.
Qed.

Lemma ro_classify_loop p desired created stale s :
  (∀ d, d ∈ desired → sound_in s d) → resp rolls (classify_loop p desired created stale) s.
Proof.
  revert created stale s. induction desired as [|set desired IH]; intros created stale s Hd; simpl; rsolve.
  - apply IH. set_solver.
  - apply IH. set_solver.
  - apply ro_apply, Hd. left.
  - apply IH. intros d Hin. eapply sound_rolls; [exact HR|]. apply Hd. by right.
Qed.

Lemma ro_roll stale s : (∀ d, d ∈ stale → sound_in s d) → resp rolls (roll stale) s.
Proof.
  intros Hd. unfold roll, rollingUpdate. rsolve; try by (apply unmoved_rolls; auto with resp).
  - apply unmoved_rolls, un_hold.
  - apply unmoved_rolls, un_hold.
  - apply ro_apply. eapply sound_rolls; [exact HR|]. apply Hd. left.
  - apply ro_apply. eapply sound_rolls; [exact HR0|]. eapply sound_rolls; [exact HR|]. apply Hd.
    match goal with H : downSets _ _ = _ |- _ => rewrite <- H in Hx end.
    by apply list_elem_of_filter in Hx as [_ ?].
Qed.

Lemma ro_reconcileNodes s : (∀ d, d ∈ desired_sets (e_st s) → sound_in s d) → resp rolls reconcileNodes s.
Proof.
  intros Hd. unfold reconcileNodes, classify.
  set (p := e_st s) in *. apply resp_bind; [apply _| |].
  - rstep; [apply unmoved_rolls; auto with resp|]. injection Hrun0 as <- <-. fold p.
    rstep; [by apply ro_classify_loop|rsolve].
  - intros [n stale] s1 Hx HR. rstep; [apply unmoved_rolls; rsolve|]. apply ro_roll. intros d Hin.
    eapply sound_rolls; [etrans; [exact HR|exact HR0]|]. apply Hd. revert Hx.
    unfold mbind, M_bind, get_st, gets. fold p.
    destruct (classify_loop p (desired_sets p) 0 [] s) as [[x|e] s2] eqn:E; [|done].
    unfold ret. intros [= <- <- <-]. rewrite rollOrder_perm in Hin.
    destruct (classify_loop_subset _ _ _ _ _ _ _ E d Hin) as [Hnil|?]; [by apply elem_of_nil in Hnil|done].
Qed.

(** *** What it gets done in a calm world *)

Lemma wp_hold phase subject reason s :
  wp (hold phase subject reason) (λ _ s', seen s' = seen s) s.
Proof.
  pose proof (un_hold phase subject reason s) as Hu.
  destruct (hold_quiet phase subject reason s) as (l & out & s' & H & _). unfold resp in Hu.
  rewrite H in Hu. by exists out, s'.
Qed.

Lemma wp_rollingUpdate node s : wp (rollingUpdate node) (λ _ s', rolls s s') s.
Proof.
  assert (resp rolls (rollingUpdate node) s) as Hu by (apply unmoved_rolls; unfold rollingUpdate; rsolve).
  revert Hu. unfold resp, wp, rollingUpdate, now, put_st. msimpl. destruct (k_now (e_world s)) as [t w]. simpl. eauto.
Qed.

Lemma calm_rolls s s' : rolls s s' → o_calm (seen s) = true → o_calm (seen s') = true.
Proof. intros [_ _ _ (_ & _ & ->)]. done. Qed.

Lemma not_behind_rolls s s' name : rolls s s' → ¬ behind b (seen s) name → ¬ behind b (seen s') name.
Proof. intros [Hev _ _ _] Hn Hb. by apply Hn, (ev_behind _ _ _ Hev). Qed.

Lemma wp_classify_loop p desired created stale s :
  o_calm (seen s) = true → (∀ d, d ∈ desired → sound_in s d) →
  wp (classify_loop p desired created stale)
    (λ x s', x.2 = stale ++ filter (λ set, is_stale p set = true) desired ∧ rolls s s' ∧ e_st s' = e_st s ∧
       ∀ d, d ∈ desired → p_live p !! set_Name d = None → ¬ behind b (seen s') (set_Name d)) s.
Proof.
  revert created stale s. induction desired as [|set desired IH]; intros created stale s Hc Hd; simpl.
  { apply wp_ret. rewrite app_nil_r. split_and!; [done|reflexivity|done|]. by intros d ?%elem_of_nil. }
  assert (Hd' : ∀ s', rolls s s' → ∀ d, d ∈ desired → sound_in s' d).
  { intros s' HR d Hin. eapply sound_rolls; [exact HR|]. apply Hd. by right. }
  rewrite filter_cons. pose proof (eq_refl (is_stale p set)) as Hst. unfold is_stale at 2 in Hst.
  destruct (p_live p !! set_Name set) as [live|] eqn:E; rewrite Hst.
  - case_bool_decide as Hr.
    + rewrite decide_True by done. eapply wp_mono; [apply IH; [done|by apply Hd']|].
      intros x s' (-> & HR & Hs & Hm). rewrite <- app_assoc. split_and!; [done..|].
      intros d [->|Hin]%elem_of_cons Hn; [congruence|auto].
    + rewrite decide_False by done. eapply wp_mono; [apply IH; [done|by apply Hd']|].
      intros x s' (-> & HR & Hs & Hm). split_and!; [done..|].
      intros d [->|Hin]%elem_of_cons Hn; [congruence|auto].
  - rewrite decide_False by done. apply wp_bind. eapply wp_mono; [apply wp_apply_set; [done|apply Hd; left]|].
    intros [] s1 (HR1 & Hs1 & Hb1). eapply wp_mono; [apply IH; [by eapply calm_rolls|by apply Hd']|].
    intros x s' (-> & HR & Hs & Hm). split_and!; [done|by etrans|congruence|].
    intros d [->|Hin]%elem_of_cons Hn; [by eapply not_behind_rolls|auto].
Qed.

Lemma wp_roll stale s :
  o_calm (seen s) = true → (∀ d, d ∈ stale → sound_in s d) →
  wp (roll stale) (λ _ s', ∀ d, d ∈ rolled (e_st s) stale → ¬ behind b (seen s') (set_Name d)) s.
Proof.
  intros Hc Hd. unfold roll. apply wp_bind, wp_gets. unfold rolled.
  destruct stale as [|next rest].
  { cbn [downSets filter head option_list]. apply wp_bind.
    assert (∀ d, d ∉ (if bool_decide (h_notReady (p_health (e_st s)) = []) && cv_known (p_convergence (e_st s))
             && cv_converged (p_convergence (e_st s)) then @nil StatefulSet else [])) as Hnil
      by (intros d; by case_match; intros ?%elem_of_nil).
    destruct (st_Update _); unfold event, emit; eexists _, _; (split; [reflexivity|]);
      apply wp_ret; intros d Hin; by apply Hnil in Hin. }
  destruct (holdSubject (e_st s)) as [phase held]. cbv zeta.
  destruct (downSets (next :: rest) (h_notReady (p_health (e_st s)))) as [|first down] eqn:Hdown.
  - destruct (decide (h_notReady (p_health (e_st s)) = [])) as [Hn|Hn].
    2: { rewrite bool_decide_true, bool_decide_false by done.
         eapply wp_mono; [apply wp_hold|]. by intros _ s' _ d ?%elem_of_nil. }
    rewrite (bool_decide_true _ Hn), (bool_decide_false (h_notReady _ ≠ [])) by (intros Hx; by apply Hx).
    destruct (cv_known _), (cv_converged _); cbn [negb orb andb].
    2-4: eapply wp_mono; [apply wp_hold|]; by intros _ s' _ d ?%elem_of_nil.
    apply wp_bind. eapply wp_mono; [apply wp_apply_set; [done|apply Hd; left]|]. intros [] s1 (HR & _ & Hb).
    apply wp_bind. eexists _, _. split; [reflexivity|]. apply wp_bind.
    eapply wp_mono; [apply wp_rollingUpdate|]. intros [] s2 HR2. apply wp_ret. simpl.
    intros d ->%list_elem_of_singleton. eapply not_behind_rolls; [exact HR2|done].
  - apply wp_bind.
    apply (wp_forM_ (λ k s', rolls s s' ∧ ∀ d, d ∈ k → ¬ behind b (seen s') (set_Name d))).
    { split; [reflexivity|]. by intros d ?%elem_of_nil. }
    + intros k x s1 [rest' Hk] [HR Hbs]. apply wp_bind. eapply wp_mono.
      { apply wp_apply_set; [by eapply calm_rolls|]. eapply sound_rolls; [exact HR|]. apply Hd.
        assert (x ∈ downSets (next :: rest) (h_notReady (p_health (e_st s)))) as Hx.
        { rewrite Hdown, Hk. set_solver. }
        by apply list_elem_of_filter in Hx as [_ ?]. }
      intros [] s2 (HR2 & _ & Hb). eexists _, _. split; [reflexivity|]. simpl. split; [by etrans|].
      intros d [Hin|Hin%list_elem_of_singleton]%elem_of_app; [eapply not_behind_rolls; [exact HR2|auto]|by subst].
    + intros s1 [HR Hbs]. apply wp_bind. eapply wp_mono; [apply wp_rollingUpdate|]. intros [] s2 HR2.
      apply wp_ret. intros d Hin. eapply not_behind_rolls; [exact HR2|auto].
Qed.

Lemma wp_reconcileNodes s :
  o_calm (seen s) = true → (∀ d, d ∈ desired_sets (e_st s) → sound_in s d) →
  wp reconcileNodes (λ _ s',
    let p := e_st s in
    (∀ d, d ∈ desired_sets p → p_live p !! set_Name d = None → ¬ behind b (seen s') (set_Name d)) ∧
    (∀ d, d ∈ rolled p (stale_order p) → ¬ behind b (seen s') (set_Name d))) s.
Proof.
  intros Hc Hd. unfold reconcileNodes, classify. set (p := e_st s) in *.
  apply wp_bind, wp_bind, wp_gets. fold p. apply wp_bind. eapply wp_mono; [by apply wp_classify_loop|].
  intros x s1 (Hx & HR & Hs & Hm). apply wp_ret. cbn [fst snd]. rewrite Hx. cbn [app].
  fold (stale_order p). apply wp_bind.
  assert (Hgo : ∀ s2, seen s2 = seen s1 → e_st s2 = e_st s1 →
    wp (roll (stale_order p)) (λ _ s',
      (∀ d, d ∈ desired_sets p → p_live p !! set_Name d = None → ¬ behind b (seen s') (set_Name d)) ∧
      (∀ d, d ∈ rolled p (stale_order p) → ¬ behind b (seen s') (set_Name d))) s2).
  { intros s2 H2 Hs2.
    assert (Hsound : ∀ d, d ∈ stale_order p → sound_in s2 d).
    { intros d Hin. rewrite H2. eapply sound_rolls; [exact HR|]. apply Hd. unfold stale_order in Hin.
      rewrite rollOrder_perm in Hin. by apply list_elem_of_filter in Hin as [_ ?]. }
    eapply wp_mono.
    - apply wp_resp; [by apply ro_roll|]. apply wp_roll; [rewrite H2; by eapply calm_rolls|done].
    - rewrite Hs2, Hs. fold p. intros out s' [Hr HR']. split; [|done].
      intros d Hin Hn. eapply not_behind_rolls; [exact HR'|]. rewrite H2. auto. }
  destruct (0 <? x.1); eexists _, _; (split; [reflexivity|]); by apply Hgo.
Qed.

(** ** The layout and the removals *)

(** What a whole pass may do: progress, or nothing. *)
Record moves_obs (o o' : Obs) : Prop := mkMoves {
  mo_evolves : evolves b o o';
  mo_well : well b (cw_default (b := b)) o → well b (cw_default (b := b)) o';
  mo_rest : o_up o' = o_up o ∧ o_calm o' = o_calm o;
}.

#[global] Instance moves_obs_preorder : PreOrder moves_obs.
Proof.
  split; [split; done|]. intros o1 o2 o3 [H1 H2 [H3 H4]] [H5 H6 [H7 H8]].
  split; [by etrans|auto|]. split; congruence.
Qed.

Definition moves : relation (Env W pass) := λ s s', moves_obs (seen s) (seen s').

#[local] Instance moves_preorder : PreOrder moves.
Proof. unfold moves. split; [intros s|intros s1 s2 s3 H1 H2]; [reflexivity|by etrans]. Qed.

Lemma unmoved_moves {A} (m : M (Env W pass) A) s : resp unmoved m s → resp moves m s.
Proof. unfold resp, unmoved, moves. intros ->. reflexivity. Qed.

Lemma rolls_moves {A} (m : M (Env W pass) A) s : resp rolls m s → resp moves m s.
Proof. unfold resp. intros [? ? _ (_ & ? & ?)]. by split. Qed.

Definition widths0 : list Z := desiredWidths (fsc_Spec b).

Lemma ApplyLayout_moves url token w :
  let x := adm_ApplyLayout url token (spec_roles b) widths0 w in
  moves_obs (obs (b := b) w) (obs x.2) ∧ (is_ok x.1 = true → laid b (obs x.2)).
Proof.
  cbv zeta. destruct (cw_ApplyLayout (b := b) url token (spec_roles b) widths0 w) as [[-> ->]|(l & -> & Hm & Hw & _)].
  { split; [reflexivity|done]. }
  split; [split; [by apply put_layout_evolves|done|done]|]. intros _. by apply put_layout_laid.
Qed.

Lemma mv_tryLayout p nodes token last s : resp moves (tryLayout p nodes (spec_roles b) widths0 token last) s.
Proof.
  revert last s. induction nodes as [|node nodes IH]; intros last s; simpl; rsolve; auto.
  - apply unmoved_moves; auto with resp.
  - unfold resp. rewrite issue_eq.
    destruct (ApplyLayout_moves (node_url p node) token (e_world s')) as [H _].
    by destruct (adm_ApplyLayout _ _ _ _ _).
Qed.

Lemma mv_reconcileLayout s :
  desiredRoles (e_st s) = spec_roles b → desiredWidths (fsc_Spec (p_cluster (e_st s))) = widths0 →
  resp moves reconcileLayout s.
Proof.
  intros Hr Hw. unfold reconcileLayout. rstep; [apply unmoved_moves; auto with resp|].
  injection Hrun0 as <- <-. rewrite Hr, Hw. unfold holdLayout, applyLayout.
  rsolve; try by (apply unmoved_moves; auto with resp). apply mv_tryLayout.
Qed.

Lemma mv_reconcileDecommission s :
  (∀ name set, p_decommission (e_st s) !! name = Some set → set_Name set ∉ declared b) →
  resp moves reconcileDecommission s.
Proof.
  intros Hd. unfold reconcileDecommission, holdDrain, removeNode.
  rstep; [apply unmoved_moves; auto with resp|]. injection Hrun0 as <- <-.
  rsolve; try by (apply unmoved_moves; auto using un_hold, un_delete with resp).
  unfold delete_ignoring_absent. rsolve. unfold resp. rewrite issue_eq.
  match goal with H : p_decommission _ !! _ = Some ?set |- moves ?s1 _ => apply Hd in H;
    pose proof (cw_delete_set (b := b) (set_Namespace set) (set_Name set) false (e_world s1)) as Hdel end.
  destruct (k_delete _ _ _ _ _) as [r w]. simpl in *. unfold moves. simpl.
  destruct Hdel as [[-> _]| ->]; [reflexivity|]. split; [by apply drop_set_evolves|by apply drop_set_well|done].
Qed.

End loop.
