(* ===== verification/Settle.v ===== *)
(** * Passes after passes: where they arrive

    One pass in a cluster's world, step by step: whatever it meets it undoes
    nothing; and when nothing fails it gets closer to what the spec says, until
    there is nothing left to do.  From that, what any sequence of passes arrives
    at, whatever happens in between. *)

From S2P Require Import Prelude.
From S2P Require Import ApiTypes.
From S2P Require Import Defaults.
From S2P Require Import Nodes.
From S2P Require Import Validation.
From S2P Require Import FsClient.
From S2P Require Import Kube.
From S2P Require Import KeyGen.
From S2P Require Import Config.
From S2P Require Import Builders.
From S2P Require Import Pipeline.
From S2P Require Import Pass.
From S2P Require Import Status.
From S2P Require Import Convergence.
From S2P Require Import Rollout.
From S2P Require Import LayoutStep.
From S2P Require Import Decommission.
From S2P Require Import StorageStep.
From S2P Require Import Reload.
From S2P Require Import Controller.
From S2P Require Import World.
From S2P Require Import Loop.

(** ** What a pass renders *)

(** The cluster of a pass, whatever its status and generation. *)
Definition same_spec (c b : FSCluster) : Prop :=
  fsc_Name c = fsc_Name b ∧ fsc_Namespace c = fsc_Namespace b ∧ fsc_Spec c = fsc_Spec b.

(** The StatefulSets of nodes being removed, in the order they were listed. *)
Definition removed (b : FSCluster) (o : Obs) (xs : list StatefulSet) : Prop :=
  NoDup (set_Name <$> xs) ∧
  ∀ x, x ∈ xs ↔ o_sets o !! set_Name x = Some x ∧ set_Name x ∉ declared b.

Definition kept_set `{!Codec} (x : StatefulSet) : StatefulSet :=
  match keptStatefulSet x with Ok s => s | Err _ => x end.

Lemma plan_sets_eq D existing nodes sets :
  plan_sets D existing nodes sets =
  (nodes ++ (nodeFromSet <$> undeclared D existing),
   foldl (λ m set, <[set_Name set := set]> m) sets (undeclared D existing)).
Proof.
  revert nodes sets. induction existing as [|set existing IH]; intros nodes sets; simpl.
  { by rewrite app_nil_r. }
  unfold undeclared. rewrite filter_cons. case_bool_decide as Hd.
  - rewrite decide_False by auto. apply IH.
  - rewrite decide_True by done. rewrite IH. simpl. by rewrite <- app_assoc.
Qed.

Lemma is_ok_Ok {A} (r : result A) : is_ok r = true → ∃ a, r = Ok a.
Proof. destruct r; [eauto|done]. Qed.

Lemma filter_all {A} (P : A → Prop) `{!∀ x, Decision (P x)} (l : list A) : (∀ x, x ∈ l → P x) → filter P l = l.
Proof.
  induction l as [|x l IH]; intros Hl; [done|]. rewrite filter_cons, decide_True by (apply Hl; left).
  f_equal. apply IH. intros y Hy. apply Hl. by right.
Qed.

Lemma filter_none {A} (P : A → Prop) `{!∀ x, Decision (P x)} (l : list A) : (∀ x, x ∈ l → ¬ P x) → filter P l = [].
Proof.
  induction l as [|x l IH]; intros Hl; [done|]. rewrite filter_cons, decide_False by (apply Hl; left).
  apply IH. intros y Hy. apply Hl. by right.
Qed.

Section render.
Context {CD : Codec} {EN : Encodes} (b : FSCluster) (Hrun : runnable b).

Lemma Nodes_same c : same_spec c b → Nodes c = Nodes b.
Proof. destruct c, b. unfold same_spec; simpl. by intros (-> & -> & ->). Qed.

Lemma undeclared_removed o sets :
  (∀ name s, o_sets o !! name = Some s → set_Name s = name) → sets ≡ₚ (map_to_list (o_sets o)).*2 →
  removed b o (undeclared (declared b) sets).
Proof.
  intros Hnames Hp. split.
  - pose proof (index_sets_listed _ _ Hnames Hp) as _.
    assert (NoDup (set_Name <$> sets)) as Hnd.
    { rewrite Hp, <- list_fmap_compose. rewrite (list_fmap_ext _ fst); [apply NoDup_fst_map_to_list|].
      intros i [n s] Hi. simpl. apply list_elem_of_lookup_2, elem_of_map_to_list in Hi. by apply Hnames. }
    revert Hnd. unfold undeclared. generalize sets. clear. intros sets. induction sets as [|x sets IH]; [done|].
    simpl. intros [Hx Hnd]%NoDup_cons. rewrite filter_cons. case_decide; [|auto]. simpl.
    apply NoDup_cons. split; [|auto]. intros (y & Hy & [_ Hin]%list_elem_of_filter)%list_elem_of_fmap.
    apply Hx. rewrite Hy. by apply list_elem_of_fmap_2.
  - intros x. unfold undeclared. rewrite list_elem_of_filter, Hp, list_elem_of_fmap. split.
    + intros (Hn & [n s] & -> & Hin%elem_of_map_to_list). simpl in *. by destruct (Hnames n s Hin).
    + intros (Hs & Hn). split; [done|]. exists (set_Name x, x). split; [done|]. by apply elem_of_map_to_list.
Qed.

Lemma NodeName_nonempty node : node ∈ Nodes b → node_Name node ≠ "".
Proof.
  pose proof (run_names _ Hrun) as [Hn _]. unfold Nodes.
  assert (∀ r i, NodeName (fsc_Name b) r i ≠ "") as Hne.
  { intros r i. unfold NodeName. case_bool_decide; by destruct (fsc_Name b). }
  destruct (topo_Nodes _).
  - intros (i & -> & _)%list_elem_of_fmap. apply Hne.
  - intros (rack & (i & -> & _)%list_elem_of_fmap & _)%list_elem_of_bind. apply Hne.
Qed.

(** Encoding a configuration never fails, and the restart revision does not
    depend on the access keys. *)
Lemma nodeConfig_ok c node opts : same_spec c b → node_Name node ≠ "" →
  ∃ cfg, nodeConfig c node opts = Ok cfg.
Proof.
  intros (Hn & Hns & _) Hnode. pose proof (run_names _ Hrun) as [H1 H2]. unfold nodeConfig.
  rewrite Hn, Hns, !bool_decide_eq_false_2 by done. eauto.
Qed.

Lemma RestartRevision_spec c node opts : same_spec c b → node_Name node ≠ "" →
  ∃ r, RestartRevision c node opts = Ok r ∧ RestartRevision b node (mkRenderOptions []) = Ok r.
Proof.
  intros Hsame Hnode. destruct Hsame as (Hn & Hns & Hsp). pose proof (run_names _ Hrun) as [H1 H2].
  unfold RestartRevision, nodeConfig. rewrite Hn, Hns, !bool_decide_eq_false_2 by done. simpl.
  unfold clusterConfig, observabilityConfig, restart_part. simpl. rewrite Hn, Hns, Hsp.
  destruct (SingleNode (fsc_Spec b)); cbn [cfg_cluster NodeID cl_Addr cl_AdvertiseAddr];
  match goal with |- context [yaml_Marshal ?x] => destruct (is_ok_Ok _ (enc_yaml x)) as [y ->] end; simpl; eauto.
Qed.

Lemma RenderNodeConfigs_ok c nodes opts m : same_spec c b → Forall (λ node, node_Name node ≠ "") nodes →
  ∃ configs, RenderNodeConfigs c nodes opts m = Ok configs.
Proof.
  intros Hsame Hf. revert m. induction Hf as [|node nodes Hnode _ IH]; intros m; simpl; [eauto|].
  unfold RenderNodeConfig. destruct (nodeConfig_ok c node opts Hsame Hnode) as [cfg ->]. simpl.
  destruct (is_ok_Ok _ (enc_yaml cfg)) as [y ->]. simpl.
  match goal with |- context [yaml_Marshal ?x] => destruct (is_ok_Ok _ (enc_yaml x)) as [z ->] end. simpl.
  apply IH.
Qed.

Lemma stamp_ok set : ∃ s, stampTemplateRevision set = Ok s.
Proof.
  unfold stampTemplateRevision, TemplateRevision, marshal_template.
  destruct (is_ok_Ok _ (enc_template (set_Template set))) as [t ->]. simpl. eauto.
Qed.

Lemma spec_set_stamped node r :
  RestartRevision b node (mkRenderOptions []) = Ok r →
  stampTemplateRevision (NewStatefulSet b node r) = Ok (spec_set b node).
Proof.
  intros Hr. unfold spec_set. rewrite Hr. cbn [mbind result_bind].
  by destruct (stamp_ok (NewStatefulSet b node r)) as [s ->].
Qed.

Lemma kept_set_facts x :
  keptStatefulSet x = Ok (kept_set x) ∧ set_Name (kept_set x) = set_Name x ∧
  set_Namespace (kept_set x) = set_Namespace x ∧ set_Claims (kept_set x) = set_Claims x ∧
  set_Template (kept_set x) = set_Template x ∧ template_revision (kept_set x) = own_revision x.
Proof.
  unfold kept_set. unfold keptStatefulSet.
  destruct (stamp_ok (kept_base x)) as [s Hs]. rewrite Hs. revert Hs.
  unfold stampTemplateRevision, own_revision, TemplateRevision, marshal_template. simpl.
  destruct (json_Template (set_Template x)) as [t|]; simpl; [|done]. intros [= <-]. split_and!; [done..|].
  unfold template_revision. simpl. by rewrite lookup_insert_eq.
Qed.

Lemma NewStatefulSet_same c node r : same_spec c b → NewStatefulSet c node r = NewStatefulSet b node r.
Proof. destruct c, b. unfold same_spec; simpl. by intros (-> & -> & ->). Qed.

(** The sets a pass renders for the declared nodes and those being removed. *)
Lemma render_nodes_spec p nodes opts (want : Node → StatefulSet) restarts desired :
  same_spec (p_cluster p) b → Forall (λ node, node_Name node ≠ "") nodes →
  (∀ node, node ∈ nodes → match p_decommission p !! node_Name node with
                           | Some x => want node = kept_set x
                           | None => want node = spec_set b node
                           end) →
  ∃ restarts', render_nodes p nodes opts restarts desired = Ok (restarts', desired ++ (want <$> nodes)).
Proof.
  intros Hsame Hf. revert restarts desired.
  induction Hf as [|node nodes Hnode _ IH]; intros restarts desired Hwant; simpl.
  { rewrite app_nil_r. eauto. }
  destruct (RestartRevision_spec (p_cluster p) node opts Hsame Hnode) as (r & -> & Hr). simpl.
  assert (desiredSet p node r = Ok (want node)) as ->.
  { unfold desiredSet. pose proof (Hwant node ltac:(left)) as Hw.
    destruct (p_decommission p !! node_Name node) as [x|]; rewrite Hw.
    - apply kept_set_facts.
    - rewrite NewStatefulSet_same by done. by apply spec_set_stamped. }
  simpl. destruct (IH (<[node_Name node:=r]> restarts) (desired ++ [want node])) as [restarts' ->].
  - intros n Hn. apply Hwant. by right.
  - exists restarts'. by rewrite <- app_assoc.
Qed.

Lemma PodTemplateRevision_ok sets : ∃ r, PodTemplateRevision sets = Ok r.
Proof.
  unfold PodTemplateRevision.
  assert (∃ entries, template_entries sets = Ok entries) as [entries ->]; [|simpl; eauto].
  induction sets as [|set sets [rest IH]]; simpl; [eauto|]. rewrite IH. unfold marshal_template.
  destruct (is_ok_Ok _ (enc_template (set_Template set))) as [t ->]. simpl. eauto.
Qed.
End render.

(** ** What leaves the nodes alone *)

(** An entry that writes and removes no StatefulSet and no claim, and deletes no
    pod. *)
Definition untouching (a : action) : Prop :=
  match a with
  | AApply (OStatefulSet _) | ADelete KindSet _ _ _ | ADelete KindPod _ _ _ | AUpdatePVC _ => False
  | _ => True
  end.

(** The same, except that the pod of a set that was recreated around it (after a
    volume grew) may be deleted, while every other node serves. *)
Definition spared (o : Obs) (a : action) : Prop :=
  match a with
  | ADelete KindPod _ pod _ =>
      ∃ name x, pod = PodName name ∧ o_sets o !! name = Some x ∧ adoptedStalePod x = true ∧
        ∀ other y, o_sets o !! other = Some y → other ≠ name → nodeServing y = true
  | a => untouching a
  end.

Lemma untouching_spared o a : untouching a → spared o a.
Proof. by destruct a as [| |[]| | | | | | | | | | | | | | | | |]. Qed.

Lemma reporting_untouching a : reporting a → untouching a.
Proof. by destruct a. Qed.

Lemma benign_untouching a : benign a → untouching a.
Proof. by destruct a as [[]| |[]| | | | | | | | | | | | | | | | |]. Qed.

(** ** One pass *)

Section pass.
Context {W : Type} `{!KubeClient W, !Interface W} {CD : Codec} {EN : Encodes}.
Context (OperatorNamespace FSImageRegistry : string) (b : FSCluster) {CW : ClusterWorld W b}.
Context (Hrun : runnable b) (Hspec : spec_ok (fsc_Spec b)).
Context (object : FSCluster) (Hsame : same_spec (with_defaults object FSImageRegistry) b).
Implicit Types s : Env W pass.

Abbreviation seen s := (obs (b := b) (e_world s)).
Abbreviation dflt := (cw_default (b := b)).

Let c := with_defaults object FSImageRegistry.

(** The world the pass starts in. *)
Context (o : Obs) (Hwell : well b dflt o).

(** *** What is known along the way *)

(** After planning, rendering and observing. *)
Record planned (xs : list StatefulSet) (p : pass) : Prop := mkPlanned {
  pl_cluster : p_cluster p = c;
  pl_removed : removed b o xs;
  pl_nodes : p_nodes p = Nodes b ++ (nodeFromSet <$> xs);
  pl_decommission : p_decommission p = index_sets xs;
  pl_applied : p_layoutApplied p = false;
}.

Definition rendered_sets (xs : list StatefulSet) : list StatefulSet := spec_sets b ++ (kept_set <$> xs).

Definition St0 (p : pass) : Prop :=
  p_cluster p = c ∧ p_nodes p = Nodes b ∧ p_decommission p = ∅ ∧ p_layoutApplied p = false ∧ p_health p = no_health.
Definition St1 (p : pass) : Prop := (∃ xs, planned xs p) ∧ p_health p = no_health.
Definition St2 (p : pass) : Prop :=
  (∃ xs, planned xs p ∧ desired_sets p = rendered_sets xs) ∧ p_health p = no_health.
Definition St3 (p : pass) : Prop :=
  ∃ xs, planned xs p ∧ desired_sets p = rendered_sets xs ∧ p_live p = o_sets o ∧
    h_notReady (p_health p) = down_names (o_sets o) (p_nodes p).

(** Every StatefulSet there is belongs to a node that is up. *)
Definition all_up : Prop := ∀ name, is_Some (o_sets o !! name) → name ∈ o_up o.

(** The pass knows the layout, and that the nodes that are up run it. *)
Definition viewed (p : pass) : Prop :=
  cv_known (p_convergence p) = true ∧ cv_layout (p_convergence p) = o_layout o ∧
  (∀ name, name ∈ o_up o → up (p_convergence p) name = true) ∧
  ((∀ node, node ∈ p_nodes p → node_Name node ∈ o_up o) →
   (∃ l, o_layout o = Some l ∧ Retained l = []) → cv_converged (p_convergence p) = true).

Definition St4 (p : pass) : Prop :=
  St3 p ∧ (SingleNode (fsc_Spec b) = false → o_calm o = true → all_up →
           (∃ name, is_Some (o_sets o !! name)) → viewed p).

(** *** Steps before anything is decided *)

Definition pre (F : pass → Prop) (stopped : bool) s : Prop :=
  seen s = o ∧ (stopped = false → F (e_st s)) ∧ (o_calm o = true → stopped = false).

Lemma pre_step name always m (F F' : pass → Prop) :
  (∀ s, (always = false → F (e_st s)) → seen s = o → resp (unmoved b) m s) →
  (∀ s out s', F (e_st s) → seen s = o → m s = (Ok out, s') → Blocked out = false → F' (e_st s')) →
  (∀ s, F (e_st s) → seen s = o → o_calm o = true → wp m (λ out _, Blocked out = false) s) →
  step_ok (pre F) (pre F') (step_of name always m).
Proof.
  intros Hun Hst Hcalm. split.
  - intros s _ (H1 & _ & H3). split_and!; [done|done|]. intros Hc. by apply H3 in Hc.
  - intros stopped s out err s' Hb (H1 & H2 & H3) Hm. simpl in *. unfold run_M in Hm.
    assert (always = false → F (e_st s)) as HF by (intros ->; apply H2; by destruct Hb).
    specialize (Hun s HF H1). unfold resp, unmoved in Hun.
    assert (Hs' : s' = (m s).2) by by destruct (m s) as [[]?]; simplify_eq.
    split_and!.
    + rewrite Hs', Hun. exact H1.
    + intros [-> Hstop]%orb_false_iff. destruct (m s) as [[x|e] s1] eqn:E; simplify_eq/=. eauto.
    + intros Hc. specialize (H3 Hc). subst stopped. specialize (H2 eq_refl).
      destruct (Hcalm s H2 H1 Hc) as (x & s1 & E & Hx). rewrite E in Hm. by simplify_eq/=.
Qed.

Lemma calm_seen s : seen s = o → o_calm o = true → o_calm (seen s) = true.
Proof. by intros ->. Qed.

Lemma wp_call {A} (m : M W A) (Q : A → Env W pass → Prop) s :
  frames (obs (b := b)) m → is_ok (m (e_world s)).1 = true →
  (∀ a s', seen s' = seen s → e_st s' = e_st s → (m (e_world s)).1 = Ok a → Q a s') → wp (call m) Q s.
Proof.
  intros Hf Hok HQ. unfold wp, call. specialize (Hf (e_world s)).
  destruct (m (e_world s)) as [[a|] w] eqn:E; [|done]. eexists _, _. split; [done|]. by apply HQ.
Qed.

Lemma c_name : fsc_Name c = fsc_Name b. Proof. apply Hsame. Qed.
Lemma c_ns : fsc_Namespace c = fsc_Namespace b. Proof. apply Hsame. Qed.
Lemma c_spec : fsc_Spec c = fsc_Spec b. Proof. apply Hsame. Qed.

Lemma names_of_sets name x : o_sets o !! name = Some x → set_Name x = name.
Proof. intros H. by apply Hwell in H as [? _]. Qed.

Lemma wp_nodeSets (Q : list StatefulSet → Env W pass → Prop) s :
  seen s = o → o_calm o = true →
  (∀ sets s', seen s' = o → e_st s' = e_st s → sets ≡ₚ (map_to_list (o_sets o)).*2 → Q sets s') →
  wp (nodeSets c) Q s.
Proof.
  intros Ho Hc HQ. unfold nodeSets. apply wp_wrap_err, wp_call; [apply cw_listSets_frame| |].
  - rewrite c_name, c_ns. apply (cw_calm_listSets (b := b)). by rewrite Ho.
  - intros sets s' Hs' Hst Hl. apply HQ; [by rewrite Hs'|done|]. rewrite c_name, c_ns in Hl.
    apply (cw_listSets (b := b)) in Hl. by rewrite Ho in Hl.
Qed.

Lemma nodeSets_Ok s sets s' : seen s = o → nodeSets c s = (Ok sets, s') →
  sets ≡ₚ (map_to_list (o_sets o)).*2 ∧ seen s' = o ∧ e_st s' = e_st s.
Proof.
  intros Ho H. pose proof (un_nodeSets b c s) as Hu. unfold resp, unmoved in Hu. rewrite H in Hu. simpl in Hu.
  split; [|split; [congruence|]].
  - revert H. unfold nodeSets, wrap_err, call. rewrite c_name, c_ns.
    destruct (k_listSets _ _ _) as [[l|] w] eqn:E; [|done]. intros [= <- _].
    rewrite <- Ho. apply (cw_listSets (b := b)). by rewrite E.
  - revert H. unfold nodeSets, wrap_err, call. destruct (k_listSets _ _ _) as [[l|] w]; [|done]. by intros [= _ <-].
Qed.

Lemma pre_validate : step_ok (pre St0) (pre St0) (step_of "validate" false validate).
Proof.
  apply pre_step.
  - intros; apply un_validate.
  - intros s out s' (H1 & H2 & H3 & H4 & H5) _ E _. pose proof (resp_validate s) as [_ Hk]. rewrite E in Hk. simpl in Hk.
    unfold st_rel, keeps in Hk. apply core_inv in Hk as (_ & Hh & Hd). apply decided_inv in Hd as (Hi & _ & Ha).
    apply inputs_inv in Hi as (Hc & Hn & _ & _ & _ & Hx). unfold St0. by rewrite Hc, Hn, Hx, Ha, Hh.
  - intros s (H1 & _) _ _. destruct (validate_eq s) as (order & w & E). rewrite H1, c_spec in E.
    rewrite (proj2 (Cluster_None order _) Hspec) in E. eexists _, _. split; [exact E|done].
Qed.

Lemma pre_plan : step_ok (pre St0) (pre St1) (step_of "decommission" false planDecommission).
Proof.
  apply pre_step.
  - intros; apply un_planDecommission.
  - intros s out s' (H1 & H2 & H3 & H4 & H5) Ho E _. revert E. unfold planDecommission.
    unfold mbind at 1, M_bind at 1, get_st, gets. rewrite H1. unfold mbind at 1, M_bind at 1.
    destruct (nodeSets c s) as [[sets|] s1] eqn:E1; [|done]. apply nodeSets_Ok in E1 as (Hp & Ho1 & Hs1); [|done].
    rewrite H2, H3, plan_sets_eq. fold (declared b).
    fold (index_sets (undeclared (declared b) sets)). set (xs := undeclared (declared b) sets).
    unfold put_st, modify. unfold mbind at 1, M_bind at 1. rewrite Hs1. intros E.
    assert (e_st s' = set_decommission (Nodes b ++ (nodeFromSet <$> xs)) (index_sets xs) (e_st s)) as ->.
    { revert E. destruct (negb _); [by intros [= _ <-]|]. cbv zeta.
      case_match; intros E; unfold event, emit in E; msimpl; by simplify_eq/=. }
    split; [|done]. exists xs. split; [done|by apply undeclared_removed; [apply names_of_sets|]|done..].
  - intros s (H1 & H2 & H3 & H4) Ho Hc. unfold planDecommission. apply wp_bind, wp_gets. rewrite H1.
    apply wp_bind, wp_nodeSets; [done|done|]. intros sets s1 _ _ _. destruct (plan_sets _ _ _ _) as [nodes m].
    apply wp_bind, wp_modify. destruct (negb _); [by apply wp_ret|]. cbv zeta. apply wp_bind.
    case_match; [by apply wp_ret, wp_ret|]. eexists _, _. split; [reflexivity|]. by apply wp_ret.
Qed.

(** *** Rendering *)

Lemma planned_names xs p : planned xs p → node_Name <$> p_nodes p = declared b ++ (set_Name <$> xs).
Proof. intros Hp. rewrite (pl_nodes _ _ Hp), fmap_app, <- list_fmap_compose. done. Qed.

Lemma removed_names xs x : removed b o xs → x ∈ xs →
  o_sets o !! set_Name x = Some x ∧ set_Name x ∉ declared b ∧ set_Name x ≠ "".
Proof. intros [_ Hx] Hin. apply Hx in Hin as [Hl Hn]. split_and!; [done|done|]. by apply Hwell in Hl as (_ & _ & ? & _). Qed.

Lemma planned_nonempty xs p : planned xs p → Forall (λ node, node_Name node ≠ "") (p_nodes p).
Proof.
  intros Hp. rewrite (pl_nodes _ _ Hp). apply Forall_app. split; apply Forall_forall.
  - intros node. by apply NodeName_nonempty.
  - intros node (x & -> & Hx)%list_elem_of_fmap. by eapply removed_names; [apply Hp|].
Qed.

Lemma planned_NoDup xs p : planned xs p → NoDup (node_Name <$> p_nodes p).
Proof.
  intros Hp. rewrite (planned_names xs p Hp). apply NoDup_app. split_and!.
  - by apply declared_NoDup.
  - intros n Hn (x & -> & Hx)%list_elem_of_fmap. by apply (removed_names xs) in Hx as (_ & ? & _); [|apply Hp].
  - apply Hp.
Qed.

Lemma planned_index xs p name : planned xs p →
  p_decommission p !! name = if decide (name ∈ declared b) then None else o_sets o !! name.
Proof.
  intros Hp. rewrite (pl_decommission _ _ Hp). destruct (pl_removed _ _ Hp) as [Hnd Hxs].
  apply option_eq. intros x. rewrite index_sets_lookup, Hxs by done. case_decide as Hd.
  - split; [|done]. by intros [[_ ?] <-].
  - split; [by intros [[? _] <-]|]. intros Hx. pose proof (names_of_sets _ _ Hx) as <-. done.
Qed.

(** The set the pass wants for a node. *)
Definition wanted_set (xs : list StatefulSet) (node : Node) : StatefulSet :=
  match index_sets xs !! node_Name node with Some x => kept_set x | None => spec_set b node end.

Lemma wanted_sets xs p : planned xs p → wanted_set xs <$> p_nodes p = rendered_sets xs.
Proof.
  intros Hp. rewrite (pl_nodes _ _ Hp), fmap_app, <- list_fmap_compose. unfold rendered_sets, spec_sets. f_equal.
  - apply list_fmap_ext. intros i node Hi%list_elem_of_lookup_2. unfold wanted_set.
    rewrite <- (pl_decommission _ _ Hp), (planned_index xs) by done.
    rewrite decide_True; [done|]. by apply list_elem_of_fmap_2.
  - apply list_fmap_ext. intros i x Hi%list_elem_of_lookup_2. unfold wanted_set. simpl.
    destruct (pl_removed _ _ Hp) as [Hnd _].
    by rewrite (proj2 (index_sets_lookup xs (set_Name x) x Hnd)).
Qed.

Lemma rendered_by xs p keys : planned xs p →
  ∃ configs restarts revision,
    RenderNodeConfigs c (p_nodes p) (mkRenderOptions keys) ∅ = Ok configs ∧
    render_nodes p (p_nodes p) (mkRenderOptions keys) ∅ [] = Ok (restarts, rendered_sets xs) ∧
    PodTemplateRevision (rendered_sets xs) = Ok revision.
Proof.
  intros Hp. pose proof (planned_nonempty xs p Hp) as Hne.
  destruct (RenderNodeConfigs_ok b Hrun c (p_nodes p) (mkRenderOptions keys) ∅ Hsame Hne) as [configs ->].
  destruct (render_nodes_spec b Hrun p (p_nodes p) (mkRenderOptions keys) (wanted_set xs) ∅ []) as [restarts ->].
  - rewrite (pl_cluster _ _ Hp). exact Hsame.
  - done.
  - intros node _. unfold wanted_set. rewrite (pl_decommission _ _ Hp). by destruct (_ !! _).
  - rewrite (wanted_sets xs p Hp). destruct (PodTemplateRevision_ok (rendered_sets xs)) as [r ->]. simpl. eauto 6.
Qed.

Lemma collectAccessKeys_state s : e_st (collectAccessKeys c s).2 = e_st s.
Proof. by apply (resp_collectAccessKeys (λ _, True) (keeps id)). Qed.

Lemma wp_resolveKeys items s :
  o_calm (seen s) = true → wp (resolveKeys c items) (λ _ s', seen s' = seen s ∧ e_st s' = e_st s) s.
Proof.
  revert s. induction items as [|ak items IH]; intros s Hc; simpl; [by apply wp_ret|].
  apply wp_bind. apply (wp_mono _ (λ _ s', seen s' = seen s ∧ e_st s' = e_st s)).
  - unfold resolveKey. case_bool_decide; [by apply wp_ret|]. destruct (ak_Deleting ak); [by apply wp_ret|].
    apply wp_bind, wp_try. intros r s1 Hr.
    assert (seen s1 = seen s ∧ e_st s1 = e_st s ∧ ∀ e, r = Err e → IsNotFound e = true) as (H1 & H2 & He).
    { revert Hr. unfold call. rewrite c_ns.
      pose proof (cw_getSecret_frame (b := b) (fsc_Namespace b) (AccessKeySecretSource ak) (e_world s)) as Hf.
      pose proof (λ e, cw_calm_getSecret (b := b) (AccessKeySecretSource ak) (e_world s) e Hc) as Hn.
      destruct (k_getSecret _ _ _) as [r' w]. intros [= <- <-]. simpl in *. split_and!; [done|done|].
      intros e ->. by apply Hn. }
    destruct r as [secret|e]; [|rewrite He by done; by apply wp_ret].
    cbv zeta. case_match; by apply wp_ret.
  - intros ks s1 [H1 H2]. apply wp_bind. eapply wp_mono; [apply IH; by rewrite H1|].
    intros rest s2 [H3 H4]. apply wp_ret. split; congruence.
Qed.

Lemma pre_render : step_ok (pre St1) (pre St2) (step_of "render" false render).
Proof.
  apply pre_step.
  - intros; apply un_render.
  - intros s out s' ((xs & Hp) & Hh) Ho E _. revert E. unfold render.
    unfold mbind at 1, M_bind at 1, get_st, gets. rewrite (pl_cluster _ _ Hp). unfold mbind at 1, M_bind at 1.
    pose proof (collectAccessKeys_state s) as Hk. destruct (collectAccessKeys c s) as [[keys|] s1]; [|done].
    simpl in Hk. destruct (rendered_by xs (e_st s) keys Hp) as (configs & restarts & revision & E1 & E2 & E3).
    unfold lift, put_st, modify. msimpl. rewrite E1. simpl. rewrite E2. simpl. rewrite E3. simpl.
    intros [= _ <-]. simpl. rewrite Hk. split; [|done]. exists xs. split; [|done]. by destruct Hp.
  - intros s ((xs & Hp) & _) Ho Hc. unfold render. apply wp_bind, wp_gets. rewrite (pl_cluster _ _ Hp).
    apply wp_bind. unfold collectAccessKeys. apply wp_bind, wp_wrap_err.
    apply wp_call; [apply cw_listKeys_frame| |].
    { rewrite c_ns. apply (cw_calm_listKeys (b := b)). by rewrite Ho. }
    intros items s1 H1 _ _. apply wp_bind. eapply wp_mono; [apply wp_resolveKeys; by rewrite H1, Ho|].
    intros keys s2 _. apply wp_ret. cbv zeta.
    destruct (rendered_by xs (e_st s) (sort_by AccessKey keys) Hp) as (configs & restarts & revision & E1 & E2 & E3).
    apply wp_bind. eapply wp_lift; [exact E1|]. apply wp_bind. eapply wp_lift; [exact E2|].
    apply wp_bind. eapply wp_lift; [exact E3|]. apply wp_bind, wp_modify. by apply wp_ret.
Qed.

Lemma pre_observe : step_ok (pre St2) (pre St3) (step_of "observe" true observe).
Proof.
  apply pre_step.
  - intros; apply un_observe.
  - intros s out s' ((xs & Hp & Hd) & Hh) Ho E _. revert E. unfold observe.
    unfold mbind at 1, M_bind at 1, get_st, gets. rewrite (pl_cluster _ _ Hp). unfold mbind at 1, M_bind at 1.
    destruct (nodeSets c s) as [[sets|] s1] eqn:E1; [|done]. apply nodeSets_Ok in E1 as (Hl & Ho1 & Hs1); [|done].
    unfold put_st, modify. msimpl. intros [= _ <-]. simpl. rewrite Hs1.
    rewrite (index_sets_listed (o_sets o)) by first [exact names_of_sets | exact Hl].
    exists xs. split_and!; [by destruct Hp|exact Hd|done|]. unfold observe_nodes. simpl. rewrite Hh.
    by destruct (observe_foldl (fsc_Spec (p_cluster (e_st s))) (o_sets o)
      (desired_revisions (desired_sets (e_st s))) (p_nodes (e_st s)) (mkTally no_health ∅ ∅)) as [-> _].
  - intros s ((xs & Hp & Hd) & Hh) Ho Hc. unfold observe. apply wp_bind, wp_gets. rewrite (pl_cluster _ _ Hp).
    apply wp_bind, wp_nodeSets; [done|done|]. intros sets s1 _ _ _. apply wp_bind, wp_modify. by apply wp_ret.
Qed.

(** *** Secrets, Services, configurations

    In a calm world, a computation that answers as [Q] says and leaves what is
    observed alone. *)
Definition calmly {A} (Q : A → Prop) (m : M (Env W pass) A) : Prop :=
  ∀ s, o_calm (seen s) = true → wp m (λ a s', Q a ∧ seen s' = seen s) s.

Lemma calmly_ret {A} (Q : A → Prop) a : Q a → calmly Q (ret a).
Proof. intros HQ s _. by apply wp_ret. Qed.

Lemma calmly_bind {A B} (P : A → Prop) (Q : B → Prop) m (k : A → M (Env W pass) B) :
  calmly P m → (∀ a, P a → calmly Q (k a)) → calmly Q (m ≫= k).
Proof.
  intros Hm Hk s Hc. apply wp_bind. eapply wp_mono; [by apply Hm|]. intros a s1 [HP H1].
  eapply wp_mono; [apply (Hk a HP); by rewrite H1|]. intros x s2 [HQ H2]. split; [done|congruence].
Qed.

Lemma calmly_wrap_err {A} (Q : A → Prop) msg (m : M (Env W pass) A) : calmly Q m → calmly Q (wrap_err msg m).
Proof. intros Hm s Hc. by apply wp_wrap_err, Hm. Qed.

Lemma calmly_forM_ {A} (l : list A) (body : A → M (Env W pass) unit) :
  (∀ x, x ∈ l → calmly (λ _, True) (body x)) → calmly (λ _, True) (forM_ l body).
Proof.
  induction l as [|x l IH]; intros Hb; simpl; [by apply calmly_ret|].
  eapply calmly_bind; [apply Hb; left|]. intros _ _. apply IH. intros y Hy. apply Hb. by right.
Qed.

Lemma calmly_wp {A} (Q : A → Prop) (m : M (Env W pass) A) s :
  calmly Q m → seen s = o → o_calm o = true → wp m (λ a _, Q a) s.
Proof. intros Hm Ho Hc. eapply wp_mono; [apply Hm; by rewrite Ho|]. by intros a s' [? _]. Qed.

Lemma calmly_rand (Q : (nat → ascii) → Prop) : (∀ f, Q f) → calmly Q (call k_rand).
Proof.
  intros HQ s Hc. apply wp_call; [apply cw_rand_frame|by apply cw_calm_rand|]. intros a s' H1 _ _. by split.
Qed.

Lemma calmly_apply x : (∀ set, x ≠ OStatefulSet set) → calmly (λ _, True) (apply c x).
Proof.
  intros Hx s Hc. pose proof (un_apply b c x s Hx) as Hu. unfold resp, unmoved, wp in *. revert Hu.
  unfold apply, applyConfiguration, wrap_err, issue, emit, call. msimpl.
  rewrite (cw_owner (b := b)), (cw_unstructured (b := b)). simpl.
  pose proof (cw_calm_apply (b := b) (drop_status x) (e_world s) Hc) as Hok.
  destruct (k_apply _ _) as [[[]|] w]; [|done]. simpl. eauto 6.
Qed.

Lemma calmly_createOnce x : (∀ set, x ≠ OStatefulSet set) → calmly (λ _, True) (createOnce c x).
Proof.
  intros Hx s Hc. pose proof (un_createOnce b c x s Hx) as Hu. unfold resp, unmoved, wp in *. revert Hu.
  unfold createOnce, wrap_err, issue, emit, call. msimpl. rewrite (cw_owner (b := b)). simpl.
  pose proof (λ e, cw_calm_create (b := b) x (e_world s) e Hc) as Hok.
  destruct (k_create _ _) as [[[]|e] w]; simpl; [eauto 6|]. rewrite (Hok e eq_refl). simpl. eauto 6.
Qed.

Lemma calmly_requireSecret p name keys :
  p_cluster p = c → (name, keys) ∈ needed_secrets b → calmly (λ out, out = Continue) (requireSecret p name keys).
Proof.
  intros Hp Hn s Hc. unfold requireSecret. rewrite Hp, c_ns. apply wp_bind, wp_try. intros r s1.
  destruct (cw_calm_needed (b := b) name keys (e_world s) Hc Hn) as (secret & Hg & Hm).
  pose proof (cw_getSecret_frame (b := b) (fsc_Namespace b) name (e_world s)) as Hf. unfold call.
  destruct (k_getSecret _ _ _) as [r' w]. simpl in *. subst r'. intros [= <- <-]. rewrite Hm. by apply wp_ret.
Qed.

Ltac calm_bind := eapply (calmly_bind (λ _, True)); [|intros ? _].

Lemma calmly_Token : calmly (λ _, True) keygen_Token.
Proof. unfold keygen_Token. calm_bind; [by apply calmly_wrap_err, calmly_rand|by apply calmly_ret]. Qed.

Lemma calmly_AccessKey : calmly (λ _, True) keygen_AccessKey.
Proof. unfold keygen_AccessKey. calm_bind; [by apply calmly_wrap_err, calmly_rand|by apply calmly_ret]. Qed.

(** The generated Secrets. *)
Ltac mint := unfold NewClusterSecret, NewRootCredentialsSecret, NewAdminTokenSecret;
  repeat (calm_bind; [apply calmly_wrap_err; first [apply calmly_Token|apply calmly_AccessKey]|]);
  by apply calmly_ret.

Lemma calmly_generateSecret p skip build :
  p_cluster p = c → calmly (λ _, True) (build c) → calmly (λ _, True) (generateSecret p skip build).
Proof.
  intros Hp Hb. unfold generateSecret. rewrite Hp. destruct skip; [by apply calmly_ret|].
  calm_bind; [done|]. by apply calmly_createOnce.
Qed.

Lemma St3_core p p' : core p' = core p → St3 p → St3 p'.
Proof.
  intros (_ & Hh & Hd)%core_inv. apply decided_inv in Hd as (Hi & _ & Ha).
  apply inputs_inv in Hi as (Hc & Hn & Hds & Hl & Hr & Hx). intros (xs & [] & H2 & H3 & H4).
  exists xs. unfold desired_sets in *. rewrite Hds, Hl, Hr, Hn. split_and!; [|done..]. split; congruence.
Qed.

Lemma keeps_core_state {A} (φ : action → Prop) (m : M (Env W pass) A) s a s' :
  resp (env_rel φ (keeps core)) m s → m s = (Ok a, s') → core (e_st s') = core (e_st s).
Proof. intros [_ Hk] E. rewrite E in Hk. exact Hk. Qed.

Lemma pre_secrets : step_ok (pre St3) (pre St3) (step_of "secrets" false reconcileSecrets).
Proof.
  apply pre_step.
  - intros; apply un_reconcileSecrets.
  - intros s out s' HS _ E _. eapply St3_core; [|exact HS]. eapply keeps_core_state; [apply resp_reconcileSecrets|exact E].
  - intros s (xs & Hp & _) Ho Hc. pose proof (pl_cluster _ _ Hp) as Hcl. unfold reconcileSecrets.
    apply wp_bind, wp_gets. cbv zeta. apply (calmly_wp (λ out, Blocked out = false)); [|done|done].
    set (p := e_st s) in *.
    do 3 (calm_bind; [apply calmly_generateSecret; [done|]; mint|]).
    assert (ClusterSecretSource c = ClusterSecretSource b ∧ RootCredentialsSource c = RootCredentialsSource b) as [E1 E2].
    { unfold ClusterSecretSource, RootCredentialsSource. by rewrite c_name, c_spec. }
    rewrite Hcl, E1, E2.
    eapply calmly_bind; [apply calmly_requireSecret; [done|unfold needed_secrets; set_solver]|]. intros out ->. simpl.
    eapply calmly_bind; [apply calmly_requireSecret; [done|unfold needed_secrets; set_solver]|]. intros out ->. simpl.
    by apply calmly_ret.
Qed.

Lemma pre_services : step_ok (pre St3) (pre St3) (step_of "services" false reconcileServices).
Proof.
  apply pre_step.
  - intros; apply un_reconcileServices.
  - intros s out s' HS _ E _. eapply St3_core; [|exact HS]. eapply keeps_core_state; [apply resp_reconcileServices|exact E].
  - intros s (xs & Hp & _) Ho Hc. unfold reconcileServices. apply wp_bind, wp_gets. rewrite (pl_cluster _ _ Hp).
    apply (calmly_wp (λ out, Blocked out = false)); [|done|done]. calm_bind; [|by apply calmly_ret].
    apply calmly_forM_. intros x Hx. apply calmly_apply. set_solver.
Qed.

Lemma pre_configs : step_ok (pre St3) (pre St3) (step_of "configs" false reconcileNodeConfigs).
Proof.
  apply pre_step.
  - intros; apply un_reconcileNodeConfigs.
  - intros s out s' HS _ E _. eapply St3_core; [|exact HS]. eapply keeps_core_state; [apply resp_reconcileNodeConfigs|exact E].
  - intros s (xs & Hp & _) Ho Hc. unfold reconcileNodeConfigs. apply wp_bind, wp_gets. rewrite (pl_cluster _ _ Hp).
    apply (calmly_wp (λ out, Blocked out = false)); [|done|done]. calm_bind; [|by apply calmly_ret].
    apply calmly_forM_. intros x Hx. by apply calmly_apply.
Qed.

(** *** Convergence *)

Lemma St3_inputs p p' : inputs p' = inputs p → p_layoutApplied p' = p_layoutApplied p → St3 p → St3 p'.
Proof.
  intros (Hc & Hn & Hds & Hl & Hr & Hx)%inputs_inv Ha (xs & [] & H2 & H3 & H4).
  exists xs. unfold desired_sets in *. rewrite Hds, Hl, Hr, Hn. split_and!; [|done..]. split; congruence.
Qed.

Lemma wp_adminToken (Q : string → Env W pass → Prop) s :
  p_cluster (e_st s) = c → o_calm (seen s) = true →
  (∀ token s', seen s' = seen s → e_st s' = e_st s → Q token s') → wp adminToken Q s.
Proof.
  intros Hp Hc HQ. unfold adminToken. apply wp_bind, wp_gets. cbv zeta. rewrite Hp, c_name, c_ns.
  destruct (cw_calm_needed (b := b) (AdminTokenSecretName (fsc_Name b)) [AdminTokenKey] (e_world s) Hc)
    as (secret & Hg & Hm); [unfold needed_secrets; set_solver|].
  apply wp_bind, wp_wrap_err, wp_call; [apply cw_getSecret_frame|by rewrite Hg|]. intros sec s1 H1 H2 Hr.
  assert (sec = secret) as -> by congruence. unfold missingKey in Hm.
  rewrite bool_decide_false; [by apply wp_ret, HQ|]. intros Hd. rewrite filter_cons, decide_True in Hm by done. done.
Qed.

Definition sees_up (nodes : gmap string FsNode) : Prop :=
  ∀ m, m ∈ o_up o → ∃ n, nodes !! m = Some n ∧ n_Up n = true ∧
    ∀ l, o_layout o = Some l → (Version l <= n_LayoutVersion n)%Z.

Lemma wp_clusterView p node token s :
  p_cluster p = c → seen s = o → o_calm o = true → node_Name node ∈ o_up o →
  wp (clusterView p node token) (λ view s', seen s' = o ∧ e_st s' = e_st s ∧
    cv_known view = true ∧ cv_layout view = o_layout o ∧ sees_up (cv_nodes view)) s.
Proof.
  intros Hp Ho Hc Hup. unfold clusterView, node_url. rewrite Hp, c_name, c_ns. cbv zeta.
  assert (Hcalm : ∀ s', seen s' = seen s → o_calm (seen s') = true ∧ node_Name node ∈ o_up (seen s'))
    by (intros s' ->; by rewrite Ho).
  destruct (Hcalm s eq_refl) as [Hc0 Hu0].
  apply wp_bind, wp_call; [apply cw_Client_frame|by rewrite (cw_up_Client (b := b))|]. intros _ s1 H1 E1 _.
  destruct (Hcalm s1 H1) as [Hc1 Hu1].
  apply wp_bind, wp_try. intros r s2.
  pose proof (cw_up_Layout (b := b) (node_Name node) token (e_world s1) Hc1 Hu1) as Hl.
  pose proof (cw_Layout_frame (b := b) (AdminURL (fsc_Name b) (fsc_Namespace b) (node_Name node)) token (e_world s1)) as Hf.
  unfold call at 1. destruct (adm_Layout _ _ _) as [rl w2]. simpl in Hl, Hf. intros [= <- <-].
  rewrite H1, Ho in Hl, Hf. set (s2 := mkEnv w2 (e_log s1) (e_st s1)).
  assert (Hgo : wp (call (adm_Nodes (AdminURL (fsc_Name b) (fsc_Namespace b) (node_Name node)) token) ≫= λ nodes,
      ret (mkConvergence true (o_layout o) (index_view nodes) false ""))
    (λ view s', seen s' = o ∧ e_st s' = e_st s ∧ cv_known view = true ∧ cv_layout view = o_layout o ∧
       sees_up (cv_nodes view)) s2).
  { destruct (cw_up_Nodes (b := b) (node_Name node) token (e_world s2)) as (nodes & Hn & Hview);
      [simpl; by rewrite Hf, ?Ho..|].
    apply wp_bind, wp_call; [apply cw_Nodes_frame|by rewrite Hn|]. intros nodes' s3 H3 E3 Hn'.
    assert (nodes' = nodes) as -> by congruence. apply wp_ret. simpl in *. rewrite H3. simpl. rewrite Hf, E3.
    split_and!; try done. unfold sees_up. by rewrite Hf in Hview. }
  apply wp_bind. destruct rl as [l|e].
  - apply wp_ret. by rewrite <- Hl.
  - destruct Hl as [-> Hl]. apply wp_ret. by rewrite <- Hl.
Qed.

(** The first node asked is up. *)
Lemma askOrder_up xs p : planned xs p → p_live p = o_sets o → all_up → (∃ name, is_Some (o_sets o !! name)) →
  ∃ node nodes, askOrder p = node :: nodes ∧ node_Name node ∈ o_up o.
Proof.
  intros Hp Hl Hup [name [x Hx]].
  assert (Hask : ∀ node, node ∈ askOrder p → node_Name node ∈ o_up o).
  { intros node [_ Hn]%elem_of_askOrder. rewrite Hl in Hn. by apply Hup. }
  assert (name ∈ node_Name <$> p_nodes p) as (node & Hname & Hin)%list_elem_of_fmap.
  { rewrite (planned_names xs p Hp), elem_of_app. destruct (decide (name ∈ declared b)) as [|Hd]; [by left|right].
    pose proof (names_of_sets _ _ Hx) as <-. apply list_elem_of_fmap_2. by apply (pl_removed _ _ Hp). }
  assert (node ∈ askOrder p) as Hn by (apply elem_of_askOrder; rewrite Hl, <- Hname; eauto).
  destruct (askOrder p) as [|node' nodes]; [by apply elem_of_nil in Hn|]. exists node', nodes.
  split; [done|]. apply Hask. left.
Qed.

Lemma wp_gatherConvergence s :
  SingleNode (fsc_Spec b) = false → St3 (e_st s) → seen s = o → o_calm o = true → all_up → (∃ name, is_Some (o_sets o !! name)) →
  wp gatherConvergence (λ _ s', viewed (e_st s')) s.
Proof.
  intros Hmany (xs & Hp & _ & Hl & _) Ho Hc Hup [name Hname]. pose proof (pl_cluster _ _ Hp) as Hcl.
  unfold gatherConvergence. apply wp_bind, wp_gets. rewrite Hcl at 1. rewrite c_spec, Hmany.
  apply wp_bind, wp_try. intros r s1 Hr.
  destruct (wp_adminToken (λ _ s', seen s' = o ∧ e_st s' = e_st s) s) as (token & s1' & E1 & H1 & S1);
    [done|by rewrite Ho|by intros token s' -> ->|]. rewrite E1 in Hr. injection Hr as <- <-.
  set (p := e_st s) in *.
  destruct (askOrder_up xs p Hp Hl Hup (ex_intro _ name Hname)) as (node & nodes & Hask & Hnode).
  rewrite Hask. cbn [askNodes]. apply wp_bind, wp_bind, wp_try. intros r s2 Hr.
  destruct (wp_clusterView p node token s1' Hcl H1 Hc Hnode) as (view & s2' & E2 & H2 & S2 & Hk & Hlay & Hview).
  rewrite E2 in Hr. injection Hr as <- <-. apply wp_modify, wp_ret. cbn [e_st].
  rewrite S2, S1. fold p. unfold viewed. cbn [p_convergence set_convergence with_verdict cv_known cv_layout p_nodes].
  split_and!; [done|done| |].
  - intros m Hm. destruct (Hview m Hm) as (n & Hn & Hnup & _). unfold up. cbn. by rewrite Hn.
  - intros Hall (l & Hol & Hret). apply converged_settled. exists l. split_and!; [congruence|done|].
    apply Forall_forall. intros x Hx. destruct (Hview (node_Name x) (Hall x Hx)) as (n & Hn & Hnup & Hv).
    exists n. auto.
Qed.

Lemma pre_convergence : step_ok (pre St3) (pre St4) (step_of "convergence" false gatherConvergence).
Proof.
  apply pre_step.
  - intros; apply un_gatherConvergence.
  - intros s out s' HS Ho E _. split.
    + destruct (resp_gatherConvergence (λ _, True) s) as [_ Hk]. rewrite E in Hk. unfold st_rel, keeps in Hk. simpl in Hk.
      eapply St3_inputs; [| |exact HS]; congruence.
    + intros Hmany Hc Hup Hex. destruct (wp_gatherConvergence s Hmany HS Ho Hc Hup Hex) as (a & s1 & E1 & Hv).
      rewrite E in E1. by simplify_eq.
  - intros s (xs & Hp & _) Ho Hc. pose proof (pl_cluster _ _ Hp) as Hcl.
    unfold gatherConvergence. apply wp_bind, wp_gets. rewrite Hcl at 1. rewrite c_spec.
    destruct (SingleNode (fsc_Spec b)); [by apply wp_bind, wp_modify, wp_ret|].
    apply wp_bind, wp_try. intros [token|e] s1 _; [|by apply wp_ret]. apply wp_bind.
    generalize (askOrder (e_st s)). clear. intros nodes. revert s1.
    induction nodes as [|node nodes IH]; intros s1; simpl; [by apply wp_ret, wp_ret|].
    apply wp_bind, wp_try. intros [view|e] s2 _; [|apply IH]. by apply wp_modify, wp_ret.
Qed.

(** *** Storage: nothing to do *)

Lemma drift_none live nodes wants :
  Forall2 (λ node want, ∀ l, live !! node_Name node = Some l → diskDiff (set_Claims l) (set_Claims want) = ([], false))
    nodes wants → drift_loop live nodes wants [] = Drifted [].
Proof.
  induction 1 as [|node want nodes wants Hn _ IH]; simpl; [done|].
  destruct (live !! node_Name node) as [l|]; [|done]. by rewrite (Hn l eq_refl).
Qed.

Lemma St3_drift p : St3 p → drift_loop (p_live p) (p_nodes p) (desired_sets p) [] = Drifted [].
Proof.
  intros (xs & Hp & Hd & Hl & _). rewrite Hl, Hd, <- (wanted_sets xs p Hp). apply drift_none.
  apply Forall2_fmap_r, Forall_Forall2_diag, Forall_forall. intros node Hin l Hs.
  destruct (Hwell _ _ Hs) as (Hname & _ & _ & Hc). unfold wanted_set.
  rewrite <- (pl_decommission _ _ Hp), (planned_index xs p) by done. case_decide as Hdec.
  - destruct (index_sets (spec_sets b) !! node_Name node) as [want|] eqn:E.
    2: { by apply spec_index_None in E. }
    apply index_sets_lookup in E as [Hw Hn]; [|by apply spec_sets_NoDup].
    assert (node ∈ Nodes b) as Hnb.
    { rewrite (pl_nodes _ _ Hp) in Hin. apply elem_of_app in Hin as [?|Hin]; [done|].
      apply list_elem_of_fmap in Hin as (x & -> & Hx). simpl in Hdec.
      by apply (removed_names xs) in Hx as (_ & ? & _); [|apply Hp]. }
    assert (Some want = Some (spec_set b node)) as [= ->]; [|done].
    rewrite <- (spec_index_node b Hrun node Hnb). symmetry. by apply index_sets_lookup; [apply spec_sets_NoDup|].
  - apply spec_index_None in Hdec; [|done]. rewrite Hdec in Hc. destruct Hc as [Hdiff _].
    rewrite Hs. destruct (kept_set_facts l) as (_ & _ & _ & -> & _). done.
Qed.

Lemma St3_rendered p : St3 p → rendered p.
Proof.
  intros (xs & Hp & Hd & _). unfold rendered. rewrite Hd, <- (wanted_sets xs p Hp), <- list_fmap_compose.
  apply list_fmap_ext. intros i node Hi%list_elem_of_lookup_2. simpl. unfold wanted_set.
  rewrite <- (pl_decommission _ _ Hp), (planned_index xs p) by done. case_decide.
  - symmetry. apply spec_set_facts.
  - destruct (o_sets o !! node_Name node) as [x|] eqn:E; [|symmetry; apply spec_set_facts].
    destruct (kept_set_facts x) as (_ & -> & _). symmetry. by apply names_of_sets.
Qed.

Lemma calmly_delete k ns name orphan msg : k ≠ KindSet →
  calmly (λ _, True) (delete_ignoring_absent k ns name orphan msg).
Proof.
  intros Hk s Hc. pose proof (un_delete b k ns name orphan msg s Hk) as Hu. unfold resp, unmoved, wp in *. revert Hu.
  unfold delete_ignoring_absent, issue, emit, call. msimpl.
  pose proof (cw_calm_delete (b := b) k ns name orphan (e_world s) Hc) as Hok.
  destruct (k_delete _ _ _ _ _) as [[[]|e] w]; simpl in *; [eauto 6|]. rewrite Hok. simpl. eauto 6.
Qed.

Lemma calmly_adopt_loop p nodes :
  calmly (λ out, match out with Some out => Blocked out = false | None => True end) (adopt_loop p nodes).
Proof.
  induction nodes as [|node nodes IH]; simpl; [by apply calmly_ret|].
  destruct (p_live p !! node_Name node) as [live|]; [|done]. destruct (negb _); [done|]. cbv zeta.
  case_bool_decide; [by apply calmly_ret|]. calm_bind; [by apply calmly_delete|].
  calm_bind; [intros s _; by eexists _, _|]. by apply calmly_ret.
Qed.

Lemma finishAdoption_St3 s out s' : St3 (e_st s) → finishAdoption s = (Ok out, s') → St3 (e_st s').
Proof.
  intros HS E. eapply St3_core; [|exact HS]. unfold finishAdoption, get_st, gets, mbind, M_bind in E.
  eapply keeps_core_state; [apply resp_adopt_loop|exact E].
Qed.

Lemma un_reconcileStorage s : St3 (e_st s) → resp (unmoved b) reconcileStorage s.
Proof.
  intros HS. unfold reconcileStorage. apply resp_bind; [apply unmoved_preorder| |].
  - unfold finishAdoption. apply resp_bind; [apply unmoved_preorder|done|]. intros p s' _ _. apply un_adopt_loop.
  - intros [out|] s' E HR; [done|]. apply finishAdoption_St3 in E; [|done].
    unfold resp, mbind, M_bind, get_st, gets. by rewrite St3_drift.
Qed.

Lemma pre_storage : step_ok (pre St4) (pre St4) (step_of "storage" false reconcileStorage).
Proof.
  apply pre_step.
  - intros s HS _. apply un_reconcileStorage. by destruct (HS eq_refl).
  - intros s out s' [HS Hv] _ E _.
    assert (core (e_st s') = core (e_st s)) as Hk
      by (eapply keeps_core_state; [apply resp_reconcileStorage, St3_rendered, HS|exact E]).
    split; [by eapply St3_core|]. intros Hmany Hc Hup Hex. specialize (Hv Hmany Hc Hup Hex).
    apply core_inv in Hk as (_ & _ & Hd). apply decided_inv in Hd as (Hi & Hcv & _).
    apply inputs_inv in Hi as (_ & Hn & _). unfold viewed in *. by rewrite Hcv, Hn.
  - intros s [HS _] Ho Hc. unfold reconcileStorage. apply wp_bind.
    destruct (calmly_adopt_loop (e_st s) (p_nodes (e_st s)) s) as (out & s1 & E & Hout & Hs1); [by rewrite Ho|].
    exists out, s1. split; [exact E|]. destruct out as [out|]; [by apply wp_ret|].
    apply (finishAdoption_St3 s None s1) in E; [|done].
    apply wp_bind, wp_gets. rewrite St3_drift by done. by apply wp_ret.
Qed.

(** *** The rollout *)

(** Between two passes everything the operator asked for has happened: a node on
    its template is up, serves once there is a layout, and no data is moving.
    Nodes the rollout has still to reach may be in any state. *)
Record at_rest : Prop := mkAtRest {
  ar_calm : o_calm o = true;
  ar_up : ∀ name x, o_sets o !! name = Some x → ¬ behind b o name ∨ nodeServing x = true → name ∈ o_up o;
  ar_serving : ∀ name x, o_sets o !! name = Some x → ¬ behind b o name → is_Some (o_layout o) → nodeServing x = true;
  ar_moved : ∀ l, o_layout o = Some l → Retained l = [];
}.

Lemma rendered_sound xs d : removed b o xs → d ∈ rendered_sets xs → sound b dflt o d.
Proof.
  intros Hr. unfold rendered_sets. rewrite elem_of_app. intros [Hin|Hin].
  - unfold spec_sets in Hin. pose proof Hin as (node & -> & Hn)%list_elem_of_fmap.
    destruct (spec_set_facts b node) as (E1 & E2 & _). split_and!; [done| |].
    + rewrite E1. by apply (NodeName_nonempty b Hrun).
    + rewrite E1, (spec_index_node b Hrun node Hn). done.
  - apply list_elem_of_fmap in Hin as (x & -> & Hx). destruct (kept_set_facts x) as (_ & E1 & E2 & E3 & E4 & E5).
    destruct (removed_names xs x Hr Hx) as (Hl & Hd & Hne). pose proof (Hwell _ _ Hl) as (_ & Hns & _ & Hc).
    unfold sound. rewrite E1, E2, E3, E4, E5. apply spec_index_None in Hd as Hd'; [|done]. rewrite Hd' in *.
    destruct Hc as [Hc1 Hc2]. split_and!; [done|done|eauto| |done|done].
    symmetry. by apply own_revision_template.
Qed.

(** The sets the rollout finds stale are those behind. *)
Lemma stale_behind xs p d : removed b o xs → p_live p = o_sets o → d ∈ rendered_sets xs →
  is_stale p d = true ↔ behind b o (set_Name d) ∧ is_Some (o_sets o !! set_Name d).
Proof.
  intros Hr Hl Hin. unfold is_stale, behind. rewrite Hl.
  destruct (o_sets o !! set_Name d) as [x|] eqn:Ex; [|split; [done|]; by intros [_ [??]]].
  rewrite bool_decide_eq_true. unfold rendered_sets in Hin. apply elem_of_app in Hin as [Hin|Hin].
  - rewrite (proj2 (index_sets_lookup (spec_sets b) (set_Name d) d (spec_sets_NoDup b Hrun)) (conj Hin eq_refl)).
    naive_solver.
  - apply list_elem_of_fmap in Hin as (y & -> & Hy). destruct (kept_set_facts y) as (_ & E1 & _ & _ & _ & ->).
    destruct (removed_names xs y Hr Hy) as (Hly & Hd & _). rewrite E1 in *. assert (x = y) as -> by congruence.
    apply spec_index_None in Hd; [|done]. rewrite Hd. naive_solver.
Qed.

Lemma rendered_names xs name : removed b o xs →
  name ∈ set_Name <$> rendered_sets xs ↔ name ∈ declared b ∨ is_Some (o_sets o !! name).
Proof.
  intros Hr. unfold rendered_sets. rewrite fmap_app, spec_sets_names, elem_of_app, <- list_fmap_compose.
  assert (Hk : set_Name ∘ kept_set <$> xs = set_Name <$> xs)
    by (apply list_fmap_ext; intros i x _; apply kept_set_facts).
  rewrite Hk. split; (intros [?|H]; [by left|]).
  - apply list_elem_of_fmap in H as (x & -> & Hx). apply (removed_names xs) in Hx as (? & _); eauto.
  - destruct (decide (name ∈ declared b)); [by left|right]. destruct H as [x Hx].
    pose proof (names_of_sets _ _ Hx) as <-. apply list_elem_of_fmap_2. by apply Hr.
Qed.

(** A rollout that does nothing, in a world at rest that answers. *)
Section nothing_rolled.
Context (xs : list StatefulSet) (p : pass) (Hp : planned xs p) (Hd : desired_sets p = rendered_sets xs).
Context (Hl : p_live p = o_sets o) (Hnr : h_notReady (p_health p) = down_names (o_sets o) (p_nodes p)).
Context (Hrest : at_rest) (Hnone : rolled p (stale_order p) = []).
Context (Hexist : ∀ name, name ∈ declared b → is_Some (o_sets o !! name)).

Lemma elem_of_stale name x : o_sets o !! name = Some x → behind b o name →
  ∃ d, d ∈ stale_order p ∧ set_Name d = name.
Proof using Hp Hd Hl Hwell Hrun EN.
  intros Hx Hb. assert (name ∈ set_Name <$> rendered_sets xs) as (d & -> & Hin)%list_elem_of_fmap
    by (apply rendered_names; [apply Hp|eauto]).
  exists d. split; [|done]. unfold stale_order. rewrite rollOrder_perm, Hd. apply list_elem_of_filter.
  split; [|done]. apply (stale_behind xs p d (pl_removed _ _ Hp) Hl Hin). eauto.
Qed.

Lemma named_exists name : name ∈ node_Name <$> p_nodes p → is_Some (o_sets o !! name).
Proof using Hp Hexist Hwell.
  rewrite (planned_names xs p Hp), elem_of_app. intros [?|Hin]; [auto|].
  apply list_elem_of_fmap in Hin as (x & -> & Hx).
  apply (removed_names xs) in Hx as (? & _); [eauto|apply Hp].
Qed.

Lemma exists_named name x : o_sets o !! name = Some x → name ∈ node_Name <$> p_nodes p.
Proof using Hp Hwell.
  intros Hx. rewrite (planned_names xs p Hp), elem_of_app. destruct (decide (name ∈ declared b)); [by left|right].
  pose proof (names_of_sets _ _ Hx) as <-. apply list_elem_of_fmap_2. by apply (pl_removed _ _ Hp).
Qed.

Lemma behind_serves name x : o_sets o !! name = Some x → behind b o name → nodeServing x = true.
Proof using Hp Hd Hl Hnr Hnone Hwell Hrun EN.
  intros Hx Hb. destruct (elem_of_stale name x Hx Hb) as (d & Hin & Hdn).
  destruct (nodeServing x) eqn:Es; [done|exfalso].
  assert (d ∈ downSets (stale_order p) (h_notReady (p_health p))) as Hdown.
  { apply list_elem_of_filter. split; [|done]. rewrite Hnr, elem_of_down_names, Hdn.
    split; [by unfold serving; rewrite Hx|by eapply exists_named]. }
  pose proof Hnone as Hn. revert Hn. unfold rolled. destruct (downSets _ _); [by apply elem_of_nil in Hdown|done].
Qed.

Lemma rest_all_up : all_up.
Proof using Hp Hd Hl Hnr Hnone Hwell Hrun EN Hrest.
  intros name [x Hx]. apply (ar_up Hrest name x Hx).
  destruct (decide (behind b o name)) as [Hb|?]; [right; by eapply behind_serves|by left].
Qed.

Lemma rest_ready : is_Some (o_layout o) → h_notReady (p_health p) = [].
Proof using Hp Hd Hl Hnr Hnone Hwell Hrun EN Hrest Hexist.
  intros Hlay. rewrite Hnr.
  assert (∀ n, n ∉ down_names (o_sets o) (p_nodes p)) as Hno; [|by destruct (down_names _ _) as [|n ns]; [|destruct (Hno n); left]].
  intros n [Hs Hin]%elem_of_down_names.
  destruct (named_exists n Hin) as [x Hx]. unfold serving in Hs. rewrite Hx in Hs.
  destruct (decide (behind b o n)) as [Hbn|Hbn]; [by rewrite (behind_serves n x Hx Hbn) in Hs|].
  by rewrite (ar_serving Hrest n x Hx Hbn Hlay) in Hs.
Qed.

Lemma laid_none_behind :
  (all_up → (∃ name, is_Some (o_sets o !! name)) → viewed p) → laid b o → ∀ name, ¬ behind b o name.
Proof using Hp Hd Hl Hnr Hnone Hwell Hrun EN Hrest Hexist.
  intros Hv Hlaid name Hb.
  assert (is_Some (o_layout o)) as [l Hlay] by (unfold laid in Hlaid; destruct (o_layout o); [eauto|done]).
  assert (is_Some (o_sets o !! name)) as [x Hx].
  { unfold behind in Hb. destruct (o_sets o !! name) eqn:E; [eauto|]. rewrite <- E. apply Hexist.
    apply spec_index_declared; [done|]. destruct (index_sets (spec_sets b) !! name); [eauto|done]. }
  destruct (Hv rest_all_up) as (Hk & _ & _ & Hconv); [eauto|].
  destruct (elem_of_stale name x Hx Hb) as (d & Hin & _).
  pose proof (rest_ready ltac:(eauto)) as Hready. pose proof Hnone as Hn. revert Hn. unfold rolled.
  rewrite Hready, Hk, Hconv, bool_decide_eq_true_2; [|done| |by exists l; split; [|by apply (ar_moved Hrest)]].
  - cbn [andb]. destruct (downSets _ _); [|done]. destruct (stale_order p); [by apply elem_of_nil in Hin|done].
  - intros node Hn. apply rest_all_up, named_exists. by apply list_elem_of_fmap_2.
Qed.
End nothing_rolled.

(** *** The steps before the rollout *)

Lemma St4_core p p' : core p' = core p → St4 p → St4 p'.
Proof.
  intros Hk [HS Hv]. split; [by eapply St3_core|]. intros Hmany Hc Hup Hex. specialize (Hv Hmany Hc Hup Hex).
  apply core_inv in Hk as (_ & _ & Hd). apply decided_inv in Hd as (Hi & Hcv & _).
  apply inputs_inv in Hi as (_ & Hn & _). unfold viewed in *. by rewrite Hcv, Hn.
Qed.

Lemma pre_stable (F : pass → Prop) : (∀ p p', core p' = core p → F p → F p') →
  stable env_RecordFailure (pre F).
Proof.
  intros HF e stopped s (H1 & H2 & H3). split_and!; [done| |done]. intros Hs.
  eapply HF; [apply core_RecordFailure|auto].
Qed.

Lemma St0_core p p' : core p' = core p → St0 p → St0 p'.
Proof.
  intros (_ & Hh & Hd)%core_inv (H1 & H2 & H3 & H4 & H5). apply decided_inv in Hd as (Hi & _ & Ha).
  apply inputs_inv in Hi as (Hc & Hn & _ & _ & _ & Hx). unfold St0. by rewrite Hc, Hn, Hx, Ha, Hh.
Qed.

Lemma planned_core xs p p' : core p' = core p → planned xs p → planned xs p'.
Proof.
  intros (_ & Hh & Hd)%core_inv [H1 H2 H3 H4 H5]. apply decided_inv in Hd as (Hi & _ & Ha).
  apply inputs_inv in Hi as (Hc & Hn & _ & _ & _ & Hx). split; congruence.
Qed.

Lemma St1_core p p' : core p' = core p → St1 p → St1 p'.
Proof.
  intros Hk [(xs & Hp) Hh]. pose proof Hk as (_ & Hh' & _)%core_inv.
  split; [exists xs; by eapply planned_core|congruence].
Qed.

Lemma St2_core p p' : core p' = core p → St2 p → St2 p'.
Proof.
  intros Hk [(xs & Hp & Hd) Hh]. pose proof Hk as (_ & Hh' & Hi)%core_inv.
  apply decided_inv in Hi as (Hi & _). apply inputs_inv in Hi as (_ & _ & Hds & _).
  split; [exists xs; split; [by eapply planned_core|]|congruence]. unfold desired_sets in *. by rewrite Hds.
Qed.

(** *** What a pass has done so far leaves the nodes alone *)

Definition logged (I : bool → Env W pass → Prop) (stopped : bool) s : Prop :=
  I stopped s ∧ Forall (spared o) (e_log s).

Lemma logged_stable I : stable env_RecordFailure I → stable env_RecordFailure (logged I).
Proof. intros HI stopped e s [H HL]. split; [by apply HI|done]. Qed.

Lemma logged_step (Q : relation pass) name always m I I' :
  step_ok I I' (step_of name always m) →
  (∀ stopped s, stopped = false ∨ always = true → I stopped s → resp (env_rel (spared o) Q) m s) →
  step_ok (logged I) (logged I') (step_of name always m).
Proof.
  intros [Hskip Hrun'] Hm. split.
  - intros s Ha [H HL]. split; [by apply Hskip|done].
  - intros stopped s out err s' Hb [H HL] E. split; [by eapply Hrun'|].
    destruct (Hm stopped s Hb H) as [(l & Hl & Hf) _]. simpl in E. unfold run_M in E.
    assert (Hs' : s' = (m s).2) by by destruct (m s) as [[]?]; simplify_eq.
    rewrite Hs', Hl. by apply Forall_app.
Qed.

Lemma logged_untouching (φ : action → Prop) (Q : relation pass) name always m I I' :
  step_ok I I' (step_of name always m) → (∀ s, resp (env_rel φ Q) m s) → (∀ a, φ a → untouching a) →
  step_ok (logged I) (logged I') (step_of name always m).
Proof.
  intros Hs Hm Hφ. apply (logged_step Q); [done|]. intros stopped s _ _. eapply env_rel_mono, Hm; [|done].
  intros a Ha. by apply untouching_spared, Hφ.
Qed.

Lemma logged_benign (Q : relation pass) name always m I I' :
  step_ok I I' (step_of name always m) → (∀ s, resp (env_rel benign Q) m s) →
  step_ok (logged I) (logged I') (step_of name always m).
Proof. intros. eapply logged_untouching; [done..|apply benign_untouching]. Qed.

Lemma logged_quiet (Q : relation pass) name always m I I' :
  step_ok I I' (step_of name always m) → (∀ s, resp (env_rel (λ _, False) Q) m s) →
  step_ok (logged I) (logged I') (step_of name always m).
Proof. intros. by eapply logged_untouching. Qed.

(** The pods a pass replaces outside the rollout. *)
Lemma spared_adopt_loop xs p nodes s :
  planned xs p → p_live p = o_sets o → h_notReady (p_health p) = down_names (o_sets o) (p_nodes p) →
  resp (env_rel (spared o) (keeps core)) (adopt_loop p nodes) s.
Proof.
  intros Hp Hl Hnr. revert s. induction nodes as [|node nodes IH]; intros s; simpl; [rsolve|].
  destruct (p_live p !! node_Name node) as [live|] eqn:Hlive; [|apply IH].
  destruct (negb _) eqn:Ha; [apply IH|]. apply negb_false_iff in Ha.
  destruct (bool_decide _) eqn:Hw; [rsolve|]. apply bool_decide_eq_false, dec_stable in Hw.
  rsolve_all. rewrite Hl in Hlive. exists (node_Name node), live. split_and!; [done..|]. intros other y Hy Hne.
  destruct (nodeServing y) eqn:Es; [done|exfalso].
  assert (other ∈ otherNodesNotReady p (node_Name node)) as Hin; [|rewrite Hw in Hin; by apply elem_of_nil in Hin].
  apply list_elem_of_filter. split; [done|]. rewrite Hnr, elem_of_down_names.
  split; [unfold serving; by rewrite Hy|by eapply exists_named].
Qed.

Lemma spared_storage stopped s :
  stopped = false ∨ false = true → pre St4 stopped s → resp (env_rel (spared o) (keeps core)) reconcileStorage s.
Proof.
  intros [->|?] (_ & HS & _); [|done]. destruct (HS eq_refl) as [HS3 _]. unfold reconcileStorage.
  apply resp_bind; [apply _| |].
  - destruct HS3 as (xs & Hp & _ & Hl & Hnr). unfold finishAdoption.
    apply resp_bind; [apply _|apply resp_get_st, _|]. intros p s' [= <- <-] _. by eapply spared_adopt_loop.
  - intros [out|] s' E HR; [rsolve|]. apply finishAdoption_St3 in E; [|done].
    unfold resp, mbind, M_bind, get_st, gets. rewrite St3_drift by done. simpl. reflexivity.
Qed.

Ltac settle_stab := first
  [ apply logged_stable, pre_stable; first [exact St0_core|exact St1_core|exact St2_core|exact St3_core|exact St4_core] ].

(** The steps before the rollout, and those after the removals. *)
Lemma run_before_nodes w : obs (b := b) w = o →
  let l := run_loop env_RecordFailure (steps_before_nodes (W := W)) (mkLoop 0 false None (mkEnv w [] (newPass object FSImageRegistry))) in
  logged (pre St4) (lp_stopped l) (lp_state l).
Proof.
  intros Hw. cbv zeta. unfold steps_before_nodes, run_loop. cbn [foldl].
  eapply run_step_ok; [settle_stab|eapply logged_step; [apply pre_storage|apply spared_storage]|].
  eapply run_step_ok; [settle_stab|eapply logged_quiet; [apply pre_convergence|intros s; apply resp_gatherConvergence]|].
  eapply run_step_ok; [settle_stab|eapply logged_benign; [apply pre_configs|intros s; apply resp_reconcileNodeConfigs]|].
  eapply run_step_ok; [settle_stab|eapply logged_benign; [apply pre_services|intros s; apply resp_reconcileServices]|].
  eapply run_step_ok; [settle_stab|eapply logged_untouching; [apply pre_secrets|intros s; apply resp_reconcileSecrets|by intros []]|].
  eapply run_step_ok; [settle_stab|eapply logged_quiet; [apply pre_observe|intros s; apply resp_observe]|].
  eapply run_step_ok; [settle_stab|eapply logged_quiet; [apply pre_render|intros s; apply resp_render]|].
  eapply run_step_ok; [settle_stab|eapply (logged_untouching untouching); [apply pre_plan|intros s; by apply resp_planDecommission|done]|].
  eapply run_step_ok; [settle_stab|eapply logged_untouching; [apply pre_validate|intros s; apply resp_validate|apply reporting_untouching]|].
  split; [|by constructor]. split; [exact Hw|]. split; [|done]. intros _. simpl. split_and!; try done.
  by apply (Nodes_same b Hrun).
Qed.

Lemma run_after_drain (I : bool → Env W pass → Prop) l :
  stable env_RecordFailure I →
  (∀ name always m, (∀ s, resp (unmoved b) m s) → (∀ s, resp (env_rel untouching (λ _ _, True)) m s) →
     step_ok I I (step_of name always m)) →
  I (lp_stopped l) (lp_state l) →
  let l' := run_loop env_RecordFailure (steps_after_drain OperatorNamespace) l in I (lp_stopped l') (lp_state l').
Proof.
  intros HI Hun Hl. cbv zeta. unfold steps_after_drain, run_loop. cbn [foldl].
  eapply run_step_ok; [exact HI|apply Hun; [apply un_reconcileStatus|
    intros s; eapply env_rel_mono, resp_reconcileStatus; [by intros []|done]]|].
  eapply run_step_ok; [exact HI|apply Hun; [apply un_reconcilePodMonitor|
    intros s; eapply env_rel_mono, resp_reconcilePodMonitor; [apply benign_untouching|done]]|].
  eapply run_step_ok; [exact HI|apply Hun; [apply un_reconcileNetworkPolicy|
    intros s; eapply env_rel_mono, resp_reconcileNetworkPolicy; [apply benign_untouching|done]]|].
  eapply run_step_ok; [exact HI|apply Hun; [apply un_reconcileBudget|
    intros s; eapply env_rel_mono, resp_reconcileBudget; [apply benign_untouching|done]]|].
  eapply run_step_ok; [exact HI|apply Hun; [apply un_reconcileReload|
    intros s; eapply env_rel_mono, resp_reconcileReload; [by intros []|done]]|exact Hl].
Qed.

(** Several nodes: a single one has no layout to arrive at. *)
Section settling.
Context (Hmany : SingleNode (fsc_Spec b) = false).

(** What the rollout leaves for the steps after it, when it did nothing. *)
Definition next_layout : Prop :=
  all_up ∧ (∀ name, name ∈ declared b → is_Some (o_sets o !! name)) ∧ (laid b o → ∀ name, ¬ behind b o name).

Lemma nothing_rolled s s' : St4 (e_st s) → at_rest →
  (∀ name, behind b o name → behind b (seen s') name) →
  (∀ d, d ∈ desired_sets (e_st s) → p_live (e_st s) !! set_Name d = None → ¬ behind b (seen s') (set_Name d)) →
  (∀ d, d ∈ rolled (e_st s) (stale_order (e_st s)) → ¬ behind b (seen s') (set_Name d)) →
  next_layout.
Proof.
  intros [(xs & Hp & Hd & Hl & Hnr) Hv] Hrest Hstill Hmiss Hroll.
  pose proof (pl_removed _ _ Hp) as Hr. set (p := e_st s) in *.
  assert (Hnone : rolled p (stale_order p) = []).
  { destruct (rolled p (stale_order p)) as [|d ds] eqn:E; [done|exfalso].
    apply (Hroll d); [left|]. apply Hstill.
    assert (d ∈ stale_order p) as Hin by (apply rolled_stale; rewrite E; left).
    unfold stale_order in Hin. rewrite rollOrder_perm, Hd in Hin. apply list_elem_of_filter in Hin as [Hs Hin].
    by apply (stale_behind xs p d Hr Hl Hin) in Hs as [? _]. }
  assert (Hexist : ∀ name, name ∈ declared b → is_Some (o_sets o !! name)).
  { intros name Hn. destruct (o_sets o !! name) eqn:E; [eauto|exfalso].
    assert (name ∈ set_Name <$> rendered_sets xs) as (d & -> & Hin)%list_elem_of_fmap
      by (apply rendered_names; auto).
    apply (Hmiss d); [by rewrite Hd|by rewrite Hl|]. apply Hstill. unfold behind. rewrite E.
    apply (spec_index_declared b Hrun) in Hn as [? ->]; done. }
  split_and!; [by eapply rest_all_up|done|]. eapply laid_none_behind; [done..|].
  apply Hv; [done|apply (ar_calm Hrest)].
Qed.

(** *** The steps that act *)

(** After the rollout: nothing undone, and for a world at rest either something
    gained or everything in place for the layout. *)
Definition post_nodes (stopped : bool) s : Prop :=
  moves_obs b o (seen s) ∧ (stopped = false → St4 (e_st s)) ∧
  (at_rest → stopped = false ∧ (distance b (seen s) < distance b o ∨ next_layout)).

Lemma St4_sound s : St4 (e_st s) → seen s = o → ∀ d, d ∈ desired_sets (e_st s) → sound b dflt (seen s) d.
Proof. intros [(xs & Hp & Hd & _) _] -> d. rewrite Hd. apply rendered_sound, Hp. Qed.

Lemma reconcileNodes_unblocked s out s' : reconcileNodes s = (Ok out, s') → Blocked out = false.
Proof. assert (answers (λ out, Blocked out = false) reconcileNodes) as H by (unfold reconcileNodes, roll, hold; answer). apply H. Qed.

Lemma step_nodes_settles : step_ok (pre St4) post_nodes (step_of "nodes" false reconcileNodes).
Proof.
  split.
  - intros s _ (H1 & _ & H3). split_and!; [by rewrite H1|done|]. intros Hr. by apply ar_calm, H3 in Hr.
  - intros stopped s out err s' [->|?] (H1 & H2 & H3) Hm; [|done]. simpl in *. specialize (H2 eq_refl).
    pose proof (St4_sound s H2 H1) as Hsound. pose proof (ro_reconcileNodes b Hrun s Hsound) as Hro.
    unfold run_M in Hm.
    assert (Hs' : s' = (reconcileNodes s).2) by by destruct (reconcileNodes s) as [[]?]; simplify_eq.
    unfold resp in Hro. rewrite <- Hs' in Hro. unfold rolls in Hro. rewrite H1 in Hro.
    split_and!.
    + destruct Hro as [? ? _ (_ & ? & ?)]. by split.
    + intros Hb. eapply St4_core; [|exact H2]. rewrite Hs'.
      by destruct (resp_reconcileNodes s) as [_ Hk].
    + intros Hrest.
      destruct (wp_reconcileNodes b Hrun s) as (x & s1 & E & Hmiss & Hroll);
        [by rewrite H1; apply ar_calm|done|].
      rewrite E in Hm. injection Hm as <- <- <-. split.
      { assert (Blocked x = false) as Hx by (eapply reconcileNodes_unblocked; exact E). simpl. by rewrite Hx. }
      destruct (decide (Exists (λ n, ¬ behind b (seen s1) n) (todo b o))) as [Hex|Hno].
      * left. apply Exists_exists in Hex as (n & Hn%elem_of_todo & Hn'); [|done].
        by eapply distance_rolled; [|apply Hro|exact Hn|].
      * right. eapply (nothing_rolled s s1); [done|done| |done|done]. intros n Hn.
        apply dec_stable. intros Hn'. apply Hno, Exists_exists. exists n. split; [by apply elem_of_todo|done].
Qed.

(** After the layout step: something gained, or the layout was right already and
    only removals are left. *)
Definition post_layout (stopped : bool) s : Prop :=
  moves_obs b o (seen s) ∧
  (stopped = false → ∀ name set, p_decommission (e_st s) !! name = Some set → set_Name set ∉ declared b) ∧
  (at_rest → distance b (seen s) < distance b o ∨
     (stopped = false ∧ next_layout ∧ laid b o ∧ St4 (e_st s) ∧ o_calm (seen s) = true)).

Lemma St4_layout p : St4 p → desiredRoles p = spec_roles b ∧ desiredWidths (fsc_Spec (p_cluster p)) = widths0 b.
Proof.
  intros [(xs & Hp & _) _]. pose proof (pl_cluster _ _ Hp) as Hcl. unfold widths0. rewrite Hcl, c_spec. split; [|done].
  unfold desiredRoles, spec_roles. rewrite Hcl, c_spec. do 2 f_equal.
  rewrite (pl_nodes _ _ Hp), filter_app, filter_all, filter_none, app_nil_r; [done| |].
  - intros node (x & -> & Hx)%list_elem_of_fmap. rewrite (planned_index xs) by done. simpl.
    destruct (removed_names xs x (pl_removed _ _ Hp) Hx) as (-> & ? & _). by rewrite decide_False.
  - intros node Hin. rewrite (planned_index xs) by done. rewrite decide_True; [done|]. by apply list_elem_of_fmap_2.
Qed.

Lemma Nodes_nonempty : ∃ node, node ∈ Nodes b.
Proof.
  pose proof (run_topology _ Hrun) as Ha. unfold Nodes. destruct (topo_Nodes (Topology (fsc_Spec b))) as [n|] eqn:E.
  - destruct (topology_admitted_flat _ n Ha E) as (_ & Hn & _). eexists. apply list_elem_of_fmap_2.
    apply elem_of_range_int. assert (0 < Z.to_nat n) as H by lia. exact H.
  - destruct (topology_admitted_racks _ Ha E) as (Hl & _ & Hf). destruct (Racks _) as [|r racks]; [simpl in Hl; lia|].
    apply Forall_cons in Hf as [[_ Hr] _]. eexists. apply list_elem_of_bind. exists r. split; [|left].
    apply list_elem_of_fmap_2, elem_of_range_int. assert (0 < Z.to_nat (rack_Nodes r)) as H by lia. exact H.
Qed.

Lemma some_set : (∀ name, name ∈ declared b → is_Some (o_sets o !! name)) → ∃ name, is_Some (o_sets o !! name).
Proof.
  intros H. destruct Nodes_nonempty as [node Hn]. exists (node_Name node). apply H. by apply list_elem_of_fmap_2.
Qed.

(** A world whose nodes are all there and up takes the layout. *)
Lemma wp_reconcileLayout s : St4 (e_st s) → o_calm (seen s) = true → o_up (seen s) = o_up o → at_rest → next_layout →
  ¬ laid b o → wp reconcileLayout (λ out s', Blocked out = false ∧ laid b (seen s')) s.
Proof.
  intros HS Hc Hu Hrest (Hall & Hexist & _) Hlaid. pose proof (St4_layout _ HS) as [Hroles Hwidths].
  destruct HS as [(xs & Hp & Hd & Hl & Hnr) Hv].
  destruct (Hv Hmany (ar_calm Hrest) Hall (some_set Hexist)) as (Hk & Hlay & Hsee & _).
  pose proof (pl_cluster _ _ Hp) as Hcl.
  assert (Hsingle : SingleNode (fsc_Spec (p_cluster (e_st s))) = false)
    by (rewrite Hcl, c_spec; exact Hmany).
  unfold reconcileLayout. apply wp_bind, wp_gets. set (p := e_st s) in *.
  rewrite Hsingle, Hk, Hlay, Hroles, Hwidths. cbv zeta. cbn [negb].
  assert (match o_layout o with Some l => sameLayout l (spec_roles b) (widths0 b) | None => false end = false) as ->.
  { destruct (o_layout o) as [l|] eqn:E; [|done]. unfold laid in Hlaid. rewrite E in Hlaid.
    by apply not_true_iff_false in Hlaid. }
  assert (match o_layout o with Some l => Transitioning l | None => false end = false) as ->.
  { destruct (o_layout o) as [l|] eqn:E; [|done]. by apply Transitioning_false, (ar_moved Hrest). }
  assert (size (p_live p) <? length (p_nodes p) = false) as ->.
  { apply Nat.ltb_ge. rewrite Hl, <- (length_fmap node_Name (p_nodes p)), <- (length_map_to_list (o_sets o)),
      <- (length_fmap fst (map_to_list (o_sets o))).
    apply length_le_of_subset; [by eapply planned_NoDup|]. intros n Hn.
    destruct (named_exists xs p Hp Hexist n Hn) as [x Hx]. apply list_elem_of_fmap. exists (n, x).
    split; [done|]. by apply elem_of_map_to_list. }
  assert (firstDown (p_convergence p) (spec_roles b) = None) as ->.
  { unfold firstDown. rewrite filter_none; [done|]. intros role Hr. unfold spec_roles in Hr.
    rewrite sort_by_perm in Hr. apply list_elem_of_fmap in Hr as (node & -> & Hn). simpl.
    rewrite Hsee; [done|]. apply Hall, Hexist. by apply list_elem_of_fmap_2. }
  apply wp_bind, wp_adminToken; [done|done|]. intros token s1 H1 S1. apply wp_bind, wp_try. intros r s2.
  destruct (askOrder_up xs p Hp Hl Hall (some_set Hexist)) as (node & nodes & Hask & Hnode).
  unfold applyLayout, get_st, gets. unfold mbind at 1, M_bind at 1. rewrite S1. fold p. rewrite Hask.
  assert (wp (tryLayout p (node :: nodes) (spec_roles b) (widths0 b) token None) (λ _ s', laid b (seen s')) s1) as Ht.
  { cbn [tryLayout]. unfold node_url. rewrite Hcl, c_name, c_ns. cbv zeta.
    apply wp_bind, wp_call; [apply cw_Client_frame|rewrite (cw_up_Client (b := b)); [done|by rewrite H1|by rewrite H1, Hu]|].
    intros _ s3 H3 _ _. apply wp_bind, wp_try. intros r' s4. rewrite issue_eq.
    pose proof (ApplyLayout_moves b Hrun (AdminURL (fsc_Name b) (fsc_Namespace b) (node_Name node)) token (e_world s3)) as [_ Hla].
    pose proof (cw_up_ApplyLayout (b := b) (node_Name node) token (e_world s3)) as Hok.
    unfold widths0 in *. destruct (adm_ApplyLayout _ _ _ _ _) as [ra w]. simpl in *.
    destruct ra as [applied|e]; [|by rewrite H3, H1, Hu in Hok; discriminate Hok].
    intros [= <- <-]. apply wp_ret. by apply Hla. }
  destruct Ht as (applied & s3 & Ht & Hdone). intros Er. rewrite Ht in Er. injection Er as <- <-.
  apply wp_bind. eexists _, _. split; [reflexivity|]. apply wp_bind, wp_modify, wp_ret. done.
Qed.

Lemma reconcileLayout_laid s : St3 (e_st s) → cv_known (p_convergence (e_st s)) = true →
  cv_layout (p_convergence (e_st s)) = o_layout o → desiredRoles (e_st s) = spec_roles b →
  desiredWidths (fsc_Spec (p_cluster (e_st s))) = widths0 b → laid b o → reconcileLayout s = (Ok Continue, s).
Proof.
  intros (xs & Hp & _) Hk Hlay Hroles Hwidths Hlaid. unfold reconcileLayout, mbind, M_bind, get_st, gets. cbv beta iota zeta.
  assert (SingleNode (fsc_Spec (p_cluster (e_st s))) = false) as ->
    by (rewrite (pl_cluster _ _ Hp), c_spec; exact Hmany).
  rewrite Hk, Hlay, Hroles, Hwidths. cbn [negb]. unfold laid in Hlaid. destruct (o_layout o) as [l|]; [|done].
  unfold widths0. by rewrite Hlaid.
Qed.

Lemma step_layout_settles : step_ok post_nodes post_layout (step_of "layout" false reconcileLayout).
Proof.
  assert (Hdec : ∀ p, St4 p → ∀ name set, p_decommission p !! name = Some set → set_Name set ∉ declared b).
  { intros p [(xs & Hp & _) _] name set. rewrite (planned_index xs) by done. case_decide; [done|].
    intros Hs. by rewrite (names_of_sets _ _ Hs). }
  split.
  - intros s _ (H1 & _ & H3). split_and!; [done|done|]. intros Hr. by apply H3 in Hr as [? _].
  - intros stopped s out err s' [->|?] (H1 & H2 & H3) Hm; [|done]. simpl in *. specialize (H2 eq_refl).
    destruct (St4_layout _ H2) as [Hroles Hwidths]. pose proof (mv_reconcileLayout b Hrun s Hroles Hwidths) as Hmv.
    unfold run_M in Hm.
    assert (Hs' : s' = (reconcileLayout s).2) by by destruct (reconcileLayout s) as [[]?]; simplify_eq.
    unfold resp, moves in Hmv. rewrite <- Hs' in Hmv.
    split_and!; [by etrans| |].
    + intros _. destruct (resp_reconcileLayout s) as [_ (_ & Hi & _)]. rewrite <- Hs' in Hi.
      apply inputs_inv in Hi as (_ & _ & _ & _ & _ & ->). by apply Hdec.
    + intros Hrest. destruct (H3 Hrest) as [_ [Hlt|Hnext]].
      { left. eapply Nat.le_lt_trans; [apply (evolves_distance b Hrun), Hmv|done]. }
      destruct (decide (laid b o)) as [Hlaid|Hlaid].
      * right. destruct H2 as [HS Hv]. destruct (Hnext) as (Hall & Hexist & _).
        destruct (Hv Hmany (ar_calm Hrest) Hall (some_set Hexist)) as (Hk & Hlay & _).
        pose proof (reconcileLayout_laid s HS Hk Hlay Hroles Hwidths Hlaid) as E.
        rewrite E in Hm. injection Hm as <- <- <-. split_and!; [done|done|done|by split|].
        destruct H1 as [_ _ [_ ->]]. apply (ar_calm Hrest).
      * left. destruct (wp_reconcileLayout s) as (x & s1 & E & _ & Hdone); try done.
        { destruct H1 as [_ _ [_ ->]]. apply (ar_calm Hrest). } { by destruct H1 as [_ _ [-> _]]. }
        rewrite E in Hs'. simpl in Hs'. subst s1. eapply (distance_laid b Hrun); [|done|done].
        etrans; [apply H1|apply Hmv].
Qed.

(** After the removals: nothing undone, and for a world at rest either nothing
    was left to do or something was done. *)
Definition closer o' : Prop := moves_obs b o o' ∧ (at_rest → distance b o = 0 ∨ distance b o' < distance b o).
Definition post (stopped : bool) s : Prop := closer (seen s).

Lemma planned_drained xs p : planned xs p → extra b o = [] → p_decommission p = ∅.
Proof.
  intros Hp Hx. apply map_eq. intros name. rewrite (planned_index xs) by done. rewrite lookup_empty.
  case_decide as Hd; [done|]. destruct (o_sets o !! name) eqn:E; [|done].
  destruct Hd. apply (proj1 (extra_nil b o) Hx). eauto.
Qed.

Lemma St4_gate s : St4 (e_st s) → at_rest → next_layout → laid b o →
  ∃ l, drainGate (e_st s) (names (p_decommission (e_st s))) = inr l.
Proof.
  intros [(xs & Hp & _) Hv] Hrest (Hall & Hexist & _) Hlaid.
  destruct (Hv Hmany (ar_calm Hrest) Hall (some_set Hexist)) as (Hk & Hlay & _).
  apply (laid_spec b Hrun) in Hlaid as (l & Hl & Hm & _). exists l. apply drainGate_inr.
  split_and!; [done|by eapply pl_applied|congruence|by apply (ar_moved Hrest)|].
  intros name [x Hx]%elem_of_sorted_keys. rewrite Hm. rewrite (planned_index xs) in Hx by done.
  case_decide as Hd; [done|]. unfold spec_roles. rewrite sort_by_perm, <- list_fmap_compose. exact Hd.
Qed.

(** A removal in a calm world removes. *)
Lemma wp_removeNode p set s : p_cluster p = c → o_calm (seen s) = true → set_Namespace set = fsc_Namespace b →
  wp (removeNode p set) (λ _ s', seen s' = drop_set (set_Name set) (seen s)) s.
Proof.
  intros Hcl Hc Hns. unfold removeNode. apply wp_bind. rewrite Hns. unfold delete_ignoring_absent at 1.
  apply wp_bind, wp_try. intros r s1. rewrite issue_eq.
  pose proof (cw_delete_set (b := b) (fsc_Namespace b) (set_Name set) false (e_world s)) as Hdel.
  pose proof (cw_calm_delete (b := b) KindSet (fsc_Namespace b) (set_Name set) false (e_world s) Hc) as Hgone.
  destruct (k_delete _ _ _ _ _) as [r' w]. simpl in *. intros [= <- <-].
  assert (obs w = drop_set (set_Name set) (seen s)) as Hw
    by (destruct Hdel as [[_ H]|H]; [by rewrite H in Hgone|done]).
  assert (∀ Q : unit → Env W pass → Prop, Q tt (mkEnv w (e_log s ++ [ADelete KindSet (fsc_Namespace b) (set_Name set) false]) (e_st s)) →
    wp (match r' with Err e => if IsNotFound e then ret tt else
      throw (ErrWrap ("delete statefulset " +:+ fmt_q (set_Name set)) e) | Ok _ => ret tt end) Q
      (mkEnv w (e_log s ++ [ADelete KindSet (fsc_Namespace b) (set_Name set) false]) (e_st s))) as Hgo.
  { intros Q HQ. unfold is_gone in Hgone. destruct r' as [|e]; [by apply wp_ret|]. rewrite Hgone. by apply wp_ret. }
  apply Hgo. eapply wp_mono; [apply calmly_delete; [done|]|].
  - simpl. rewrite Hw. exact Hc.
  - intros a s' [_ H]. rewrite H. exact Hw.
Qed.

Lemma wp_reconcileDecommission s : St4 (e_st s) → o_calm (seen s) = true → at_rest → next_layout → laid b o →
  wp reconcileDecommission (λ _ s', ∀ name, is_Some (p_decommission (e_st s) !! name) → o_sets (seen s') !! name = None) s.
Proof.
  intros HS Hc Hrest Hnext Hlaid. destruct (St4_gate s HS Hrest Hnext Hlaid) as [l Hl].
  destruct HS as [(xs & Hp & _) _]. unfold reconcileDecommission. apply wp_bind, wp_gets.
  destruct (negb _) eqn:Ha.
  { apply wp_ret. intros name [x Hx]. unfold active in Ha. apply negb_true_iff, Nat.ltb_ge in Ha.
    assert (size (p_decommission (e_st s)) = 0) as Hsz by lia. apply map_size_empty_inv in Hsz. by rewrite Hsz in Hx. }
  cbv zeta. rewrite Hl. apply wp_bind.
  apply (wp_forM_ (λ done s', o_calm (seen s') = true ∧ ∀ name, name ∈ done → o_sets (seen s') !! name = None)).
  - split; [done|]. intros name []%elem_of_nil.
  - intros k name s' Hk [Hc' Hdone]. assert (name ∈ names (p_decommission (e_st s))) as [set Hset]%elem_of_sorted_keys
      by (destruct Hk as [k' ->]; set_solver).
    rewrite Hset. pose proof Hset as Hx. rewrite (planned_index xs) in Hx by done. case_decide; [done|].
    pose proof (Hwell _ _ Hx) as (Hn & Hns & _). apply wp_bind.
    eapply wp_mono; [apply wp_removeNode; [by eapply pl_cluster|done|done]|].
    intros [] s1 Hs1. eexists _, _. split; [reflexivity|]. simpl. rewrite Hs1, Hn. simpl. split; [done|].
    intros n [Hin| ->%list_elem_of_singleton]%elem_of_app; [|apply lookup_delete_eq].
    destruct (decide (n = name)) as [->|]; [apply lookup_delete_eq|]. rewrite lookup_delete_ne by done. auto.
  - intros s' [_ Hd]. apply wp_ret. intros name Hn. apply Hd. by apply elem_of_sorted_keys.
Qed.

Lemma wp_reconcileDecommission_empties s : moves_obs b o (seen s) → St4 (e_st s) → o_calm (seen s) = true →
  at_rest → next_layout → laid b o → moves_obs b o (seen (reconcileDecommission s).2) →
  extra b (seen (reconcileDecommission s).2) = [].
Proof.
  intros _ HS Hc Hrest Hnext Hlaid [Hev _ _].
  destruct (wp_reconcileDecommission s HS Hc Hrest Hnext Hlaid) as (x & s1 & E & Hgone).
  destruct HS as [(xs & Hp & _) _]. rewrite E in *. simpl in *. apply extra_nil. intros name Hn.
  destruct (ev_dom _ _ _ Hev name Hn) as [?|Hx]; [done|].
  destruct (decide (name ∈ declared b)) as [|Hd]; [done|exfalso].
  destruct Hn as [y Hy]. rewrite Hgone in Hy; [done|]. rewrite (planned_index xs) by done. by rewrite decide_False.
Qed.

Lemma step_drain_settles : step_ok post_layout post (step_of "drain" false reconcileDecommission).
Proof.
  split.
  - intros s _ (H1 & _ & H3). split; [done|]. intros Hr. destruct (H3 Hr) as [?|[? _]]; [by right|done].
  - intros stopped s out err s' [->|?] (H1 & H2 & H3) Hm; [|done]. simpl in *. specialize (H2 eq_refl).
    pose proof (mv_reconcileDecommission b Hrun s H2) as Hmv. unfold run_M in Hm.
    assert (Hs' : s' = (reconcileDecommission s).2) by by destruct (reconcileDecommission s) as [[]?]; simplify_eq.
    unfold resp, moves in Hmv. rewrite <- Hs' in Hmv. assert (moves_obs b o (seen s')) as Ho' by by etrans.
    split; [done|]. intros Hrest. destruct (H3 Hrest) as [Hlt|(_ & Hnext & Hlaid & HS & Hc)].
    + right. eapply Nat.le_lt_trans; [apply (evolves_distance b Hrun), Hmv|done].
    + destruct (decide (extra b o = [])) as [Hx|Hx].
      * left. apply (distance_0 b Hrun). split_and!; [|done..]. apply Hnext, Hlaid.
      * right. apply (distance_drained b Hrun); [apply Ho'|done|]. subst s'.
        by apply wp_reconcileDecommission_empties.
Qed.

(** *** The whole pass *)

Lemma post_unmoved name always m :
  (∀ s, resp (unmoved b) m s) → (∀ s, resp (env_rel untouching (λ _ _, True)) m s) →
  step_ok post post (step_of name always m).
Proof.
  intros Hm _. split; [done|]. intros stopped s out err s' _ Hp E. simpl in *. unfold run_M in E.
  assert (Hs' : s' = (m s).2) by by destruct (m s) as [[]?]; simplify_eq.
  specialize (Hm s). unfold resp, unmoved in Hm. unfold post. rewrite Hs', Hm. exact Hp.
Qed.

Lemma post_nodes_stable : stable env_RecordFailure post_nodes.
Proof.
  intros stopped e s (H1 & H2 & H3). split_and!; [done| |done]. intros Hs.
  eapply St4_core; [apply core_RecordFailure|auto].
Qed.

Lemma post_layout_stable : stable env_RecordFailure post_layout.
Proof.
  intros stopped e s (H1 & H2 & H3). split_and!; [done| |].
  - intros Hs. simpl. pose proof (core_RecordFailure e (e_st s)) as (_ & _ & Hd)%core_inv.
    apply decided_inv in Hd as (Hi & _). apply inputs_inv in Hi as (_ & _ & _ & _ & _ & Hx). rewrite Hx. by apply H2.
  - intros Hr. destruct (H3 Hr) as [?|(? & ? & ? & ? & ?)]; [by left|right]. split_and!; try done.
    by eapply St4_core; [apply core_RecordFailure|].
Qed.

(** A whole pass undoes nothing, and gets a world at rest closer to what the
    spec says. *)
Lemma pass_settles w : obs (b := b) w = o →
  closer (obs (b := b) (e_world (run_pass OperatorNamespace FSImageRegistry object w []).2)).
Proof.
  intros Hw. unfold run_pass. rewrite Run_state. unfold pipeline. rewrite !run_loop_app.
  match goal with |- closer (obs (e_world (lp_state (run_loop _ _ ?l)))) => apply (run_after_drain post l) end.
  - by intros ? ? ? ?.
  - exact post_unmoved.
  - pose proof (run_before_nodes w Hw) as [H0 _]. cbv zeta in H0. revert H0.
    match goal with |- pre St4 (lp_stopped ?l) _ → _ => generalize l end. intros l0 H0.
    unfold run_loop. cbn [foldl].
    eapply run_step_ok; [by intros ? ? ? ?|apply step_drain_settles|].
    eapply run_step_ok; [exact post_layout_stable|apply step_layout_settles|].
    eapply run_step_ok; [exact post_nodes_stable|apply step_nodes_settles|exact H0].
Qed.
End settling.

(** *** A cluster whose nodes are as declared

    When no node is missing or out of date and none is left over, no pass, calm
    or not, writes or removes a StatefulSet. *)
Section quiet.
Context (Hbehind : ∀ name, ¬ behind b o name) (Hextra : extra b o = []).

Lemma classify_loop_current p desired created stale s :
  (∀ d, d ∈ desired → ∃ l, p_live p !! set_Name d = Some l ∧ template_revision l = template_revision d) →
  classify_loop p desired created stale s = (Ok (created, stale), s).
Proof.
  revert created. induction desired as [|d desired IH]; intros created Hd; simpl; [done|].
  destruct (Hd d ltac:(left)) as (l & -> & Hr). rewrite bool_decide_eq_false_2 by (intros H; by apply H).
  apply IH. intros d' Hin. apply Hd. by right.
Qed.

Lemma rendered_current xs p d : removed b o xs → p_live p = o_sets o → d ∈ rendered_sets xs →
  ∃ l, p_live p !! set_Name d = Some l ∧ template_revision l = template_revision d.
Proof using Hrun Hwell EN Hbehind.
  intros Hr Hl Hin. rewrite Hl.
  destruct (o_sets o !! set_Name d) as [l|] eqn:E.
  - exists l. split; [done|]. apply dec_stable. intros Hne. apply (Hbehind (set_Name d)).
    apply (stale_behind xs p d Hr Hl Hin). unfold is_stale. rewrite Hl, E. by apply bool_decide_eq_true.
  - exfalso. assert (set_Name d ∈ declared b) as Hd.
    { destruct (proj1 (rendered_names xs (set_Name d) Hr)) as [?|[? ?]]; [by apply list_elem_of_fmap_2|done|congruence]. }
    apply (Hbehind (set_Name d)). unfold behind. rewrite E.
    apply (spec_index_declared b Hrun) in Hd as [? ->]. done.
Qed.

Lemma un_reconcileNodes_current s : St3 (e_st s) → resp (unmoved b) reconcileNodes s.
Proof using Hrun Hwell EN Hbehind CW.
  intros (xs & Hp & Hd & Hl & _). unfold reconcileNodes, classify.
  assert (classify_loop (e_st s) (desired_sets (e_st s)) 0 [] s = (Ok (0, []), s)) as E.
  { apply classify_loop_current. intros d Hin. rewrite Hd in Hin. by eapply rendered_current; [apply Hp| |]. }
  unfold resp, mbind, M_bind, get_st, gets. rewrite E. cbn [rollOrder]. unfold unmoved.
  unfold rollOrder, roll, get_st, gets, event, emit. msimpl. by destruct (st_Update _).
Qed.

Definition kept_sets : relation (Env W pass) := λ s s', o_sets (seen s') = o_sets (seen s).

#[local] Instance kept_sets_preorder : PreOrder kept_sets.
Proof. unfold kept_sets. split; [done|]. intros s1 s2 s3. congruence. Qed.

Lemma unmoved_kept {A} (m : M (Env W pass) A) s : resp (unmoved b) m s → resp kept_sets m s.
Proof. unfold resp, unmoved, kept_sets. by intros ->. Qed.

Lemma kept_reconcileLayout s : resp kept_sets reconcileLayout s.
Proof.
  assert (∀ p nodes roles widths token last s, resp kept_sets (tryLayout p nodes roles widths token last) s) as Ht.
  { intros p nodes roles widths token. induction nodes as [|node nodes IH]; intros last s1; simpl; rsolve; auto.
    - apply unmoved_kept, un_call, cw_Client_frame.
    - unfold resp. rewrite issue_eq. unfold kept_sets.
      destruct (cw_ApplyLayout (b := b) (node_url p node) token roles widths (e_world s')) as [[H _]|(l & H & _)];
        destruct (adm_ApplyLayout _ _ _ _ _); simpl in *; by rewrite H. }
  unfold reconcileLayout, holdLayout, applyLayout. rsolve; try apply Ht; apply unmoved_kept.
  all: first [apply un_hold | apply un_adminToken | apply un_emit | apply un_get_st | apply un_put_st].
Qed.

(** From the rollout on: the sets as they were, and nothing to remove. *)
Definition still (stopped : bool) s : Prop :=
  o_sets (seen s) = o_sets o ∧ (stopped = false → p_decommission (e_st s) = ∅).

Lemma still_nodes : step_ok (pre St4) still (step_of "nodes" false reconcileNodes).
Proof using Hrun Hwell EN Hbehind Hextra.
  split.
  - intros s _ (H1 & _ & _). by split; [rewrite H1|].
  - intros stopped s out err s' [->|?] (H1 & H2 & _) Hm; [|done]. simpl in *. specialize (H2 eq_refl) as [HS _].
    pose proof (un_reconcileNodes_current s HS) as Hu. destruct (resp_reconcileNodes s) as [_ Hk]. unfold run_M in Hm.
    assert (Hs' : s' = (reconcileNodes s).2) by by destruct (reconcileNodes s) as [[]?]; simplify_eq.
    unfold resp, unmoved in Hu. rewrite <- Hs' in *. split; [congruence|]. intros _.
    unfold st_rel, keeps in Hk. apply core_inv in Hk as (_ & _ & Hd). apply decided_inv in Hd as (Hi & _).
    apply inputs_inv in Hi as (_ & _ & _ & _ & _ & ->). destruct HS as (xs & Hp & _). by eapply planned_drained.
Qed.

Lemma still_layout : step_ok still still (step_of "layout" false reconcileLayout).
Proof.
  split; [by intros s _ [H _]|]. intros stopped s out err s' [->|?] (H1 & H2) Hm; [|done]. simpl in *. unfold run_M in Hm.
  pose proof (kept_reconcileLayout s) as Hu. destruct (resp_reconcileLayout s) as [_ (_ & Hi & _)].
  assert (Hs' : s' = (reconcileLayout s).2) by by destruct (reconcileLayout s) as [[]?]; simplify_eq.
  unfold resp, kept_sets in Hu. rewrite <- Hs' in *. split; [congruence|]. intros _.
  apply inputs_inv in Hi as (_ & _ & _ & _ & _ & ->). auto.
Qed.

Definition unwritten (stopped : bool) s : Prop := o_sets (seen s) = o_sets o.

Lemma unwritten_drain : step_ok still unwritten (step_of "drain" false reconcileDecommission).
Proof.
  split; [by intros s _ [H _]|]. intros stopped s out err s' [->|?] (H1 & H2) Hm; [|done]. simpl in *. unfold run_M in Hm.
  assert (reconcileDecommission s = (Ok Continue, s)) as E.
  { unfold reconcileDecommission, mbind, M_bind, get_st, gets. by rewrite (H2 eq_refl). }
  rewrite E in Hm. by injection Hm as <- <- <-.
Qed.

Lemma unwritten_unmoved name always m :
  (∀ s, resp (unmoved b) m s) → (∀ s, resp (env_rel untouching (λ _ _, True)) m s) →
  step_ok (logged unwritten) (logged unwritten) (step_of name always m).
Proof.
  intros Hm Hl. eapply logged_untouching; [|exact Hl|done].
  split; [done|]. intros stopped s out err s' _ Hp E. simpl in *. unfold run_M in E.
  assert (Hs' : s' = (m s).2) by by destruct (m s) as [[]?]; simplify_eq.
  specialize (Hm s). unfold resp, unmoved in Hm. unfold unwritten in *. by rewrite Hs', Hm.
Qed.

(** What the rollout and the layout step log of it. *)
Lemma spared_nodes stopped s :
  stopped = false ∨ false = true → pre St4 stopped s → resp (env_rel (spared o) (keeps core)) reconcileNodes s.
Proof using Hrun Hwell EN Hbehind.
  intros [->|?] (_ & HS & _); [|done]. destruct (HS eq_refl) as [(xs & Hp & Hd & Hl & _) _].
  pose proof (λ d, rendered_current xs (e_st s) d (pl_removed _ _ Hp) Hl) as Hcur.
  eapply env_rel_mono, resp_reconcileNodes; [|done]. intros a [(want & -> & Hin & Hnone)|Ha].
  - rewrite Hd in Hin. destruct (Hcur want Hin) as (l & Hlive & _). congruence.
  - destruct a as [[set| | | | |]| | | | | | | | | | | | | | | | | | |]; try done. destruct Ha as (want & _ & Hin & _).
    unfold stale_order in Hin. rewrite rollOrder_perm, Hd in Hin. apply list_elem_of_filter in Hin as [Hs Hin].
    destruct (Hcur want Hin) as (l & Hlive & Hrev). unfold is_stale in Hs. rewrite Hlive in Hs.
    by apply bool_decide_eq_true in Hs.
Qed.

Lemma spared_layout stopped s :
  stopped = false ∨ false = true → still stopped s → resp (env_rel (spared o) view_after) reconcileLayout s.
Proof.
  intros _ _. eapply env_rel_mono, resp_reconcileLayout; [|done]. intros a Ha. by destruct a.
Qed.

Lemma spared_drain stopped s :
  stopped = false ∨ false = true → still stopped s → resp (env_rel (spared o) (keeps core)) reconcileDecommission s.
Proof.
  intros [->|?] [_ H2]; [|done].
  unfold resp, reconcileDecommission, mbind, M_bind, get_st, gets. rewrite (H2 eq_refl). simpl. reflexivity.
Qed.

Lemma still_stable : stable env_RecordFailure still.
Proof.
  intros stopped e s (H1 & H2). split; [done|]. intros Hs. simpl.
  pose proof (core_RecordFailure e (e_st s)) as (_ & _ & Hd)%core_inv.
  apply decided_inv in Hd as (Hi & _). apply inputs_inv in Hi as (_ & _ & _ & _ & _ & ->). auto.
Qed.

Lemma pass_quiet w : obs (b := b) w = o →
  let s := (run_pass OperatorNamespace FSImageRegistry object w []).2 in
  o_sets (seen s) = o_sets o ∧ Forall (spared o) (e_log s).
Proof using Hrun Hspec Hsame Hwell EN Hbehind Hextra.
  intros Hw. cbv zeta. unfold run_pass. rewrite Run_state. unfold pipeline. rewrite !run_loop_app.
  match goal with |- _ ∧ Forall _ (e_log (lp_state (run_loop _ _ ?l))) =>
    apply (run_after_drain (logged unwritten) l) end.
  - apply logged_stable. by intros ? ? ? ?.
  - exact unwritten_unmoved.
  - pose proof (run_before_nodes w Hw) as H0. cbv zeta in H0. revert H0.
    match goal with |- logged (pre St4) (lp_stopped ?l) _ → _ => generalize l end. intros l0 H0.
    unfold run_loop. cbn [foldl].
    eapply run_step_ok; [apply logged_stable; by intros ? ? ? ?|
      eapply logged_step; [apply unwritten_drain|apply spared_drain]|].
    eapply run_step_ok; [apply logged_stable, still_stable|
      eapply logged_step; [apply still_layout|apply spared_layout]|].
    eapply run_step_ok; [apply logged_stable, still_stable|
      eapply logged_step; [apply still_nodes|apply spared_nodes]|exact H0].
Qed.
End quiet.
End pass.
