(* ===== verification/Converge.v ===== *)
(** * Reconciles after reconciles: where they arrive

    A sequence of reconciles of one cluster, with whatever happens to it in
    between: pods restart, nodes go down and come back, data moves, calls fail.
    No reconcile undoes what another did; every reconcile that finds the cluster
    at rest gets it closer to what its spec says; so as many of those as there
    are things to do make it what the spec says, and it stays so. *)

From S2P Require Import Prelude.
From S2P Require Import ApiTypes.
From S2P Require Import Defaults.
From S2P Require Import Nodes.
From S2P Require Import Validation.
From S2P Require Import FsClient.
From S2P Require Import Kube.
From S2P Require Import Config.
From S2P Require Import Builders.
From S2P Require Import Pass.
From S2P Require Import Status.
From S2P Require Import Rollout.
From S2P Require Import LayoutStep.
From S2P Require Import Controller.
From S2P Require Import World.
From S2P Require Import Loop.
From S2P Require Import Settle.

(** ** What happens between two reconciles *)

(** A StatefulSet's controller, the kubelet and the server change its status,
    its version and its deletion, not what the operator wrote. *)
Definition same_set (s s' : StatefulSet) : Prop :=
  set_Name s' = set_Name s ∧ set_Namespace s' = set_Namespace s ∧ set_Claims s' = set_Claims s ∧
  set_Template s' = set_Template s ∧ template_revision s' = template_revision s.

(** fs moves data under a layout, which ends versions of it, not who is in it. *)
Definition same_layout (l l' : Layout) : Prop := Members l' = Members l ∧ Widths l' = Widths l.

Record drifts (o o' : Obs) : Prop := mkDrifts {
  dr_sets : ∀ name, option_Forall2 same_set (o_sets o !! name) (o_sets o' !! name);
  dr_layout : option_Forall2 same_layout (o_layout o) (o_layout o');
}.

Section drifts.
Context {CD : Codec} (b : FSCluster) (Hrun : runnable b) (default : PodTemplateSpec → PodTemplateSpec).

Lemma drifts_behind o o' name : drifts o o' → behind b o' name → behind b o name.
Proof.
  intros [H _]. specialize (H name). unfold behind. destruct H as [s s' (_ & _ & _ & Ht & ->)|]; [|done].
  by rewrite (own_revision_template s s').
Qed.

Lemma drifts_evolves o o' : drifts o o' → evolves b o o'.
Proof.
  intros Hd. split.
  - intros name. by apply drifts_behind.
  - intros name [s Hs]. right. pose proof (dr_sets _ _ Hd name) as H. rewrite Hs in H. inversion H. eauto.
  - unfold laid. destruct (dr_layout _ _ Hd) as [l l' [Hm Hw]|]; [|done]. unfold sameLayout. by rewrite Hm, Hw.
Qed.

Lemma drifts_well o o' : drifts o o' → well b default o → well b default o'.
Proof.
  intros Hd Hw name s' Hs'. pose proof (dr_sets _ _ Hd name) as H. rewrite Hs' in H.
  inversion H as [s ? (Hn & Hns & Hc & Ht & _) Hs|]; subst. symmetry in Hs. apply Hw in Hs as (? & ? & ? & Hcase).
  rewrite Hn, Hns, Hc, Ht. done.
Qed.
End drifts.

(** ** Reconciles *)

Section converge.
Context {W : Type} `{!KubeClient W, !Interface W} {CD : Codec} {EN : Encodes}.
Context (OperatorNamespace FSImageRegistry : string) (b : FSCluster) {CW : ClusterWorld W b}.
Context (Hrun : runnable b) (Hspec : spec_ok (fsc_Spec b)).

Abbreviation seen w := (obs (b := b) w).

(** The world after a reconcile of the cluster. *)
Definition after (w : W) : W :=
  (Reconcile OperatorNamespace FSImageRegistry (fsc_Namespace b) (fsc_Name b) w).2.1.

(** What it asked for. *)
Definition asked_for (w : W) : list action :=
  (Reconcile OperatorNamespace FSImageRegistry (fsc_Namespace b) (fsc_Name b) w).2.2.

(** The API server has the cluster, with the spec that is [b]'s with its
    defaults, and it is not being deleted; the read may fail, unless the world
    is calm. *)
Definition asked (w : W) : Prop :=
  match (k_getCluster (fsc_Namespace b) (fsc_Name b) w).1 with
  | Ok object => same_spec (with_defaults object FSImageRegistry) b ∧ fsc_Deleting object = false
  | Err _ => o_calm (seen w) = false
  end.

(** [passes n w w']: reconciles, with anything between them that is not the
    operator's doing, take [w] to [w']; [n] of them found the cluster at rest. *)
Inductive passes : nat → W → W → Prop :=
  | passes_none w : passes 0 w w
  | passes_settled n w w1 w2 : passes n w w1 → drifts (seen w1) (seen w2) → asked w2 → at_rest b (seen w2) →
      passes (S n) w (after w2)
  | passes_other n w w1 w2 : passes n w w1 → drifts (seen w1) (seen w2) → asked w2 → passes n w (after w2).

(** Every node the spec declares runs what the spec asks for, and no other node
    runs. *)
Definition nodes_as_declared (o : Obs) : Prop :=
  (∀ node, node ∈ Nodes b → ∃ s, o_sets o !! node_Name node = Some s ∧
     template_revision s = template_revision (spec_set b node)) ∧
  (∀ name, is_Some (o_sets o !! name) → name ∈ declared b).

(** And the layout is the spec's. *)
Definition as_declared (o : Obs) : Prop :=
  nodes_as_declared o ∧
  (∃ l, o_layout o = Some l ∧ Members l ≡ₚ spec_roles b ∧ Widths l ≡ₚ desiredWidths (fsc_Spec b)).

Lemma as_declared_distance o : distance b o = 0 → as_declared o.
Proof.
  intros (Hb & Hl & Hx)%(distance_0 b Hrun). split; [split; [|by apply extra_nil]|by apply laid_spec].
  intros node Hn. specialize (Hb (node_Name node)). unfold behind in Hb.
  rewrite (spec_index_node b Hrun node Hn) in Hb. destruct (o_sets o !! node_Name node) as [s|]; [|by destruct Hb].
  exists s. split; [done|]. by apply dec_stable.
Qed.

Lemma after_moves w : SingleNode (fsc_Spec b) = false → asked w → well b (cw_default (b := b)) (seen w) →
  moves_obs b (seen w) (seen (after w)) ∧
  (at_rest b (seen w) → distance b (seen w) = 0 ∨ distance b (seen (after w)) < distance b (seen w)).
Proof.
  unfold asked, after, Reconcile. intros Hmany Ha Hw.
  pose proof (cw_getCluster_frame (b := b) (fsc_Namespace b) (fsc_Name b) w) as Hf.
  destruct (k_getCluster _ _ w) as [[object|e] w1] eqn:E; cbn [fst snd] in *.
  - destruct Ha as [Hsame ->].
    pose proof (pass_settles OperatorNamespace FSImageRegistry b Hrun Hspec object Hsame (seen w) Hw Hmany w1 Hf) as H.
    destruct (run_pass _ _ object w1 []) as [r s]. exact H.
  - assert (seen (if IsNotFound e then (Ok 0%Z, (w1, [AForget (fsc_Namespace b) (fsc_Name b)]))
      else (Err e, (w1, []))).2.1 = seen w) as -> by by destruct (IsNotFound e).
    split; [reflexivity|]. intros Hr. by rewrite (ar_calm _ _ Hr) in Ha.
Qed.

Lemma passes_progress n w w' : SingleNode (fsc_Spec b) = false → well b (cw_default (b := b)) (seen w) → passes n w w' →
  well b (cw_default (b := b)) (seen w') ∧ distance b (seen w') ≤ distance b (seen w) - n.
Proof.
  intros Hmany Hw. induction 1 as [w|n w w1 w2 _ IH Hd Ha Hr|n w w1 w2 _ IH Hd Ha]; [split; [done|lia]| |];
    destruct (IH Hw) as [Hw1 Hle]; pose proof (drifts_well b _ _ _ Hd Hw1) as Hw2;
    destruct (after_moves w2 Hmany Ha Hw2) as [Hm Hgo];
    pose proof (evolves_distance b Hrun _ _ (drifts_evolves b _ _ Hd)) as H1;
    pose proof (evolves_distance b Hrun _ _ (mo_evolves _ _ _ Hm)) as H2;
    (split; [by apply Hm|]); [|lia].
  destruct (Hgo Hr) as [Hz|Hlt]; lia.
Qed.

(** C3: Reconciles make a clustered spec come true.  Let [b] be a cluster with a
    spec admission and validation take, of several nodes, and start from any world
    in which nobody else wrote the cluster's StatefulSets ([placed]: each under its
    own name in the cluster's namespace, those of dropped nodes as the server
    defaulted them) and no volume change is pending ([sized]: growing or shrinking
    one is the storage step's business).  Take any sequence of reconciles of that
    spec ([asked]), failing or not, with pods, nodes and data doing as they like in
    between.  Once as many of them as nodes are missing or out of date, and two
    more, found the cluster at rest (no call failed, the nodes that serve or are
    on their current template were up, and data was not moving), every declared node runs the
    revision the spec asks for, no other node is left, and fs runs the layout of
    the spec; and it is still so after any further reconciles. *)
Theorem cluster_converges n w w' :
  SingleNode (fsc_Spec b) = false → placed b (cw_default (b := b)) (seen w) → sized b (seen w) →
  passes n w w' → length (todo b (seen w)) + 2 ≤ n →
  as_declared (seen w').
Proof using EN Hrun Hspec.
  intros Hmany Hpl Hsz Hp Hn. pose proof (proj2 (well_split b Hrun _ _) (conj Hpl Hsz)) as Hw.
  destruct (passes_progress n w w' Hmany Hw Hp) as [_ Hd].
  apply as_declared_distance. unfold distance in *. repeat case_decide; lia.
Qed.

Lemma nodes_as_declared_behind o : nodes_as_declared o → (∀ name, ¬ behind b o name) ∧ extra b o = [].
Proof.
  intros [Hn Hx]. split; [|by apply extra_nil]. intros name. unfold behind.
  destruct (index_sets (spec_sets b) !! name) as [want|] eqn:E.
  - assert (name ∈ declared b) as (node & -> & Hin)%list_elem_of_fmap by (apply spec_index_declared; eauto).
    destruct (Hn node Hin) as (s & -> & ->). rewrite (spec_index_node b Hrun node Hin) in E. intros H. apply H. congruence.
  - destruct (o_sets o !! name) as [s|] eqn:Es; [|tauto]. apply spec_index_None in E; [|done]. intros _. apply E, Hx. eauto.
Qed.

(** C4: A cluster whose nodes are as declared by a spec admission and validation
    take is left alone, one node or several: whatever else is wrong and whatever fails, a reconcile changes no StatefulSet,
    and asks for no change of one or of a claim.  It deletes no pod either, except
    one that is still to pick up the volume its StatefulSet was recreated for (its
    set reports it ready on an older revision), and that only while every other
    node of the cluster serves.  ([placed] and [sized] are as for C3: nobody else
    wrote the sets, and no volume change is pending.) *)
Theorem declared_nodes_untouched w :
  placed b (cw_default (b := b)) (seen w) → sized b (seen w) → asked w → nodes_as_declared (seen w) →
  o_sets (seen (after w)) = o_sets (seen w) ∧ Forall (spared (seen w)) (asked_for w).
Proof using EN Hrun Hspec.
  intros Hpl Hsz Ha [Hb Hx]%nodes_as_declared_behind. pose proof (proj2 (well_split b Hrun _ _) (conj Hpl Hsz)) as Hw.
  unfold asked, after, asked_for, Reconcile in *.
  pose proof (cw_getCluster_frame (b := b) (fsc_Namespace b) (fsc_Name b) w) as Hf.
  destruct (k_getCluster _ _ w) as [[object|e] w1] eqn:E; cbn [fst snd] in *.
  - destruct Ha as [Hsame ->].
    pose proof (pass_quiet OperatorNamespace FSImageRegistry b Hrun Hspec object Hsame (seen w) Hw Hb Hx w1 Hf) as H.
    destruct (run_pass _ _ object w1 []) as [r s]. exact H.
  - destruct (IsNotFound e); cbn [fst snd]; (split; [by rewrite Hf|by repeat constructor]).
Qed.
End converge.
