(* ===== verification/Ready.v ===== *)
(** * What the FSBucket and FSAccessKey controllers share
      (src/internal/controller/conditions.go)

    A Ready condition per reconcile, finalizers as
    [controllerutil] keeps them, and the delay of a pending object. *)

From S2P Require Import Prelude.
From S2P Require Import ApiTypes.
From S2P Require Import Config.

Record readyCondition := mkReady {
  ready_status : string;
  ready_reason : string;
  ready_message : string;
}.

Definition trueCondition (reason message : string) : readyCondition := mkReady ConditionTrue reason message.
Definition falseCondition (reason message : string) : readyCondition := mkReady ConditionFalse reason message.

Definition requeueAfterPending : Z := 10 * second.

(** The condition as the status carries it. *)
Definition ready_Condition (generation : Z) (cond : readyCondition) : Condition :=
  mkCondition ConditionReady (ready_status cond) (ready_reason cond) (ready_message cond) generation.

(** ** Finalizers *)

Definition ContainsFinalizer (finalizers : list string) (f : string) : bool := bool_decide (f ∈ finalizers).
Definition AddFinalizer (finalizers : list string) (f : string) : list string :=
  if ContainsFinalizer finalizers f then finalizers else finalizers ++ [f].
Definition RemoveFinalizer (finalizers : list string) (f : string) : list string :=
  filter (λ g, g ≠ f) finalizers.

Lemma elem_of_AddFinalizer l f g : g ∈ AddFinalizer l f ↔ g ∈ l ∨ g = f.
Proof. unfold AddFinalizer, ContainsFinalizer. case_bool_decide; set_solver. Qed.

Lemma elem_of_RemoveFinalizer l f g : g ∈ RemoveFinalizer l f ↔ g ∈ l ∧ g ≠ f.
Proof. unfold RemoveFinalizer. rewrite list_elem_of_filter. tauto. Qed.
