(* ===== verification/Bucket.v ===== *)
(** * The FSBucket controller (src/internal/controller/fsbucket_controller.go)

    A reconcile works on one object, its state: it keeps a finalizer on it,
    makes the S3 bucket, sets its scheme and reports; on deletion it honours
    the reclaim policy before it lets the object go. *)

From S2P Require Import Prelude.
From S2P Require Import ApiTypes.
From S2P Require Import Defaults.
From S2P Require Import Nodes.
From S2P Require Import FsClient.
From S2P Require Import Kube.
From S2P Require Import Course.
From S2P Require Import Builders.
From S2P Require Import Pass.
From S2P Require Import Ready.

Definition bucketFinalizer : string := "fs.go-faster.org/bucket".

(** ** The interfaces: FSBucket objects, and S3 *)

Class BucketClient (W : Type) := {
  b_get : string → string → M W FSBucket;
  (** An update, and a status patch, leave the caller with what is stored. *)
  b_update : FSBucket → M W FSBucket;
  b_patchStatus : FSBucket → FSBucket → M W FSBucket;
}.

(** What an S3 client is built from; the client keeps nothing else. *)
Record s3conn := mkS3conn { s3_endpoint : string; s3_access : string; s3_secretKey : string; s3_secure : bool }.

Class S3Client (W : Type) := {
  s3_New : s3conn → M W unit;
  s3_BucketExists : s3conn → string → M W bool;
  s3_MakeBucket : s3conn → string → M W unit;
  s3_RemoveBucket : s3conn → string → M W unit;
}.

(** *** The client the controller builds

    minio-go, as the wrapper uses it: a client of an endpoint with static
    credentials, and its three calls. *)
Record minioOptions := mkMinioOptions { mi_access : string; mi_secret : string; mi_session : string; mi_Secure : bool }.

Class Minio (W : Type) := {
  minio_New : string → minioOptions → M W unit;
  minio_BucketExists : string → minioOptions → string → M W bool;
  (** With [MakeBucketOptions{}]: no region, no object locking. *)
  minio_MakeBucket : string → minioOptions → string → string → bool → M W unit;
  minio_RemoveBucket : string → minioOptions → string → M W unit;
}.

Definition minio_opts (c : s3conn) : minioOptions := mkMinioOptions (s3_access c) (s3_secretKey c) "" (s3_secure c).

Definition newMinioClient {W} `{!Minio W} (c : s3conn) : M W unit :=
  wrap_err "build s3 client" (minio_New (s3_endpoint c) (minio_opts c)).

Definition minioClient {W} `{!Minio W} : S3Client W := {|
  s3_New := newMinioClient;
  s3_BucketExists c bucket := minio_BucketExists (s3_endpoint c) (minio_opts c) bucket;
  s3_MakeBucket c bucket := minio_MakeBucket (s3_endpoint c) (minio_opts c) bucket "" false;
  s3_RemoveBucket c bucket := minio_RemoveBucket (s3_endpoint c) (minio_opts c) bucket;
|}.

Definition isBucketNotEmpty (e : error) : bool := err_is (KS3 "BucketNotEmpty") e.
Definition isBucketNotFound (e : error) : bool := err_is (KS3 "NoSuchBucket") e.

Definition bkt_set_Finalizers (b : FSBucket) (l : list string) : FSBucket :=
  mkFSBucket (bkt_Name b) (bkt_Namespace b) (bkt_Generation b) (bkt_Deleting b) l (bkt_Spec b) (bkt_Status b).

(** The name of the S3 bucket. *)
Definition bucket_name (b : FSBucket) : string :=
  if bool_decide (BucketName (bkt_Spec b) = "") then bkt_Name b else BucketName (bkt_Spec b).

Section controller.
Context {W : Type} `{!KubeClient W, !Interface W, !BucketClient W, !S3Client W}.
Abbreviation step A := (M (Env W FSBucket) A).

(** ** Reporting *)

Definition bucket_status (scheme : string) (cond : readyCondition) (b : FSBucket) : FSBucket :=
  let st := bkt_Status b in
  mkFSBucket (bkt_Name b) (bkt_Namespace b) (bkt_Generation b) (bkt_Deleting b) (bkt_Finalizers b) (bkt_Spec b)
    (mkFSBucketStatus (bkt_Generation b)
       (if bool_decide (scheme ≠ "") then scheme else bst_Scheme st)
       (k_setCondition (bst_Conditions st) (ready_Condition (bkt_Generation b) cond))).

Definition bucket_report (scheme : string) (cond : readyCondition) (requeue : bool) : step Z :=
  base ← get_st;
  let bucket := bucket_status scheme cond base in
  _ ← put_st (λ _, bucket);
  stored ← wrap_err "update status" (issue (APatchBucketStatus base bucket) (b_patchStatus base bucket));
  _ ← put_st (λ _, stored);
  ret (if requeue then requeueAfterPending else 0%Z).

Definition update_bucket (msg : string) (bucket : FSBucket) : step unit :=
  _ ← put_st (λ _, bucket);
  stored ← wrap_err msg (issue (AUpdateBucket bucket) (b_update bucket));
  put_st (λ _, stored).

(** ** Clients *)

Definition s3For (cluster : FSCluster) : step s3conn :=
  let name := RootCredentialsSource cluster in
  secret ← wrap_err "get root credentials" (call (k_getSecret (fsc_Namespace cluster) name));
  let access := default "" (sec_Data secret !! AccessKeyKey) in
  let secretKey := default "" (sec_Data secret !! SecretKeyKey) in
  if bool_decide (access = "") || bool_decide (secretKey = "") then
    throw (errors_New ("root credentials secret " +:+ fmt_q name +:+ " is incomplete"))
  else
    let secure := bool_decide (tls_SecretName (TLS (S3 (fsc_Spec cluster))) ≠ "") in
    let endpoint := ClientServiceName (fsc_Name cluster) +:+ "." +:+ fsc_Namespace cluster +:+ ".svc:"
                      +:+ pretty S3Port in
    let conn := mkS3conn endpoint access secretKey secure in
    _ ← call (s3_New conn);
    ret conn.

(** The URL and token an admin client of the first node is built from. *)
Definition clusterAdmin (cluster : FSCluster) : step (string * string) :=
  match Nodes cluster with
  | [] => throw (errors_New "cluster has no nodes yet")
  | node :: _ =>
      let name := AdminTokenSecretName (fsc_Name cluster) in
      secret ← wrap_err "get admin token" (call (k_getSecret (fsc_Namespace cluster) name));
      let token := default "" (sec_Data secret !! AdminTokenKey) in
      if bool_decide (token = "") then
        throw (errors_New ("admin token secret " +:+ fmt_q name +:+ " has no " +:+ fmt_q AdminTokenKey))
      else
        let url := AdminURL (fsc_Name cluster) (fsc_Namespace cluster) (node_Name node) in
        _ ← call (adm_Client url token);
        ret (url, token)
  end.

(** ** The scheme

    The scheme in effect, or a condition and whether to come back. *)

Definition reconcileScheme (cluster : FSCluster) (bucket scheme : string)
    : step (string + readyCondition * bool) :=
  if SingleNode (fsc_Spec cluster) then
    if bool_decide (scheme ≠ "") then
      ret (inr (falseCondition ReasonSchemeRejected
        "spec.scheme is not available on a single-node cluster: it has no layout to spread over", false))
    else ret (inl "")
  else
    admin ← try (clusterAdmin cluster);
    match admin with
    | Err e => ret (inr (falseCondition ReasonClusterNotReady (err_string e), true))
    | Ok (url, token) =>
        r ← try (if bool_decide (scheme = "") then call (adm_GetBucketScheme url token bucket)
                 else issue (ASetScheme url bucket scheme) (adm_SetBucketScheme url token bucket scheme));
        match r with
        | Ok effective => ret (inl effective)
        | Err e =>
            if err_is KSchemeRejected e
            then ret (inr (falseCondition ReasonSchemeRejected (err_string e), false))
            else ret (inr (falseCondition ReasonClusterNotReady "cluster admin not reachable yet", true))
        end
    end.

(** ** Deletion *)

Definition release_bucket : step Z :=
  bucket ← get_st;
  _ ← update_bucket "remove finalizer"
        (bkt_set_Finalizers bucket (RemoveFinalizer (bkt_Finalizers bucket) bucketFinalizer));
  ret 0%Z.

Definition bucket_finalize (name : string) (cluster : result FSCluster) : step Z :=
  bucket ← get_st;
  if negb (ContainsFinalizer (bkt_Finalizers bucket) bucketFinalizer) then ret 0%Z
  else match cluster with
  | Ok cluster =>
      if bool_decide (bs_ReclaimPolicy (bkt_Spec bucket) = ReclaimDelete) then
        s3 ← try (s3For cluster);
        match s3 with
        | Err e => bucket_report "" (falseCondition ReasonClusterNotReady (err_string e)) true
        | Ok conn =>
            r ← try (issue (ARemoveBucket (s3_endpoint conn) name) (s3_RemoveBucket conn name));
            match r with
            | Err e =>
                if isBucketNotFound e then
                  _ ← event EventTypeNormal "Deleted" ("deleted S3 bucket " +:+ name);
                  release_bucket
                else if isBucketNotEmpty e then
                  _ ← event EventTypeWarning "BucketNotEmpty" ("refusing to delete non-empty bucket " +:+ name);
                  bucket_report "" (falseCondition ReasonBucketNotEmpty
                    ("bucket " +:+ name +:+ " is not empty; empty it or set reclaimPolicy: Retain")) true
                else
                  bucket_report "" (falseCondition ReasonBucketError
                    (err_string (ErrWrap "delete bucket" e))) true
            | Ok _ =>
                _ ← event EventTypeNormal "Deleted" ("deleted S3 bucket " +:+ name);
                release_bucket
            end
        end
      else release_bucket
  | Err _ => release_bucket
  end.

(** ** The reconcile *)

Definition ensure_finalizer : step unit :=
  bucket ← get_st;
  if ContainsFinalizer (bkt_Finalizers bucket) bucketFinalizer then ret tt
  else update_bucket "add finalizer"
         (bkt_set_Finalizers bucket (AddFinalizer (bkt_Finalizers bucket) bucketFinalizer)).

(** The bucket in S3 and its scheme, once the object holds its finalizer. *)
Definition bucket_ensure (name : string) (cluster : FSCluster) : step Z :=
  s3 ← try (s3For cluster);
  match s3 with
  | Err e => bucket_report "" (falseCondition ReasonClusterNotReady (err_string e)) true
  | Ok conn =>
      exists_ ← try (call (s3_BucketExists conn name));
      match exists_ with
      | Err e => bucket_report "" (falseCondition ReasonClusterNotReady
                   (err_string (ErrWrap "check bucket" e))) true
      | Ok found =>
          made ← (if found : bool then ret (Ok tt)
                  else
                    r ← try (issue (AMakeBucket (s3_endpoint conn) name) (s3_MakeBucket conn name));
                    match r with
                    | Err e => ret (Err e)
                    | Ok _ => _ ← event EventTypeNormal "Created" ("created S3 bucket " +:+ name); ret (Ok tt)
                    end);
          match made with
          | Err e => bucket_report "" (falseCondition ReasonClusterNotReady
                       (err_string (ErrWrap "create bucket" e))) true
          | Ok _ =>
              bucket ← get_st;
              x ← reconcileScheme cluster name (bs_Scheme (bkt_Spec bucket));
              match x with
              | inr (cond, requeue) => bucket_report "" cond requeue
              | inl effective => bucket_report effective (trueCondition ReasonBucketReady "bucket ready") false
              end
          end
      end
  end.

Definition bucket_body : step Z :=
  bucket ← get_st;
  let name := bucket_name bucket in
  let ref := ref_Name (bs_ClusterRef (bkt_Spec bucket)) in
  cluster ← try (call (k_getCluster (bkt_Namespace bucket) ref));
  if bkt_Deleting bucket then bucket_finalize name cluster
  else
    _ ← ensure_finalizer;
    match cluster with
    | Err e =>
        if IsNotFound e then
          bucket ← get_st;
          bucket_report "" (falseCondition ReasonClusterNotFound
            ("FSCluster " +:+ ref_Name (bs_ClusterRef (bkt_Spec bucket)) +:+ " not found")) true
        else throw (ErrWrap "get cluster" e)
    | Ok cluster => bucket_ensure name cluster
    end.

(** [Reconcile]: the answer, and the world and log it leaves.  A failure is
    counted. *)
Definition bucket_Reconcile (namespace name : string) (w : W) : result Z * (W * list action) :=
  let '(r, (w, log)) :=
    match b_get namespace name w with
    | (Err e, w) => (if IsNotFound e then Ok 0%Z else Err e, (w, []))
    | (Ok bucket, w) =>
        let '(r, s) := bucket_body (mkEnv w [] bucket) in (r, (e_world s, e_log s))
    end in
  match r with
  | Ok _ => (r, (w, log))
  | Err _ => (r, (w, log ++ [ARecordReconcileError "fsbucket"]))
  end.
End controller.

(** * Theorems *)

(** ** What was heard *)

Section heard.
Context {W : Type} `{!KubeClient W, !Interface W, !BucketClient W, !S3Client W}.
Implicit Types s : Env W FSBucket.

(** The calls of this controller. *)
Inductive bucket_step : relation W :=
  | bstep_kube w w' : kube_step w w' → bucket_step w w'
  | bstep_admin w w' : admin_step w w' → bucket_step w w'
  | bstep_update b w : bucket_step w (b_update b w).2
  | bstep_patchStatus base b w : bucket_step w (b_patchStatus base b w).2
  | bstep_New conn w : bucket_step w (s3_New conn w).2
  | bstep_BucketExists conn name w : bucket_step w (s3_BucketExists conn name w).2
  | bstep_MakeBucket conn name w : bucket_step w (s3_MakeBucket conn name w).2
  | bstep_RemoveBucket conn name w : bucket_step w (s3_RemoveBucket conn name w).2.

#[global] Instance kube_in_bucket : Part kube_step bucket_step := bstep_kube.
#[global] Instance admin_in_bucket : Part admin_step bucket_step := bstep_admin.

(** The read of the object's cluster. *)
Definition cluster_of (b : FSBucket) : M W FSCluster :=
  k_getCluster (bkt_Namespace b) (ref_Name (bs_ClusterRef (bkt_Spec b))).

(** The root credentials of the cluster were read, and this is a connection to
    its S3 endpoint with them. *)
Definition conn_of (w0 w1 : W) (cluster : FSCluster) (conn : s3conn) : Prop :=
  ∃ secret, heard bucket_step w0 w1 (k_getSecret (fsc_Namespace cluster) (RootCredentialsSource cluster)) (Ok secret) ∧
    conn = mkS3conn
      (ClientServiceName (fsc_Name cluster) +:+ "." +:+ fsc_Namespace cluster +:+ ".svc:" +:+ pretty S3Port)
      (default "" (sec_Data secret !! AccessKeyKey)) (default "" (sec_Data secret !! SecretKeyKey))
      (bool_decide (tls_SecretName (TLS (S3 (fsc_Spec cluster))) ≠ "")).

(** A computation that leaves the object in hand alone. *)
Lemma run_st {A} (m : M (Env W FSBucket) A) s r s' :
  resp (timed bucket_step (λ _ _, True) eq) m s → m s = (r, s') →
  e_st s' = e_st s ∧ later bucket_step (e_world s) (e_world s').
Proof. intros (H1 & _ & H2) E. rewrite E in H1, H2. done. Qed.
End heard.

#[export] Hint Extern 1 (Moves _ _) =>
  apply (moves_part bucket_step); [apply _|intros ?; solve [constructor]] : typeclass_instances.

Section clients.
Context {W : Type} `{!KubeClient W, !Interface W, !BucketClient W, !S3Client W}.
Implicit Types s : Env W FSBucket.

Lemma timed_s3For (φ : W → action → Prop) (Q : relation FSBucket) `{!Lasting bucket_step φ, !PreOrder Q} cluster s :
  resp (timed bucket_step φ Q) (s3For cluster) s.
Proof. unfold s3For. rsolve. Qed.

Lemma s3For_spec cluster s conn s' :
  s3For cluster s = (Ok conn, s') → e_st s' = e_st s ∧ conn_of (e_world s) (e_world s') cluster conn.
Proof.
  intros H. split; [by eapply run_st; [apply timed_s3For; apply _|exact H]|]. revert H.
  unfold s3For, wrap_err, mbind, M_bind. cbv zeta. rewrite call_eq.
  destruct (k_getSecret _ _ (e_world s)) as [[secret|e] w1] eqn:Hs; [|done].
  destruct (_ || _); [done|]. rewrite call_eq. cbn [e_world].
  destruct (s3_New _ w1) as [[[]|e] w2] eqn:Hn; [|done]. intros [= <- <-].
  exists secret. split; [|done]. eapply heard_later; [by apply (heard_now _ _ (e_world s))|exact (call_later _ Hn)].
Qed.
End clients.

(** ** What a reconcile may ask for *)

Section may.
Context {W : Type} `{!KubeClient W, !Interface W, !BucketClient W, !S3Client W}.
Implicit Types s : Env W FSBucket.

Abbreviation heard := (heard bucket_step).
Abbreviation made := (made bucket_step).

(** The reclaim policy of an object being deleted has been honoured: it keeps
    the bucket, or the cluster could not be read, or the cluster's S3 said the
    bucket is gone. *)
Definition honoured (w0 w1 : W) (b : FSBucket) : Prop :=
  bs_ReclaimPolicy (bkt_Spec b) ≠ ReclaimDelete ∨
  (∃ e, heard w0 w1 (cluster_of b) (Err e)) ∨
  (∃ cluster conn w w' r, heard w0 w (cluster_of b) (Ok cluster) ∧ conn_of w w' cluster conn ∧
     heard w' w1 (s3_RemoveBucket conn (bucket_name b)) r ∧
     match r with Ok _ => True | Err e => isBucketNotFound e = true end).

(** What justifies an action was heard after the reconcile started at [w0] and
    before the call was made; [w1] is any world after that. *)
Definition bucket_may (w0 : W) (b : FSBucket) (w1 : W) (a : action) : Prop :=
  match a with
  | AMakeBucket _ n => bkt_Deleting b = false ∧ n = bucket_name b
  | ASetScheme _ n scheme => bkt_Deleting b = false ∧ n = bucket_name b ∧ scheme ≠ ""
  | ARemoveBucket _ n =>
      bkt_Deleting b = true ∧ bucketFinalizer ∈ bkt_Finalizers b ∧
      bs_ReclaimPolicy (bkt_Spec b) = ReclaimDelete ∧ n = bucket_name b
  | AUpdateBucket b' =>
      if bkt_Deleting b
      then b' = bkt_set_Finalizers b (RemoveFinalizer (bkt_Finalizers b) bucketFinalizer) ∧
           ∃ w, honoured w0 w b ∧ made w w1 (b_update b')
      else b' = bkt_set_Finalizers b (AddFinalizer (bkt_Finalizers b) bucketFinalizer)
  | APatchBucketStatus _ _ | AEvent _ _ _ => True
  | _ => False
  end.

#[local] Instance bucket_may_lasting w0 b : Lasting bucket_step (bucket_may w0 b).
Proof.
  intros w w' [] Hw; simpl; auto. destruct (bkt_Deleting b); [|done].
  intros (? & w1 & ? & ?). split; [done|]. exists w1. split; [done|]. by eapply made_later.
Qed.

#[local] Instance any_preorder : PreOrder (λ _ _ : FSBucket, True).
Proof. by split. Qed.

Abbreviation may w0 b := (timed bucket_step (bucket_may w0 b) (λ _ _ : FSBucket, True)).

Lemma resp_bucket_report w0 b scheme cond requeue s : resp (may w0 b) (bucket_report scheme cond requeue) s.
Proof. unfold bucket_report. tsolve. Qed.

Lemma resp_update_bucket w0 b msg b' s :
  bucket_may w0 b (b_update b' (e_world s)).2 (AUpdateBucket b') → resp (may w0 b) (update_bucket msg b') s.
Proof. intros. unfold update_bucket. tsolve. unfold put_st, modify in Hrun. by simplify_eq/=. Qed.

Lemma resp_release w0 b s :
  e_st s = b → bkt_Deleting b = true → honoured w0 (e_world s) b → resp (may w0 b) release_bucket s.
Proof.
  intros <- Hd Hh. unfold release_bucket. rstep; [rsolve|]. injection Hrun as <- <-.
  rstep; [apply resp_update_bucket; simpl; rewrite Hd|]; [|rsolve].
  split; [done|]. exists (e_world s). split; [done|]. by apply made_now.
Qed.

Lemma event_same t reason m s r s' : event t reason m s = (r, s') → e_st s' = e_st s ∧ e_world s' = e_world s.
Proof. unfold event, emit. intros. by simplify_eq/=. Qed.

Lemma resp_finalize w0 s cluster :
  bkt_Deleting (e_st s) = true → heard w0 (e_world s) (cluster_of (e_st s)) cluster →
  resp (may w0 (e_st s)) (bucket_finalize (bucket_name (e_st s)) cluster) s.
Proof.
  intros Hd Hc. unfold bucket_finalize. rstep; [rsolve|]. injection Hrun as <- <-.
  destruct (ContainsFinalizer _ _) eqn:Hf; simpl; [|rsolve]. apply bool_decide_eq_true in Hf.
  destruct cluster as [cluster|e]; [|apply resp_release; [done..|]; right; left; eauto].
  case_bool_decide as Hp; [|apply resp_release; [done..|by left]].
  rstep; [apply resp_try, timed_s3For; apply _|]. destruct a as [conn|e]; [|apply resp_bucket_report].
  unfold try in Hrun. destruct (s3For cluster s) as [[c|] s1] eqn:Hs; simplify_eq/=.
  apply s3For_spec in Hs as [Hst Hconn].
  rstep; [apply resp_try; tsolve|].
  unfold try in Hrun. rewrite issue_eq in Hrun.
  destruct (s3_RemoveBucket conn _ (e_world s')) as [r w1] eqn:Hr. injection Hrun as -> <-.
  assert (match a with Ok _ => True | Err e => isBucketNotFound e = true end →
    honoured w0 w1 (e_st s)) as Hgone.
  { intros Ha. right; right. exists cluster, conn, (e_world s), (e_world s'), a. split_and!; [done..| |done].
    by apply (heard_now _ _ (e_world s')). }
  destruct a as [[]|e].
  - rstep; [tsolve|]. apply event_same in Hrun as [Hst' Hw']. apply resp_release; [by rewrite Hst', <- Hst|done|].
    rewrite Hw'. by apply Hgone.
  - destruct (isBucketNotFound e) eqn:He.
    + rstep; [tsolve|]. apply event_same in Hrun as [Hst' Hw']. apply resp_release; [by rewrite Hst', <- Hst|done|].
      rewrite Hw'. by apply Hgone.
    + destruct (isBucketNotEmpty e); [|apply resp_bucket_report].
      rstep; [tsolve|]. apply resp_bucket_report.
Qed.

Lemma resp_reconcileScheme w0 b cluster scheme s :
  bkt_Deleting b = false → resp (may w0 b) (reconcileScheme cluster (bucket_name b) scheme) s.
Proof.
  intros Hd. unfold reconcileScheme, clusterAdmin. tsolve. simpl. split_and!; [done..|]. by case_bool_decide.
Qed.

Lemma resp_bucket_ensure w0 b cluster s :
  bkt_Deleting b = false → resp (may w0 b) (bucket_ensure (bucket_name b) cluster) s.
Proof.
  intros Hd. unfold bucket_ensure. rstep; [apply resp_try, timed_s3For; apply _|].
  destruct a as [conn|e]; [|apply resp_bucket_report].
  rstep; [rsolve|]. destruct a as [found|e]; [|apply resp_bucket_report].
  rstep; [tsolve|]. destruct a as [[]|e]; [|apply resp_bucket_report].
  rstep; [rsolve|]. rstep; [by apply resp_reconcileScheme|].
  destruct a0 as [effective|[cond requeue]]; apply resp_bucket_report.
Qed.

Lemma resp_bucket_body s : resp (may (e_world s) (e_st s)) bucket_body s.
Proof.
  unfold bucket_body. rstep; [rsolve|]. injection Hrun as <- <-. cbv zeta. rstep; [rsolve|].
  unfold try in Hrun. rewrite call_eq in Hrun. destruct (k_getCluster _ _ _) as [r w1] eqn:Hc. injection Hrun as -> <-.
  destruct (bkt_Deleting (e_st s)) eqn:Hd.
  { apply (resp_finalize _ (mkEnv w1 (e_log s) (e_st s))); [done|]. by apply (heard_now _ _ (e_world s)). }
  rstep.
  { unfold ensure_finalizer. rstep; [rsolve|]. injection Hrun as <- <-. rstep; [rsolve|].
    apply resp_update_bucket. simpl. by rewrite Hd. }
  destruct a as [cluster|e]; [by apply resp_bucket_ensure|].
  destruct (IsNotFound e); [|rsolve]. rstep; [rsolve|]. apply resp_bucket_report.
Qed.

(** C8: A reconcile of an FSBucket removes the S3 bucket only when the object
    is being deleted, holds the finalizer and its policy is Delete; it lets the
    object go only after the policy has been honoured in this reconcile (it is
    to keep the bucket; or the cluster could not be read; or, the cluster read
    and connected to with its root credentials, S3 said the bucket is gone); and
    while the object is not being deleted it only makes that bucket, sets its
    scheme and keeps the finalizer on. *)
Theorem bucket_reclaim_honoured (b : FSBucket) (w : W) :
  let s := (bucket_body (mkEnv w [] b)).2 in
  Forall (bucket_may w b (e_world s)) (e_log s).
Proof. by eapply timed_run, (resp_bucket_body (mkEnv w [] b)). Qed.
End may.

(** ** What a reconcile says *)

Section says.
Context {W : Type} `{!KubeClient W, !Interface W, !BucketClient W, !S3Client W}.
Implicit Types s : Env W FSBucket.

Abbreviation heard := (heard bucket_step).
Abbreviation made := (made bucket_step).

(** The cluster's S3 said the bucket is there, or made it. *)
Definition bucket_there (w0 w1 : W) (cluster : FSCluster) (name : string) : Prop :=
  ∃ w conn, conn_of w0 w cluster conn ∧
    (heard w w1 (s3_BucketExists conn name) (Ok true) ∨ heard w w1 (s3_MakeBucket conn name) (Ok tt)).

(** The scheme in effect is the one the cluster's first node reports, asked with
    the admin token, or answers with when the one the spec asks for is set; a
    single node has none and none is asked of it. *)
Definition scheme_in_effect (w0 w1 : W) (cluster : FSCluster) (name asked effective : string) : Prop :=
  if SingleNode (fsc_Spec cluster) then asked = "" ∧ effective = ""
  else ∃ node secret w,
    let url := AdminURL (fsc_Name cluster) (fsc_Namespace cluster) (node_Name node) in
    let token := default "" (sec_Data secret !! AdminTokenKey) in
    head (Nodes cluster) = Some node ∧
    heard w0 w (k_getSecret (fsc_Namespace cluster) (AdminTokenSecretName (fsc_Name cluster))) (Ok secret) ∧
    heard w w1 (if bool_decide (asked = "") then adm_GetBucketScheme url token name
                else adm_SetBucketScheme url token name asked) (Ok effective).

Definition bucket_is_ready (w0 w1 : W) (b base : FSBucket) (effective : string) : Prop :=
  ∃ w w' cluster, heard w0 w (cluster_of b) (Ok cluster) ∧
    bucket_there w w' cluster (bucket_name b) ∧
    scheme_in_effect w' w1 cluster (bucket_name b) (bs_Scheme (bkt_Spec base)) effective.

(** The scheme the written status names: the one in effect, if there is one to
    name, and the one it named before otherwise. *)
Definition names_scheme (effective : string) (base b' : FSBucket) : Prop :=
  (effective ≠ "" → bst_Scheme (bkt_Status b') = effective) ∧
  (effective = "" → bst_Scheme (bkt_Status b') = bst_Scheme (bkt_Status base)).

Definition bucket_says (w0 : W) (b : FSBucket) (w1 : W) (a : action) : Prop :=
  match a with
  | APatchBucketStatus base b' => ∃ cond,
      bst_Conditions (bkt_Status b') =
        k_setCondition (bst_Conditions (bkt_Status base)) (ready_Condition (bkt_Generation base) cond) ∧
      (ready_status cond = ConditionTrue →
       bkt_Deleting b = false ∧ ∃ w effective, bucket_is_ready w0 w b base effective ∧
         names_scheme effective base b' ∧ made w w1 (b_patchStatus base b'))
  | _ => True
  end.

#[local] Instance bucket_says_lasting w0 b : Lasting bucket_step (bucket_says w0 b).
Proof.
  intros w w' [] Hw; simpl; auto. intros (cond & ? & H). exists cond. split; [done|].
  intros (? & w1 & effective & ? & ? & ?)%H. split; [done|]. exists w1, effective.
  split_and!; [done..|]. by eapply made_later.
Qed.

#[local] Instance any_preorder' : PreOrder (λ _ _ : FSBucket, True).
Proof. by split. Qed.

Abbreviation says w0 b := (timed bucket_step (bucket_says w0 b) (λ _ _ : FSBucket, True)).

Lemma resp_says_report w0 b scheme cond requeue s :
  (ready_status cond = ConditionTrue → bkt_Deleting b = false ∧ bucket_is_ready w0 (e_world s) b (e_st s) scheme) →
  resp (says w0 b) (bucket_report scheme cond requeue) s.
Proof.
  intros H. unfold bucket_report. rstep; [rsolve|]. injection Hrun as <- <-. tsolve.
  unfold put_st, modify in Hrun. simplify_eq/=. exists cond. split; [done|]. intros [? Hr]%H. split; [done|].
  exists (e_world s), scheme. split; [exact Hr|]. split; [|by apply made_now].
  unfold names_scheme, bucket_status. simpl. case_bool_decide; naive_solver.
Qed.

Lemma resp_says_false w0 b scheme reason message requeue s :
  resp (says w0 b) (bucket_report scheme (falseCondition reason message) requeue) s.
Proof. by apply resp_says_report. Qed.

Lemma clusterAdmin_spec cluster s url token s' :
  clusterAdmin cluster s = (Ok (url, token), s') →
  ∃ node secret, head (Nodes cluster) = Some node ∧
    url = AdminURL (fsc_Name cluster) (fsc_Namespace cluster) (node_Name node) ∧
    token = default "" (sec_Data secret !! AdminTokenKey) ∧
    heard (e_world s) (e_world s') (k_getSecret (fsc_Namespace cluster) (AdminTokenSecretName (fsc_Name cluster))) (Ok secret).
Proof.
  unfold clusterAdmin, wrap_err. destruct (Nodes cluster) as [|node nodes]; [done|]. unfold mbind, M_bind. cbv zeta.
  rewrite call_eq. destruct (k_getSecret _ _ (e_world s)) as [[secret|e] w1] eqn:Hs; [|done].
  case_bool_decide; [done|]. rewrite call_eq. cbn [e_world].
  destruct (adm_Client _ _ w1) as [[[]|e] w2] eqn:Hc; [|done]. intros [= <- <- <-].
  exists node, secret. split_and!; [done..|]. eapply heard_later; [by apply (heard_now _ _ (e_world s))|exact (call_later _ Hc)].
Qed.

Lemma timed_reconcileScheme w0 b cluster name asked s :
  resp (says w0 b) (reconcileScheme cluster name asked) s.
Proof. unfold reconcileScheme, clusterAdmin. tsolve. Qed.

Lemma reconcileScheme_spec cluster name asked s x s' :
  reconcileScheme cluster name asked s = (Ok x, s') →
  e_st s' = e_st s ∧
  match x with
  | inl effective => scheme_in_effect (e_world s) (e_world s') cluster name asked effective
  | inr (cond, _) => ready_status cond = ConditionFalse
  end.
Proof.
  intros Hrun. split.
  { eapply run_st; [|exact Hrun]. unfold reconcileScheme, clusterAdmin. tsolve. }
  revert Hrun. unfold reconcileScheme, scheme_in_effect. destruct (SingleNode (fsc_Spec cluster)).
  { case_bool_decide as Ha; intros [= <- _]; done. }
  unfold mbind, M_bind, try. destruct (clusterAdmin cluster s) as [[[url token]|e] s1] eqn:Hadm; [|by intros [= <- _]].
  apply clusterAdmin_spec in Hadm as (node & secret & Hn & -> & -> & Hs).
  case_bool_decide as Ha; [rewrite call_eq|rewrite issue_eq].
  - destruct (adm_GetBucketScheme _ _ name (e_world s1)) as [[effective|e] w1] eqn:E.
    + intros [= <- <-]. exists node, secret, (e_world s1). split_and!; [done..|]. by apply (heard_now _ _ (e_world s1)).
    + destruct (err_is _ e); by intros [= <- _].
  - destruct (adm_SetBucketScheme _ _ name asked (e_world s1)) as [[effective|e] w1] eqn:E.
    + intros [= <- <-]. exists node, secret, (e_world s1). split_and!; [done..|]. by apply (heard_now _ _ (e_world s1)).
    + destruct (err_is _ e); by intros [= <- _].
Qed.

(** The bucket is there once it was found or made. *)
Lemma bucket_found (found : bool) conn name w w1 cluster s (a : unit) s' :
  conn_of w w1 cluster conn → heard w1 (e_world s) (s3_BucketExists conn name) (Ok found) →
  (if found then ret (Ok tt)
   else
     r ← try (issue (AMakeBucket (s3_endpoint conn) name) (s3_MakeBucket conn name));
     match r with
     | Err e => ret (Err e)
     | Ok _ => _ ← event EventTypeNormal "Created" ("created S3 bucket " +:+ name); ret (Ok tt)
     end) s = (Ok (Ok a), s') →
  bucket_there w (e_world s') cluster name.
Proof.
  intros Hc Hex H. exists w1, conn. split; [done|]. destruct found.
  { left. unfold ret in H. by simplify_eq/=. }
  right. revert H. unfold mbind, M_bind, try. rewrite issue_eq.
  destruct (s3_MakeBucket conn name (e_world s)) as [[[]|e] w2] eqn:Hm; [|done].
  unfold event, emit, ret. intros. simplify_eq/=. apply (heard_now _ _ (e_world s)); [|done].
  destruct Hex as (? & ? & H1 & H2 & H3). etrans; [exact H1|]. etrans; [exact (call_later _ H2)|done].
Qed.

Lemma resp_says_ensure w0 b cluster s :
  bkt_Deleting b = false → heard w0 (e_world s) (cluster_of b) (Ok cluster) →
  resp (says w0 b) (bucket_ensure (bucket_name b) cluster) s.
Proof.
  intros Hd Hcl. unfold bucket_ensure. rstep; [apply resp_try, timed_s3For; apply _|].
  destruct a as [conn|e]; [|apply resp_says_false].
  unfold try in Hrun. destruct (s3For cluster s) as [[c|] s1] eqn:Hs; simplify_eq/=. apply s3For_spec in Hs as [_ Hconn].
  rstep; [rsolve|]. destruct a as [found|e]; [|apply resp_says_false].
  unfold try in Hrun. rewrite call_eq in Hrun. destruct (s3_BucketExists _ _ _) as [r w1] eqn:Hex. injection Hrun as -> <-.
  rstep; [tsolve|]. destruct a as [[]|e]; [|apply resp_says_false].
  apply (bucket_found found conn _ (e_world s) (e_world s') _ _ _ _ Hconn) in Hrun as Hthere.
  2: by apply (heard_now _ _ (e_world s')).
  rstep; [rsolve|]. injection Hrun0 as <- <-. rstep; [apply timed_reconcileScheme|].
  apply reconcileScheme_spec in Hrun0 as [Hst Hx]. destruct a as [effective|[cond requeue]].
  - apply resp_says_report. intros _. split; [done|]. exists (e_world s), (e_world s'0), cluster. by rewrite Hst.
  - apply resp_says_report. intros Ht. rewrite Hx in Ht. discriminate Ht.
Qed.

Lemma resp_says_body s : resp (says (e_world s) (e_st s)) bucket_body s.
Proof.
  unfold bucket_body. rstep; [rsolve|]. injection Hrun as <- <-. cbv zeta. rstep; [rsolve|].
  unfold try in Hrun. rewrite call_eq in Hrun. destruct (k_getCluster _ _ _) as [r w1] eqn:Hc. injection Hrun as -> <-.
  destruct (bkt_Deleting (e_st s)) eqn:Hd.
  - unfold bucket_finalize, release_bucket, update_bucket, s3For. tsolve; apply resp_says_false.
  - rstep; [unfold ensure_finalizer, update_bucket; tsolve|].
    destruct a as [cluster|e].
    + apply resp_says_ensure; [done|]. eapply heard_later; [by apply (heard_now _ _ (e_world s))|exact (proj1 HR1)].
    + destruct (IsNotFound e); [|rsolve]. rstep; [rsolve|]. apply resp_says_false.
Qed.

(** ** The theorems *)

(** What reaches into the cluster. *)
Definition touches_cluster (a : action) : Prop :=
  match a with AMakeBucket _ _ | ARemoveBucket _ _ | ASetScheme _ _ _ => True | _ => False end.

(** C32: The status an FSBucket reconcile writes says Ready only if the object
    is not being deleted and, before it was written, the cluster was read, its S3
    said it has the bucket, and its scheme was settled: the first node of a
    clustered one answered which scheme is in effect, a single node has none and
    the spec asks for none.  The written status names the scheme answered; when
    none was (a single node, or an empty answer) it goes on naming the scheme it
    named before, so under Ready that field may be older than this reconcile. *)
Theorem bucket_ready_is_true (b : FSBucket) (w : W) :
  let s := (bucket_body (mkEnv w [] b)).2 in
  Forall (bucket_says w b (e_world s)) (e_log s).
Proof. by eapply timed_run, (resp_says_body (mkEnv w [] b)). Qed.

Lemma ensure_finalizer_eq (w : W) log b :
  ContainsFinalizer (bkt_Finalizers b) bucketFinalizer = false →
  ensure_finalizer (mkEnv w log b) =
  let b' := bkt_set_Finalizers b (AddFinalizer (bkt_Finalizers b) bucketFinalizer) in
  match b_update b' w with
  | (Ok stored, w') => (Ok tt, mkEnv w' (log ++ [AUpdateBucket b']) stored)
  | (Err e, w') => (Err (ErrWrap "add finalizer" e), mkEnv w' (log ++ [AUpdateBucket b']) b')
  end.
Proof.
  intros Hc. unfold ensure_finalizer, update_bucket, wrap_err, issue, emit, call, put_st, get_st. msimpl.
  rewrite Hc. simpl. by destruct (b_update _ w) as [[] ?].
Qed.

(** Without its finalizer the object is not acted on: an object being deleted
    is left alone, any other is first updated. *)
Lemma bucket_body_unfinalized (b : FSBucket) (w : W) s :
  bucketFinalizer ∉ bkt_Finalizers b → (bucket_body (mkEnv w [] b)).2 = s →
  let b' := bkt_set_Finalizers b (AddFinalizer (bkt_Finalizers b) bucketFinalizer) in
  e_log s = [] ∨
  ∃ l', e_log s = AUpdateBucket b' :: l' ∧ (l' = [] ∨ ∃ stored, heard w (e_world s) (b_update b') (Ok stored)).
Proof.
  intros Hf. assert (ContainsFinalizer (bkt_Finalizers b) bucketFinalizer = false) as Hc
    by by apply bool_decide_eq_false.
  unfold bucket_body. rewrite (bind_Ok _ _ _ _ _ (eq_refl : get_st (mkEnv w [] b) = (Ok b, mkEnv w [] b))).
  cbv zeta. unfold mbind at 1, M_bind at 1, try. rewrite call_eq. cbn [e_world e_log e_st].
  destruct (k_getCluster _ _ w) as [cluster w1] eqn:Hcl. destruct (bkt_Deleting b).
  { unfold bucket_finalize.
    rewrite (bind_Ok _ _ _ _ _ (eq_refl : get_st (mkEnv w1 [] b) = (Ok b, mkEnv w1 [] b))). rewrite Hc.
    intros <-. by left. }
  unfold mbind at 1, M_bind at 1. rewrite ensure_finalizer_eq by done. cbv zeta.
  destruct (b_update _ w1) as [[stored|e] w2] eqn:Hu; [|intros <-; right; exists []; auto].
  intros <-. right. set (rest := match cluster with Ok _ => _ | Err _ => _ end).
  assert (∀ s, resp (timed bucket_step (λ _ _, True) (λ _ _, True)) rest s) as Hrest.
  { intros s. unfold rest. destruct cluster as [c|e].
    - unfold bucket_ensure, s3For, reconcileScheme, clusterAdmin, bucket_report. tsolve.
    - unfold bucket_report. tsolve. }
  match goal with |- context [rest ?s] => destruct (Hrest s) as (Hw & (l & Hl & _) & _) end.
  exists l. split; [exact Hl|]. right. exists stored. eapply heard_later; [|exact Hw].
  apply (heard_now _ _ w1); [exact (call_later _ Hcl)|exact Hu].
Qed.

(** C33: Nothing is made, set or removed in the cluster before the object holds
    the finalizer: it had it, or an update that adds it was sent first and the
    API server took it, in this reconcile. *)
Theorem bucket_finalizer_first (b : FSBucket) (w : W) (l1 l2 : list action) (a : action) :
  let s := (bucket_body (mkEnv w [] b)).2 in
  e_log s = l1 ++ a :: l2 → touches_cluster a →
  bucketFinalizer ∈ bkt_Finalizers b ∨
  ∃ b' stored, AUpdateBucket b' ∈ l1 ∧ bucketFinalizer ∈ bkt_Finalizers b' ∧
    heard w (e_world s) (b_update b') (Ok stored).
Proof.
  cbv zeta. intros Hlog Ha. destruct (decide (bucketFinalizer ∈ bkt_Finalizers b)) as [|Hf]; [by left|right].
  destruct (bucket_body_unfinalized b w _ Hf eq_refl) as [He|(l & He & Hu)]; rewrite Hlog in He; [by destruct l1|].
  destruct l1 as [|a1 l1]; simplify_eq/=; [done|].
  destruct Hu as [Hu|(stored & Hu)]; [by destruct l1|].
  eexists _, stored. split_and!; [left| |exact Hu]. apply elem_of_AddFinalizer. by right.
Qed.
End says.
