(* ===== verification/KeyController.v ===== *)
(** * The FSAccessKey controller (src/internal/controller/fsaccesskey_controller.go)

    A reconcile resolves the credential of one object (minting it once, or
    reading an imported Secret), stamps a fingerprint of it on the object, and
    reports whether every node of the cluster accepts it; on deletion it waits
    until none does. *)

From S2P Require Import Prelude.
From S2P Require Import Encoding.
From S2P Require Import ApiTypes.
From S2P Require Import Defaults.
From S2P Require Import Nodes.
From S2P Require Import FsClient.
From S2P Require Import Kube.
From S2P Require Import Course.
From S2P Require Import KeyGen.
From S2P Require Import Config.
From S2P Require Import Builders.
From S2P Require Import Pass.
From S2P Require Import Ready.

Definition accessKeyFinalizer : string := "fs.go-faster.org/accesskey".
Definition credentialHashAnnotation : string := "fs.go-faster.org/credential-hash".

(** ** The interface: FSAccessKey objects *)

Class KeyClient (W : Type) := {
  key_get : string → string → M W FSAccessKey;
  key_update : FSAccessKey → M W FSAccessKey;
  key_patch : FSAccessKey → FSAccessKey → M W FSAccessKey;
  key_patchStatus : FSAccessKey → FSAccessKey → M W FSAccessKey;
  (** [controllerutil.SetControllerReference] of the key on its Secret. *)
  key_setOwner : FSAccessKey → Secret → result unit;
}.

Definition ak_set_Finalizers (k : FSAccessKey) (l : list string) : FSAccessKey :=
  mkFSAccessKey (ak_Name k) (ak_Namespace k) (ak_Generation k) (ak_Deleting k) l (ak_Annotations k)
    (ak_Spec k) (ak_Status k).
Definition ak_set_Annotations (k : FSAccessKey) (m : gmap string string) : FSAccessKey :=
  mkFSAccessKey (ak_Name k) (ak_Namespace k) (ak_Generation k) (ak_Deleting k) (ak_Finalizers k) m
    (ak_Spec k) (ak_Status k).

(** [credentialHash]: the first eight bytes of the digest of both halves. *)
Definition nul : string := String Ascii.zero "".
Definition credentialHash `{!Codec} (access secret : string) : string :=
  hex_encode (String.substring 0 8 (sha256 (access +:+ nul +:+ secret))).

(** A node's answer: the keys it lists, or nothing. *)
Abbreviation listings := (gmap string (option (list string))).

Section controller.
Context {W : Type} `{!KubeClient W, !Interface W, !KeyClient W, !Codec}.
Abbreviation step A := (M (Env W FSAccessKey) A).

(** ** Reporting *)

Definition key_status (access : string) (cond : readyCondition) (k : FSAccessKey) : FSAccessKey :=
  let st := ak_Status k in
  mkFSAccessKey (ak_Name k) (ak_Namespace k) (ak_Generation k) (ak_Deleting k) (ak_Finalizers k)
    (ak_Annotations k) (ak_Spec k)
    (mkFSAccessKeyStatus (ak_Generation k)
       (if bool_decide (access ≠ "") then access else kst_AccessKey st)
       (k_setCondition (kst_Conditions st) (ready_Condition (ak_Generation k) cond))).

Definition key_report (access : string) (cond : readyCondition) : step Z :=
  base ← get_st;
  let key := key_status access cond base in
  _ ← put_st (λ _, key);
  stored ← wrap_err "update status" (issue (APatchKeyStatus base key) (key_patchStatus base key));
  _ ← put_st (λ _, stored);
  ret 0%Z.

Definition update_key (msg : string) (key : FSAccessKey) : step unit :=
  _ ← put_st (λ _, key);
  stored ← wrap_err msg (issue (AUpdateKey key) (key_update key));
  put_st (λ _, stored).

(** ** What the nodes accept *)

Definition key_adminToken (cluster : FSCluster) : step string :=
  let name := AdminTokenSecretName (fsc_Name cluster) in
  secret ← call (k_getSecret (fsc_Namespace cluster) name);
  let token := default "" (sec_Data secret !! AdminTokenKey) in
  if bool_decide (token = "") then
    throw (errors_New ("admin token secret " +:+ fmt_q name +:+ " has no " +:+ fmt_q AdminTokenKey))
  else ret token.

(** The loop over the nodes; building a client that fails ends it. *)
Fixpoint list_nodes (cluster : FSCluster) (token : string) (nodes : list Node) (found : listings)
    : step (listings + readyCondition) :=
  match nodes with
  | [] => ret (inl found)
  | node :: nodes' =>
      let url := AdminURL (fsc_Name cluster) (fsc_Namespace cluster) (node_Name node) in
      r ← try (call (adm_Client url token));
      match r with
      | Err e => ret (inr (falseCondition ReasonClusterNotReady (err_string e)))
      | Ok _ =>
          r ← try (call (adm_AccessKeys url token));
          list_nodes cluster token nodes'
            (<[node_Name node := match r with Ok keys => Some keys | Err _ => None end]> found)
      end
  end.

Definition nodeKeys : step (listings + readyCondition) :=
  key ← get_st;
  let ref := ref_Name (ks_ClusterRef (ak_Spec key)) in
  r ← try (call (k_getCluster (ak_Namespace key) ref));
  match r with
  | Err e =>
      if IsNotFound e then ret (inr (falseCondition ReasonClusterNotFound ("FSCluster " +:+ ref +:+ " not found")))
      else ret (inr (falseCondition ReasonReconcileError (err_string e)))
  | Ok cluster =>
      match Nodes cluster with
      | [] => ret (inr (falseCondition ReasonClusterNotReady "cluster has no nodes yet"))
      | nodes =>
          token ← try (key_adminToken cluster);
          match token with
          | Err _ => ret (inr (falseCondition ReasonClusterNotReady "admin token unavailable"))
          | Ok token => list_nodes cluster token nodes ∅
          end
      end
  end.

(** The nodes that do not list a key, in order. *)
Definition missing_nodes (found : listings) (access : string) : list string :=
  sort_strings (omap (λ x : string * option (list string),
    match x.2 with
    | None => Some (x.1 +:+ " (unreachable)")
    | Some keys => if bool_decide (access ∈ keys) then None else Some x.1
    end) (map_to_list found)).

Definition verifyAccepted (access : string) : step (readyCondition * bool) :=
  x ← nodeKeys;
  match x with
  | inr cond => ret (cond, true)
  | inl found =>
      match missing_nodes found access with
      | [] => ret (trueCondition ReasonKeyAccepted "credential accepted by every node", false)
      | missing => ret (falseCondition ReasonConfigReloadPending
          ("waiting for node(s) to apply the credential: " +:+ strings_Join missing ", "), true)
      end
  end.

(** ** The credential: both halves, or a condition *)

Definition credential : Type := string * string.

Definition readImported (name : string) : step (credential + readyCondition) :=
  key ← get_st;
  r ← try (call (k_getSecret (ak_Namespace key) name));
  match r with
  | Err e =>
      if IsNotFound e then ret (inr (falseCondition ReasonSecretNotFound ("imported Secret " +:+ name +:+ " not found")))
      else ret (inr (falseCondition ReasonSecretInvalid (err_string e)))
  | Ok secret =>
      let access := default "" (sec_Data secret !! AccessKeyKey) in
      let secretKey := default "" (sec_Data secret !! SecretKeyKey) in
      if bool_decide (access = "") || bool_decide (secretKey = "") then
        ret (inr (falseCondition ReasonSecretInvalid
          ("imported Secret " +:+ name +:+ " needs non-empty " +:+ AccessKeyKey +:+ " and " +:+ SecretKeyKey)))
      else if String.length secretKey <? MinSecretKeyLength then
        ret (inr (falseCondition ReasonWeakSecretKey "secret-key must be at least 16 characters"))
      else ret (inl (access, secretKey))
  end.

(** The Secret a minted credential is stored in. *)
Definition credentialSecret (key : FSAccessKey) (cluster : FSCluster) (access secretKey : string) : Secret :=
  let endpoint := S3Endpoint (fsc_Name cluster) (fsc_Namespace cluster) S3Port
                    (bool_decide (tls_SecretName (TLS (S3 (fsc_Spec cluster))) ≠ "")) in
  mkSecret (AccessKeySecretName key) (ak_Namespace key) ∅ ∅ ∅
    {[ AccessKeyKey := access; SecretKeyKey := secretKey; EndpointKey := endpoint ]}.

(** Minting: an error of any call is the condition's message. *)
Definition mint (cluster : FSCluster) : step (credential + readyCondition) :=
  key ← get_st;
  let failed (e : error) := ret (inr (falseCondition ReasonReconcileError (err_string e))) in
  r ← try keygen_AccessKey;
  match r with
  | Err e => failed e
  | Ok access =>
      r ← try keygen_Token;
      match r with
      | Err e => failed e
      | Ok secretKey =>
          let owned := credentialSecret key cluster access secretKey in
          match key_setOwner key owned with
          | Err e => failed e
          | Ok _ =>
              r ← try (issue (ACreate (OSecret owned)) (k_create (OSecret owned)));
              match r with
              | Err e => if IsAlreadyExists e then ret (inl (access, secretKey))
                         else failed (ErrWrap "create credential secret" e)
              | Ok _ => ret (inl (access, secretKey))
              end
          end
      end
  end.

Definition ensureGenerated : step (credential + readyCondition) :=
  key ← get_st;
  let name := AccessKeySecretName key in
  r ← try (call (k_getSecret (ak_Namespace key) name));
  match r with
  | Ok secret =>
      let access := default "" (sec_Data secret !! AccessKeyKey) in
      let secretKey := default "" (sec_Data secret !! SecretKeyKey) in
      if bool_decide (access = "") || bool_decide (secretKey = "") then
        ret (inr (falseCondition ReasonSecretInvalid
          ("credential Secret " +:+ name +:+ " is missing its key material")))
      else ret (inl (access, secretKey))
  | Err e =>
      if negb (IsNotFound e) then ret (inr (falseCondition ReasonSecretInvalid (err_string e)))
      else
        let ref := ref_Name (ks_ClusterRef (ak_Spec key)) in
        r ← try (call (k_getCluster (ak_Namespace key) ref));
        match r with
        | Err e =>
            if IsNotFound e
            then ret (inr (falseCondition ReasonClusterNotFound ("FSCluster " +:+ ref +:+ " not found")))
            else ret (inr (falseCondition ReasonReconcileError (err_string e)))
        | Ok cluster => mint cluster
        end
  end.

Definition resolveCredential : step (credential + readyCondition) :=
  key ← get_st;
  match ExistingSecretRef (ak_Spec key) with
  | Some name => if bool_decide (name ≠ "") then readImported name else ensureGenerated
  | None => ensureGenerated
  end.

(** ** The fingerprint *)

Definition stampCredentialHash (want : string) : step unit :=
  key ← get_st;
  if bool_decide (default "" (ak_Annotations key !! credentialHashAnnotation) = want) then ret tt
  else
    let stamped := ak_set_Annotations key (<[credentialHashAnnotation := want]> (ak_Annotations key)) in
    _ ← put_st (λ _, stamped);
    stored ← wrap_err "stamp credential hash" (issue (APatchKey key stamped) (key_patch key stamped));
    put_st (λ _, stored).

(** ** Deletion *)

Definition accepted_somewhere (found : listings) (access : string) : bool :=
  existsb (λ x : string * option (list string), match x.2 with Some keys => bool_decide (access ∈ keys) | None => false end)
    (map_to_list found).

Definition release_key : step Z :=
  key ← get_st;
  _ ← update_key "remove finalizer"
        (ak_set_Finalizers key (RemoveFinalizer (ak_Finalizers key) accessKeyFinalizer));
  ret 0%Z.

Definition key_finalize : step Z :=
  key ← get_st;
  let access := kst_AccessKey (ak_Status key) in
  if negb (ContainsFinalizer (ak_Finalizers key) accessKeyFinalizer) then ret 0%Z
  else if bool_decide (access = "") then release_key
  else
    x ← nodeKeys;
    match x with
    | inr cond =>
        if bool_decide (ready_reason cond = ReasonClusterNotFound) then release_key
        else ret requeueAfterPending
    | inl found =>
        if accepted_somewhere found access then ret requeueAfterPending
        else
          _ ← event EventTypeNormal "KeyDeleted" ("revoked credential " +:+ access);
          release_key
    end.

(** ** The reconcile *)

Definition key_ensure_finalizer : step unit :=
  key ← get_st;
  if ContainsFinalizer (ak_Finalizers key) accessKeyFinalizer then ret tt
  else update_key "add finalizer"
         (ak_set_Finalizers key (AddFinalizer (ak_Finalizers key) accessKeyFinalizer)).

Definition key_body : step Z :=
  key ← get_st;
  if ak_Deleting key then key_finalize
  else
    _ ← key_ensure_finalizer;
    x ← resolveCredential;
    match x with
    | inr cond => key_report "" cond
    | inl (access, secret) =>
        _ ← stampCredentialHash (credentialHash access secret);
        y ← verifyAccepted access;
        let '(cond, requeue) := y in
        after ← key_report access cond;
        ret (if (requeue : bool) && (after =? 0)%Z then requeueAfterPending else after)
    end.

Definition key_Reconcile (namespace name : string) (w : W) : result Z * (W * list action) :=
  let '(r, (w, log)) :=
    match key_get namespace name w with
    | (Err e, w) => (if IsNotFound e then Ok 0%Z else Err e, (w, []))
    | (Ok key, w) => let '(r, s) := key_body (mkEnv w [] key) in (r, (e_world s, e_log s))
    end in
  match r with
  | Ok _ => (r, (w, log))
  | Err _ => (r, (w, log ++ [ARecordReconcileError "fsaccesskey"]))
  end.

(** The watch on Secrets: the keys that import one. *)
Definition importedSecretToKeys (namespace name : string) (w : W) : list (string * string) :=
  match (k_listKeys namespace w).1 with
  | Err _ => []
  | Ok items => (λ k, (ak_Namespace k, ak_Name k)) <$> filter (λ k, ExistingSecretRef (ak_Spec k) = Some name) items
  end.
End controller.

(** * Theorems *)

(** ** What the nodes were heard to say *)

Section heard.
Context {W : Type} `{!KubeClient W, !Interface W, !KeyClient W} {CD : Codec}.
Implicit Types s : Env W FSAccessKey.

(** The calls of this controller. *)
Inductive key_step : relation W :=
  | kstep_kube w w' : kube_step w w' → key_step w w'
  | kstep_admin w w' : admin_step w w' → key_step w w'
  | kstep_update k w : key_step w (key_update k w).2
  | kstep_patch base k w : key_step w (key_patch base k w).2
  | kstep_patchStatus base k w : key_step w (key_patchStatus base k w).2.

#[local] Instance kube_in_key : Part kube_step key_step := kstep_kube.
#[local] Instance admin_in_key : Part admin_step key_step := kstep_admin.
#[local] Hint Extern 1 (Moves _ _) => apply (moves_part key_step); [apply _|intros ?; solve [constructor]] : typeclass_instances.

Abbreviation later := (later key_step).
Abbreviation heard := (heard key_step).
Abbreviation made := (made key_step).

(** Between two worlds the admin token was read and, with it, the node of that
    name asked: this is its answer. *)
Definition answered (w0 w1 : W) (cluster : FSCluster) (name : string) (o : option (list string)) : Prop :=
  ∃ secret w r,
    heard w0 w (k_getSecret (fsc_Namespace cluster) (AdminTokenSecretName (fsc_Name cluster))) (Ok secret) ∧
    heard w w1 (adm_AccessKeys (AdminURL (fsc_Name cluster) (fsc_Namespace cluster) name)
                  (default "" (sec_Data secret !! AdminTokenKey))) r ∧
    o = match r with Ok keys => Some keys | Err _ => None end.

Lemma answered_later w0 w1 w2 cluster name o :
  answered w0 w1 cluster name o → later w1 w2 → answered w0 w2 cluster name o.
Proof. intros (secret & w & r & H1 & H2 & H3) H. exists secret, w, r. split_and!; [done| |done]. by eapply heard_later. Qed.

(** A table of answers, one for each of the nodes. *)
Definition table_of (w0 w1 : W) (cluster : FSCluster) (nodes : list Node) (found : listings) : Prop :=
  (∀ name o, found !! name = Some o → answered w0 w1 cluster name o) ∧
  (∀ node, node ∈ nodes → is_Some (found !! node_Name node)).

Lemma list_nodes_spec w0 w cluster secret nodes seen found s x s' :
  heard w0 w (k_getSecret (fsc_Namespace cluster) (AdminTokenSecretName (fsc_Name cluster))) (Ok secret) →
  later w (e_world s) → table_of w0 (e_world s) cluster seen found →
  list_nodes cluster (default "" (sec_Data secret !! AdminTokenKey)) nodes found s = (Ok x, s') →
  match x with
  | inl found' => table_of w0 (e_world s') cluster (seen ++ nodes) found'
  | inr cond => ready_status cond = ConditionFalse ∧ ready_reason cond = ReasonClusterNotReady
  end.
Proof.
  intros Ht. revert seen found s. induction nodes as [|node nodes IH]; intros seen found s Hw [H1 H2]; simpl.
  { intros [= <- <-]. rewrite app_nil_r. by split. }
  unfold mbind at 1, M_bind at 1, try. rewrite call_eq.
  destruct (adm_Client _ _ (e_world s)) as [[[]|e] w1] eqn:Hc.
  2: { intros [= <- _]. done. }
  pose proof (call_later key_step Hc) as M1.
  unfold mbind at 1, M_bind at 1. rewrite call_eq. cbn [e_world].
  destruct (adm_AccessKeys _ _ w1) as [r w2] eqn:Hr. intros H.
  pose proof (call_later key_step Hr) as M2.
  rewrite cons_middle, app_assoc. eapply IH; [| |exact H]; cbn [e_world]; [by do 2 (etrans; [eassumption|])|]. split.
  - intros name o. rewrite lookup_insert. case_decide as Hn.
    + intros [= <-]. subst name. exists secret, w, r. split_and!; [done| |done].
      apply (heard_now _ _ w1); [by etrans|done].
    + intros Ho. eapply answered_later; [by apply H1|by etrans].
  - intros n [Hn|Hn%list_elem_of_singleton]%elem_of_app; rewrite lookup_insert; case_decide; [done|by apply H2|done|congruence].
Qed.

(** What [nodeKeys] answers: a table of the cluster's nodes, that the cluster
    is gone, or some other reason not to know. *)
Definition nodeKeys_answer (w0 w1 : W) (key : FSAccessKey) (x : listings + readyCondition) : Prop :=
  let cluster_of := k_getCluster (ak_Namespace key) (ref_Name (ks_ClusterRef (ak_Spec key))) in
  match x with
  | inl found => ∃ w cluster, heard w0 w cluster_of (Ok cluster) ∧ Nodes cluster ≠ [] ∧
      table_of w w1 cluster (Nodes cluster) found
  | inr cond => ready_status cond = ConditionFalse ∧
      (ready_reason cond = ReasonClusterNotFound → ∃ e, heard w0 w1 cluster_of (Err e) ∧ IsNotFound e = true)
  end.

Lemma key_adminToken_spec cluster s token s' :
  key_adminToken cluster s = (Ok token, s') →
  ∃ secret, k_getSecret (fsc_Namespace cluster) (AdminTokenSecretName (fsc_Name cluster)) (e_world s)
              = (Ok secret, e_world s') ∧ token = default "" (sec_Data secret !! AdminTokenKey).
Proof.
  unfold key_adminToken, mbind, M_bind. cbv zeta. rewrite call_eq.
  destruct (k_getSecret _ _ (e_world s)) as [[secret|e] w1]; [|done].
  case_bool_decide; [done|]. intros [= <- <-]. by exists secret.
Qed.

Lemma nodeKeys_spec s x s' :
  nodeKeys s = (Ok x, s') → nodeKeys_answer (e_world s) (e_world s') (e_st s) x.
Proof.
  unfold nodeKeys. rewrite (bind_Ok _ _ _ _ _ (eq_refl : get_st s = (Ok (e_st s), s))). cbv zeta.
  unfold mbind at 1, M_bind at 1, try at 1. rewrite call_eq.
  destruct (k_getCluster _ _ (e_world s)) as [[cluster|e] w1] eqn:Hc.
  2: { destruct (IsNotFound e) eqn:He; intros [= <- <-]; simpl; [|done]. split; [done|]. intros _.
       exists e. split; [|done]. by apply (heard_now _ _ (e_world s)). }
  destruct (Nodes cluster) as [|node nodes] eqn:Hn; [by intros [= <- _]|].
  unfold mbind at 1, M_bind at 1, try at 1.
  destruct (key_adminToken cluster _) as [[token|e] s1] eqn:Ht; [|by intros [= <- _]].
  apply key_adminToken_spec in Ht as (secret & Hs & ->). cbn [e_world] in Hs.
  intros H. eapply (list_nodes_spec w1 (e_world s1) _ _ _ []) in H; [|by apply (heard_now _ _ w1)|done|split; set_solver].
  destruct x as [found|cond]; simpl.
  - exists w1, cluster. rewrite Hn. split_and!; [by apply (heard_now _ _ (e_world s))|done|exact H].
  - destruct H as [? Hr]. split; [done|]. rewrite Hr. discriminate.
Qed.

(** Every node of the cluster listed the key; none that answered did. *)
Definition accepted_everywhere (w0 w1 : W) (key : FSAccessKey) (access : string) : Prop :=
  ∃ w cluster,
    heard w0 w (k_getCluster (ak_Namespace key) (ref_Name (ks_ClusterRef (ak_Spec key)))) (Ok cluster) ∧
    Nodes cluster ≠ [] ∧
    ∀ node, node ∈ Nodes cluster → ∃ keys, answered w w1 cluster (node_Name node) (Some keys) ∧ access ∈ keys.

Definition revoked (w0 w1 : W) (key : FSAccessKey) (access : string) : Prop :=
  let cluster_of := k_getCluster (ak_Namespace key) (ref_Name (ks_ClusterRef (ak_Spec key))) in
  (∃ e, heard w0 w1 cluster_of (Err e) ∧ IsNotFound e = true) ∨
  ∃ w cluster, heard w0 w cluster_of (Ok cluster) ∧
    ∀ node, node ∈ Nodes cluster → ∃ o, answered w w1 cluster (node_Name node) o ∧
      match o with Some keys => access ∉ keys | None => True end.

Lemma missing_nodes_nil found access :
  missing_nodes found access = [] → ∀ name o, found !! name = Some o → ∃ keys, o = Some keys ∧ access ∈ keys.
Proof.
  unfold missing_nodes. intros H name o Hl.
  match type of H with sort_strings ?l = [] => assert (l = []) as Hnil end.
  { apply Permutation_nil_r. rewrite <- H. symmetry. apply sort_strings_perm. }
  destruct o as [keys|].
  - exists keys. split; [done|]. destruct (decide (access ∈ keys)) as [|Hk]; [done|exfalso].
    eapply (not_elem_of_nil name). rewrite <- Hnil. apply list_elem_of_omap.
    exists (name, Some keys). split; [by apply elem_of_map_to_list|]. cbn [fst snd]. by case_bool_decide.
  - exfalso. eapply (not_elem_of_nil (name +:+ " (unreachable)")). rewrite <- Hnil. apply list_elem_of_omap.
    exists (name, None). split; [by apply elem_of_map_to_list|done].
Qed.

Lemma accepted_nowhere found access :
  accepted_somewhere found access = false → ∀ name keys, found !! name = Some (Some keys) → access ∉ keys.
Proof.
  unfold accepted_somewhere. intros H name keys Hl Hk.
  apply not_true_iff_false in H. apply H, existsb_exists. exists (name, Some keys).
  split; [by apply list_elem_of_In, elem_of_map_to_list|]. cbn [snd]. by case_bool_decide.
Qed.

(** Asking changes nothing. *)
Lemma resp_nodeKeys (φ : action → Prop) (Q : relation FSAccessKey) `{!PreOrder Q} s :
  resp (env_rel φ Q) nodeKeys s.
Proof.
  assert (∀ cluster token nodes found s, resp (env_rel φ Q) (list_nodes cluster token nodes found) s) as Hl.
  { intros cluster token nodes. induction nodes as [|node nodes IH]; intros found s1; simpl; rsolve. }
  unfold nodeKeys, key_adminToken. rsolve.
Qed.

Lemma timed_nodeKeys (φ : W → action → Prop) (Q : relation FSAccessKey) `{!Lasting key_step φ, !PreOrder Q} s :
  resp (timed key_step φ Q) nodeKeys s.
Proof.
  assert (∀ cluster token nodes found s, resp (timed key_step φ Q) (list_nodes cluster token nodes found) s) as Hl.
  { intros cluster token nodes. induction nodes as [|node nodes IH]; intros found s1; simpl; rsolve. }
  unfold nodeKeys, key_adminToken. rsolve.
Qed.

(** ** What a reconcile may ask for *)

(** The server was asked for a Secret and had none of that name. *)
Definition was_absent (w0 w1 : W) (secret : Secret) : Prop :=
  ∃ e, heard w0 w1 (k_getSecret (sec_Namespace secret) (sec_Name secret)) (Err e) ∧ IsNotFound e = true.

(** What justifies an action was heard after the reconcile started at [w0] and
    before the call was made; [w1] is any world after that. *)
Definition key_may (w0 : W) (k : FSAccessKey) (w1 : W) (a : action) : Prop :=
  match a with
  | AUpdateKey k' =>
      if ak_Deleting k
      then k' = ak_set_Finalizers k (RemoveFinalizer (ak_Finalizers k) accessKeyFinalizer) ∧
           ∃ w, (kst_AccessKey (ak_Status k) = "" ∨ revoked w0 w k (kst_AccessKey (ak_Status k))) ∧
             made w w1 (key_update k')
      else k' = ak_set_Finalizers k (AddFinalizer (ak_Finalizers k) accessKeyFinalizer)
  | ACreate (OSecret secret) => ak_Deleting k = false ∧
      ∃ w, was_absent w0 w secret ∧ made w w1 (k_create (OSecret secret))
  | APatchKey base k' => ak_Deleting k = false ∧
      ∃ hash, k' = ak_set_Annotations base (<[credentialHashAnnotation := hash]> (ak_Annotations base))
  | APatchKeyStatus base k' => ak_Deleting k = false ∧ ∃ access cond, k' = key_status access cond base ∧
      (ready_status cond = ConditionTrue →
       ∃ w, accepted_everywhere w0 w base access ∧ made w w1 (key_patchStatus base k'))
  | AEvent _ _ _ => ak_Deleting k = true
  | _ => False
  end.

#[local] Instance key_may_lasting w0 k : Lasting key_step (key_may w0 k).
Proof.
  intros w w' a Hw. destruct a as [|[]| | | | | | | | | | | | | | | |k'| |]; simpl; auto.
  - intros (? & w1 & ? & ?). split; [done|]. exists w1. split; [done|]. by eapply made_later.
  - destruct (ak_Deleting k); [|done]. intros (? & w1 & ? & ?). split; [done|]. exists w1. split; [done|]. by eapply made_later.
  - intros (? & access & cond & ? & H). split; [done|]. exists access, cond. split; [done|].
    intros (w1 & ? & ?)%H. exists w1. split; [done|]. by eapply made_later.
Qed.

#[local] Instance any_key_preorder : PreOrder (λ _ _ : FSAccessKey, True).
Proof. by split. Qed.

Abbreviation may w0 k := (timed key_step (key_may w0 k) (λ _ _ : FSAccessKey, True)).

(** A computation that leaves the object in hand alone. *)
Lemma key_run_st {A} (m : M (Env W FSAccessKey) A) s r s' :
  resp (timed key_step (λ _ _, True) eq) m s → m s = (r, s') → e_st s' = e_st s ∧ later (e_world s) (e_world s').
Proof. intros (H1 & _ & H2) E. rewrite E in H1, H2. done. Qed.

Lemma resp_update_key w0 k msg k' s :
  key_may w0 k (key_update k' (e_world s)).2 (AUpdateKey k') → resp (may w0 k) (update_key msg k') s.
Proof.
  intros. unfold update_key. tsolve. unfold put_st, modify in Hrun. by simplify_eq/=.
Qed.

Lemma resp_release_key w0 k s :
  e_st s = k → ak_Deleting k = true →
  kst_AccessKey (ak_Status k) = "" ∨ revoked w0 (e_world s) k (kst_AccessKey (ak_Status k)) →
  resp (may w0 k) release_key s.
Proof.
  intros <- Hd Hr. unfold release_key. rstep; [rsolve|]. injection Hrun as <- <-.
  rstep; [apply resp_update_key; simpl; rewrite Hd|]; [|rsolve].
  split; [done|]. exists (e_world s). split; [done|]. by apply made_now.
Qed.

Lemma revoked_by_table w0 w1 key access found :
  nodeKeys_answer w0 w1 key (inl found) → accepted_somewhere found access = false → revoked w0 w1 key access.
Proof.
  intros (w & cluster & Hc & _ & H1 & H2) Hacc. right. exists w, cluster. split; [done|].
  intros node Hn. destruct (H2 node Hn) as [o Ho]. exists o. split; [by apply H1|].
  destruct o as [keys|]; [|done]. by eapply accepted_nowhere.
Qed.

Lemma accepted_by_table w0 w1 key access found :
  nodeKeys_answer w0 w1 key (inl found) → missing_nodes found access = [] → accepted_everywhere w0 w1 key access.
Proof.
  intros (w & cluster & Hc & Hne & H1 & H2) Hm. exists w, cluster. split_and!; [done..|].
  intros node Hn. destruct (H2 node Hn) as [o Ho].
  destruct (missing_nodes_nil _ _ Hm _ _ Ho) as (keys & -> & Hk). exists keys. split; [by apply H1|done].
Qed.

Lemma resp_key_finalize s : ak_Deleting (e_st s) = true → resp (may (e_world s) (e_st s)) key_finalize s.
Proof.
  intros Hd. unfold key_finalize. rstep; [rsolve|]. injection Hrun as <- <-. cbv zeta.
  rstep; [rsolve|]. case_bool_decide as Ha; [apply resp_release_key; auto|].
  rstep; [apply timed_nodeKeys; apply _|].
  pose proof (nodeKeys_spec _ _ _ Hrun) as Hn. apply key_run_st in Hrun as [Hst _]; [|apply timed_nodeKeys; apply _].
  destruct a as [found|cond].
  - destruct (accepted_somewhere found _) eqn:Hacc; [rsolve|]. rstep; [tsolve|].
    apply resp_release_key; [by unfold event, emit in Hrun; simplify_eq/=|done|].
    right. replace (e_world s'0) with (e_world s') by (by unfold event, emit in Hrun; simplify_eq/=).
    by eapply revoked_by_table.
  - case_bool_decide as Hr; [|rsolve]. apply resp_release_key; [done..|]. right. left. by apply Hn.
Qed.

(** ** The credential *)

(** Both halves as the Secret of that name holds them, when read. *)
Definition read_from (w0 w1 : W) (key : FSAccessKey) (name : string) (cred : credential) : Prop :=
  ∃ secret, heard w0 w1 (k_getSecret (ak_Namespace key) name) (Ok secret) ∧
    sec_Data secret !! AccessKeyKey = Some cred.1 ∧ sec_Data secret !! SecretKeyKey = Some cred.2 ∧
    cred.1 ≠ "" ∧ cred.2 ≠ "".

(** Both halves minted, each from random bytes drawn for it. *)
Definition minted (w0 w1 : W) (cred : credential) : Prop :=
  ∃ bytes w bytes', heard w0 w k_rand (Ok bytes) ∧ heard w w1 k_rand (Ok bytes') ∧
    access_of bytes cred.1 ∧ token_of bytes' cred.2.

Lemma halves_of (data : gmap string string) a b :
  bool_decide (default "" (data !! a) = "") || bool_decide (default "" (data !! b) = "") = false →
  data !! a = Some (default "" (data !! a)) ∧ data !! b = Some (default "" (data !! b)) ∧
  default "" (data !! a) ≠ "" ∧ default "" (data !! b) ≠ "".
Proof.
  rewrite orb_false_iff, !bool_decide_eq_false. intros [Ha Hb].
  destruct (data !! a), (data !! b); simpl in *; done.
Qed.

(** Minted, sent to the server for creation, and answered: created, or there is
    such a Secret already. *)
Definition minted_and_sent (w0 w1 : W) (secret : Secret) (cred : credential) (r : result unit) : Prop :=
  ∃ w, minted w0 w cred ∧ heard w w1 (k_create (OSecret secret)) r ∧
    (r = Ok tt ∨ ∃ e, r = Err e ∧ IsAlreadyExists e = true).

Definition credential_origin (s : Env W FSAccessKey) (cred : credential) (s' : Env W FSAccessKey) : Prop :=
  let key := e_st s in
  (e_log s' = e_log s ∧ read_from (e_world s) (e_world s') key (AccessKeySecretSource key) cred) ∨
  (∃ cluster w r, let secret := credentialSecret key cluster cred.1 cred.2 in
     e_log s' = e_log s ++ [ACreate (OSecret secret)] ∧ was_absent (e_world s) w secret ∧
     minted_and_sent w (e_world s') secret cred r).

Lemma mint_spec cluster s cred s' :
  mint cluster s = (Ok (inl cred), s') →
  let secret := credentialSecret (e_st s) cluster cred.1 cred.2 in
  e_log s' = e_log s ++ [ACreate (OSecret secret)] ∧
  ∃ r, minted_and_sent (e_world s) (e_world s') secret cred r.
Proof.
  unfold mint. rewrite (bind_Ok _ _ _ _ _ (eq_refl : get_st s = (Ok (e_st s), s))). cbv zeta.
  unfold mbind at 1, M_bind at 1, try at 1.
  destruct (keygen_AccessKey s) as [[access|e] s1] eqn:Ha; [|done].
  apply AccessKey_spec in Ha as (bytes & w1 & Hk & -> & Ha).
  unfold mbind at 1, M_bind at 1, try at 1. destruct (keygen_Token _) as [[token|e] s2] eqn:Ht; [|done].
  apply Token_spec in Ht as (bytes' & w2 & Hk' & -> & Ht). cbn [e_world e_log e_st] in *.
  assert (∀ cred, cred = (access, token) → minted (e_world s) w2 cred) as Hm.
  { intros ? ->. exists bytes, w1, bytes'. split_and!; [by apply (heard_now _ _ (e_world s))|by apply (heard_now _ _ w1)|done..]. }
  destruct (key_setOwner _ _); [|done]. unfold mbind at 1, M_bind at 1, try at 1. rewrite issue_eq.
  cbn [e_world e_log e_st]. destruct (k_create _ w2) as [r w3] eqn:Hc.
  assert (heard w2 w3 (k_create (OSecret (credentialSecret (e_st s) cluster access token))) r) as Hh
    by by apply (heard_now _ _ w2).
  destruct r as [[]|e]; [|destruct (IsAlreadyExists e) eqn:He; [|done]];
    intros H; injection H as <- <-; cbn [e_log e_world]; (split; [done|]); eexists; exists w2;
    (split; [by apply Hm|]); (split; [exact Hh|]); [by left|right; by exists e].
Qed.

Lemma ensureGenerated_spec s cred s' :
  ref_or (ExistingSecretRef (ak_Spec (e_st s))) (AccessKeySecretName (e_st s)) = AccessKeySecretName (e_st s) →
  ensureGenerated s = (Ok (inl cred), s') → credential_origin s cred s'.
Proof.
  intros Href. unfold ensureGenerated. rewrite (bind_Ok _ _ _ _ _ (eq_refl : get_st s = (Ok (e_st s), s))). cbv zeta.
  unfold mbind at 1, M_bind at 1, try at 1. rewrite call_eq.
  destruct (k_getSecret _ _ (e_world s)) as [[secret|e] w1] eqn:Hs.
  - destruct (bool_decide _ || bool_decide _) eqn:Hh; [done|]. apply halves_of in Hh as (H1 & H2 & H3 & H4).
    intros H. injection H as <- <-. left. split; [done|]. exists secret. split; [|done].
    unfold AccessKeySecretSource. rewrite Href. by apply (heard_now _ _ (e_world s)).
  - destruct (IsNotFound e) eqn:He; [|done]. simpl. unfold mbind at 1, M_bind at 1, try at 1. rewrite call_eq.
    cbn [e_world e_log e_st]. destruct (k_getCluster _ _ w1) as [[cluster|e'] w2] eqn:Hc; [|by destruct (IsNotFound e')].
    intros H. apply mint_spec in H as [Hl [r Hm]]. cbn [e_world e_log e_st] in *. right. exists cluster, w2, r.
    split_and!; [exact Hl| |done]. exists e. split; [|done].
    eapply heard_later; [by apply (heard_now _ _ (e_world s))|exact (call_later key_step Hc)].
Qed.

Lemma resolveCredential_spec s cred s' :
  resolveCredential s = (Ok (inl cred), s') → credential_origin s cred s'.
Proof.
  unfold resolveCredential. rewrite (bind_Ok _ _ _ _ _ (eq_refl : get_st s = (Ok (e_st s), s))).
  destruct (ExistingSecretRef (ak_Spec (e_st s))) as [name|] eqn:Href.
  2: { apply ensureGenerated_spec. by rewrite Href. }
  case_bool_decide as Hn.
  2: { apply ensureGenerated_spec. rewrite Href. unfold ref_or. by case_bool_decide. }
  unfold readImported. rewrite (bind_Ok _ _ _ _ _ (eq_refl : get_st s = (Ok (e_st s), s))).
  unfold mbind at 1, M_bind at 1, try at 1. rewrite call_eq.
  destruct (k_getSecret _ _ (e_world s)) as [[secret|e] w1] eqn:Hs; [|by destruct (IsNotFound e)].
  cbv zeta. destruct (bool_decide _ || bool_decide _) eqn:Hh; [done|]. apply halves_of in Hh as (H1 & H2 & H3 & H4).
  destruct (_ <? _); [done|]. intros H. injection H as <- <-. left. split; [done|].
  exists secret. split; [|done]. unfold AccessKeySecretSource, ref_or. rewrite Href, bool_decide_true by done.
  by apply (heard_now _ _ (e_world s)).
Qed.

(** ** The whole reconcile *)

Lemma resp_key_report w0 k access cond s :
  ak_Deleting k = false →
  (ready_status cond = ConditionTrue → accepted_everywhere w0 (e_world s) (e_st s) access) →
  resp (may w0 k) (key_report access cond) s.
Proof.
  intros Hd H. unfold key_report. rstep; [rsolve|]. injection Hrun as <- <-. tsolve.
  unfold put_st, modify in Hrun. simplify_eq/=. split; [done|]. exists access, cond. split; [done|].
  intros Hc. exists (e_world s). split; [by apply H|]. by apply made_now.
Qed.

Lemma resp_mint w0 k cluster s :
  ak_Deleting k = false →
  (∀ a t, was_absent w0 (e_world s) (credentialSecret (e_st s) cluster a t)) → resp (may w0 k) (mint cluster) s.
Proof.
  intros Hd Ha. unfold mint, keygen_AccessKey, keygen_Token. rstep; [rsolve|]. injection Hrun as <- <-. cbv zeta.
  tsolve. split; [done|]. eexists. split; [|by apply made_now].
  destruct (Ha a0 a2) as (e & H1 & H2). exists e. split; [|done]. eapply heard_later; [exact H1|].
  etrans; [exact (proj1 HR0)|exact (proj1 HR1)].
Qed.

Lemma resp_resolveCredential w0 k s :
  ak_Deleting k = false → later w0 (e_world s) → resp (may w0 k) resolveCredential s.
Proof.
  intros Hd Hw. unfold resolveCredential. rstep; [rsolve|]. injection Hrun as <- <-.
  assert (resp (may w0 k) ensureGenerated s) as He.
  { unfold ensureGenerated. rstep; [rsolve|]. injection Hrun as <- <-. cbv zeta. rstep; [rsolve|].
    unfold try in Hrun. rewrite call_eq in Hrun. destruct (k_getSecret _ _ _) as [r w1] eqn:Hs.
    injection Hrun as -> <-. destruct a as [secret|e]; [rsolve|]. destruct (IsNotFound e) eqn:Hn; simpl; [|rsolve].
    rstep; [rsolve|]. apply key_run_st in Hrun as [Hst Hl]; [|rsolve]. cbn [e_world e_st] in *.
    destruct a as [cluster|e']; [|rsolve]. apply resp_mint; [done|]. intros a t. exists e. simpl. rewrite Hst.
    split; [|done]. eapply heard_later; [by apply (heard_now _ _ (e_world s))|done]. }
  destruct (ExistingSecretRef _); [|done]. case_bool_decide; [|done]. unfold readImported. rsolve.
Qed.

(** The verdict is Ready only when every node lists the key. *)
Lemma verifyAccepted_spec access s y s' :
  verifyAccepted access s = (Ok y, s') →
  e_st s' = e_st s ∧
  (ready_status y.1 = ConditionTrue → accepted_everywhere (e_world s) (e_world s') (e_st s) access).
Proof.
  unfold verifyAccepted, mbind at 1, M_bind at 1. destruct (nodeKeys s) as [[x|e] s1] eqn:Hn; [|done].
  pose proof (nodeKeys_spec _ _ _ Hn) as Ha. apply key_run_st in Hn as [Hst _]; [|apply timed_nodeKeys; apply _].
  destruct x as [found|cond].
  - destruct (missing_nodes found access) as [|m ms] eqn:Hm; intros [= <- <-]; (split; [done|]); [|done].
    intros _. by eapply accepted_by_table.
  - intros [= <- <-]. split; [done|]. simpl. destruct Ha as [-> _]. done.
Qed.

Lemma timed_verifyAccepted w0 k access s : resp (may w0 k) (verifyAccepted access) s.
Proof. unfold verifyAccepted. rstep; [apply timed_nodeKeys; apply _|rsolve]. Qed.

Lemma accepted_earlier w0 w1 w2 k access :
  later w0 w1 → accepted_everywhere w1 w2 k access → accepted_everywhere w0 w2 k access.
Proof. intros H (w & cluster & Hc & Hr). exists w, cluster. split; [by eapply heard_earlier|done]. Qed.

Lemma resolveCredential_false :
  answers (λ x : credential + readyCondition,
    match x with inr cond => ready_status cond = ConditionFalse | inl _ => True end) resolveCredential.
Proof. unfold resolveCredential, readImported, ensureGenerated, mint. answer. Qed.

Lemma resp_key_body s : resp (may (e_world s) (e_st s)) key_body s.
Proof.
  unfold key_body. rstep; [rsolve|]. injection Hrun as <- <-. destruct (ak_Deleting (e_st s)) eqn:Hd.
  { by apply resp_key_finalize. }
  rstep.
  { unfold key_ensure_finalizer. rstep; [rsolve|]. injection Hrun as <- <-. rstep; [rsolve|].
    apply resp_update_key. simpl. by rewrite Hd. }
  rstep; [apply resp_resolveCredential; [done|exact (proj1 HR0)]|]. destruct a0 as [[access secret]|cond].
  2: { apply resp_key_report; [done|]. apply resolveCredential_false in Hrun0. simpl in Hrun0. by rewrite Hrun0. }
  rstep.
  { unfold stampCredentialHash. rstep; [rsolve|]. injection Hrun1 as <- <-. tsolve. simpl. eauto. }
  rstep; [apply timed_verifyAccepted|].
  apply verifyAccepted_spec in Hrun2 as [Hst Hv]. destruct a1 as [cond requeue].
  rstep; [|rsolve]. apply resp_key_report; [done|]. rewrite Hst. intros Hc.
  eapply accepted_earlier; [|by apply Hv]. etrans; [exact (proj1 HR0)|]. etrans; [exact (proj1 HR1)|exact (proj1 HR2)].
Qed.

(** C9: What a reconcile of an FSAccessKey does rests on what it heard, after it
    started and before it acted.  It says Ready only after every node of the
    cluster, asked with the admin token, listed the key; it lets an object being
    deleted go only if no credential was published, or after the server said
    the cluster is gone, or after every node was asked and none that answered
    listed the key; it creates a Secret only after the server said there was
    none, and otherwise only adds its finalizer and the fingerprint. *)
Theorem key_reconcile_safe (k : FSAccessKey) (w : W) :
  let s := (key_body (mkEnv w [] k)).2 in
  Forall (key_may w k (e_world s)) (e_log s).
Proof. by eapply timed_run, (resp_key_body (mkEnv w [] k)). Qed.

Lemma minted_usable w0 w1 cred : minted w0 w1 cred → cred.1 ≠ "" ∧ MinSecretKeyLength ≤ String.length cred.2.
Proof.
  intros (bytes & w & bytes' & _ & _ & (digits & -> & _) & (Hl & _)). split; [done|]. rewrite Hl. unfold MinSecretKeyLength. lia.
Qed.

(** C10: Where the credential of a key comes from, in full.  (1) Its Secret was
    read, both halves are what it holds, and nothing is written.  Or the server
    was asked and had none; random bytes were drawn for each half, of which it is
    an encoding that fs accepts; and one Secret holding both was sent for
    creation: (2) the server created it, so the credential is the stored one, or
    (3) the server answered that such a Secret had appeared meanwhile.  In case
    (3) the credential used is still the one just minted, which is stored
    nowhere: the code does not read the other Secret back, against its comment. *)
Theorem credential_resolved (s s' : Env W FSAccessKey) (cred : credential) :
  resolveCredential s = (Ok (inl cred), s') →
  let key := e_st s in
  (e_log s' = e_log s ∧ read_from (e_world s) (e_world s') key (AccessKeySecretSource key) cred) ∨
  (∃ cluster w w2 created, let secret := credentialSecret key cluster cred.1 cred.2 in
     e_log s' = e_log s ++ [ACreate (OSecret secret)] ∧
     sec_StringData secret !! AccessKeyKey = Some cred.1 ∧ sec_StringData secret !! SecretKeyKey = Some cred.2 ∧
     was_absent (e_world s) w secret ∧ minted w w2 cred ∧
     cred.1 ≠ "" ∧ MinSecretKeyLength ≤ String.length cred.2 ∧
     heard w2 (e_world s') (k_create (OSecret secret)) created ∧
     (created = Ok tt ∨ ∃ e, created = Err e ∧ IsAlreadyExists e = true)).
Proof.
  intros [H|(cluster & w & r & H1 & H2 & w2 & Hm & Hc & Hr)]%resolveCredential_spec; [by left|right].
  exists cluster, w, w2, r. destruct (minted_usable _ _ _ Hm). by split_and!.
Qed.

Definition halves (secret : Secret) : credential :=
  (default "" (sec_Data secret !! AccessKeyKey), default "" (sec_Data secret !! SecretKeyKey)).

Lemma short_bool n m : (n <? m) = true ↔ ¬ m ≤ n.
Proof. rewrite Nat.ltb_lt. lia. Qed.

(** From a Secret that is there, the credential is both halves of it, unless one
    is empty or the Secret is imported and its secret half short. *)
Lemma resolveCredential_present s secret w1 :
  k_getSecret (ak_Namespace (e_st s)) (AccessKeySecretSource (e_st s)) (e_world s) = (Ok secret, w1) →
  ∃ x, (resolveCredential s).1 = Ok x ∧
    ((halves secret).1 ≠ "" → MinSecretKeyLength ≤ String.length (halves secret).2 → x = inl (halves secret)) ∧
    (∀ cred, x = inl cred → cred = halves secret ∧ cred.1 ≠ "").
Proof.
  unfold AccessKeySecretSource, resolveCredential. intros Hs.
  rewrite (bind_Ok _ _ _ _ _ (eq_refl : get_st s = (Ok (e_st s), s))).
  assert ((halves secret).2 = "" → ¬ MinSecretKeyLength ≤ String.length (halves secret).2) as Hempty.
  { intros ->. unfold MinSecretKeyLength. simpl. lia. }
  assert (∀ name, k_getSecret (ak_Namespace (e_st s)) name (e_world s) = (Ok secret, w1) →
    name = AccessKeySecretName (e_st s) →
    ∃ x, (ensureGenerated s).1 = Ok x ∧
      ((halves secret).1 ≠ "" → MinSecretKeyLength ≤ String.length (halves secret).2 → x = inl (halves secret)) ∧
      (∀ cred, x = inl cred → cred = halves secret ∧ cred.1 ≠ "")) as Hgen.
  { intros name Hn ->. unfold ensureGenerated. rewrite (bind_Ok _ _ _ _ _ (eq_refl : get_st s = (Ok (e_st s), s))).
    cbv zeta. unfold mbind at 1, M_bind at 1, try at 1. rewrite call_eq, Hn.
    destruct (bool_decide _ || bool_decide _) eqn:Hh.
    - apply orb_true_iff in Hh. rewrite !bool_decide_eq_true in Hh. eexists. split; [done|]. split; [|done].
      intros H1 H2. destruct Hh as [Hh|Hh]; [done|]. by destruct (Hempty Hh).
    - apply halves_of in Hh as (_ & _ & H3 & _). exists (inl (halves secret)). split; [done|]. split; [done|].
      by intros cred [= <-]. }
  destruct (ExistingSecretRef _) as [name|]; [|by apply (Hgen _ Hs)]. unfold ref_or in Hs.
  case_bool_decide as Hn; [|by apply (Hgen _ Hs)].
  unfold readImported. rewrite (bind_Ok _ _ _ _ _ (eq_refl : get_st s = (Ok (e_st s), s))).
  unfold mbind at 1, M_bind at 1, try at 1. rewrite call_eq, Hs. cbv zeta.
  destruct (bool_decide _ || bool_decide _) eqn:Hh.
  - apply orb_true_iff in Hh. rewrite !bool_decide_eq_true in Hh. eexists. split; [done|]. split; [|done].
    intros H1 H2. destruct Hh as [Hh|Hh]; [done|]. by destruct (Hempty Hh).
  - apply halves_of in Hh as (_ & _ & H3 & _). destruct (_ <? _) eqn:Hl.
    + apply short_bool in Hl. eexists. split; [done|]. split; [|done]. by intros _ H2.
    + exists (inl (halves secret)). split; [done|]. split; [done|]. by intros cred [= <-].
Qed.

(** C34: The two controllers agree on a credential whose Secret is there: the
    FSAccessKey controller resolves one with a secret half long enough for fs
    exactly when the FSCluster controller renders it into the nodes'
    configuration, with the same halves and the key's grants. *)
Theorem credential_is_rendered {P : Type} (cluster : FSCluster) (s : Env W FSAccessKey) (p : P)
    (secret : Secret) (w1 : W) (cred : credential) :
  let key := e_st s in
  ref_Name (ks_ClusterRef (ak_Spec key)) = fsc_Name cluster → ak_Namespace key = fsc_Namespace cluster →
  ak_Deleting key = false →
  k_getSecret (ak_Namespace key) (AccessKeySecretSource key) (e_world s) = (Ok secret, w1) →
  ((resolveCredential s).1 = Ok (inl cred) ∧ MinSecretKeyLength ≤ String.length cred.2) ↔
  (resolveKey cluster key (mkEnv (e_world s) (e_log s) p)).1
    = Ok [mkcfg_Key cred.1 cred.2 (GrantsToConfig (Grants (ak_Spec key)))].
Proof.
  cbv zeta. intros Hc Hns Hd Hs. destruct (resolveCredential_present s secret w1 Hs) as (x & -> & H1 & H2).
  unfold resolveKey. rewrite bool_decide_false by tauto. rewrite Hd.
  unfold mbind at 1, M_bind at 1, try at 1. rewrite call_eq. cbn [e_world]. rewrite <- Hns, Hs. cbv zeta.
  case_bool_decide as Ha; cbn [orb].
  { split; [|done]. intros [[= ->] Hl]. destruct (H2 cred eq_refl) as [-> Hne]. done. }
  destruct (Nat.ltb_spec (String.length (default "" (sec_Data secret !! SecretKeyKey))) MinSecretKeyLength) as [Hl|Hl].
  { split; [|done]. intros [[= ->] Hl']. destruct (H2 cred eq_refl) as [-> _]. simpl in Hl'. lia. }
  rewrite (H1 Ha Hl). split.
  - intros [[= <-] _]. done.
  - simpl. intros [= Ha' Hs']. destruct cred as [a b]. simpl in *. subst a b. split; [done|exact Hl].
Qed.
End heard.
