(* ===== verification/Typed.v ===== *)
(** * What a pass writes is a status the API accepts

    The custom resource's schema (api/v1alpha1/fscluster_types.go, with the
    conditions of k8s.io/apimachinery) gives the status its types: 32-bit node
    counts, 64-bit layout versions, an update in one of three phases, and
    conditions with a declared type, a status of True or False, and a reason that
    is a word.  A pass keeps these throughout, and patches its status once, when
    everything else is done.  The schema's bound on a condition's message is not
    among them: messages carry the texts of errors, of any length. *)

From S2P Require Import Prelude.
From S2P Require Import Encoding.
From S2P Require Import ApiTypes.
From S2P Require Import Defaults.
From S2P Require Import Nodes.
From S2P Require Import Validation.
From S2P Require Import FsClient.
From S2P Require Import Kube.
From S2P Require Import KeyGen.
From S2P Require Import Config.
From S2P Require Import Builders.
From S2P Require Import Pipeline.
From S2P Require Import Pass.
From S2P Require Import Status.
From S2P Require Import Convergence.
From S2P Require Import Rollout.
From S2P Require Import LayoutStep.
From S2P Require Import Decommission.
From S2P Require Import StorageStep.
From S2P Require Import Reload.
From S2P Require Import Controller.
From S2P Require Import Safety.

(** ** The types *)

Definition conditionTypes : list string :=
  [ConditionSpecValid; ConditionReconcileSucceeded; ConditionReady; ConditionNodesHealthy;
   ConditionClusterSizeAligned; ConditionConfigurationInSync; ConditionConverged].

Definition letters : string := "ABCDEFGHIJKLMNOPQRSTUVWXYZabcdefghijklmnopqrstuvwxyz".

Definition is_word (s : string) : bool :=
  bool_decide (s ≠ "") && str_all (in_alphabet letters) s.

Definition typed_condition (generation : Z) (c : Condition) : bool :=
  bool_decide (cond_Type c ∈ conditionTypes)
  && bool_decide (cond_Status c ∈ [ConditionTrue; ConditionFalse])
  && is_word (cond_Reason c) && bool_decide (cond_ObservedGeneration c = generation).

Definition in_int64 (z : Z) : Prop := (- 2 ^ 63 <= z < 2 ^ 63)%Z.

(** The phases the API declares for [status.update.phase]. *)
Definition updatePhases : list string := ["Preflight"; "RollingNodes"; "Draining"].

(** The update in flight, if any, is in a declared phase. *)
Definition phased (update : option UpdateStatus) : Prop :=
  match update with Some u => Phase u ∈ updatePhases | None => True end.

Definition typed_layout (l : LayoutStatus) : Prop :=
  in_int64 (ls_Version l) ∧ in_int32 (ls_Members l) ∧ Forall in_int32 (ls_Widths l) ∧
  Forall in_int64 (ls_RetainedVersions l).

Definition typed_status (old : FSClusterStatus) (st : FSClusterStatus) : Prop :=
  in_int32 (st_Nodes st) ∧ in_int32 (st_ReadyNodes st) ∧ in_int32 (st_UpNodes st) ∧
  phased (st_Update st) ∧
  (st_Layout st = st_Layout old ∨ ∃ l, st_Layout st = Some l ∧ typed_layout l).

(** The pass: its object is the one being reconciled, its update is in a declared
    phase, its counts fit, and the conditions it has queued are typed. *)
Definition typed_pass (object : FSCluster) (p : pass) : Prop :=
  (p_object p = object ∧ phased (p_update p)) ∧
  (in_int32 (h_ready (p_health p)) ∧ in_int32 (h_current (p_health p)) ∧
   in_int32 (h_configCurrent (p_health p))) ∧
  Forall (λ c, typed_condition (fsc_Generation object) c = true) (p_conditions p).

Definition keeps_typed (p p' : pass) : Prop := ∀ object, typed_pass object p → typed_pass object p'.

#[global] Instance keeps_typed_preorder : PreOrder keeps_typed.
Proof. split; [by intros ??|]. intros p1 p2 p3 H1 H2 object H. by apply H2, H1. Qed.

(** ** Each step keeps them *)

Lemma wrap64_range z : in_int64 (wrap64 z).
Proof.
  unfold in_int64, wrap64. pose proof (Z.mod_pos_bound (z + 2 ^ 63) (2 ^ 64) ltac:(lia)). lia.
Qed.

Lemma keeps_typed_same p p' :
  p_object p' = p_object p → p_update p' = p_update p → p_health p' = p_health p →
  p_conditions p' = p_conditions p → keeps_typed p p'.
Proof. unfold keeps_typed, typed_pass. by intros -> -> -> ->. Qed.

Lemma keeps_typed_update u p : Phase u ∈ updatePhases → keeps_typed p (set_update u p).
Proof. intros Hu object ([H1 _] & H2 & H3). split; [split; [done|exact Hu]|by split]. Qed.

Lemma keeps_typed_setCondition type status reason message p :
  (∀ g, typed_condition g (mkCondition type status reason message g) = true) →
  keeps_typed p (setCondition type status reason message p).
Proof.
  intros H object ([H1 H0] & H2 & H3). split_and!; [done|done|apply H2..|]. simpl. apply Forall_app.
  split; [done|]. apply Forall_singleton. rewrite H1. apply H.
Qed.

(** The type, status and reason decide, and they are constants. *)
Lemma typed_constant type status reason message g :
  typed_condition 0 (mkCondition type status reason "" 0) = true →
  typed_condition g (mkCondition type status reason message g) = true.
Proof.
  unfold typed_condition. simpl. rewrite !andb_true_iff. intros [H _]. split; [done|].
  by apply bool_decide_eq_true.
Qed.

(** What the steps before the status do: no status is patched, and no metric
    recorded. *)
Definition working (a : action) : Prop :=
  match a with
  | APatchStatus _ _ | ARecordCluster _ | ARecordUpdateFinished _ _ | ARecordReconcileError _
  | AForget _ _ => False
  | _ => True
  end.

Lemma observability_reason order spec f : observability order spec = Some f → f_Reason f = ReasonSpecInvalid.
Proof.
  unfold observability. destruct (first_failing _ (check_destination _)) eqn:E1.
  { intros [= <-]. eapply first_failing_reason; [|exact E1]. apply check_destination_reason. }
  destruct (bool_decide (otlp_Protocol (OTLP spec) ≠ "")).
  - destruct (first_failing _ (check_protocol _)) eqn:E2.
    { intros [= <-]. eapply first_failing_reason; [|exact E2]. apply check_protocol_reason. }
    destruct (_ && _); [|done]. by intros [= <-].
  - destruct (_ && _); [|done]. by intros [= <-].
Qed.

Lemma refusal_reason order spec f : Cluster order spec = Some f →
  f_Reason f ∈ [ReasonUnsupportedTopology; ReasonSpecInvalid; ReasonLayoutTopologyMismatch].
Proof.
  unfold Cluster. destruct (_ <? _)%Z; [intros [= <-]; simpl; set_solver|].
  destruct (_ && _); [intros [= <-]; simpl; set_solver|].
  destruct (_ <=? _)%Z; [intros [= <-]; simpl; set_solver|]. cbv zeta.
  destruct (_ && _); [intros [= <-]; simpl; set_solver|].
  intros ->%observability_reason. set_solver.
Qed.

Lemma refusal_typed order spec f message g : Cluster order spec = Some f →
  typed_condition g (mkCondition ConditionSpecValid ConditionFalse (f_Reason f) message g) = true.
Proof.
  intros H%refusal_reason. apply typed_constant.
  repeat (apply elem_of_cons in H as [->|H]; [reflexivity|]). by apply elem_of_nil in H.
Qed.

Definition typed_tally (h : health) (t : tally) : Prop :=
  in_int32 (h_ready (t_health t)) ∧ in_int32 (h_current (t_health t)) ∧
  h_configCurrent (t_health t) = h_configCurrent h.

Lemma observe_node_typed spec live desired node h t :
  typed_tally h t → typed_tally h (observe_node spec live desired t node).
Proof.
  intros (H1 & H2 & H3). unfold observe_node, typed_tally.
  destruct (live !! node_Name node) as [set|]; [destruct (nodeServing set)|]; [|done..]. simpl.
  split_and!; [apply wrap32_range| |done]. repeat case_match; done || apply wrap32_range.
Qed.

Lemma observe_nodes_typed p live :
  in_int32 (h_ready (p_health p)) → in_int32 (h_current (p_health p)) →
  in_int32 (h_ready (observe_nodes p live)) ∧ in_int32 (h_current (observe_nodes p live)) ∧
  h_configCurrent (observe_nodes p live) = h_configCurrent (p_health p).
Proof.
  intros H1 H2. unfold observe_nodes. simpl.
  match goal with |- context [foldl ?f ?t ?l] =>
    assert (typed_tally (p_health p) (foldl f t l)) as H; [|exact H] end.
  generalize (desired_revisions (desired_sets p)). intros desired.
  assert (∀ nodes t, typed_tally (p_health p) t → typed_tally (p_health p)
    (foldl (observe_node (fsc_Spec (p_cluster p)) live desired) t nodes)) as H.
  { induction nodes as [|node nodes IH]; intros t Ht; simpl; [done|]. by apply IH, observe_node_typed. }
  by apply H.
Qed.

Ltac typed :=
  intros; first [ by apply keeps_typed_same
                | by apply keeps_typed_update; unfold updatePhases; set_solver
                | by apply keeps_typed_setCondition; intros; apply typed_constant ].

Abbreviation typed_step m := (∀ s, resp (env_rel working keeps_typed) m s).

Section steps.
Context {W : Type} `{!KubeClient W, !Interface W} {CD : Codec} (OperatorNamespace : string).
Implicit Types s : Env W pass.

Lemma adopt_loop_typed p nodes : typed_step (adopt_loop p nodes).
Proof. induction nodes; intros s; simpl; rsolve_all; auto. Qed.

Lemma classify_loop_typed p desired created stale : typed_step (classify_loop p desired created stale).
Proof. revert created stale. induction desired; intros ? ? s; simpl; rsolve_all; auto. Qed.

Lemma tryLayout_typed p nodes roles widths token last : typed_step (tryLayout p nodes roles widths token last).
Proof. revert last. induction nodes; intros ? s; simpl; rsolve_all; auto. Qed.

Lemma reload_loop_typed p i nodes token c b : typed_step (reload_loop p i nodes token c b).
Proof. revert i c b. induction nodes; intros ? ? ? s; simpl; unfold reloadNode; rsolve_all; auto. Qed.

Lemma reload_loop_in_range p i nodes token c b :
  in_int32 c → answers (λ x, in_int32 x.1) (reload_loop p i nodes token c b).
Proof.
  revert i c b. induction nodes as [|node nodes IH]; intros i c b Hc; simpl; [by apply answers_ret|].
  apply answers_bind. intros [[] wait]; apply IH; [apply wrap32_range|done].
Qed.

Lemma askNodes_typed p nodes token : typed_step (askNodes p nodes token).
Proof.
  induction nodes; intros s; simpl; unfold clusterView; rsolve_all; auto; typed.
Qed.

(** A hold is reported in a declared phase, whatever the object said before. *)
Lemma hold_typed phase subject reason : phase ∈ updatePhases → typed_step (hold phase subject reason).
Proof. intros Hp s. unfold hold. rsolve_all; try typed; by apply keeps_typed_update. Qed.

Lemma holdSubject_phase p : (holdSubject p).1 ∈ updatePhases.
Proof.
  unfold holdSubject, updatePhases. destruct (st_Update _) as [u|]; [|set_solver]. case_bool_decide as H; [|set_solver].
  simpl. rewrite H. set_solver.
Qed.

Lemma roll_typed stale : typed_step (roll stale).
Proof.
  intros s. unfold roll. rstep; [rsolve|]. pose proof (holdSubject_phase a) as Hp.
  destruct (holdSubject a) as [phase held]. simpl in Hp. unfold rollingUpdate. rsolve_all; try typed; by apply hold_typed.
Qed.

Lemma pipeline_typed :
  typed_step validate ∧ typed_step planDecommission ∧ typed_step render ∧
  typed_step observe ∧ typed_step reconcileSecrets ∧ typed_step reconcileServices ∧
  typed_step reconcileNodeConfigs ∧ typed_step gatherConvergence ∧ typed_step reconcileStorage ∧
  typed_step reconcileNodes ∧ typed_step reconcileLayout ∧ typed_step reconcileDecommission ∧
  typed_step reconcileReload ∧ typed_step reconcileBudget ∧
  typed_step (reconcileNetworkPolicy OperatorNamespace) ∧ typed_step reconcilePodMonitor.
Proof.
  split_and!; intros s.
  - unfold validate. rsolve_all; [|typed]. intros p. apply keeps_typed_setCondition. intros. by eapply refusal_typed.
  - unfold planDecommission. rsolve_all; typed.
  - unfold render. rsolve_all; [apply resp_collectAccessKeys, _|typed].
  - unfold observe. rsolve_all. intros object (H1 & (H2 & H3 & H4) & H5).
    destruct (observe_nodes_typed (e_st s'0) (index_sets a0)) as (? & ? & Hc); [done|done|].
    split; [exact H1|]. split_and!; [done|done|exact (eq_ind_r in_int32 H4 Hc)|done].
  - unfold reconcileSecrets, generateSecret, NewClusterSecret, NewRootCredentialsSecret, NewAdminTokenSecret,
      keygen_Token, keygen_AccessKey, requireSecret. rsolve_all; typed.
  - unfold reconcileServices. rsolve_all.
  - unfold reconcileNodeConfigs. rsolve_all.
  - unfold gatherConvergence. rsolve_all; try typed. apply askNodes_typed.
  - unfold reconcileStorage, finishAdoption, expandNode, growClaims, growClaim. rsolve_all; try typed.
    apply adopt_loop_typed.
  - unfold reconcileNodes, classify. rsolve_all; [apply classify_loop_typed|apply roll_typed].
  - unfold reconcileLayout, holdLayout, applyLayout. rsolve_all; try typed. apply tryLayout_typed.
  - unfold reconcileDecommission, holdDrain, removeNode. rsolve_all; try typed. apply hold_typed. set_solver.
  - unfold reconcileReload. rsolve_all; [apply reload_loop_typed|].
    intros object (H1 & (H2 & H3 & H4) & H5). split; [exact H1|]. split_and!; [done|done| |done]. simpl.
    assert (in_int32 0) as H0 by (unfold in_int32; lia).
    exact (reload_loop_in_range _ _ _ _ 0 false H0 _ _ _ Hrun1).
  - unfold reconcileBudget. rsolve_all.
  - unfold reconcileNetworkPolicy, deleteIfExists. rsolve_all.
  - unfold reconcilePodMonitor, podMonitorAvailable, deleteIfExists. rsolve_all.
Qed.

(** ** The status *)

Lemma upNodes_typed p : in_int32 (h_ready (p_health p)) → in_int32 (upNodes p).
Proof.
  intros H. unfold upNodes. destruct (SingleNode _); [done|].
  assert (∀ nodes n, in_int32 n → in_int32
    (foldl (λ n node, if up (p_convergence p) (node_Name node) then wrap32 (n + 1) else n) n nodes)) as Hf.
  { induction nodes as [|node nodes IH]; intros n Hn; simpl; [done|]. apply IH.
    destruct (up _ _); [apply wrap32_range|done]. }
  apply Hf. unfold in_int32. lia.
Qed.

Lemma newStatus_typed object p :
  typed_pass object p → typed_status (fsc_Status object) (newStatus p) ∧ 
    st_Conditions (newStatus p) = st_Conditions (fsc_Status object).
Proof.
  intros ([<- Hu] & (Hr & Hc & _) & _). unfold newStatus, typed_status.
  assert (Hl : match cv_layout (p_convergence p) with
    | Some l => Some (mkLayoutStatus (wrap64 (Version l)) (wrap32 (Z.of_nat (length (Members l))))
                        (wrap32 <$> Widths l) (wrap64 <$> Retained l))
    | None => st_Layout (fsc_Status (p_object p)) end = st_Layout (fsc_Status (p_object p)) ∨
    ∃ l, match cv_layout (p_convergence p) with
    | Some l => Some (mkLayoutStatus (wrap64 (Version l)) (wrap32 (Z.of_nat (length (Members l))))
                        (wrap32 <$> Widths l) (wrap64 <$> Retained l))
    | None => st_Layout (fsc_Status (p_object p)) end = Some l ∧ typed_layout l).
  { destruct (cv_layout (p_convergence p)) as [l|]; [right|by left]. eexists. split; [done|].
    split_and!; simpl; [apply wrap64_range|apply wrap32_range| |];
      apply Forall_fmap, Forall_true; intros; [apply wrap32_range|apply wrap64_range]. }
  destruct (p_configs p); simpl; (split; [|done]);
    (split; [apply wrap32_range|]; split; [done|]; split; [by apply upNodes_typed|]; split; [exact Hu|exact Hl]).
Qed.

(** The conditions merged into the status are typed, whatever merges them. *)
Definition patch_typed (object : FSCluster) (a : action) : Prop :=
  match a with
  | APatchStatus base o =>
      base = object ∧ o = with_status object (fsc_Status o) ∧
      typed_status (fsc_Status object) (fsc_Status o) ∧
      ∃ queued, Forall (λ c, typed_condition (fsc_Generation object) c = true) queued ∧
        st_Conditions (fsc_Status o) = foldl k_setCondition (st_Conditions (fsc_Status object)) queued
  | _ => True
  end.

Lemma keeps_typed_if (b : bool) p q r : keeps_typed p q → keeps_typed p r → keeps_typed p (if b then q else r).
Proof. by destruct b. Qed.

Lemma keeps_typed_then type status reason message p q :
  keeps_typed p q → typed_condition 0 (mkCondition type status reason "" 0) = true →
  keeps_typed p (setCondition type status reason message q).
Proof.
  intros H Hc. etrans; [exact H|]. apply keeps_typed_setCondition. intros. by apply typed_constant.
Qed.

Lemma summarize_typed p : keeps_typed p (summarize p).
Proof.
  unfold summarize. transitivity (summarizeHealth p); [|transitivity (summarizeReadiness (summarizeHealth p));
    [|transitivity (summarizeAlignment (summarizeReadiness (summarizeHealth p)))]].
  - unfold summarizeHealth. cbv zeta. destruct (p_failure p);
      apply keeps_typed_if; (apply keeps_typed_then; [typed|reflexivity]).
  - unfold summarizeReadiness. destruct (cv_layout _); repeat apply keeps_typed_if; typed.
  - unfold summarizeAlignment. destruct (p_desired _); [|done]. cbv zeta.
    apply keeps_typed_if; (apply keeps_typed_then; [|reflexivity]); (apply keeps_typed_if; [done|]);
      repeat apply keeps_typed_if; typed.
  - unfold summarizeConvergence. apply keeps_typed_if; [done|]. repeat apply keeps_typed_if; typed.
Qed.

Lemma summarize_object p : p_object (summarize p) = p_object p.
Proof. pose proof (summarize_observed p) as H. unfold observed, core in H. congruence. Qed.

(** The object of the patch. *)
Definition patched (p : pass) : FSCluster :=
  let q := summarize (set_object (with_status (p_object p) (newStatus p)) p) in
  with_conditions (p_object q) (foldl k_setCondition (st_Conditions (fsc_Status (p_object q))) (p_conditions q)).

Lemma patched_typed object p : typed_pass object p → patch_typed object (APatchStatus (p_object p) (patched p)).
Proof.
  intros Hp. pose proof (newStatus_typed object p Hp) as [Hst Hcs]. unfold patched.
  assert (Hq : typed_pass (with_status (p_object p) (newStatus p))
    (summarize (set_object (with_status (p_object p) (newStatus p)) p))).
  { apply summarize_typed. destruct Hp as ([<- H0] & H1 & H2). split; [by split|]. split; [exact H1|exact H2]. }
  rewrite summarize_object. destruct Hq as (_ & _ & Hq). destruct Hp as ([<- _] & _ & _).
  unfold patch_typed. split_and!; [done|done|exact Hst|].
  - eexists. split; [exact Hq|]. by rewrite <- Hcs.
Qed.

(** What a pass tells the metrics once the status is stored. *)
Definition recorded (a : action) : Prop :=
  match a with ARecordCluster _ | ARecordUpdateFinished _ _ | ARecordReconcileError _ => True | _ => False end.

Lemma store_log base o (p : pass) s l :
  e_log s = l →
  let m :=
    stored ← wrap_err "update status" (issue (APatchStatus base o) (k_patchStatus base o));
    _ ← put_st (set_object stored);
    _ ← emit (ARecordCluster stored);
    _ ← match st_Update (fsc_Status base), p_update p with
        | Some update, None =>
            match StartedAt update with
            | Some started => emit (ARecordUpdateFinished stored started)
            | None => ret tt
            end
        | _, _ => ret tt
        end;
    _ ← match p_failure p with
        | Some _ => emit (ARecordReconcileError "fscluster")
        | None => ret tt
        end;
    ret Continue in
  ∃ record, e_log (m s).2 = l ++ APatchStatus base o :: record ∧ Forall recorded record.
Proof.
  intros <-. unfold put_st, wrap_err, issue, emit, call. msimpl.
  destruct (k_patchStatus _ _ _) as [[stored|e] w']; simpl; [|by exists []; split].
  destruct (st_Update (fsc_Status base)) as [u|]; [destruct (p_update p); [|destruct (StartedAt u)]|];
    destruct (p_failure p); cbn; rewrite <- ?app_assoc; (eexists; split; [reflexivity|]); by repeat constructor.
Qed.

Lemma reconcileStatus_log s :
  ∃ record, e_log (reconcileStatus s).2 = e_log s ++ APatchStatus (p_object (e_st s)) (patched (e_st s)) :: record ∧
    Forall recorded record.
Proof.
  unfold reconcileStatus. do 5 (erewrite bind_Ok; [|reflexivity]; cbv beta zeta).
  eapply store_log; reflexivity.
Qed.

(** ** The pass *)

Definition typed_so_far (object : FSCluster) (p : pass) (l : list action) : Prop :=
  typed_pass object p ∧ Forall working l.

Lemma step_typed object name always (m : M (Env W pass) Outcome) :
  typed_step m →
  step_ok (inv (λ _, True) (typed_so_far object)) (inv (λ _, True) (typed_so_far object)) (step_of name always m).
Proof.
  intros Hm. apply (step_ok_frame _ _ _ working keeps_typed); [auto|done|].
  intros p p' l l' HQ [H1 H2] Hl'. split; [by apply HQ|by apply Forall_app].
Qed.

Definition patches_typed (object : FSCluster) (p : pass) (l : list action) : Prop :=
  Forall (patch_typed object) l.

Lemma typed_stable object : stable env_RecordFailure (inv (λ _, True) (typed_so_far object) (W := W)).
Proof.
  intros b e s [[H1 H2] _]. split; [|done]. split; [|done]. simpl. unfold RecordFailure.
  by destruct (p_failure (e_st s)).
Qed.

Lemma status_step_run s out err s' :
  step_Run (step_of "status" true reconcileStatus) s = (out, err, s') → s' = (reconcileStatus s).2.
Proof. simpl. unfold run_M. destruct (reconcileStatus s) as [[]?]; by intros [= _ _ <-]. Qed.

Lemma step_patch object :
  step_ok (inv (λ _, True) (typed_so_far object)) (inv (λ _, True) (patches_typed object))
    (step_of "status" true reconcileStatus).
Proof.
  split; [done|]. intros b s out err s' _ [[H1 H2] _] ->%status_step_run. split; [|done].
  destruct (reconcileStatus_log s) as (record & -> & Hr). unfold patches_typed. rewrite Forall_app, Forall_cons. split_and!.
  - eapply Forall_impl; [exact H2|]. by intros [].
  - by apply patched_typed.
  - eapply Forall_impl; [exact Hr|]. by intros [].
Qed.

(** Work, then one status patch of the object, then metrics. *)
Definition status_written (object : FSCluster) (l : list action) : Prop :=
  ∃ work o record, l = work ++ APatchStatus object o :: record ∧
    Forall working work ∧ Forall recorded record ∧
    st_ObservedGeneration (fsc_Status o) = fsc_Generation object.

Lemma reconcileStatus_writes s :
  Forall working (e_log s) → status_written (p_object (e_st s)) (e_log (reconcileStatus s).2).
Proof.
  intros Hw. destruct (reconcileStatus_log s) as (record & -> & Hr). eexists _, _, _. split; [done|].
  split_and!; [done..|]. unfold patched. rewrite summarize_object. simpl. unfold newStatus. by destruct (p_configs _).
Qed.

Lemma step_status_written object :
  step_ok (inv (λ _, True) (typed_so_far object)) (inv (λ _, True) (λ _, status_written object))
    (step_of "status" true reconcileStatus).
Proof.
  split; [done|]. intros b s out err s' _ [[[[<- _] _] Hw] _] ->%status_step_run. split; [|done].
  by apply reconcileStatus_writes.
Qed.

(** The pass up to the status, and a step that ends it. *)
Lemma typed_before_status FSImageRegistry object w :
  let l := run_loop env_RecordFailure (take 16 (pipeline OperatorNamespace))
    (mkLoop 0 false None (mkEnv w [] (newPass object FSImageRegistry))) in
  inv (λ _, True) (typed_so_far object) (lp_stopped l) (lp_state l).
Proof.
  cbv zeta. unfold pipeline, steps_before_nodes, steps_after_drain. cbn [app take]. unfold run_loop; cbn [foldl].
  do 16 (eapply run_step_ok; [apply typed_stable|apply step_typed; apply pipeline_typed|]).
  split; [|done]. split; [|by apply Forall_nil]. simpl.
  assert (in_int32 0) as H0 by (unfold in_int32; lia). by split_and!.
Qed.

Lemma pass_ends_with object (L : pass → list action → Prop) FSImageRegistry w :
  step_ok (inv (λ _, True) (typed_so_far object)) (inv (λ _, True) L) (step_of "status" true reconcileStatus) →
  (∀ p p' l, L p l → L p' l) →
  let s := (run_pass OperatorNamespace FSImageRegistry object w []).2 in L (e_st s) (e_log s).
Proof.
  intros Hok HL. cbv zeta. unfold run_pass. rewrite Run_state.
  change (pipeline OperatorNamespace) with
    (take 16 (pipeline OperatorNamespace) ++ [step_of "status" true (reconcileStatus (W := W))]).
  rewrite run_loop_app.
  match goal with |- L (e_st (lp_state ?l)) _ => enough (inv (λ _, True) L (lp_stopped l) (lp_state l)) as [? _] by done end.
  change (run_loop ?f [?x] ?l) with (run_step f x l). eapply run_step_ok; [|exact Hok|apply typed_before_status].
  intros b e s [H _]. split; [by eapply HL|done].
Qed.

(** C22: What a status patch of a pass may look like.  Whatever the object, the
    server and the nodes answer, it is made against the object the pass was given
    and changes its status only; the node counts are 32-bit integers, and so are
    the members and widths of the layout, whose versions are 64-bit (or the
    layout is the one already published); an update in flight is in one of the
    three phases the schema enumerates; and every condition it merges in has a
    type the API declares, the status True or False, a reason that is a word, and
    the generation of the object.  (The schema's limit on the length of a
    condition's message is not claimed: the code does not cut the error texts it
    puts there.) *)
Theorem status_patches_typed (FSImageRegistry : string) (object : FSCluster) (w : W) :
  Forall (patch_typed object) (e_log (run_pass OperatorNamespace FSImageRegistry object w []).2).
Proof. apply (pass_ends_with object (λ _, Forall (patch_typed object))); [apply step_patch|done]. Qed.

(** C7: Every pass, refused, failed or finished, writes the status of the object
    exactly once, when all its other work is done: after it come only metrics.
    The patch is of the object the pass was given, and says it has observed that
    object's generation. *)
Theorem pass_writes_status (FSImageRegistry : string) (object : FSCluster) (w : W) :
  status_written object (e_log (run_pass OperatorNamespace FSImageRegistry object w []).2).
Proof. apply (pass_ends_with object (λ _, status_written object)); [apply step_status_written|done]. Qed.
End steps.
