(* ===== verification/Metrics.v ===== *)
(** * The operator's metrics (src/internal/metrics/metrics.go)

    The registered series as finite maps from label values: what one cluster's
    status publishes, and what forgetting a cluster drops.  The log of a
    reconcile says which of these were called; [replay] runs them. *)

From S2P Require Import Prelude.
From S2P Require Import ApiTypes.
From S2P Require Import Kube.
From S2P Require Import Pass.
From S2P Require Import Status.
From S2P Require Import FsClient.
From S2P Require Import Config.
From S2P Require Import Controller.
From S2P Require Import Pipeline.
From S2P Require Import Safety.
From S2P Require Import Typed.

Definition NodeStateDeclared : string := "declared".
Definition NodeStateReady : string := "ready".
Definition NodeStateUp : string := "up".

Definition allPhases : list UpdatePhase :=
  [UpdatePhasePreflight; UpdatePhaseRollingNodes; UpdatePhaseDraining].

(** The vectors.  Gauges hold small integers, which are exact as floats; a
    histogram holds what it observed, in nanoseconds. *)
Record registry := mkRegistry {
  clusterReady : gmap (string * string) Z;
  clusterNodes : gmap (string * string * string) Z;
  updatePhase : gmap (string * string * string) Z;
  updateDuration : gmap (string * string) (list Z);
  layoutRetained : gmap (string * string) Z;
  reconcileErrors : gmap string Z;
}.

Definition boolValue (b : bool) : Z := if b then 1 else 0.

(** The first Ready condition decides. *)
Definition ready (cluster : FSCluster) : bool :=
  match filter (λ c, cond_Type c = ConditionReady) (st_Conditions (fsc_Status cluster)) with
  | c :: _ => bool_decide (cond_Status c = ConditionTrue)
  | [] => false
  end.

Definition set_phases (ns name : string) (current : UpdatePhase) (m : gmap (string * string * string) Z)
    : gmap (string * string * string) Z :=
  foldl (λ m phase, <[(ns, name, phase) := boolValue (bool_decide (phase = current))]> m) m allPhases.

Definition RecordCluster (cluster : FSCluster) (r : registry) : registry :=
  let ns := fsc_Namespace cluster in
  let name := fsc_Name cluster in
  let status := fsc_Status cluster in
  let nodes := <[(ns, name, NodeStateDeclared) := st_Nodes status]> (clusterNodes r) in
  let nodes := <[(ns, name, NodeStateReady) := st_ReadyNodes status]> nodes in
  let nodes := <[(ns, name, NodeStateUp) := st_UpNodes status]> nodes in
  let retained := match st_Layout status with
                  | Some layout => Z.of_nat (length (ls_RetainedVersions layout)) | None => 0%Z end in
  let current := match st_Update status with Some update => Phase update | None => "" end in
  mkRegistry (<[(ns, name) := boolValue (ready cluster)]> (clusterReady r)) nodes
    (set_phases ns name current (updatePhase r)) (updateDuration r)
    (<[(ns, name) := retained]> (layoutRetained r)) (reconcileErrors r).

Definition RecordUpdateFinished (now : Z) (cluster : FSCluster) (startedAt : Z) (r : registry) : registry :=
  let key := (fsc_Namespace cluster, fsc_Name cluster) in
  mkRegistry (clusterReady r) (clusterNodes r) (updatePhase r)
    (<[key := default [] (updateDuration r !! key) ++ [time_Sub now startedAt]]> (updateDuration r))
    (layoutRetained r) (reconcileErrors r).

Definition RecordReconcileError (controller : string) (r : registry) : registry :=
  mkRegistry (clusterReady r) (clusterNodes r) (updatePhase r) (updateDuration r) (layoutRetained r)
    (<[controller := (default 0 (reconcileErrors r !! controller) + 1)%Z]> (reconcileErrors r)).

(** [DeletePartialMatch] on the namespace and cluster labels. *)
Definition Forget (ns name : string) (r : registry) : registry :=
  mkRegistry (delete (ns, name) (clusterReady r))
    (filter (λ x, x.1.1 ≠ (ns, name)) (clusterNodes r))
    (filter (λ x, x.1.1 ≠ (ns, name)) (updatePhase r))
    (delete (ns, name) (updateDuration r)) (delete (ns, name) (layoutRetained r)) (reconcileErrors r).

(** ** Running the calls a log records *)

Definition replay1 (now : Z) (r : registry) (a : action) : registry :=
  match a with
  | ARecordCluster o => RecordCluster o r
  | ARecordUpdateFinished o started => RecordUpdateFinished now o started r
  | ARecordReconcileError controller => RecordReconcileError controller r
  | AForget ns name => Forget ns name r
  | _ => r
  end.

Definition replay (now : Z) (l : list action) (r : registry) : registry := foldl (replay1 now) r l.

(** * Theorems *)

(** Nothing is reported of a cluster. *)
Definition silent (ns name : string) (r : registry) : Prop :=
  clusterReady r !! (ns, name) = None ∧ layoutRetained r !! (ns, name) = None ∧
  updateDuration r !! (ns, name) = None ∧
  (∀ state, clusterNodes r !! (ns, name, state) = None) ∧ (∀ phase, updatePhase r !! (ns, name, phase) = None).

(** Everything reported of a cluster is as before. *)
Definition same_series (ns name : string) (r r' : registry) : Prop :=
  clusterReady r' !! (ns, name) = clusterReady r !! (ns, name) ∧
  layoutRetained r' !! (ns, name) = layoutRetained r !! (ns, name) ∧
  updateDuration r' !! (ns, name) = updateDuration r !! (ns, name) ∧
  (∀ state, clusterNodes r' !! (ns, name, state) = clusterNodes r !! (ns, name, state)) ∧
  (∀ phase, updatePhase r' !! (ns, name, phase) = updatePhase r !! (ns, name, phase)).

Definition phase_of (o : FSCluster) : UpdatePhase :=
  match st_Update (fsc_Status o) with Some update => Phase update | None => "" end.

(** The object is Ready: its first condition of that type is True. *)
Definition says_ready (o : FSCluster) : Prop :=
  ∃ before c after, st_Conditions (fsc_Status o) = before ++ c :: after ∧
    Forall (λ c', cond_Type c' ≠ "Ready") before ∧ cond_Type c = "Ready" ∧ cond_Status c = "True".

(** The series of an object's cluster are what its status says: ready at 1
    exactly when the object is Ready; of the three phases the API declares, the
    one it is in at 1, and the others at 0 rather than absent. *)
Definition publishes (o : FSCluster) (r : registry) : Prop :=
  let key := (fsc_Namespace o, fsc_Name o) in
  let status := fsc_Status o in
  (clusterReady r !! key = Some 1%Z ∧ says_ready o ∨ clusterReady r !! key = Some 0%Z ∧ ¬ says_ready o) ∧
  clusterNodes r !! (key, NodeStateDeclared) = Some (st_Nodes status) ∧
  clusterNodes r !! (key, NodeStateReady) = Some (st_ReadyNodes status) ∧
  clusterNodes r !! (key, NodeStateUp) = Some (st_UpNodes status) ∧
  layoutRetained r !! key =
    Some (Z.of_nat (length (from_option ls_RetainedVersions [] (st_Layout status)))) ∧
  Forall (λ phase, updatePhase r !! (key, phase) = Some (if bool_decide (phase = phase_of o) then 1 else 0)%Z)
    ["Preflight"; "RollingNodes"; "Draining"].

Lemma ready_says o : ready o = true ↔ says_ready o.
Proof.
  unfold ready, says_ready. generalize (st_Conditions (fsc_Status o)). intros cs.
  induction cs as [|c cs IH]; [split; [done|]; intros (before & c & after & H & _); by destruct before|].
  rewrite filter_cons. case_decide as Hc.
  - rewrite bool_decide_eq_true. split.
    + intros Hs. by exists [], c, cs.
    + intros (before & c' & after & H & Hb & Ht & Hs). destruct before as [|x before]; simplify_eq/=; [done|].
      apply Forall_cons in Hb as [Hx _]. done.
  - rewrite IH. split; intros (before & c' & after & H & Hb & Ht & Hs).
    + exists (c :: before), c', after. rewrite H. split; [done|]. split; [by constructor|done].
    + destruct before as [|x before]; [by simplify_eq/=|]. simplify_eq/=. apply Forall_cons in Hb as [_ Hb].
      by exists before, c', after.
Qed.

Lemma RecordCluster_publishes o r : publishes o (RecordCluster o r).
Proof.
  unfold publishes, RecordCluster, set_phases, phase_of. simpl. split; [|split_and!; [by simplify_map_eq..| |]].
  - rewrite lookup_insert_eq, <- ready_says. unfold boolValue. destruct (ready o); [left|right]; done.
  - simplify_map_eq. by destruct (st_Layout _).
  - repeat constructor; by simplify_map_eq.
Qed.

Lemma RecordCluster_others o r ns name :
  (ns, name) ≠ (fsc_Namespace o, fsc_Name o) → same_series ns name r (RecordCluster o r).
Proof.
  intros Hne. unfold same_series, RecordCluster, set_phases. simpl.
  split_and!; intros; repeat (rewrite lookup_insert_ne by congruence); done.
Qed.

Lemma Forget_silent ns name r : silent ns name (Forget ns name r).
Proof.
  unfold silent, Forget. simpl. split_and!; [by rewrite lookup_delete_eq..| |];
    intros; apply map_lookup_filter_None; right; intros ? _; simpl; tauto.
Qed.

Lemma lookup_filter_id {V : Type} (P : (string * string * string) * V → Prop) `{!∀ x, Decision (P x)}
    (m : gmap (string * string * string) V) k :
  (∀ v, P (k, v)) → filter P m !! k = m !! k.
Proof.
  intros HP. destruct (m !! k) as [v|] eqn:E; [by apply map_lookup_filter_Some|].
  apply map_lookup_filter_None. by left.
Qed.

Lemma Forget_others ns name r ns' name' :
  (ns', name') ≠ (ns, name) → same_series ns' name' r (Forget ns name r).
Proof.
  intros Hne. unfold same_series, Forget. simpl.
  split_and!; [by rewrite lookup_delete_ne by congruence..| |]; intros; by rewrite lookup_filter_id.
Qed.

#[global] Instance same_series_preorder ns name : PreOrder (same_series ns name).
Proof.
  split; [done|]. unfold same_series. intros r1 r2 r3 (A1&A2&A3&A4&A5) (B1&B2&B3&B4&B5).
  split_and!; intros; etrans; eauto.
Qed.

(** ** What a pass reports *)

(** Entries that move no series. *)
Definition unmetered (a : action) : Prop :=
  match a with
  | ARecordCluster _ | ARecordUpdateFinished _ _ | ARecordReconcileError _ | AForget _ _ => False
  | _ => True
  end.

Lemma replay_unmetered now l r : Forall unmetered l → replay now l r = r.
Proof.
  unfold replay. intros Hl. revert r. induction Hl as [|a l Ha _ IH]; intros r; simpl; [done|].
  rewrite IH. by destruct a.
Qed.

Lemma replay_app now l1 l2 r : replay now (l1 ++ l2) r = replay now l2 (replay now l1 r).
Proof. apply foldl_app. Qed.

Section metered.
Context {W : Type} `{!KubeClient W, !Interface W} {CD : Codec}.
Context (OperatorNamespace FSImageRegistry : string).
Implicit Types s : Env W pass.

#[local] Instance any_preorder : PreOrder (λ _ _ : pass, True).
Proof. by split. Qed.

(** What the status step reports once the status is stored. *)
Definition closing (o : FSCluster) (a : action) : Prop :=
  match a with
  | ARecordUpdateFinished o' _ => o' = o
  | ARecordReconcileError _ => True
  | _ => False
  end.

(** The log so far: no metric yet; or the status patch, the last call to the
    world, was stored, and reported as the server stored it; or it could not be
    stored, and nothing is reported. *)
Definition quiet_log (p : pass) (l : list action) : Prop := Forall unmetered l.

Definition patched (s : Env W pass) (r : result FSCluster) : Prop :=
  ∃ base o w, APatchStatus base o ∈ e_log s ∧ k_patchStatus base o w = (r, e_world s).

Definition reported (s : Env W pass) : Prop :=
  let p := e_st s in
  (Forall unmetered (e_log s) ∧ ∃ e, patched s (Err e)) ∨
  (∃ l0 l1, e_log s = l0 ++ ARecordCluster (p_object p) :: l1 ∧ Forall unmetered l0 ∧
   Forall (closing (p_object p)) l1 ∧ patched s (Ok (p_object p))).

Lemma store_reports base object (p : pass) s :
  Forall unmetered (e_log s) →
  let m :=
    stored ← wrap_err "update status" (issue (APatchStatus base object) (k_patchStatus base object));
    _ ← put_st (set_object stored);
    _ ← emit (ARecordCluster stored);
    _ ← match st_Update (fsc_Status base), p_update p with
        | Some update, None =>
            match StartedAt update with
            | Some started => emit (ARecordUpdateFinished stored started)
            | None => ret tt
            end
        | _, _ => ret tt
        end;
    _ ← match p_failure p with
        | Some _ => emit (ARecordReconcileError "fscluster")
        | None => ret tt
        end;
    ret Continue in
  reported (m s).2.
Proof.
  intros Hq. unfold put_st, wrap_err, issue, emit, call, reported. msimpl.
  assert (Forall unmetered (e_log s ++ [APatchStatus base object])) as Hq'
    by (apply Forall_app; split; [done|by repeat constructor]).
  assert (APatchStatus base object ∈ e_log s ++ [APatchStatus base object]) as Hin
    by (apply elem_of_app; right; by apply list_elem_of_singleton).
  destruct (k_patchStatus _ _ _) as [[stored|e] w'] eqn:E; simpl; [right|].
  2: { left. split; [done|]. by exists e, base, object, (e_world s). }
  exists (e_log s ++ [APatchStatus base object]).
  destruct (st_Update (fsc_Status base)) as [u|]; [destruct (p_update p); [|destruct (StartedAt u)]|];
    destruct (p_failure p); cbn; rewrite <- ?app_assoc; (eexists; split; [rewrite <- ?app_assoc; reflexivity|]);
    (split; [done|split; [by repeat constructor|]]);
    exists base, object, (e_world s); (split; [|exact E]); cbn [e_log]; rewrite ?elem_of_app, !list_elem_of_singleton; auto.
Qed.

Lemma reconcileStatus_reports s :
  quiet_log (e_st s) (e_log s) → reported (reconcileStatus s).2.
Proof.
  intros Hq. unfold reconcileStatus.
  do 5 (erewrite bind_Ok; [|reflexivity]; cbv beta zeta). by apply store_reports.
Qed.
Lemma working_unmetered a : working a → unmetered a.
Proof. by destruct a. Qed.

Lemma step_unmetered name always (m : M (Env W pass) Outcome) :
  typed_step m → step_ok (inv (λ _, True) quiet_log) (inv (λ _, True) quiet_log) (step_of name always m).
Proof.
  intros Hm. apply (step_ok_frame _ _ _ working keeps_typed); [auto|done|].
  intros p p' l l' _ Hl Hl'. apply Forall_app. split; [done|].
  eapply Forall_impl; [exact Hl'|apply working_unmetered].
Qed.

Lemma step_reports :
  step_ok (inv (λ _, True) quiet_log) (λ _, reported) (step_of "status" true reconcileStatus).
Proof.
  split; [done|]. intros b s out err s' _ [Hq _] Hrun.
  assert (s' = (reconcileStatus s).2) as ->.
  { simpl in Hrun. unfold run_M in Hrun. by destruct (reconcileStatus s) as [[]?]; simplify_eq. }
  by apply reconcileStatus_reports.
Qed.

Lemma quiet_stable : stable env_RecordFailure (inv (λ _, True) quiet_log (W := W)).
Proof. by apply inv_stable. Qed.

Lemma reported_stable : stable env_RecordFailure (λ _, reported).
Proof.
  intros b e s H. unfold reported, patched, env_RecordFailure in *. simpl.
  assert (p_object (RecordFailure e (e_st s)) = p_object (e_st s)) as ->; [|done].
  unfold RecordFailure. by destruct (p_failure _).
Qed.

Lemma pass_reports (object : FSCluster) (w : W) :
  reported (run_pass OperatorNamespace FSImageRegistry object w []).2.
Proof.
  unfold run_pass. rewrite Run_state.
  unfold pipeline, steps_before_nodes, steps_after_drain. cbn [app]. unfold run_loop; cbn [foldl].
  eapply (run_step_ok _ _ (λ _, reported)); [apply reported_stable|apply step_reports|].
  do 16 (eapply run_step_ok; [apply quiet_stable|apply step_unmetered; apply (pipeline_typed OperatorNamespace)|]).
  split; [by apply Forall_nil|done].
Qed.

Lemma replay_closing now o l r : Forall (closing o) l → 
  publishes o r → publishes o (replay now l r) ∧
  ∀ ns name, (ns, name) ≠ (fsc_Namespace o, fsc_Name o) → same_series ns name r (replay now l r).
Proof.
  unfold replay. intros Hl. revert r. induction Hl as [|a l Ha _ IH]; intros r Hr; simpl; [done|].
  assert (Hone : publishes o (replay1 now r a) ∧
    ∀ ns name, (ns, name) ≠ (fsc_Namespace o, fsc_Name o) → same_series ns name r (replay1 now r a)).
  { destruct a; try done. simpl in Ha. subst o0. split; [done|]. intros ns name Hne.
    unfold same_series. simpl. by rewrite lookup_insert_ne by congruence. }
  destruct Hone as [H1 H2]. destruct (IH _ H1) as [H3 H4]. split; [done|]. intros. etrans; eauto.
Qed.

(** C19: The per-cluster series track the objects.  After a reconcile of a cluster
    that is gone, or being deleted, no series of it is left and every other
    cluster's series is as it was.  After a pass, either its status patch, the
    last call it made, was stored, and the series of the cluster say what the
    server stored of it (ready at 1 exactly when its Ready condition is True, the
    phase it is in at 1 and every other declared phase at 0), with every other
    cluster's series as they were; or that patch failed, and the series of every
    cluster are as they were.  (The counter of failed passes belongs to no
    cluster, and is not what this is about: a pass whose status patch failed is
    missing from it, see [Findings.unstored_failure_not_counted].) *)
Theorem metrics_track_objects (now : Z) (namespace name : string) (w : W) (r : registry) :
  let r' := replay now (Reconcile OperatorNamespace FSImageRegistry namespace name w).2.2 r in
  let only (key : string * string) :=
    ∀ ns' name', (ns', name') ≠ key → same_series ns' name' r r' in
  match k_getCluster namespace name w with
  | (Err e, _) => if IsNotFound e then silent namespace name r' ∧ only (namespace, name)
                    else ∀ ns' name', same_series ns' name' r r'
  | (Ok object, w) =>
      if fsc_Deleting object
      then silent (fsc_Namespace object) (fsc_Name object) r' ∧ only (fsc_Namespace object, fsc_Name object)
      else
        let s := (run_pass OperatorNamespace FSImageRegistry object w []).2 in
        let stored := p_object (e_st s) in
        patched s (Ok stored) ∧ publishes stored r' ∧ only (fsc_Namespace stored, fsc_Name stored)
        ∨ (∃ e, patched s (Err e)) ∧ ∀ ns' name', same_series ns' name' r r'
  end.
Proof.
  cbv zeta. unfold Reconcile. destruct (k_getCluster namespace name w) as [[object|e] w1].
  2: { destruct (IsNotFound e); [|done]. split; [apply Forget_silent|]. intros. by apply Forget_others. }
  destruct (fsc_Deleting object).
  { split; [apply Forget_silent|]. intros. by apply Forget_others. }
  pose proof (pass_reports object w1) as H.
  destruct (run_pass _ _ object w1 []) as [res s]. simpl in *.
  destruct H as [[Hq He]|(l0 & l1 & Hl & H0 & H1 & Hp)]; [right; by rewrite replay_unmetered|left].
  split; [done|]. rewrite Hl, replay_app, (replay_unmetered _ l0) by done.
  change (replay now (?a :: ?l) r) with (replay now l (replay1 now r a)). cbn [replay1].
  destruct (replay_closing now _ l1 _ H1 (RecordCluster_publishes _ r)) as [H2 H3].
  split; [done|]. intros. etrans; [by apply RecordCluster_others|auto].
Qed.
End metered.
