(* ===== verification/Main.v ===== *)
(** * The manager's entry point (src/cmd/main.go)

    The namespaces the operator watches, as they are read from the flag and
    handed to the cache; and the wiring of [main], from the flags and the
    environment to a started manager or an exit code. *)

From S2P Require Import Prelude.

(** ** [strings.TrimSpace] and [strings.Split]

    Strings are bytes; the white space of Unicode is listed by its encodings. *)

Definition bytes (codes : list nat) : list ascii := ascii_of_nat <$> codes.

Definition whitespace : list (list ascii) :=
  (λ c, bytes [c]) <$> [9; 10; 11; 12; 13; 32].

Definition unicode_whitespace : list (list ascii) :=
  [bytes [194; 133]; bytes [194; 160]; bytes [225; 154; 128];
   bytes [226; 128; 128]; bytes [226; 128; 129]; bytes [226; 128; 130]; bytes [226; 128; 131];
   bytes [226; 128; 132]; bytes [226; 128; 133]; bytes [226; 128; 134]; bytes [226; 128; 135];
   bytes [226; 128; 136]; bytes [226; 128; 137]; bytes [226; 128; 138]; bytes [226; 128; 168];
   bytes [226; 128; 169]; bytes [226; 128; 175]; bytes [226; 129; 159]; bytes [227; 128; 128]].

Definition spaces : list (list ascii) := whitespace ++ unicode_whitespace.

Fixpoint strip_prefix (p l : list ascii) : option (list ascii) :=
  match p, l with
  | [], _ => Some l
  | a :: p', b :: l' => if bool_decide (a = b) then strip_prefix p' l' else None
  | _, [] => None
  end.

(** Drop the first of [seqs] that [l] starts with, as long as there is one;
    every round drops at least a byte. *)
Fixpoint trim_left (seqs : list (list ascii)) (fuel : nat) (l : list ascii) : list ascii :=
  match fuel with
  | 0 => l
  | S fuel' =>
      match head (omap (λ p, strip_prefix p l) seqs) with
      | Some l' => trim_left seqs fuel' l'
      | None => l
      end
  end.

Definition trim (l : list ascii) : list ascii :=
  let l := trim_left spaces (length l) l in
  reverse (trim_left (reverse <$> spaces) (length l) (reverse l)).

Definition strings_TrimSpace (s : string) : string :=
  String.string_of_list_ascii (trim (String.list_ascii_of_string s)).

Fixpoint strings_Split (s : string) (sep : ascii) : list string :=
  match s with
  | EmptyString => [""]
  | String c s' =>
      if bool_decide (c = sep) then "" :: strings_Split s' sep
      else match strings_Split s' sep with
           | piece :: pieces => String c piece :: pieces
           | [] => [String c ""]
           end
  end.

(** ** The watched namespaces *)

Definition parseNamespaces (flag : string) : list string :=
  slices_Compact (sort_strings
    (filter (λ name, name ≠ "") (strings_TrimSpace <$> strings_Split flag ","))).

(** [cache.Options]: without default namespaces every namespace is cached; an
    empty map would mean none. *)
Record CacheOptions := mkCacheOptions { DefaultNamespaces : option (gmap string unit) }.

Definition namespaceCache (namespaces : list string) : CacheOptions :=
  if bool_decide (length namespaces = 0) then mkCacheOptions None
  else mkCacheOptions (Some (foldl (λ byName name, <[name := tt]> byName) ∅ namespaces)).

(** ** Wiring

    The flags, with the defaults they are declared with. *)

Record Flags := mkFlags {
  metricsAddr : string;
  metricsCertPath : string; metricsCertName : string; metricsCertKey : string;
  webhookCertPath : string; webhookCertName : string; webhookCertKey : string;
  enableLeaderElection : bool;
  probeAddr : string;
  secureMetrics : bool;
  enableHTTP2 : bool;
  fsImageRegistry : string;
  watchNamespaces : string;
}.

Definition defaultFlags (getenv : string → string) : Flags :=
  mkFlags "0" "" "tls.crt" "tls.key" "" "tls.crt" "tls.key" false ":8081" true false
    (getenv "FS_IMAGE_REGISTRY") (getenv "WATCH_NAMESPACES").

Inductive TLSOpt := disableHTTP2.

Record WebhookOptions := mkWebhookOptions {
  wh_TLSOpts : list TLSOpt; wh_CertDir : string; wh_CertName : string; wh_KeyName : string;
}.

(** [ms_FilterProvider]: requests are authenticated and authorized. *)
Record MetricsOptions := mkMetricsOptions {
  ms_BindAddress : string; ms_SecureServing : bool; ms_TLSOpts : list TLSOpt; ms_FilterProvider : bool;
  ms_CertDir : string; ms_CertName : string; ms_KeyName : string;
}.

Record ManagerOptions := mkManagerOptions {
  mo_Cache : CacheOptions;
  mo_Metrics : MetricsOptions;
  mo_WebhookServer : WebhookOptions;
  mo_HealthProbeBindAddress : string;
  mo_LeaderElection : bool;
  mo_LeaderElectionID : string;
}.

(** What [main] asks of the manager, in order. *)
Inductive setup :=
  | NewManager (o : ManagerOptions)
  | SetupFSCluster (OperatorNamespace FSImageRegistry : string)
  | SetupFSBucket
  | SetupFSAccessKey
  | SetupWebhook
  | AddHealthzCheck (name : string)
  | AddReadyzCheck (name : string)
  | Start.

Definition tlsOpts (f : Flags) : list TLSOpt := if enableHTTP2 f then [] else [disableHTTP2].

Definition webhookServerOptions (f : Flags) : WebhookOptions :=
  if bool_decide (webhookCertPath f = "") then mkWebhookOptions (tlsOpts f) "" "" ""
  else mkWebhookOptions (tlsOpts f) (webhookCertPath f) (webhookCertName f) (webhookCertKey f).

Definition metricsServerOptions (f : Flags) : MetricsOptions :=
  if bool_decide (metricsCertPath f = "")
  then mkMetricsOptions (metricsAddr f) (secureMetrics f) (tlsOpts f) (secureMetrics f) "" "" ""
  else mkMetricsOptions (metricsAddr f) (secureMetrics f) (tlsOpts f) (secureMetrics f)
         (metricsCertPath f) (metricsCertName f) (metricsCertKey f).

Definition managerOptions (f : Flags) : ManagerOptions :=
  mkManagerOptions (namespaceCache (parseNamespaces (watchNamespaces f))) (metricsServerOptions f)
    (webhookServerOptions f) (probeAddr f) (enableLeaderElection f) "ff8720af.go-faster.org".

Definition webhookEnabled (f : Flags) (getenv : string → string) : bool :=
  bool_decide (webhookCertPath f ≠ "") && bool_decide (getenv "ENABLE_WEBHOOKS" ≠ "false").

(** The manager answers each call as it likes; a call that fails exits. *)
Class Manager (W : Type) := manager_call : setup → M W unit.

Section main.
Context {W : Type} `{!Manager W}.

Definition attempt (a : setup) : M (W * list setup) unit := λ s,
  let '(r, w) := manager_call a s.1 in (r, (w, s.2 ++ [a])).

Definition main (f : Flags) (getenv : string → string) : M (W * list setup) unit :=
  _ ← attempt (NewManager (managerOptions f));
  _ ← attempt (SetupFSCluster (getenv "POD_NAMESPACE") (fsImageRegistry f));
  _ ← attempt SetupFSBucket;
  _ ← attempt SetupFSAccessKey;
  _ ← (if webhookEnabled f getenv then attempt SetupWebhook else ret tt);
  _ ← attempt (AddHealthzCheck "healthz");
  _ ← attempt (AddReadyzCheck "readyz");
  _ ← (if webhookEnabled f getenv then attempt (AddReadyzCheck "webhook") else ret tt);
  attempt Start.

(** The exit code, and what was asked of the manager. *)
Definition exit_code (r : result unit) : Z := match r with Ok _ => 0 | Err _ => 1 end.
End main.

(** * Theorems *)

(** What the cache of the manager holds. *)
Definition watched (o : CacheOptions) (ns : string) : bool :=
  match DefaultNamespaces o with
  | None => true
  | Some m => bool_decide (is_Some (m !! ns))
  end.

(** ** Trimming *)

Definition starts (seqs : list (list ascii)) (l : list ascii) : Prop := ∃ p, p ∈ seqs ∧ p `prefix_of` l.

Lemma strip_prefix_Some p l l' : strip_prefix p l = Some l' ↔ l = p ++ l'.
Proof.
  revert l. induction p as [|a p IH]; intros l; simpl; [split; intros; congruence|].
  destruct l as [|b l]; [done|]. case_bool_decide as E; [subst b; rewrite IH|]; split; intros; congruence.
Qed.

Lemma trim_left_ok seqs fuel l :
  (∀ p, p ∈ seqs → p ≠ []) → length l ≤ fuel →
  (∃ dropped, l = dropped ++ trim_left seqs fuel l) ∧ ¬ starts seqs (trim_left seqs fuel l).
Proof.
  intros Hne. revert l. induction fuel as [|fuel IH]; intros l Hlen; simpl.
  { destruct l; [|simpl in Hlen; lia]. split; [by exists []|].
    intros (p & Hp & Hpre). apply prefix_nil_inv in Hpre. by apply Hne in Hp. }
  destruct (head (omap (λ p, strip_prefix p l) seqs)) as [l'|] eqn:E.
  - assert (Hin : l' ∈ omap (λ p, strip_prefix p l) seqs).
    { apply head_Some in E as [? ->]. left. }
    apply list_elem_of_omap in Hin as (p & Hp & ->%strip_prefix_Some).
    rewrite length_app in Hlen. pose proof (Hne p Hp) as Hp0. destruct p as [|a p]; [done|].
    destruct (IH l') as [(d & Hd) Hs]; [simpl in Hlen; lia|]. split; [|done].
    exists ((a :: p) ++ d). rewrite <- app_assoc. by f_equal.
  - split; [by exists []|]. intros (p & Hp & l' & Hl).
    assert (Hin : l' ∈ omap (λ p, strip_prefix p l) seqs).
    { apply list_elem_of_omap. exists p. by rewrite strip_prefix_Some. }
    destruct (omap _ seqs); [by apply elem_of_nil in Hin|done].
Qed.

Lemma trim_left_id seqs fuel l : ¬ starts seqs l → trim_left seqs fuel l = l.
Proof.
  intros H. destruct fuel as [|fuel]; [done|]. simpl.
  destruct (head (omap (λ p, strip_prefix p l) seqs)) as [l'|] eqn:E; [|done]. destruct H.
  assert (Hin : l' ∈ omap (λ p, strip_prefix p l) seqs).
  { apply head_Some in E as [? ->]. left. }
  apply list_elem_of_omap in Hin as (p & Hp & ->%strip_prefix_Some). exists p. split; [done|]. by exists l'.
Qed.

(** Neither starts nor ends with white space. *)
Definition trimmed (s : string) : Prop :=
  let l := String.list_ascii_of_string s in ¬ starts spaces l ∧ ¬ starts (reverse <$> spaces) (reverse l).

Lemma spaces_ne p : p ∈ spaces → p ≠ [].
Proof.
  assert (Forall (λ p, p ≠ []) spaces) as H by (unfold spaces; repeat constructor; done).
  rewrite Forall_forall in H. auto.
Qed.

Lemma rev_spaces_ne p : p ∈ reverse <$> spaces → p ≠ [].
Proof.
  intros (q & -> & Hq%spaces_ne)%list_elem_of_fmap. destruct q; [done|].
  rewrite reverse_cons. by destruct (reverse q).
Qed.

(** Trimming drops bytes at the two ends, and leaves none that can be dropped. *)
Lemma TrimSpace_spec s :
  trimmed (strings_TrimSpace s) ∧ ∃ pre post, s = pre +:+ strings_TrimSpace s +:+ post.
Proof.
  unfold strings_TrimSpace, trimmed, trim. rewrite String.list_ascii_of_string_of_list_ascii.
  set (l := String.list_ascii_of_string s).
  destruct (trim_left_ok spaces (length l) l spaces_ne) as [[d Hd] Hl]; [lia|].
  set (m := trim_left spaces (length l) l) in *.
  destruct (trim_left_ok (reverse <$> spaces) (length m) (reverse m) rev_spaces_ne) as [[d' Hd'] Hr];
    [by rewrite length_reverse|].
  set (r := trim_left (reverse <$> spaces) (length m) (reverse m)) in *.
  assert (Hm : m = reverse r ++ reverse d') by by rewrite <- reverse_app, <- Hd', reverse_involutive.
  split.
  - rewrite reverse_involutive. split; [|done]. intros (p & Hp & l' & Hpre).
    apply Hl. exists p. split; [done|]. exists (l' ++ reverse d'). by rewrite app_assoc, <- Hpre.
  - exists (String.string_of_list_ascii d), (String.string_of_list_ascii (reverse d')).
    assert (Happ : ∀ a b, String.string_of_list_ascii (a ++ b)
      = String.string_of_list_ascii a +:+ String.string_of_list_ascii b).
    { induction a as [|x a IH]; intros b; [done|]. simpl. rewrite IH. by rewrite str_app_cons. }
    rewrite <- !Happ, <- Hm, <- Hd. symmetry. apply String.string_of_list_ascii_of_string.
Qed.

Lemma TrimSpace_id s : trimmed s → strings_TrimSpace s = s.
Proof.
  intros [H1 H2]. unfold strings_TrimSpace, trim. rewrite (trim_left_id spaces) by done.
  rewrite trim_left_id by done. rewrite reverse_involutive. apply String.string_of_list_ascii_of_string.
Qed.

(** ** Splitting *)

Lemma Split_no_sep s c piece : piece ∈ strings_Split s c → str_has c piece = false.
Proof.
  revert piece. induction s as [|a s IH]; intros piece; simpl.
  { by intros ->%list_elem_of_singleton. }
  case_bool_decide as E.
  { intros [->|H]%elem_of_cons; [done|by apply IH]. }
  destruct (strings_Split s c) as [|q qs] eqn:Es.
  - intros ->%list_elem_of_singleton. simpl. by rewrite bool_decide_eq_false_2 by congruence.
  - intros [->|H]%elem_of_cons; [|apply IH; by right]. simpl.
    rewrite bool_decide_eq_false_2 by congruence. apply IH. left.
Qed.

Lemma Split_app s c rest : str_has c s = false → strings_Split (s +:+ String c rest) c = s :: strings_Split rest c.
Proof.
  induction s as [|a s IH]; intros H.
  { change ("" +:+ String c rest) with (String c rest). simpl. by rewrite bool_decide_eq_true_2. }
  simpl in H. apply orb_false_iff in H as [Ha%bool_decide_eq_false H].
  rewrite str_app_cons. simpl. rewrite bool_decide_eq_false_2 by congruence. by rewrite IH.
Qed.

Lemma Split_single s c : str_has c s = false → strings_Split s c = [s].
Proof.
  induction s as [|a s IH]; intros H; simpl; [done|].
  simpl in H. apply orb_false_iff in H as [Ha%bool_decide_eq_false H].
  rewrite bool_decide_eq_false_2 by congruence. by rewrite IH.
Qed.

Lemma Split_Join l :
  l ≠ [] → Forall (λ s, str_has "," s = false) l → strings_Split (strings_Join l ",") "," = l.
Proof.
  intros Hne Hl. induction Hl as [|s l Hs Hl IH]; [done|]. unfold strings_Join in *. simpl.
  destruct l as [|t l]; [by apply Split_single|].
  change (String.concat "," (t :: l)) with (String.concat "," (t :: l)) in *.
  change (s ++ "," ++ ?x)%string with (s +:+ String "," x). rewrite Split_app by done. by rewrite IH.
Qed.

(** ** The set of namespaces a flag names *)

Definition name_lt : relation string := strict String.le.

Lemma parseNamespaces_sorted flag : StronglySorted name_lt (parseNamespaces flag).
Proof. apply slices_Compact_strict; [apply _|apply sort_strings_sorted]. Qed.

Lemma elem_of_parseNamespaces flag n :
  n ∈ parseNamespaces flag ↔ n ≠ "" ∧ ∃ piece, piece ∈ strings_Split flag "," ∧ n = strings_TrimSpace piece.
Proof.
  unfold parseNamespaces. rewrite slices_Compact_elem, sort_strings_perm, list_elem_of_filter, list_elem_of_fmap.
  naive_solver.
Qed.

(** A name as it can appear: what a piece of the list is once trimmed. *)
Definition nameable (n : string) : Prop := n ≠ "" ∧ trimmed n ∧ str_has "," n = false.

Lemma parseNamespaces_nameable flag : Forall nameable (parseNamespaces flag).
Proof.
  apply Forall_forall. intros n (Hne & piece & Hp & ->)%elem_of_parseNamespaces.
  destruct (TrimSpace_spec piece) as [Ht (pre & post & Heq)]. split; [done|]. split; [done|].
  apply Split_no_sep in Hp. rewrite Heq, !str_has_app in Hp.
  apply orb_false_iff in Hp as [_ Hp]. by apply orb_false_iff in Hp as [? _].
Qed.

Lemma parse_Join names :
  StronglySorted name_lt names → Forall nameable names → parseNamespaces (strings_Join names ",") = names.
Proof.
  intros Hs Hn. destruct (decide (names = [])) as [->|Hne]; [done|].
  apply (strict_sorted_ext name_lt); [apply parseNamespaces_sorted|done|]. intros n.
  rewrite elem_of_parseNamespaces, Split_Join; [|done|by eapply Forall_impl; [exact Hn|]; intros ? (_ & _ & ?)].
  rewrite Forall_forall in Hn. split.
  - intros (_ & piece & Hp & ->). destruct (Hn _ Hp) as (_ & Ht & _). by rewrite TrimSpace_id.
  - intros Hin. destruct (Hn _ Hin) as (? & ? & _). split; [done|]. exists n. by rewrite TrimSpace_id.
Qed.

Lemma namespaceCache_watched names n :
  watched (namespaceCache names) n = true ↔ names = [] ∨ n ∈ names.
Proof.
  unfold namespaceCache, watched. destruct names as [|x names]; [simpl; naive_solver|].
  rewrite bool_decide_eq_false_2 by done. cbn [DefaultNamespaces]. rewrite bool_decide_eq_true.
  assert (H : ∀ l (m : gmap string unit), is_Some (foldl (λ byName name, <[name := tt]> byName) m l !! n)
    ↔ is_Some (m !! n) ∨ n ∈ l).
  { induction l as [|y l IH]; intros m; simpl; [set_solver|]. rewrite IH, lookup_insert_is_Some, elem_of_cons.
    destruct (decide (y = n)); naive_solver. }
  rewrite H, lookup_empty, is_Some_alt. naive_solver.
Qed.

(** The watched namespaces are the set the flag names: each name once and in
    order; a namespace is one of them exactly when it is a comma-separated
    piece of the flag, trimmed of white space and not empty; printed back with
    commas the list parses to itself; and the manager's cache covers exactly
    them, or every namespace when there is none. *)
Theorem watched_namespaces (flag : string) :
  let names := parseNamespaces flag in
  StronglySorted name_lt names ∧
  (∀ n, n ∈ names ↔ n ≠ "" ∧ ∃ piece, piece ∈ strings_Split flag "," ∧ n = strings_TrimSpace piece) ∧
  parseNamespaces (strings_Join names ",") = names ∧
  (∀ n, watched (namespaceCache names) n = true ↔ names = [] ∨ n ∈ names).
Proof.
  cbv zeta. split_and!.
  - apply parseNamespaces_sorted.
  - apply elem_of_parseNamespaces.
  - apply parse_Join; [apply parseNamespaces_sorted|apply parseNamespaces_nameable].
  - apply namespaceCache_watched.
Qed.

Example parse_tolerates : parseNamespaces "a, b,,a" = ["a"; "b"].
Proof. reflexivity. Qed.

(** ** A started manager *)

Section started.
Context {W : Type} `{!Manager W}.

(** Everything asked of a manager that starts, in order. *)
Definition complete (f : Flags) (getenv : string → string) : list setup :=
  [NewManager (managerOptions f); SetupFSCluster (getenv "POD_NAMESPACE") (fsImageRegistry f);
   SetupFSBucket; SetupFSAccessKey]
  ++ (if webhookEnabled f getenv then [SetupWebhook] else [])
  ++ [AddHealthzCheck "healthz"; AddReadyzCheck "readyz"]
  ++ (if webhookEnabled f getenv then [AddReadyzCheck "webhook"] else [])
  ++ [Start].

(** Membership in a list that is written out. *)
Ltac member := first
  [ done
  | let x := fresh in let Hx := fresh in
    intros x Hx; repeat (apply elem_of_cons in Hx as [->|Hx]; [member|]); by apply elem_of_nil in Hx
  | by repeat constructor
  | repeat match goal with
           | H : _ ∈ _ :: _ |- _ => apply elem_of_cons in H as [H|H]; [done|]
           | H : _ ∈ [] |- _ => by apply elem_of_nil in H
           end ].

Lemma attempts (l : list setup) (s : W * list setup) :
  let x := forM_ l attempt s in
  ∃ asked, x.2.2 = s.2 ++ asked ∧ asked `prefix_of` l ∧ (x.1 = Ok tt → asked = l).
Proof.
  cbv zeta. revert s. induction l as [|a l IH]; intros [w log]; simpl.
  { exists []. by rewrite app_nil_r. }
  unfold mbind, M_bind. destruct (attempt a (w, log)) as [r s1] eqn:E.
  assert (s1.2 = log ++ [a]) as Hs.
  { unfold attempt in E. destruct (manager_call a _) in E. by simplify_eq/=. }
  destruct r as [[]|e]; simpl.
  - destruct (IH s1) as (asked & -> & Hp & Hok). exists (a :: asked). rewrite Hs, <- app_assoc.
    split_and!; [done|by apply prefix_cons|intros; f_equal; auto].
  - exists [a]. split_and!; [done|by apply prefix_cons, prefix_nil|done].
Qed.

Lemma main_attempts f getenv (s : W * list setup) : main f getenv s = forM_ (complete f getenv) attempt s.
Proof.
  unfold main, complete. destruct (webhookEnabled f getenv); cbn [app forM_].
  all: unfold mbind, M_bind, ret.
  all: repeat (match goal with |- context [attempt ?a ?s] => destruct (attempt a s) as [[[]|] ?]; try done end).
Qed.

(** The manager is started only once everything it serves is registered: a
    run of [main] asks for the steps in order and stops with code 1 at the
    first that fails, so code 0 means all were done, and a manager that was
    asked to start has the three controllers, both probes and, exactly when it
    was given a certificate and the webhook was not switched off, the webhook
    together with the readiness check that waits for it. *)
Theorem main_starts_registered (f : Flags) (getenv : string → string) (w : W) :
  let '(r, (_, asked)) := main f getenv (w, []) in
  asked `prefix_of` complete f getenv ∧
  (exit_code r = 0%Z → asked = complete f getenv) ∧
  (Start ∈ asked → ∃ before, asked = before ++ [Start] ∧
     [SetupFSCluster (getenv "POD_NAMESPACE") (fsImageRegistry f); SetupFSBucket; SetupFSAccessKey;
      AddHealthzCheck "healthz"; AddReadyzCheck "readyz"] ⊆ before ∧
     (SetupWebhook ∈ before ↔ webhookCertPath f ≠ "" ∧ getenv "ENABLE_WEBHOOKS" ≠ "false") ∧
     (AddReadyzCheck "webhook" ∈ before ↔ SetupWebhook ∈ before)).
Proof.
  pose proof (attempts (complete f getenv) (w, [])) as (asked & Hl & Hp & Hok).
  rewrite main_attempts. destruct (forM_ _ _ _) as [r [w' log]]. simpl in *. subst log.
  split; [done|]. split; [destruct r as [[]|]; [auto|done]|]. intros Hin.
  assert (asked = complete f getenv) as ->.
  { destruct Hp as [rest Hrest]. destruct rest as [|x rest _] using rev_ind; [by rewrite Hrest, app_nil_r|].
    exfalso. rewrite app_assoc in Hrest. unfold complete in Hrest. rewrite !app_assoc in Hrest.
    apply app_inj_2 in Hrest as [Hrest _]; [|done].
    assert (Start ∈ asked ++ rest) as H by set_solver. rewrite <- Hrest in H.
    destruct (webhookEnabled f getenv); set_solver. }
  assert (Hw : webhookEnabled f getenv = true ↔ webhookCertPath f ≠ "" ∧ getenv "ENABLE_WEBHOOKS" ≠ "false").
  { unfold webhookEnabled. by rewrite andb_true_iff, !bool_decide_eq_true. }
  unfold complete. rewrite !app_assoc. eexists. split; [reflexivity|]. rewrite <- Hw.
  destruct (webhookEnabled f getenv); cbn [app];
    (split_and!; [|split; [intros H|intros H]|split; [intros H|intros H]]); member.
Qed.
End started.
