(* ===== verification/Wiring.v ===== *)
(** * How the controllers are wired

    What each controller watches ([SetupWithManager] of the three reconcilers),
    the admission webhook's registration
    (src/internal/webhook/v1alpha1/fscluster_webhook.go) and the scheme the
    manager knows kinds by (src/api/v1alpha1/groupversion_info.go, the [init]
    functions of *_types.go and of cmd/main.go).

    How a watch turns events into requests is controller-runtime's: the class
    [Runtime] states what it documents.  The theorems follow a change of a
    credential through the watches of two controllers. *)

From S2P Require Import Prelude.
From S2P Require Import ApiTypes.
From S2P Require Import Defaults.
From S2P Require Import Nodes.
From S2P Require Import FsClient.
From S2P Require Import Kube.
From S2P Require Import Config.
From S2P Require Import Builders.
From S2P Require Import Pass.
From S2P Require Import Controller.
From S2P Require Import Ready.
From S2P Require Import KeyController.

(** ** The scheme *)

Record GroupVersion := mkGroupVersion { gv_Group : string; gv_Version : string }.
Definition SchemeGroupVersion : GroupVersion := mkGroupVersion "fs.go-faster.org" "v1alpha1".

(** The kinds a scheme knows: group, version, kind. *)
Definition Scheme : Type := gset (string * string * string).
Definition gvk (gv : GroupVersion) (kind : string) : string * string * string := (gv_Group gv, gv_Version gv, kind).
Definition AddKnownTypes (gv : GroupVersion) (kinds : list string) (s : Scheme) : Scheme :=
  s ∪ list_to_set (gvk gv <$> kinds).

(** The functions client-go and apimachinery add their own kinds with. *)
Class Machinery := {
  metav1_AddToGroupVersion : GroupVersion → Scheme → Scheme;
  clientgoscheme_AddToScheme : Scheme → result Scheme;
}.

Section scheme.
Context `{!Machinery}.

(** [SchemeBuilder], a list of functions, with what each file's [init]
    registers, in the order of the files. *)
Definition SchemeBuilder : list (Scheme → result Scheme) :=
  [λ s, Ok (metav1_AddToGroupVersion SchemeGroupVersion s);
   λ s, Ok (AddKnownTypes SchemeGroupVersion ["FSAccessKey"; "FSAccessKeyList"] s);
   λ s, Ok (AddKnownTypes SchemeGroupVersion ["FSBucket"; "FSBucketList"] s);
   λ s, Ok (AddKnownTypes SchemeGroupVersion ["FSCluster"; "FSClusterList"] s)].

Definition AddToScheme (s : Scheme) : result Scheme := foldl (λ r f, r ≫= f) (Ok s) SchemeBuilder.

(** The manager's scheme; [utilruntime.Must] panics on an error. *)
Definition main_scheme : result Scheme :=
  match clientgoscheme_AddToScheme ∅ ≫= AddToScheme with
  | Ok s => Ok s
  | Err _ => Err go_panic
  end.
End scheme.

(** ** Controllers *)

(** An object that changed: its kind, who controls it, and the object itself
    where a map function looks inside. *)
Record Event := mkEvent {
  ev_Kind : string;
  ev_Namespace : string;
  ev_Name : string;
  ev_Controller : option (string * string);
  ev_Key : option FSAccessKey;
}.

Definition request : Type := string * string.

Section wiring.
Context {W : Type} `{!KubeClient W}.

(** What the builder of controller-runtime collects. *)
Record ControllerBuilder := mkControllerBuilder {
  cb_For : string;
  cb_Owns : list string;
  cb_Watches : list (string * (Event → W → list request));
  cb_Named : string;
}.

Definition NewControllerManagedBy : ControllerBuilder := mkControllerBuilder "" [] [] "".
Definition For (kind : string) (b : ControllerBuilder) :=
  mkControllerBuilder kind (cb_Owns b) (cb_Watches b) (cb_Named b).
Definition Owns (kind : string) (b : ControllerBuilder) :=
  mkControllerBuilder (cb_For b) (cb_Owns b ++ [kind]) (cb_Watches b) (cb_Named b).
Definition Watches (kind : string) (f : Event → W → list request) (b : ControllerBuilder) :=
  mkControllerBuilder (cb_For b) (cb_Owns b) (cb_Watches b ++ [(kind, f)]) (cb_Named b).
Definition Named (name : string) (b : ControllerBuilder) :=
  mkControllerBuilder (cb_For b) (cb_Owns b) (cb_Watches b) name.

(** The map functions: the type assertion, and the namespace and name of the
    Secret. *)
Definition map_accessKey (e : Event) (w : W) : list request :=
  match ev_Key e with Some key => accessKeyToCluster key | None => [] end.
Definition map_importedSecret (e : Event) (w : W) : list request :=
  importedSecretToKeys (ev_Namespace e) (ev_Name e) w.

Definition fscluster_SetupWithManager : ControllerBuilder :=
  Named "fscluster" (Watches "FSAccessKey" map_accessKey
    (Owns "Service" (Owns "Secret" (Owns "StatefulSet" (For "FSCluster" NewControllerManagedBy))))).

Definition fsbucket_SetupWithManager : ControllerBuilder :=
  Named "fsbucket" (For "FSBucket" NewControllerManagedBy).

Definition fsaccesskey_SetupWithManager : ControllerBuilder :=
  Named "fsaccesskey" (Watches "Secret" map_importedSecret
    (Owns "Secret" (For "FSAccessKey" NewControllerManagedBy))).

Definition controllers : list ControllerBuilder :=
  [fscluster_SetupWithManager; fsbucket_SetupWithManager; fsaccesskey_SetupWithManager].

(** *** The webhook *)

Definition groupKind : string * string := (gv_Group SchemeGroupVersion, "FSCluster").

(** The kind a webhook is registered for, and with which validator. *)
Inductive validator := FSClusterValidator.
Definition SetupFSClusterWebhookWithManager : string * validator := ("FSCluster", FSClusterValidator).

(** ** What controller-runtime does with them

    An event on an object asks for the object itself where the controller is
    for its kind, for its controller owner where that is of the controller's
    kind and the object of a kind it owns, and for what the map functions
    say. *)
Class Runtime := {
  requests : ControllerBuilder → Event → W → list request;
  requests_spec : ∀ c e w r, r ∈ requests c e w ↔
    (ev_Kind e = cb_For c ∧ r = (ev_Namespace e, ev_Name e)) ∨
    (ev_Kind e ∈ cb_Owns c ∧ ∃ owner, ev_Controller e = Some (cb_For c, owner) ∧ r = (ev_Namespace e, owner)) ∨
    (∃ f, (ev_Kind e, f) ∈ cb_Watches c ∧ r ∈ f e w);
}.
End wiring.

(** * Theorems *)

(** ** The scheme *)

(** Whatever the other packages add, once the manager has its scheme it knows
    the kinds of this API with their lists, those its controllers are for among
    them. *)
Theorem main_scheme_knows {W} `{!KubeClient W, !Machinery} s0 :
  (∀ gv s, s ⊆ metav1_AddToGroupVersion gv s) → clientgoscheme_AddToScheme ∅ = Ok s0 →
  ∃ s, main_scheme = Ok s ∧ s0 ⊆ s ∧
    (∀ kind, kind ∈ ["FSCluster"; "FSBucket"; "FSAccessKey"] →
       gvk SchemeGroupVersion kind ∈ s ∧ gvk SchemeGroupVersion (kind +:+ "List") ∈ s) ∧
    (∀ c, c ∈ controllers (W := W) → gvk SchemeGroupVersion (cb_For c) ∈ s).
Proof.
  intros Hm H0. unfold main_scheme. rewrite H0. cbn [mbind result_bind AddToScheme SchemeBuilder foldl].
  eexists. split; [reflexivity|]. pose proof (Hm SchemeGroupVersion s0) as Hs.
  assert (∀ kind, kind ∈ ["FSCluster"; "FSBucket"; "FSAccessKey"] →
    gvk SchemeGroupVersion kind ∈ AddKnownTypes SchemeGroupVersion ["FSCluster"; "FSClusterList"]
      (AddKnownTypes SchemeGroupVersion ["FSBucket"; "FSBucketList"]
        (AddKnownTypes SchemeGroupVersion ["FSAccessKey"; "FSAccessKeyList"] (metav1_AddToGroupVersion SchemeGroupVersion s0))) ∧
    gvk SchemeGroupVersion (kind +:+ "List") ∈ AddKnownTypes SchemeGroupVersion ["FSCluster"; "FSClusterList"]
      (AddKnownTypes SchemeGroupVersion ["FSBucket"; "FSBucketList"]
        (AddKnownTypes SchemeGroupVersion ["FSAccessKey"; "FSAccessKeyList"] (metav1_AddToGroupVersion SchemeGroupVersion s0))))
    as Hk.
  { intros kind. unfold AddKnownTypes. rewrite !elem_of_cons.
    intros [->|[->|[->|[]%elem_of_nil]]]; simpl; set_solver. }
  split_and!; [unfold AddKnownTypes; set_solver|exact Hk|].
  intros c. unfold controllers. rewrite !elem_of_cons. intros [->|[->|[->|[]%elem_of_nil]]]; apply Hk; simpl; set_solver.
Qed.

(** ** From an event to a reconcile *)

Section wiring.
Context {W : Type} `{!KubeClient W, !Interface W, !KeyClient W, !Codec} {RT : Runtime (W := W)}.
Implicit Types s : Env W FSAccessKey.

(** What a pass creates and the controller owns wakes it again when it changes
    or goes: StatefulSets, Secrets and Services. *)
Lemma owned_wakes kind ns name cluster w : kind ∈ ["StatefulSet"; "Secret"; "Service"] →
  (ns, cluster) ∈ requests fscluster_SetupWithManager (mkEvent kind ns name (Some ("FSCluster", cluster)) None) w.
Proof. intros Hk. apply requests_spec. right. left. split; [simpl; set_solver|]. by exists cluster. Qed.

Lemma secret_wakes_keys ns name owner w items key :
  (k_listKeys ns w).1 = Ok items → key ∈ items → ExistingSecretRef (ak_Spec key) = Some name →
  (ak_Namespace key, ak_Name key) ∈ requests fsaccesskey_SetupWithManager (mkEvent "Secret" ns name owner None) w.
Proof.
  intros Hl Hin Hr. apply requests_spec. right. right. exists map_importedSecret. split; [simpl; set_solver|].
  unfold map_importedSecret, importedSecretToKeys. simpl. rewrite Hl. apply list_elem_of_fmap.
  exists key. split; [done|]. by apply list_elem_of_filter.
Qed.

Lemma key_wakes_cluster key w : ref_Name (ks_ClusterRef (ak_Spec key)) ≠ "" →
  (ak_Namespace key, ref_Name (ks_ClusterRef (ak_Spec key))) ∈
  requests fscluster_SetupWithManager (mkEvent "FSAccessKey" (ak_Namespace key) (ak_Name key) None (Some key)) w.
Proof.
  intros Hn. apply requests_spec. right. right. exists map_accessKey. split; [simpl; set_solver|].
  unfold map_accessKey, accessKeyToCluster. simpl. rewrite bool_decide_eq_false_2 by done. left.
Qed.

(** ** What a reconcile of a key writes *)

(** A usable Secret is read and nothing is written. *)
Lemma resolveCredential_reads s secret w1 :
  k_getSecret (ak_Namespace (e_st s)) (AccessKeySecretSource (e_st s)) (e_world s) = (Ok secret, w1) →
  (halves secret).1 ≠ "" → MinSecretKeyLength ≤ String.length (halves secret).2 →
  resolveCredential s = (Ok (inl (halves secret)), mkEnv w1 (e_log s) (e_st s)).
Proof.
  intros Hs H1 H2. assert ((halves secret).2 ≠ "") as H3 by (intros E; rewrite E in H2; unfold MinSecretKeyLength in H2; simpl in H2; lia).
  unfold AccessKeySecretSource, ref_or in Hs. unfold halves in *. simpl in H1, H2, H3.
  unfold resolveCredential, readImported, ensureGenerated, mbind, M_bind, get_st, gets, try. cbv beta iota zeta.
  destruct (ExistingSecretRef (ak_Spec (e_st s))) as [name|]; [case_bool_decide|]; rewrite call_eq, Hs; cbn [fst snd];
    rewrite !bool_decide_eq_false_2 by done; cbn [orb]; [|done|done].
  by rewrite (proj2 (Nat.ltb_ge _ _) H2).
Qed.

(** A patch of an object's status by the condition and the access key a
    reconcile arrived at, or the metric of a failed reconcile. *)
Definition only_status (a : action) : Prop :=
  match a with
  | APatchKeyStatus base k' => ∃ access cond, k' = key_status access cond base
  | ARecordReconcileError _ => True
  | _ => False
  end.

#[local] Instance any_preorder : PreOrder (λ _ _ : FSAccessKey, True).
Proof. by split. Qed.

(** What follows the stamp writes nothing but the status. *)
Lemma resp_verify_report access s :
  resp (env_rel only_status (λ _ _ : FSAccessKey, True))
    (y ← verifyAccepted access;
     let '(cond, requeue) := y in
     after ← key_report access cond;
     ret (if (requeue : bool) && (after =? 0)%Z then requeueAfterPending else after)) s.
Proof.
  rstep; [unfold verifyAccepted; rstep; [apply resp_nodeKeys, _|rsolve]|]. destruct a as [cond requeue].
  unfold key_report. rsolve_all; simpl; eauto.
Qed.

Definition stamped (hash : string) (key : FSAccessKey) : FSAccessKey :=
  ak_set_Annotations key (<[credentialHashAnnotation := hash]> (ak_Annotations key)).

Lemma key_body_stamp s secret w1 :
  ak_Deleting (e_st s) = false → ContainsFinalizer (ak_Finalizers (e_st s)) accessKeyFinalizer = true →
  k_getSecret (ak_Namespace (e_st s)) (AccessKeySecretSource (e_st s)) (e_world s) = (Ok secret, w1) →
  (halves secret).1 ≠ "" → MinSecretKeyLength ≤ String.length (halves secret).2 →
  let hash := credentialHash (halves secret).1 (halves secret).2 in
  ∃ l, e_log (key_body s).2 = e_log s
         ++ (if bool_decide (default "" (ak_Annotations (e_st s) !! credentialHashAnnotation) = hash) then []
             else [APatchKey (e_st s) (stamped hash (e_st s))]) ++ l ∧
       Forall only_status l.
Proof.
  intros Hd Hf Hs H1 H2 hash. unfold key_body, key_ensure_finalizer. unfold mbind at 1, M_bind at 1, get_st at 1, gets at 1.
  cbv beta iota. rewrite Hd. unfold mbind at 1, M_bind at 1. unfold mbind at 1, M_bind at 1, get_st at 1, gets at 1.
  cbv beta iota. rewrite Hf. unfold ret at 1. unfold mbind at 1, M_bind at 1.
  rewrite (resolveCredential_reads s secret w1 Hs H1 H2). unfold halves at 1. cbv beta iota.
  fold (halves secret). change (default "" (sec_Data secret !! AccessKeyKey)) with (halves secret).1.
  change (default "" (sec_Data secret !! SecretKeyKey)) with (halves secret).2. fold hash.
  unfold mbind at 1, M_bind at 1. unfold stampCredentialHash. unfold mbind at 1, M_bind at 1, get_st at 1, gets at 1.
  cbn [e_st e_log e_world]. case_bool_decide as Ha.
  - unfold ret at 1. cbv beta iota.
    destruct (resp_verify_report (halves secret).1 (mkEnv w1 (e_log s) (e_st s))) as [(l & Hl & Hf') _].
    exists l. split; [exact Hl|exact Hf'].
  - unfold put_st, modify. unfold mbind at 1, M_bind at 1. cbv beta iota zeta. unfold mbind at 1, M_bind at 1.
    unfold wrap_err. rewrite issue_eq. cbn [e_world e_log e_st]. fold (stamped hash (e_st s)).
    destruct (key_patch _ _ w1) as [[k'|e] w2]; [|by exists []; split; [rewrite app_nil_r|constructor]].
    cbn [e_world e_log e_st].
    destruct (resp_verify_report (halves secret).1 (mkEnv w2 (e_log s ++ [APatchKey (e_st s) (stamped hash (e_st s))]) k'))
      as [(l & Hl & Hf') _].
    exists l. split; [|exact Hf']. rewrite app_assoc. exact Hl.
Qed.

(** C11: A rotation of an imported Secret reaches the cluster that renders it.
    An event on the Secret asks for every key of the namespace that imports it.
    The reconcile of such a key, past its finalizer, with a usable credential in
    the Secret, patches the object with the credential's fingerprint exactly when
    the object does not carry it already, before anything else and once; and the
    event that patch makes asks the FSCluster controller for the key's cluster.
    Apart from that fingerprint the reconcile writes nothing but the status of
    the object (and counts a failed reconcile): with the fingerprint in place,
    only the status. *)
Theorem rotation_reaches_cluster (ns name : string) (owner : option (string * string)) (w w1 w2 w3 : W)
    (items : list FSAccessKey) (key : FSAccessKey) (secret : Secret) :
  (k_listKeys ns w).1 = Ok items → key ∈ items → ExistingSecretRef (ak_Spec key) = Some name → name ≠ "" →
  key_get (ak_Namespace key) (ak_Name key) w1 = (Ok key, w2) →
  ak_Deleting key = false → ContainsFinalizer (ak_Finalizers key) accessKeyFinalizer = true →
  k_getSecret (ak_Namespace key) name w2 = (Ok secret, w3) →
  (halves secret).1 ≠ "" → MinSecretKeyLength ≤ String.length (halves secret).2 →
  let hash := credentialHash (halves secret).1 (halves secret).2 in
  let patched := stamped hash key in
  let log := (key_Reconcile (ak_Namespace key) (ak_Name key) w1).2.2 in
  let cluster := ref_Name (ks_ClusterRef (ak_Spec key)) in
  (ak_Namespace key, ak_Name key) ∈ requests fsaccesskey_SetupWithManager (mkEvent "Secret" ns name owner None) w ∧
  (if bool_decide (default "" (ak_Annotations key !! credentialHashAnnotation) = hash)
   then Forall only_status log
   else ∃ l, log = APatchKey key patched :: l ∧ Forall only_status l) ∧
  ak_Annotations patched !! credentialHashAnnotation = Some hash ∧
  (cluster ≠ "" → ∀ w', (ak_Namespace patched, cluster) ∈
     requests fscluster_SetupWithManager (mkEvent "FSAccessKey" (ak_Namespace key) (ak_Name key) None (Some patched)) w').
Proof.
  intros Hl Hin Hr Hn Hg Hd Hf Hs H1 H2 hash patched log cluster.
  split; [by eapply secret_wakes_keys|]. split; [|split; [apply lookup_insert_eq|intros Hc w'; by apply (key_wakes_cluster patched)]].
  destruct (key_body_stamp (mkEnv w2 [] key) secret w3) as (l & Hlog & Hp); [done|done| |done|done|].
  { unfold AccessKeySecretSource, ref_or. simpl. rewrite Hr. by rewrite bool_decide_eq_true_2. }
  cbn [e_log e_st app] in Hlog. fold hash in Hlog. fold patched in Hlog.
  assert (∃ l', log = e_log (key_body (mkEnv w2 [] key)).2 ++ l' ∧ Forall only_status l') as (l' & -> & Hl').
  { unfold log, key_Reconcile. rewrite Hg. destruct (key_body (mkEnv w2 [] key)) as [[a|e] s].
    - exists []. by rewrite app_nil_r.
    - exists [ARecordReconcileError "fsaccesskey"]. split; [done|]. by repeat constructor. }
  rewrite Hlog. case_bool_decide; [by apply Forall_app|]. exists (l ++ l'). split; [done|by apply Forall_app].
Qed.
End wiring.
