(* ===== verification/Revocation.v ===== *)
(** * Deleting an access key

    Deleting an FSAccessKey is revoking its credential, and it takes both
    controllers: fscluster leaves a key that is being deleted out of what it
    renders (accesskeys.go), the nodes reload, and fsaccesskey_controller.go
    removes the finalizer once no node lists the credential.  [KeyController] says
    that the object never goes earlier; here it does go. *)

From S2P Require Import Prelude.
From S2P Require Import ApiTypes.
From S2P Require Import Defaults.
From S2P Require Import Nodes.
From S2P Require Import FsClient.
From S2P Require Import Kube.
From S2P Require Import Course.
From S2P Require Import Config.
From S2P Require Import Builders.
From S2P Require Import Pass.
From S2P Require Import Controller.
From S2P Require Import Ready.
From S2P Require Import KeyController.
From S2P Require Import Wiring.

Section revocation.
Context {W : Type} `{!KubeClient W, !Interface W, !KeyClient W, !Codec} {RT : Runtime (W := W)}.
Implicit Types s : Env W FSAccessKey.
#[local] Existing Instance kube_in_key.
#[local] Existing Instance admin_in_key.

(** ** What the cluster renders *)

(** No access key that stays has the credential. *)
Definition sole (cluster : FSCluster) (items : list FSAccessKey) (access : string) : Prop :=
  ∀ ak w secret w', ak ∈ items → ak_Deleting ak = false →
    k_getSecret (fsc_Namespace cluster) (AccessKeySecretSource ak) w = (Ok secret, w') → (halves secret).1 ≠ access.

Lemma revoked_not_rendered {P} cluster items access (s s' : Env W P) keys :
  (k_listKeys (fsc_Namespace cluster) (e_world s)).1 = Ok items → sole cluster items access →
  collectAccessKeys cluster s = (Ok keys, s') → access ∉ AccessKey <$> keys.
Proof.
  unfold collectAccessKeys, wrap_err, call. unfold mbind, M_bind.
  destruct (k_listKeys _ _) as [r w']. intros [= ->] Hsole. simpl.
  destruct (resolveKeys cluster items _) as [[ks|e] s1] eqn:E; [|done].
  intros [= <- _] (k & -> & Hk)%list_elem_of_fmap. apply resolveKeys_spec in E as [_ [E _]].
  rewrite sort_by_perm in Hk. apply E in Hk as (ak & Hin & _ & Hd & _ & _ & _ & secret & (w & w2 & _ & Hg & _) & Ha & _).
  apply (Hsole ak w secret w2 Hin Hd Hg). unfold halves. by rewrite Ha.
Qed.

(** ** What the key's reconcile finds *)

(** From [w0] on, the nodes list no access key but these. *)
Definition nodes_accept (w0 : W) (ns cluster : string) (accepted : list string) : Prop :=
  ∀ w name token listing w', later key_step w0 w →
    adm_AccessKeys (AdminURL cluster ns name) token w = (Ok listing, w') → listing ⊆ accepted.

Lemma list_nodes_reaches cluster token nodes found s :
  (∀ url t (w : W), is_ok (adm_Client url t w).1 = true) →
  ∃ found' s', list_nodes cluster token nodes found s = (Ok (inl found'), s').
Proof.
  intros Hc. revert found s. induction nodes as [|node nodes IH]; intros found s; simpl; [by eexists _, _|].
  unfold mbind at 1, M_bind at 1, try. rewrite call_eq.
  specialize (Hc (AdminURL (fsc_Name cluster) (fsc_Namespace cluster) (node_Name node)) token (e_world s)).
  destruct (adm_Client _ _ _) as [[|] w1]; [|done].
  unfold mbind at 1, M_bind at 1. rewrite call_eq. destruct (adm_AccessKeys _ _ _). apply IH.
Qed.

(** The key's cluster can be read, has nodes, and its admin token too. *)
Definition in_reach (key : FSAccessKey) (w : W) : Prop :=
  ∃ c w1 secret w2,
    k_getCluster (ak_Namespace key) (ref_Name (ks_ClusterRef (ak_Spec key))) w = (Ok c, w1) ∧ Nodes c ≠ [] ∧
    k_getSecret (fsc_Namespace c) (AdminTokenSecretName (fsc_Name c)) w1 = (Ok secret, w2) ∧
    default "" (sec_Data secret !! AdminTokenKey) ≠ "".

Lemma nodeKeys_reaches s :
  (∀ url t (w : W), is_ok (adm_Client url t w).1 = true) → in_reach (e_st s) (e_world s) →
  ∃ found s', nodeKeys s = (Ok (inl found), s').
Proof.
  intros Hc (c & w1 & secret & w2 & Hg & Hn & Hs & Ht). unfold nodeKeys.
  rewrite (bind_Ok _ _ _ _ _ (eq_refl : get_st s = (Ok (e_st s), s))). cbv zeta.
  unfold mbind at 1, M_bind at 1, try at 1. rewrite call_eq, Hg. destruct (Nodes c) as [|node nodes] eqn:En; [done|].
  unfold mbind at 1, M_bind at 1, try at 1, key_adminToken. unfold mbind at 1, M_bind at 1. cbv zeta. rewrite call_eq.
  cbn [e_world]. rewrite Hs. rewrite bool_decide_eq_false_2 by done. by apply list_nodes_reaches.
Qed.

Lemma accepted_somewhere_inv found access :
  accepted_somewhere found access = true → ∃ name keys, found !! name = Some (Some keys) ∧ access ∈ keys.
Proof.
  intros ([name [keys|]] & Hin & Hk)%existsb_exists; [|done]. apply bool_decide_eq_true in Hk.
  apply list_elem_of_In, elem_of_map_to_list in Hin. by exists name, keys.
Qed.

(** The server answers with the object it was asked for. *)
Definition answers_by_name : Prop :=
  ∀ ns name (w : W) c w', k_getCluster ns name w = (Ok c, w') → fsc_Name c = name ∧ fsc_Namespace c = ns.

Lemma nobody_accepts s found s' accepted access :
  answers_by_name → nodeKeys s = (Ok (inl found), s') →
  nodes_accept (e_world s) (ak_Namespace (e_st s)) (ref_Name (ks_ClusterRef (ak_Spec (e_st s)))) accepted →
  access ∉ accepted → accepted_somewhere found access = false.
Proof.
  intros Hname Hrun Hnodes Ha. apply not_true_iff_false.
  intros (name & keys & Hl & Hk)%accepted_somewhere_inv.
  pose proof (nodeKeys_spec _ _ _ Hrun) as (w & c & (v & v' & Hv & Hg & Hv') & _ & Htab & _).
  apply Htab in Hl as (secret & w1 & r & (u & u' & Hu & Hs & Hu') & (x & x' & Hx & Hr & _) & Ho).
  destruct r as [listing|]; [|done]. injection Ho as <-. pose proof (Hname _ _ _ _ _ Hg) as [En Ens]. rewrite En, Ens in Hr.
  eapply Ha, Hnodes; [|exact Hr|exact Hk].
  pose proof (call_later key_step Hg). pose proof (call_later key_step Hs).
  by repeat (etrans; [eassumption|]).
Qed.

(** ** The object goes *)

(** The object without its finalizer. *)
Definition released (key : FSAccessKey) : FSAccessKey :=
  ak_set_Finalizers key (RemoveFinalizer (ak_Finalizers key) accessKeyFinalizer).

Definition revoked_event (access : string) : action :=
  AEvent EventTypeNormal "KeyDeleted" ("revoked credential " +:+ access).

Lemma release_key_done s :
  (∀ k (w : W), is_ok (key_update k w).1 = true) →
  (release_key s).1 = Ok 0%Z ∧ e_log (release_key s).2 = e_log s ++ [AUpdateKey (released (e_st s))].
Proof.
  intros Hu. unfold release_key, update_key, released. rewrite (bind_Ok _ _ _ _ _ (eq_refl : get_st s = (Ok (e_st s), s))).
  set (k := ak_set_Finalizers _ _). unfold mbind, M_bind, put_st, modify, wrap_err. rewrite issue_eq. cbn [e_world e_log e_st].
  specialize (Hu k (e_world s)). by destruct (key_update k (e_world s)) as [[]?].
Qed.

Lemma key_finalize_done s found s1 :
  let access := kst_AccessKey (ak_Status (e_st s)) in
  accessKeyFinalizer ∈ ak_Finalizers (e_st s) → (∀ k (w : W), is_ok (key_update k w).1 = true) →
  access ≠ "" → nodeKeys s = (Ok (inl found), s1) → accepted_somewhere found access = false →
  (key_finalize s).1 = Ok 0%Z ∧
  e_log (key_finalize s).2 = e_log s ++ [revoked_event access; AUpdateKey (released (e_st s))].
Proof.
  cbv zeta. intros Hf Hu Ha Hn Hacc. unfold key_finalize.
  rewrite (bind_Ok _ _ _ _ _ (eq_refl : get_st s = (Ok (e_st s), s))). cbv zeta.
  unfold ContainsFinalizer. rewrite bool_decide_eq_true_2, bool_decide_eq_false_2 by done. cbn [negb].
  rewrite (bind_Ok _ _ _ _ _ Hn), Hacc.
  pose proof (resp_nodeKeys (λ _, False) eq s) as [(l & Hl & Hno) Hst]. unfold st_rel in Hst. rewrite Hn in Hl, Hst. cbn in Hl, Hst.
  destruct l as [|a l]; [|by inversion Hno]. rewrite app_nil_r in Hl.
  set (s2 := mkEnv (e_world s1) (e_log s1 ++ [revoked_event (kst_AccessKey (ak_Status (e_st s)))]) (e_st s1)).
  rewrite (bind_Ok _ _ _ _ _ (eq_refl : event _ _ _ s1 = (Ok tt, s2))).
  destruct (release_key_done s2 Hu) as [-> ->]. split; [done|]. simpl. by rewrite Hl, <- Hst, <- app_assoc.
Qed.

(** C12: Deleting an access key revokes its credential and completes.  The event
    of the deletion asks the FSCluster controller for the key's cluster; what that
    controller then collects for the nodes holds the credential no more, unless
    another access key has the same; and once the nodes list only what was
    collected (and keys of their own), and can be asked, one reconcile of the key
    reports the revocation, removes the finalizer, does nothing else, and is done. *)
Theorem revocation_completes {P} (cluster : FSCluster) (key : FSAccessKey) (items : list FSAccessKey)
    (s s' : Env W P) (keys : list cfg_Key) (own : list string) (w1 w2 : W) :
  let access := kst_AccessKey (ak_Status key) in
  ak_Deleting key = true → accessKeyFinalizer ∈ ak_Finalizers key → access ≠ "" →
  fsc_Namespace cluster = ak_Namespace key → fsc_Name cluster = ref_Name (ks_ClusterRef (ak_Spec key)) →
  fsc_Name cluster ≠ "" →
  (k_listKeys (fsc_Namespace cluster) (e_world s)).1 = Ok items → sole cluster items access →
  collectAccessKeys cluster s = (Ok keys, s') →
  key_get (ak_Namespace key) (ak_Name key) w1 = (Ok key, w2) →
  nodes_accept w2 (fsc_Namespace cluster) (fsc_Name cluster) (own ++ (AccessKey <$> keys)) → access ∉ own →
  answers_by_name → in_reach key w2 →
  (∀ url t (w : W), is_ok (adm_Client url t w).1 = true) → (∀ k (w : W), is_ok (key_update k w).1 = true) →
  let r := key_Reconcile (ak_Namespace key) (ak_Name key) w1 in
  (∀ w, (fsc_Namespace cluster, fsc_Name cluster) ∈
     requests fscluster_SetupWithManager (mkEvent "FSAccessKey" (ak_Namespace key) (ak_Name key) None (Some key)) w) ∧
  access ∉ (AccessKey <$> keys) ∧
  r.1 = Ok 0%Z ∧ r.2.2 = [revoked_event access; AUpdateKey (released key)].
Proof.
  cbv zeta. intros Hd Hf Ha Hns Hn Hne Hl Hsole Hcol Hget Hnodes Hown Hname Hreach Hc Hu.
  rewrite Hns, Hn in *. pose proof (revoked_not_rendered cluster items _ s s' keys ltac:(by rewrite Hns) Hsole Hcol) as Hnot.
  destruct (nodeKeys_reaches (mkEnv w2 [] key) Hc Hreach) as (found & s1 & Hrun).
  pose proof (nobody_accepts _ _ _ _ (kst_AccessKey (ak_Status key)) Hname Hrun Hnodes ltac:(set_solver)) as Hacc.
  destruct (key_finalize_done (mkEnv w2 [] key) found s1 Hf Hu Ha Hrun Hacc) as [H1 H2].
  split; [intros w; by apply key_wakes_cluster|split; [done|]]. unfold key_Reconcile. rewrite Hget. unfold key_body.
  rewrite (bind_Ok _ _ _ _ _ (eq_refl : get_st (mkEnv w2 [] key) = (Ok key, mkEnv w2 [] key))), Hd.
  destruct (key_finalize _) as [[]?]; simpl in *; by simplify_eq.
Qed.
End revocation.
