(* ===== verification/Demo.v ===== *)
(** * A concrete cluster

    Instances of the three interfaces (the API server, the nodes' admin API and
    the encoders) over a small world, and a cluster to run passes on.  They
    show that the hypotheses of the theorems can hold, and let whole passes be
    evaluated. *)

From S2P Require Import Prelude.
From S2P Require Import ApiTypes.
From S2P Require Import Defaults.
From S2P Require Import Nodes.
From S2P Require Import Validation.
From S2P Require Import FsClient.
From S2P Require Import Kube.
From S2P Require Import Config.
From S2P Require Import Builders.
From S2P Require Import Pipeline.
From S2P Require Import Pass.
From S2P Require Import Status.
From S2P Require Import Convergence.
From S2P Require Import Rollout.
From S2P Require Import LayoutStep.
From S2P Require Import Decommission.
From S2P Require Import StorageStep.
From S2P Require Import Reload.
From S2P Require Import Controller.
From S2P Require Import Ready.
From S2P Require Import Bucket.
From S2P Require Import KeyController.

(** ** The world: what exists and what the nodes answer *)

Record World := mkWorld {
  w_sets : list StatefulSet;
  w_keys : list FSAccessKey;
  w_secret : Secret;
  w_pvc : result PVC;
  w_layout : result Layout;
  w_apply : result Layout;
  w_view : list FsNode;
  w_revision : string → string;
  w_time : Z;
}.

Definition answer {A} (f : World → result A) : M World A := λ w, (f w, w).

#[export] Instance demo_kube : KubeClient World := {|
  k_listSets _ _ := answer (λ w, Ok (w_sets w));
  k_listKeys _ := answer (λ w, Ok (w_keys w));
  k_getCluster _ _ := answer (λ _, Err (ErrBase KNotFound "not found"));
  k_getSecret _ _ := answer (λ w, Ok (w_secret w));
  k_getPVC _ _ := answer w_pvc;
  k_apply _ := answer (λ _, Ok tt);
  k_create _ := answer (λ _, Err (ErrBase KAlreadyExists "already exists"));
  k_delete _ _ _ _ := answer (λ _, Ok tt);
  k_updatePVC _ := answer (λ _, Ok tt);
  k_patchStatus _ o := answer (λ _, Ok o);
  k_setOwner _ _ := Ok tt;
  k_toUnstructured _ := Ok tt;
  k_podMonitorMapped := answer (λ _, Err (errors_New "no match"));
  k_now w := (w_time w, w);
  k_rand := answer (λ _, Ok (λ i, Ascii.ascii_of_nat (7 * i)));
  k_setCondition cs c := cs ++ [c];
  k_mapOrder w := (source_order, w);
|}.

#[export] Instance demo_admin : Interface World := {|
  adm_Client _ _ := answer (λ _, Ok tt);
  adm_Info url _ := answer (λ w, Ok (mkInfo "" "" (w_revision w url)));
  adm_Reload url _ := answer (λ w, Ok (mkReloadResult [] (w_revision w url)));
  adm_Layout _ _ := answer w_layout;
  adm_ApplyLayout _ _ _ _ := answer w_apply;
  adm_Nodes _ _ := answer (λ w, Ok (w_view w));
  adm_AccessKeys _ _ := answer (λ _, Ok []);
  adm_GetBucketScheme _ _ _ := answer (λ _, Ok "");
  adm_SetBucketScheme _ _ _ _ := answer (λ _, Ok "");
|}.

(** Encoders that keep what tells documents apart here: the node's identity
    and the image, with the end of a document in the digest's first bytes. *)
#[export] Instance demo_codec : Codec := {|
  yaml_Marshal c := Ok (NodeID (cfg_cluster c) +:+ cfg_revision c);
  json_Template t := Ok (strings_Join (c_Image <$> tpl_Containers t) ",");
  sha256 s := String.string_of_list_ascii (reverse (String.list_ascii_of_string s));
|}.

(** ** The cluster: three nodes, one per rack *)

Definition demo_obs : ObservabilitySpec :=
  mkObservabilitySpec (mkOTLPSpec "" "") (mkSignalSpec "" "" "") (mkSignalSpec "" "" "")
    (mkMetricsSpec "" "" "") "" false None ∅.

Definition demo_spec (tag : string) (racks : list RackSpec) (widths : list Z) (size : Z) : FSClusterSpec :=
  mkFSClusterSpec (mkImageSpec "" tag "" "" []) (mkTopologySpec None racks "")
    (mkStorageSpec (mkQuantity (size * 1000000000) (pretty size)) "" "") (mkLayoutSpec widths) None
    (mkAuthSpec None []) (mkS3Spec (mkS3ServiceSpec "" 0 ∅) (mkS3TLSSpec "")) (mkUpdatePolicySpec None)
    demo_obs false (mkPodTemplate "" ∅ [] "" ∅ ∅ []).

Definition demo_rack (name : string) (n : Z) : RackSpec := mkRackSpec name n "" ∅.
Definition racks3 : list RackSpec := [demo_rack "a" 1; demo_rack "b" 1; demo_rack "c" 1].

Definition no_status : FSClusterStatus :=
  mkFSClusterStatus 0 0 0 0 "" "" "" "" None None None [].

Definition demo (spec : FSClusterSpec) : FSCluster := mkFSCluster "c" "ns" 1 false spec no_status.

(** The StatefulSet a node runs at a given image tag, serving or not. *)
Definition live_set (spec : FSClusterSpec) (node : Node) (ready updated : Z) : StatefulSet :=
  let c := with_defaults (demo spec) "" in
  let set := match stampTemplateRevision (NewStatefulSet c node "") with Ok s => s | Err _ => NewStatefulSet c node "" end in
  mkStatefulSet (set_Kind set) (set_Name set) (set_Namespace set) (set_Labels set) (set_Annotations set)
    (set_Generation set) "7" [] (set_Replicas set) (set_ServiceName set) (set_Selector set)
    (set_Template set) (set_Claims set) (set_Retention set) (mkSetStatus 1 ready updated).

Definition live_sets (spec : FSClusterSpec) : list StatefulSet :=
  (λ node, live_set spec node 1 1) <$> Nodes (with_defaults (demo spec) "").

Definition demo_secret : Secret :=
  mkSecret "s" "ns" ∅ ∅
    {[ ClusterSecretKey := "x"; AccessKeyKey := "root"; SecretKeyKey := "0123456789abcdef"; AdminTokenKey := "t" ]} ∅.

Definition demo_layout (spec : FSClusterSpec) (retained : list Z) : Layout :=
  let p := newPass (demo spec) "" in
  mkLayout 4 (desiredWidths (fsc_Spec (p_cluster p))) (desiredRoles p) retained.

Definition demo_view (names : list string) : list FsNode :=
  (λ n, mkFsNode n "" false true 4 4 "") <$> names.

(** A converged cluster running [spec]. *)
Definition demo_world (spec : FSClusterSpec) : World :=
  let names := node_Name <$> Nodes (with_defaults (demo spec) "") in
  mkWorld (live_sets spec) [] demo_secret (Err (ErrBase KNotFound "no pvc"))
    (Ok (demo_layout spec [])) (Ok (demo_layout spec [3]%Z)) (demo_view names) (λ _, "") 1000.

Definition spec_v1 : FSClusterSpec := demo_spec "v1" racks3 [3]%Z 10.
Definition spec_v2 : FSClusterSpec := demo_spec "v2" racks3 [3]%Z 10.

Definition demo_run (spec : FSClusterSpec) (w : World) : result Z * Env World pass :=
  run_pass "fs-system" "" (demo spec) w [].

(** An image change replaces one of the three nodes. *)
Example image_change_replaces_one :
  applied_sets (e_log (demo_run spec_v2 (demo_world spec_v1)).2) = ["c-a-0"].
Proof. vm_compute. reflexivity. Qed.

(** A fourth rack is removed from the spec: while the layout still gives its
    node a share, the pass asks for a layout without it and deletes nothing;
    once the layout has settled without it, the node goes. *)
Definition spec_wide : FSClusterSpec := demo_spec "v1" (racks3 ++ [demo_rack "d" 1]) [3]%Z 10.

Definition drained_world : World :=
  let w := demo_world spec_wide in
  mkWorld (w_sets w) (w_keys w) (w_secret w) (w_pvc w) (Ok (demo_layout spec_v1 [])) (w_apply w) (w_view w)
    (w_revision w) (w_time w).

Definition deleted_sets (l : list action) : list string :=
  omap (λ a, match a with ADelete KindSet _ n false => Some n | _ => None end) l.

Definition asked_layouts (l : list action) : list (list string) :=
  omap (λ a, match a with AApplyLayout _ roles _ => Some (role_ID <$> roles) | _ => None end) l.

Example removed_node_leaves_the_layout_first :
  let log := e_log (demo_run spec_v1 (demo_world spec_wide)).2 in
  asked_layouts log = [["c-a-0"; "c-b-0"; "c-c-0"]] ∧ deleted_sets log = [].
Proof. vm_compute. repeat split. Qed.

Example drained_node_is_deleted :
  deleted_sets (e_log (demo_run spec_v1 drained_world).2) = ["c-d-0"].
Proof. vm_compute. reflexivity. Qed.

(** ** Buckets and access keys of that cluster

    A fixed outside: the cluster and the Secret are there, S3 has no bucket yet,
    and everything that is sent is stored as it is. *)

Inductive Shop := shop.

Definition says {A} (a : A) : M Shop A := λ w, (Ok a, w).

#[export] Instance shop_kube : KubeClient Shop | 20 := {|
  k_listSets _ _ := says [];
  k_listKeys _ := says [];
  k_getCluster _ _ := says (demo spec_v1);
  k_getSecret _ _ := says demo_secret;
  k_getPVC _ _ := throw (ErrBase KNotFound "no pvc");
  k_apply _ := says tt;
  k_create _ := says tt;
  k_delete _ _ _ _ := says tt;
  k_updatePVC _ := says tt;
  k_patchStatus _ o := says o;
  k_setOwner _ _ := Ok tt;
  k_toUnstructured _ := Ok tt;
  k_podMonitorMapped := throw (errors_New "no match");
  k_now w := (0%Z, w);
  k_rand := says (λ i, Ascii.ascii_of_nat (7 * i));
  k_setCondition cs c := cs ++ [c];
  k_mapOrder w := (source_order, w);
|}.

#[export] Instance shop_admin : Interface Shop | 20 := {|
  adm_Client _ _ := says tt;
  adm_Info _ _ := says (mkInfo "" "" "");
  adm_Reload _ _ := says (mkReloadResult [] "");
  adm_Layout _ _ := says (demo_layout spec_v1 []);
  adm_ApplyLayout _ _ _ _ := says (demo_layout spec_v1 []);
  adm_Nodes _ _ := says [];
  adm_AccessKeys _ _ := says ["root"];
  adm_GetBucketScheme _ _ _ := says "rf3";
  adm_SetBucketScheme _ _ _ scheme := says scheme;
|}.

#[export] Instance shop_buckets : BucketClient Shop | 20 := {|
  b_get _ _ := throw (ErrBase KNotFound "not found");
  b_update b := says b;
  b_patchStatus _ b := says b;
|}.

#[export] Instance shop_s3 : S3Client Shop | 20 := {|
  s3_New _ := says tt;
  s3_BucketExists _ _ := says false;
  s3_MakeBucket _ _ := says tt;
  s3_RemoveBucket _ _ := says tt;
|}.

#[export] Instance shop_keys : KeyClient Shop | 20 := {|
  key_get _ _ := throw (ErrBase KNotFound "not found");
  key_update k := says k;
  key_patch _ k := says k;
  key_patchStatus _ k := says k;
  key_setOwner _ _ := Ok tt;
|}.

Definition demo_bucket (finalizers : list string) : FSBucket :=
  mkFSBucket "b" "ns" 1 false finalizers (mkFSBucketSpec (mkClusterReference "c") "" "ec:2,1" ReclaimDelete)
    (mkFSBucketStatus 0 "" []).

Definition bucket_log (b : FSBucket) : list action := e_log (bucket_body (mkEnv shop [] b)).2.

(** A new bucket: the finalizer, the bucket, its scheme, and the status. *)
Example new_bucket_is_made :
  (λ a, match a with
        | AUpdateBucket _ => "update" | AMakeBucket _ n => "make " +:+ n
        | ASetScheme _ n x => "scheme " +:+ n +:+ " " +:+ x | APatchBucketStatus _ _ => "status"
        | AEvent _ r _ => r | _ => ""
        end) <$> bucket_log (demo_bucket [])
  = ["update"; "make b"; "Created"; "scheme b ec:2,1"; "status"].
Proof. vm_compute. reflexivity. Qed.
