(* ===== verification/Living.v ===== *)
(** * A world that passes change

    An instance of [ClusterWorld]: the StatefulSets, the layout, the nodes that
    are up and whether calls fail are all there is, writes are kept, and a node
    that is up answers at its own URL.  Between passes the nodes come up and the
    data settles.  It shows that the promises of World.v can be kept, and runs a
    cluster from a mixed state to the one its spec declares. *)

From S2P Require Import Prelude.
From S2P Require Import ApiTypes.
From S2P Require Import Defaults.
From S2P Require Import Nodes.
From S2P Require Import Validation.
From S2P Require Import FsClient.
From S2P Require Import Kube.
From S2P Require Import Config.
From S2P Require Import Builders.
From S2P Require Import Pipeline.
From S2P Require Import Pass.
From S2P Require Import Status.
From S2P Require Import Convergence.
From S2P Require Import Rollout.
From S2P Require Import LayoutStep.
From S2P Require Import Decommission.
From S2P Require Import StorageStep.
From S2P Require Import Controller.
From S2P Require Import World.
From S2P Require Import Loop.
From S2P Require Import Settle.
From S2P Require Import Converge.
From S2P Require Import Demo.

(** ** The world *)

Definition live_cluster : FSCluster := with_defaults (demo spec_v1) "".

Definition if_ok {A} (up : Obs → bool) (a : Obs → result A) (next : Obs → Obs) : M Obs A :=
  λ o, if up o then (a o, next o) else (Err (errors_New "unavailable"), o).

Definition calm_answer {A} (a : Obs → result A) : M Obs A := if_ok o_calm a id.

#[export] Instance live_kube : KubeClient Obs | 30 := {|
  k_listSets _ _ := calm_answer (λ o, Ok (map_to_list (o_sets o)).*2);
  k_listKeys _ := calm_answer (λ _, Ok []);
  k_getCluster _ _ := calm_answer (λ _, Ok (demo spec_v1));
  k_getSecret _ _ := calm_answer (λ _, Ok demo_secret);
  k_getPVC _ _ := calm_answer (λ _, Err (ErrBase KNotFound "no pvc"));
  k_apply o := match o with
    | OStatefulSet set => if_ok o_calm (λ _, Ok tt) (put_set (set_Name set) set)
    | _ => calm_answer (λ _, Ok tt)
    end;
  k_create _ := calm_answer (λ _, Err (ErrBase KAlreadyExists "already exists"));
  k_delete k _ name _ := match k with
    | KindSet => if_ok o_calm (λ _, Ok tt) (drop_set name)
    | _ => calm_answer (λ _, Ok tt)
    end;
  k_updatePVC _ := calm_answer (λ _, Ok tt);
  k_patchStatus _ o := calm_answer (λ _, Ok o);
  k_setOwner _ _ := Ok tt;
  k_toUnstructured _ := Ok tt;
  k_podMonitorMapped := calm_answer (λ _, Err (errors_New "no match"));
  k_now w := (0%Z, w);
  k_rand := calm_answer (λ _, Ok (λ i, Ascii.ascii_of_nat (7 * i)));
  k_setCondition cs c := cs ++ [c];
  k_mapOrder w := (source_order, w);
|}.

Definition live_up (o : Obs) : gset string := o_up o ∖ {[""]}.

Definition reached (url : string) (o : Obs) : bool :=
  o_calm o && bool_decide (url ∈ (AdminURL "c" "ns" <$> elements (live_up o))).

Definition node_answer {A} (url : string) (a : Obs → result A) : M Obs A := if_ok (reached url) a id.

Definition layout_version (o : Obs) : Z := match o_layout o with Some l => Version l | None => 0 end.

Definition next_version (roles : list Role) (widths : list Z) (o : Obs) : Layout :=
  mkLayout (layout_version o + 1) widths roles
    (match o_layout o with Some l => [Version l] | None => [] end).

Definition live_view (o : Obs) : list FsNode :=
  (λ name, mkFsNode name "" false true (layout_version o) (layout_version o) "") <$> elements (live_up o).

#[export] Instance live_admin : Interface Obs | 30 := {|
  adm_Client url _ := node_answer url (λ _, Ok tt);
  adm_Info url _ := node_answer url (λ _, Ok (mkInfo "" "" ""));
  adm_Reload url _ := node_answer url (λ _, Ok (mkReloadResult [] ""));
  adm_Layout url _ := node_answer url (λ o, match o_layout o with Some l => Ok l | None => Err ErrNoLayout end);
  adm_ApplyLayout url _ roles widths :=
    if_ok (reached url) (λ o, Ok (next_version roles widths o)) (λ o, put_layout (next_version roles widths o) o);
  adm_Nodes url _ := node_answer url (λ o, Ok (live_view o));
  adm_AccessKeys url _ := node_answer url (λ _, Ok []);
  adm_GetBucketScheme url _ _ := node_answer url (λ _, Ok "");
  adm_SetBucketScheme url _ _ scheme := node_answer url (λ _, Ok scheme);
|}.

Definition live_obs (o : Obs) : Obs := mkObs (o_sets o) (o_layout o) (live_up o) (o_calm o).

(** ** It keeps the promises *)

Lemma if_ok_frames {A} up (a : Obs → result A) : frames live_obs (if_ok up a id).
Proof. intros o. unfold if_ok. by destruct (up o). Qed.

#[local] Hint Resolve if_ok_frames : core.

Lemma calm_answers {A} (a : Obs → result A) o : o_calm (live_obs o) = true → calm_answer a o = (a o, o).
Proof. unfold calm_answer, if_ok. simpl. by intros ->. Qed.

Lemma up_reached name o : o_calm (live_obs o) = true → name ∈ o_up (live_obs o) →
  reached (AdminURL (fsc_Name live_cluster) (fsc_Namespace live_cluster) name) o = true.
Proof.
  intros Hc Hn. unfold reached. simpl in *. rewrite Hc. apply bool_decide_eq_true.
  apply (list_elem_of_fmap_2 (AdminURL "c" "ns")), elem_of_elements, Hn.
Qed.

Lemma index_view_named (f : string → FsNode) names name :
  (∀ n, n_ID (f n) = n) → name ≠ "" → name ∈ names → index_view (f <$> names) !! name = Some (f name).
Proof.
  intros Hf Hne. unfold index_view. induction names as [|n names IH] using rev_ind; [by intros []%elem_of_nil|].
  rewrite fmap_app, foldl_app. simpl. rewrite Hf. intros [Hin| ->%list_elem_of_singleton]%elem_of_app.
  - case_bool_decide; [|by apply IH]. destruct (decide (n = name)) as [->|]; [apply lookup_insert_eq|].
    rewrite lookup_insert_ne by done. by apply IH.
  - rewrite bool_decide_eq_true_2 by done. apply lookup_insert_eq.
Qed.

Lemma live_needed name keys o : o_calm (live_obs o) = true → (name, keys) ∈ needed_secrets live_cluster →
  ∃ secret, (calm_answer (λ _, Ok demo_secret) o).1 = Ok secret ∧ missingKey secret keys = None.
Proof.
  intros Hc Hin. rewrite calm_answers by done. exists demo_secret. split; [done|].
  unfold needed_secrets in Hin. rewrite !elem_of_cons in Hin.
  destruct Hin as [[= _ ->]|[[= _ ->]|[[= _ ->]|[]%elem_of_nil]]]; vm_compute; reflexivity.
Qed.

#[export] Program Instance live_world : ClusterWorld Obs live_cluster := {|
  obs := live_obs;
  cw_default t := t;
|}.
Solve All Obligations with (try (intros; done); try (intros; apply if_ok_frames);
  try (intros; simpl; rewrite calm_answers by done; done)).
Next Obligation. intros [set| | | | |] Hset; try apply if_ok_frames. by destruct (Hset set). Qed.
Next Obligation. intros []; try (intros; apply if_ok_frames). done. Qed.
Next Obligation. intros o sets. simpl. unfold calm_answer, if_ok. destruct (o_calm o); [|done]. by intros [= <-]. Qed.
Next Obligation.
  intros set o. simpl. unfold if_ok. destruct (o_calm o) eqn:Hc; [right|by left].
  exists set. split; [|done]. done.
Qed.
Next Obligation. intros ns name orphan o. simpl. unfold if_ok. destruct (o_calm o); [by right|by left]. Qed.
Next Obligation.
  intros url token roles widths o. simpl. unfold if_ok. destruct (reached url o); [right|by left].
  exists (next_version roles widths o). split_and!; [done..|]. by intros l' [= <-].
Qed.
Next Obligation. intros name o e Hc. simpl. rewrite calm_answers by done. done. Qed.
Next Obligation. intros name keys o. apply live_needed. Qed.
Next Obligation. intros x o e Hc. simpl. rewrite calm_answers by done. by intros [= <-]. Qed.
Next Obligation. intros x o Hc. simpl. unfold calm_answer, if_ok. simpl in Hc. destruct x; by rewrite Hc. Qed.
Next Obligation. intros k ns name orphan o Hc. simpl. unfold calm_answer, if_ok. simpl in Hc. destruct k; by rewrite Hc. Qed.
Next Obligation.
  intros name token o Hc Hn. simpl. unfold node_answer, if_ok. by rewrite up_reached.
Qed.
Next Obligation.
  intros name token o Hc Hn. simpl. unfold node_answer, if_ok. rewrite up_reached by done.
  simpl. by destruct (o_layout o).
Qed.
Next Obligation.
  intros name token o Hc Hn. simpl. unfold node_answer, if_ok. rewrite up_reached by done.
  exists (live_view o). split; [done|]. intros m Hm. eexists. split.
  { apply (index_view_named (λ name, mkFsNode name "" false true (layout_version o) (layout_version o) ""));
      [done|set_solver|by apply elem_of_elements]. }
  split; [done|]. simpl. unfold layout_version. intros l ->. done.
Qed.
Next Obligation. intros name token o Hc Hn. simpl. unfold if_ok. by rewrite up_reached. Qed.

#[export] Instance demo_encodes : Encodes (CD := demo_codec).
Proof. by split. Qed.

(** ** A cluster brought to its spec *)

(** Everything the operator asked for happens: the pods of every StatefulSet
    come up and no data is moving. *)
Definition serving_set (s : StatefulSet) : StatefulSet :=
  mkStatefulSet (set_Kind s) (set_Name s) (set_Namespace s) (set_Labels s) (set_Annotations s)
    (set_Generation s) (set_ResourceVersion s) (set_ManagedFields s) (set_Replicas s) (set_ServiceName s)
    (set_Selector s) (set_Template s) (set_Claims s) (set_Retention s) (mkSetStatus (set_Generation s) 1 1).

Definition moved (l : Layout) : Layout := mkLayout (Version l) (Widths l) (Members l) [].

Definition settle (o : Obs) : Obs :=
  mkObs (serving_set <$> o_sets o) (moved <$> o_layout o) (dom (o_sets o) ∖ {[""]}) true.

Lemma settle_drifts o : drifts (live_obs o) (live_obs (settle o)).
Proof.
  split; simpl.
  - intros name. rewrite lookup_fmap. by destruct (o_sets o !! name); constructor.
  - by destruct (o_layout o); constructor.
Qed.

Lemma settle_rest o : o_sets o !! "" = None → at_rest live_cluster (live_obs (settle o)).
Proof.
  intros Hne. split; simpl; [done| | |].
  - intros name x Hx _. rewrite lookup_fmap in Hx. unfold live_up. simpl.
    rewrite !elem_of_difference, elem_of_singleton, elem_of_dom.
    destruct (o_sets o !! name) eqn:E; [|done]. split_and!; [eauto|intros ->; congruence..].
  - intros name x Hx _ _. rewrite lookup_fmap in Hx. destruct (o_sets o !! name) as [s|]; [|done].
    injection Hx as <-. unfold nodeServing. simpl. by rewrite Z.leb_refl.
  - intros l. by destruct (o_layout o); intros [= <-].
Qed.

Definition settle_reconcile (o : Obs) : Obs := after "fs-system" "" live_cluster (settle o).
Definition reconciles (n : nat) (o : Obs) : Obs := Nat.iter n settle_reconcile o.

(** One node runs an older image, one is missing, and one the spec no longer
    declares runs and has a share of the layout. *)
Definition mixed : Obs :=
  mkObs (list_to_map ((λ s, (set_Name s, s)) <$>
          (take 1 (live_sets spec_v2) ++ drop 1 (take 2 (live_sets spec_v1)) ++ drop 3 (live_sets spec_wide))))
    (Some (demo_layout spec_wide [3]%Z)) ∅ true.

(** What is left, pass after pass. *)
Example mixed_reconciles :
  (λ n, distance live_cluster (live_obs (reconciles n mixed))) <$> seq 0 7 = [4; 3; 1; 0; 0; 0; 0].
Proof. vm_compute. reflexivity. Qed.

Lemma live_runnable : runnable live_cluster.
Proof. split; [done|reflexivity]. Qed.

Lemma live_spec : spec_ok (fsc_Spec live_cluster).
Proof. apply (Cluster_None source_order). vm_compute. reflexivity. Qed.

Lemma live_many : SingleNode (fsc_Spec live_cluster) = false.
Proof. reflexivity. Qed.

Lemma mixed_well : well live_cluster (cw_default (b := live_cluster)) (live_obs mixed).
Proof.
  intros name s Hs. apply elem_of_list_to_map_2 in Hs. revert name s Hs.
  match goal with |- ∀ name s, (name, s) ∈ ?l → @?P name s =>
    enough (Forall (λ x, P x.1 x.2) l) as Hf by by intros name s Hin; rewrite Forall_forall in Hf; apply (Hf (name, s)) end.
  repeat constructor; vm_compute; done.
Qed.

Lemma mixed_placed : placed live_cluster (cw_default (b := live_cluster)) (live_obs mixed).
Proof. apply (well_split live_cluster live_runnable _ _), mixed_well. Qed.

Lemma mixed_sized : sized live_cluster (live_obs mixed).
Proof. apply (well_split live_cluster live_runnable (cw_default (b := live_cluster)) _), mixed_well. Qed.

Lemma live_asked o : o_calm o = true → asked "" live_cluster o.
Proof. intros Hc. unfold asked. simpl. unfold calm_answer, if_ok. rewrite Hc. simpl. split; [by vm_compute|done]. Qed.

Lemma reconciles_passes n o : well live_cluster (cw_default (b := live_cluster)) (live_obs o) →
  passes "fs-system" "" live_cluster n o (reconciles n o).
Proof.
  intros Hw. induction n as [|n IH]; [constructor|]. simpl. eapply passes_settled; [exact IH|apply settle_drifts| |].
  - by apply live_asked.
  - apply settle_rest.
    destruct (passes_progress "fs-system" "" live_cluster live_runnable live_spec n _ _ live_many Hw IH) as [Hwn _].
    destruct (o_sets (reconciles n o) !! "") as [s|] eqn:E; [|done]. by apply Hwn in E as (_ & _ & ? & _).
Qed.
