(* ===== verification/Findings.v ===== *)
(** * Where the code and what is said of it part

    Behaviours the model exhibits, each next to the comment it contradicts: on
    concrete clusters, where admitted specs and whole passes are evaluated, and
    for buckets and access keys on every call. *)

From S2P Require Import Prelude.
From S2P Require Import ApiTypes.
From S2P Require Import Defaults.
From S2P Require Import Nodes.
From S2P Require Import Validation.
From S2P Require Import FsClient.
From S2P Require Import Kube.
From S2P Require Import Config.
From S2P Require Import Builders.
From S2P Require Import Pipeline.
From S2P Require Import Pass.
From S2P Require Import Status.
From S2P Require Import Convergence.
From S2P Require Import Rollout.
From S2P Require Import LayoutStep.
From S2P Require Import Decommission.
From S2P Require Import StorageStep.
From S2P Require Import Reload.
From S2P Require Import Controller.
From S2P Require Import KeyGen.
From S2P Require Import Ready.
From S2P Require Import Bucket.
From S2P Require Import KeyController.
From S2P Require Import Typed.
From S2P Require Import Metrics.
From S2P Require Import Demo.

(** ** The order of a rollout over uneven racks

    [rollOrder]'s comment: "two nodes of the same failure domain are never
    replaced back to back". *)

Definition uneven : FSClusterSpec :=
  WithDefaults (demo_spec "v1" [demo_rack "a" 3; demo_rack "b" 1] [3]%Z 10).

Definition uneven_nodes : list Node := Nodes (demo uneven).

Definition uneven_stale : list StatefulSet :=
  (λ node, NewStatefulSet (demo uneven) node "") <$> uneven_nodes.

(** Two nodes of one failure domain do get replaced back to back when the
    racks are uneven: in a valid spec of three nodes in one rack and one in
    another, the rollout order ends with two of the first rack. *)
Theorem rollOrder_back_to_back_uneven :
  Cluster source_order uneven = None ∧ FailureDomains uneven = 2%Z ∧
  set_Name <$> rollOrder uneven uneven_stale uneven_nodes = ["c-a-0"; "c-b-0"; "c-a-1"; "c-a-2"] ∧
  rack_in uneven uneven_nodes <$> rollOrder uneven uneven_stale uneven_nodes = ["a"; "b"; "a"; "a"].
Proof. split; [vm_compute; reflexivity|]. split; [vm_compute; reflexivity|]. split; vm_compute; reflexivity. Qed.

(** ** A node whose pod serves is not down

    [roll]: "a stale node that is already down costs nothing more to replace".
    A node also counts as not serving while its pod is Ready on a previous
    revision (the state [finishAdoption] leaves, and refuses to replace while
    another node is down). *)

(** The first node's pod is Ready on an older revision of its StatefulSet, the
    second node is down, the third serves. *)
Definition adopted_sets : list StatefulSet :=
  match Nodes (with_defaults (demo spec_v1) "") with
  | [a; b; c] => [live_set spec_v1 a 1 0; live_set spec_v1 b 0 0; live_set spec_v1 c 1 1]
  | _ => []
  end.

Definition adopted_world : World :=
  let w := demo_world spec_v1 in
  mkWorld adopted_sets (w_keys w) (w_secret w) (w_pvc w) (w_layout w) (w_apply w) (w_view w)
    (w_revision w) (w_time w).

(** One pass re-applies a node whose only pod is Ready, although another
    node is down: the node counts as down because its pod is not on its
    StatefulSet's current revision.  The storage step of the same pass, asked
    to delete that very pod, waits for the other node. *)
Theorem roll_takes_down_adopted :
  let s := (demo_run spec_v2 adopted_world).2 in
  let p := e_st s in
  h_notReady (p_health p) = ["c-a-0"; "c-b-0"] ∧
  (ss_ReadyReplicas ∘ set_Status <$> p_live p !! "c-a-0") = Some 1%Z ∧
  (ss_ReadyReplicas ∘ set_Status <$> p_live p !! "c-b-0") = Some 0%Z ∧
  otherNodesNotReady p "c-a-0" = ["c-b-0"] ∧
  applied_sets (e_log s) = ["c-a-0"; "c-b-0"].
Proof. vm_compute. repeat split. Qed.

(** ** One spec, two messages

    The package's comment: it exists because "two callers need exactly the same
    answers". *)

Definition last_first : MapOrder :=
  mkMapOrder (reverse signals) (reverse signals) (reverse_Permutation _) (reverse_Permutation _).

(** Two signals export over OTLP, and there is nowhere to send either. *)
Definition nowhere : FSClusterSpec :=
  let s := uneven in
  mkFSClusterSpec (Image s) (Topology s) (Storage s) (spec_Layout s) (ClusterSecretRef s) (Auth s) (S3 s)
    (UpdatePolicy s)
    (mkObservabilitySpec (mkOTLPSpec "" "") (mkSignalSpec ExporterOTLP "" "") (mkSignalSpec ExporterOTLP "" "")
       (mkMetricsSpec "" "" "") "" false None ∅)
    (spec_NetworkPolicy s) (spec_PodTemplate s).

(** The same spec is refused for its traces or for its logs, as Go happens to
    range over the map. *)
Theorem Cluster_message_varies :
  f_Reason <$> Cluster source_order nowhere = f_Reason <$> Cluster last_first nowhere ∧
  f_Message <$> Cluster source_order nowhere ≠ f_Message <$> Cluster last_first nowhere.
Proof. split; [vm_compute; reflexivity|]. by vm_compute. Qed.

(** ** Two clusters, one node name

    A cluster and one of its racks spell the name of another cluster of the
    namespace. *)

Definition racked_cluster : FSCluster := demo (WithDefaults (demo_spec "v1" racks3 [3]%Z 10)).

Definition flat_cluster : FSCluster :=
  mkFSCluster "c-a" "ns" 1 false
    (WithDefaults (let s := demo_spec "v1" [] [3]%Z 10 in
       mkFSClusterSpec (Image s) (mkTopologySpec (Some 3%Z) [] "") (Storage s) (spec_Layout s)
         (ClusterSecretRef s) (Auth s) (S3 s) (UpdatePolicy s) (Observability s) (spec_NetworkPolicy s)
         (spec_PodTemplate s)))
    no_status.

(** Two valid clusters of one namespace can claim the same StatefulSet:
    node [a-0] of cluster [c] and node [0] of cluster [c-a] have one name, with
    selectors that differ. *)
Theorem NodeName_shared_by_two_clusters :
  fsc_Name racked_cluster ≠ fsc_Name flat_cluster ∧ fsc_Namespace racked_cluster = fsc_Namespace flat_cluster ∧
  ValidateCreate source_order racked_cluster = ([], None) ∧ ValidateCreate source_order flat_cluster = (ClusterWarnings (fsc_Spec flat_cluster), None) ∧
  ∃ a b, a ∈ Nodes racked_cluster ∧ b ∈ Nodes flat_cluster ∧
    set_Name (NewStatefulSet racked_cluster a "") = set_Name (NewStatefulSet flat_cluster b "") ∧
    set_Selector (NewStatefulSet racked_cluster a "") ≠ set_Selector (NewStatefulSet flat_cluster b "").
Proof.
  split; [by vm_compute|]. split; [done|]. split; [vm_compute; reflexivity|]. split; [vm_compute; reflexivity|].
  exists (mkNode "c-a-0" "a" 0 "" ∅), (mkNode "c-a-0" "" 0 "" ∅).
  split; [vm_compute; left|]. split; [vm_compute; left|]. split; [vm_compute; reflexivity|].
  intros H. apply (f_equal (λ m : gmap string string, m !! LabelCluster)) in H. by vm_compute in H.
Qed.

(** ** A pass whose status could not be stored

    docs/guides/monitoring.md, and the help of the counter: the series counts
    "passes that ended in an error". *)

Lemma refused_patch {W : Type} `{!KubeClient W} (s : Env W pass) {B} base o (k : FSCluster → M (Env W pass) B) e w :
  k_patchStatus base o (e_world s) = (Err e, w) →
  (wrap_err "update status" (issue (APatchStatus base o) (k_patchStatus base o)) ≫= k) s =
  (Err (ErrWrap "update status" e), mkEnv w (e_log s ++ [APatchStatus base o]) (e_st s)).
Proof. intros Hp. unfold mbind, M_bind, wrap_err. by rewrite issue_eq, Hp. Qed.

(** When the status cannot be stored the pass ends in that error, and
    nothing counts it: the counter is moved after the patch. *)
Lemma unstored_failure_not_counted {W : Type} `{!KubeClient W} {CD : Codec} (s : Env W pass) e w :
  let base := p_object (e_st s) in
  let o := Typed.patched (W := W) (e_st s) in
  k_patchStatus base o (e_world s) = (Err e, w) →
  (reconcileStatus s).1 = Err (ErrWrap "update status" e) ∧
  e_log (reconcileStatus s).2 = e_log s ++ [APatchStatus base o].
Proof.
  cbv zeta. intros Hp. unfold reconcileStatus.
  do 5 (erewrite bind_Ok; [|reflexivity]; cbv beta zeta).
  erewrite refused_patch; [split; reflexivity|exact Hp].
Qed.

(** ** Credentials and buckets *)

Section dependents.
Context {W : Type} `{!KubeClient W, !Interface W, !BucketClient W, !S3Client W, !KeyClient W} {CD : Codec}.

(** When the Secret exists after all, the credential that is used and published
    is the fresh one that was not stored, not the one the Secret holds. *)
Lemma mint_already_exists cluster (s s1 s2 : Env W FSAccessKey) access secret w e :
  keygen_AccessKey s = (Ok access, s1) → keygen_Token s1 = (Ok secret, s2) →
  let owned := credentialSecret (e_st s) cluster access secret in
  key_setOwner (e_st s) owned = Ok tt →
  k_create (OSecret owned) (e_world s2) = (Err e, w) → IsAlreadyExists e = true →
  (mint cluster s).1 = Ok (inl (access, secret)).
Proof.
  intros H1 H2 owned Ho Hc He. unfold mint.
  rewrite (bind_Ok _ _ _ _ _ (eq_refl : get_st s = (Ok (e_st s), s))). cbv zeta.
  unfold mbind at 1, M_bind at 1, try at 1. rewrite H1.
  unfold mbind at 1, M_bind at 1, try at 1. rewrite H2. fold owned. rewrite Ho.
  unfold mbind at 1, M_bind at 1, try at 1. rewrite issue_eq, Hc. by rewrite He.
Qed.

(** Whatever kept a credential from being resolved, a missing cluster or a failed
    call included, the object is not asked to be run again. *)
Lemma unresolved_key_not_retried (s s1 s2 s3 : Env W FSAccessKey) cond d :
  ak_Deleting (e_st s) = false → key_ensure_finalizer s = (Ok tt, s1) →
  resolveCredential s1 = (Ok (inr cond), s2) → key_body s = (Ok d, s3) → d = 0%Z.
Proof.
  intros Hd Hf Hr. unfold key_body.
  rewrite (bind_Ok _ _ _ _ _ (eq_refl : get_st s = (Ok (e_st s), s))), Hd.
  rewrite (bind_Ok _ _ _ _ _ Hf), (bind_Ok _ _ _ _ _ Hr).
  unfold key_report, mbind, M_bind, get_st, gets, put_st, modify. cbv zeta.
  destruct (wrap_err _ _ _) as [[stored|e] s4]; [|done]. by intros [= <- _].
Qed.

(** A key that rotated is released once no node lists its present credential,
    with nodes that still accept the one before. *)
Lemma former_credential_forgotten (s s1 : Env W FSAccessKey) found former :
  accessKeyFinalizer ∈ ak_Finalizers (e_st s) →
  let present := kst_AccessKey (ak_Status (e_st s)) in
  present ≠ "" → nodeKeys s = (Ok (inl found), s1) →
  accepted_somewhere found present = false → accepted_somewhere found former = true →
  key_finalize s = (event EventTypeNormal "KeyDeleted" ("revoked credential " +:+ present) ≫= λ _, release_key) s1.
Proof.
  intros Hf present Hp Hn Ha _. unfold key_finalize.
  rewrite (bind_Ok _ _ _ _ _ (eq_refl : get_st s = (Ok (e_st s), s))). cbv zeta. fold present.
  unfold ContainsFinalizer. rewrite bool_decide_eq_true_2, bool_decide_eq_false_2 by done. simpl.
  rewrite (bind_Ok _ _ _ _ _ Hn). by rewrite Ha.
Qed.

(** A key whose status has no credential is released without asking a node. *)
Lemma unreported_credential_not_asked (s : Env W FSAccessKey) :
  accessKeyFinalizer ∈ ak_Finalizers (e_st s) → kst_AccessKey (ak_Status (e_st s)) = "" →
  key_finalize s = release_key s.
Proof.
  intros Hf Ha. unfold key_finalize.
  rewrite (bind_Ok _ _ _ _ _ (eq_refl : get_st s = (Ok (e_st s), s))). cbv zeta.
  unfold ContainsFinalizer. by rewrite Ha, bool_decide_eq_true_2.
Qed.

(** Any failure to read the cluster lets the object go under [Delete], with the
    bucket still there. *)
Lemma bucket_orphaned name e (s : Env W FSBucket) :
  bucketFinalizer ∈ bkt_Finalizers (e_st s) → bucket_finalize name (Err e) s = release_bucket s.
Proof.
  intros Hf. unfold bucket_finalize.
  rewrite (bind_Ok _ _ _ _ _ (eq_refl : get_st s = (Ok (e_st s), s))).
  unfold ContainsFinalizer. by rewrite bool_decide_eq_true_2.
Qed.
End dependents.
