(* ===== verification/Witnesses.v ===== *)
(** * The hypotheses of the theorems hold of concrete clusters

    For every theorem with hypotheses, an instance of it on the small cluster
    of [Demo]: the hypotheses are computed, the conclusion follows by the
    theorem. *)

From S2P Require Import Prelude.
From S2P Require Import ApiTypes.
From S2P Require Import Defaults.
From S2P Require Import Nodes.
From S2P Require Import Validation.
From S2P Require Import FsClient.
From S2P Require Import Kube.
From S2P Require Import Course.
From S2P Require Import Config.
From S2P Require Import Builders.
From S2P Require Import Pipeline.
From S2P Require Import Pass.
From S2P Require Import Status.
From S2P Require Import Convergence.
From S2P Require Import Rollout.
From S2P Require Import LayoutStep.
From S2P Require Import Decommission.
From S2P Require Import StorageStep.
From S2P Require Import Reload.
From S2P Require Import Controller.
From S2P Require Import Safety.
From S2P Require Import Ready.
From S2P Require Import Bucket.
From S2P Require Import KeyController.
From S2P Require Import Pool.
From S2P Require Import Rounds.
From S2P Require Import World.
From S2P Require Import Settle.
From S2P Require Import Converge.
From S2P Require Import DeepCopy.
From S2P Require Import Wiring.
From S2P Require Import Revocation.
From S2P Require Import Demo.
From S2P Require Import Living.

(** An equation of closed terms, by one evaluation. *)
Ltac compute_eq := lazymatch goal with
  | |- _ = ?b => vm_cast_no_check (eq_refl b)
  | |- _ => vm_compute; reflexivity
  end.

(** A run is the answer it gives and the state it leaves. *)
Lemma run_eq {S A} (m : M S A) s a : (m s).1 = Ok a → m s = (Ok a, (m s).2).
Proof. destruct (m s). simpl. by intros ->. Qed.

(** ** Instances *)

#[export] Instance demo_accepting : Accepting World.
Proof. split; intros; reflexivity. Qed.

(** A node that answers a layout with the layout it was sent. *)
#[export] Instance echo_admin : AdminAPI nat := {|
  api_NewClient _ w := (inr tt, w);
  api_GetInfo _ _ w := (inr ("", "", None), w);
  api_ReloadConfig _ _ w := (inr ([], None), w);
  api_GetLayout _ _ w := (inl (ErrorStatusCode StatusNotFound "no layout"), w);
  api_ApplyLayout _ _ req w := (inr (mkApiLayout (Z.of_nat (S w)) (req_Widths req) (req_Members req) []), S w);
  api_ListClusterNodes _ _ w := (inr [], w);
  api_ListAccessKeys _ _ w := (inr [], w);
  api_GetBucketScheme _ _ _ w := (inr "", w);
  api_SetBucketScheme _ _ _ s w := (inr s, w);
|}.

(** ** States *)

Definition cluster1 : FSCluster := with_defaults (demo spec_v1) "".

(** What a pass over the converged cluster knows when it ends: of the same
    spec, of a new image, of a smaller volume. *)
Definition settled_pass : pass := e_st (demo_run spec_v1 (demo_world spec_v1)).2.
Definition settled_env : Env World pass := mkEnv (demo_world spec_v1) [] settled_pass.
Definition rolling_env : Env World pass :=
  mkEnv (demo_world spec_v1) [] (e_st (demo_run spec_v2 (demo_world spec_v1)).2).

Definition small_spec : FSClusterSpec := demo_spec "v1" racks3 [3]%Z 5.
Definition shrunk_env : Env World pass :=
  mkEnv (demo_world spec_v1) [] (e_st (demo_run small_spec (demo_world spec_v1)).2).

Definition empty_spec : FSClusterSpec := demo_spec "v1" racks3 [3]%Z 0.

Definition no_failure : Failure := mkFailure "" "".
Definition empty_failure : Failure :=
  default no_failure (Cluster source_order (fsc_Spec (with_defaults (demo empty_spec) ""))).

Definition demo_key (name : string) : FSAccessKey :=
  mkFSAccessKey name "ns" 1 false [] ∅ (mkFSAccessKeySpec (mkClusterReference "c") "" None [])
    (mkFSAccessKeyStatus 0 "" []).

Definition keyed_env : Env World pass :=
  let w := demo_world spec_v1 in
  mkEnv (mkWorld (w_sets w) [demo_key "k"] (w_secret w) (w_pvc w) (w_layout w) (w_apply w) (w_view w)
    (w_revision w) (w_time w)) [] settled_pass.

Definition observing_pass : pass :=
  set_convergence (p_convergence settled_pass) (newPass (demo spec_v1) "").

Definition hot : RenderOptions := mkRenderOptions [mkcfg_Key "a" "b" []].
Definition cold : RenderOptions := mkRenderOptions [].
Definition first_node : Node := default (mkNode "" "" 0 "" ∅) (head (Nodes cluster1)).
Definition first_set : StatefulSet := live_set spec_v1 first_node 1 1.

(** ** The pass *)

(** A volume of size zero is refused. *)
Lemma refused_spec_witness :
  f_Reason empty_failure = ReasonSpecInvalid ∧
  queued ConditionSpecValid (e_st (demo_run empty_spec (demo_world spec_v1)).2)
    = Some (ConditionFalse, f_Reason empty_failure).
Proof.
  split; [compute_eq|].
  apply (refused_spec_touches_nothing "fs-system" "" (demo empty_spec) (demo_world spec_v1) source_order empty_failure).
  compute_eq.
Defined.

(** ** The rollout *)

Lemma roll_witness :
  set_Name <$> rolled (e_st rolling_env) (desired_sets (e_st rolling_env)) = ["c-a-0"] ∧
  ∃ l out s', roll (desired_sets (e_st rolling_env)) rolling_env = (Ok out, s') ∧
    e_log s' = e_log rolling_env ++ l ∧
    applied_sets l = set_Name <$> rolled (e_st rolling_env) (desired_sets (e_st rolling_env)).
Proof. split; [compute_eq|]. apply (roll_replaces (desired_sets (e_st rolling_env)) rolling_env). Defined.

(** ** The layout *)

Lemma names_NoDup (p : pass) :
  bool_decide (NoDup (node_Name <$> p_nodes p)) = true → NoDup (node_Name <$> p_nodes p).
Proof. apply bool_decide_eq_true_1. Qed.

Lemma desired_layout_witness : StronglySorted (key_le role_ID) (desiredRoles settled_pass).
Proof. apply (desired_layout_spec settled_pass). apply names_NoDup. compute_eq. Defined.

Lemma layout_settles_witness :
  reconcileLayout settled_env = (Ok Continue, settled_env) ↔
  Members (demo_layout spec_v1 []) ≡ₚ desiredRoles (e_st settled_env) ∧
  Widths (demo_layout spec_v1 []) ≡ₚ desiredWidths (fsc_Spec (p_cluster (e_st settled_env))).
Proof.
  refine (reconcileLayout_settles settled_env (demo_layout spec_v1 []) _ _ _ _);
    [apply names_NoDup|..]; compute_eq.
Defined.

(** ** Status *)

Lemma ready_witness :
  let p := observing_pass in
  let live := p_live settled_pass in
  queued ConditionReady (summarize (set_observed live (observe_nodes p live) p))
    = Some (ConditionTrue, ReasonQuorumAvailable) ↔
  every_write_acknowledged (domain_set (fsc_Spec (p_cluster p)) (p_nodes p))
    (down_domain_set (fsc_Spec (p_cluster p)) live (p_nodes p)).
Proof.
  apply (Ready_iff_writes_acknowledged observing_pass (p_live settled_pass));
    [reflexivity|compute_eq..|vm_compute; by eexists].
Defined.

Lemma observe_witness :
  (0 <= h_current (observe_nodes observing_pass (p_live settled_pass))
     <= h_ready (observe_nodes observing_pass (p_live settled_pass)))%Z.
Proof.
  apply (observe_counts observing_pass (p_live settled_pass)); [reflexivity|compute_eq].
Defined.

(** ** Storage *)

Lemma storage_witness :
  ∃ l, e_log (reconcileStorage settled_env).2 = e_log settled_env ++ l ∧ Forall (may_store (e_st settled_env)) l ∧
    Forall (claims_heard (e_world settled_env) (e_st settled_env) (e_world (reconcileStorage settled_env).2)) l ∧
    core (e_st (reconcileStorage settled_env).2) = core (e_st settled_env).
Proof. refine (reconcileStorage_gated settled_env _). compute_eq. Defined.

Definition shrunk_pair : Node * StatefulSet :=
  default (first_node, first_set) (head (zip (p_nodes (e_st shrunk_env)) (desired_sets (e_st shrunk_env)))).

Definition all_current (p : pass) : bool :=
  forallb (λ node, match p_live p !! node_Name node with
                   | Some l => negb (adoptedStalePod l) | None => true end) (p_nodes p).

Lemma all_current_spec p : all_current p = true →
  ∀ node live, node ∈ p_nodes p → p_live p !! node_Name node = Some live → adoptedStalePod live = false.
Proof.
  unfold all_current. rewrite forallb_forall. intros H node live Hn Hl.
  specialize (H node (proj1 (list_elem_of_In _ _) Hn)). rewrite Hl in H. by apply negb_true_iff.
Qed.

Lemma head_elem {A} (d : A) l : match l with [] => false | _ => true end = true → default d (head l) ∈ l.
Proof. destruct l; [done|]. intros _. left. Qed.

Lemma shrink_witness : ∃ message,
  reconcileStorage shrunk_env =
  (Ok (Block ReasonStorageShrinkForbidden),
   mkEnv (e_world shrunk_env)
     (e_log shrunk_env ++ [AEvent EventTypeWarning ReasonStorageShrinkForbidden message])
     (setCondition ConditionSpecValid ConditionFalse ReasonStorageShrinkForbidden message (e_st shrunk_env))).
Proof.
  refine (shrink_refused shrunk_env shrunk_pair _ _ _ _).
  - compute_eq.
  - apply all_current_spec. compute_eq.
  - apply head_elem. compute_eq.
  - exists first_set, (default (mkPVC "" "" ∅ [] None None) (head (set_Claims shrunk_pair.2))).
    split; [compute_eq|]. split; [apply head_elem; compute_eq|].
    vm_compute. eexists. split; reflexivity.
Defined.

(** ** Reload *)

Definition reload_outcome : Outcome :=
  match (reconcileReload settled_env).1 with Ok out => out | Err _ => no_outcome end.

Lemma reload_witness : ∃ verdicts, length verdicts = length (p_nodes (e_st settled_env)) ∧
  (∀ i node v, p_nodes (e_st settled_env) !! i = Some node → verdicts !! i = Some v →
     node_verdict (e_world (adminToken settled_env).2) (e_world (reconcileReload settled_env).2) (e_st settled_env) "t"
       i node v) ∧
  h_configCurrent (p_health (e_st (reconcileReload settled_env).2)) = Z.of_nat (counted verdicts) ∧
  (reload_outcome = Continue ↔ Forall (λ v, v = true) verdicts).
Proof.
  refine (reload_counts_confirmed settled_env "t" (adminToken settled_env).2 reload_outcome
    (reconcileReload settled_env).2 (run_eq _ _ _ _) (run_eq _ _ _ _) _); vm_compute; reflexivity.
Defined.

(** ** Nodes and validation *)

Lemma nodes_witness : NoDup (node_Name <$> Nodes cluster1).
Proof. apply (Nodes_unique cluster1). compute_eq. Defined.

Lemma domains_witness :
  Z.of_nat (size (list_to_set (domainOf (fsc_Spec cluster1) <$> Nodes cluster1) : gset string))
  = FailureDomains (fsc_Spec cluster1).
Proof. apply (domains_FailureDomains cluster1). compute_eq. Defined.

Lemma accepts_witness : spec_ok (fsc_Spec cluster1).
Proof. apply (Cluster_accepts source_order (fsc_Spec cluster1)). compute_eq. Defined.

Lemma update_witness : ClusterUpdate source_order (fsc_Spec cluster1) (WithDefaults small_spec) ≠ None.
Proof.
  intros H. apply (ClusterUpdate_accepts source_order (fsc_Spec cluster1) (WithDefaults small_spec)) in H
    as (_ & _ & H). vm_compute in H. by apply H.
Defined.

(** ** Configuration *)

Lemma restart_witness :
  RestartRevision cluster1 first_node hot = RestartRevision (with_defaults (demo small_spec) "") first_node cold.
Proof. apply (RestartRevision_ignores_hot cluster1 (with_defaults (demo small_spec) "") first_node hot cold); reflexivity. Defined.

Definition one_config : gmap string RenderedConfig := {["a" := mkRenderedConfig "x" "r"]}.
Definition other_config : gmap string RenderedConfig := {["a" := mkRenderedConfig "y" "r"]}.

Lemma digest_witness : ConfigRevision one_config ≠ ConfigRevision other_config.
Proof.
  intros H. apply (proj1 revisions_determine one_config other_config) in H.
  - apply (f_equal (λ m : gmap string string, m !! "a")) in H. vm_compute in H. discriminate H.
  - intros E. vm_compute in E. discriminate E.
Defined.

Lemma config_witness :
  match nodeConfig cluster1 first_node hot with Ok cfg => Validate cfg = None | Err _ => False end.
Proof.
  destruct (nodeConfig cluster1 first_node hot) as [cfg|e] eqn:E.
  - apply (nodeConfig_valid cluster1 first_node hot cfg E).
  - vm_compute in E. discriminate E.
Defined.

(** ** Credentials, kept sets, the client *)

Definition demo_keys : list cfg_Key :=
  match (collectAccessKeys cluster1 keyed_env).1 with Ok keys => keys | Err _ => [] end.

Lemma keys_witness : length demo_keys = 1 ∧ StronglySorted (key_le AccessKey) demo_keys.
Proof.
  split; [compute_eq|].
  apply (collectAccessKeys_spec cluster1 keyed_env (collectAccessKeys cluster1 keyed_env).2 demo_keys).
  apply run_eq. compute_eq.
Defined.

Definition kept_set : StatefulSet :=
  match keptStatefulSet first_set with Ok s => s | Err _ => first_set end.

Lemma kept_witness : set_Template kept_set = set_Template first_set.
Proof. apply (keptStatefulSet_unchanged first_set kept_set). compute_eq. Defined.

Lemma echo_witness :
  client_ApplyLayout "http://n" "t" (desiredRoles settled_pass) [3%Z] 7
  = (Ok (mkLayout 8 [3%Z] (desiredRoles settled_pass) []), 8).
Proof. apply (ApplyLayout_echo "http://n" "t" (desiredRoles settled_pass) [3%Z] 7 8 [] 8). reflexivity. Defined.

(** ** Buckets and access keys *)

Definition new_bucket : FSBucket := demo_bucket [].
Definition made_bucket : action := AMakeBucket "c.ns.svc:8080" "b".

Lemma finalizer_witness :
  bucketFinalizer ∈ bkt_Finalizers new_bucket ∨
  ∃ b' stored, AUpdateBucket b' ∈ take 1 (bucket_log new_bucket) ∧ bucketFinalizer ∈ bkt_Finalizers b' ∧
    heard bucket_step shop (e_world (bucket_body (mkEnv shop [] new_bucket)).2) (b_update b') (Ok stored).
Proof.
  apply (bucket_finalizer_first new_bucket shop (take 1 (bucket_log new_bucket))
    (drop 2 (bucket_log new_bucket)) made_bucket); [|done].
  symmetry. apply (take_drop_middle (bucket_log new_bucket) 1). compute_eq.
Defined.

Definition key_env : Env Shop FSAccessKey := mkEnv shop [] (demo_key "k").
Definition key_credential : credential := ("root", "0123456789abcdef").

Lemma credential_witness :
  e_log key_env = e_log key_env ∧
    read_from (e_world key_env) (e_world key_env) (e_st key_env) (AccessKeySecretSource (e_st key_env)) key_credential ∨
  (∃ cluster w w2 created, let secret := credentialSecret (e_st key_env) cluster key_credential.1 key_credential.2 in
     e_log key_env = e_log key_env ++ [ACreate (OSecret secret)] ∧
     sec_StringData secret !! AccessKeyKey = Some key_credential.1 ∧
     sec_StringData secret !! SecretKeyKey = Some key_credential.2 ∧
     was_absent (e_world key_env) w secret ∧ minted w w2 key_credential ∧
     key_credential.1 ≠ "" ∧ MinSecretKeyLength ≤ String.length key_credential.2 ∧
     heard key_step w2 (e_world key_env) (k_create (OSecret secret)) created ∧
     (created = Ok tt ∨ ∃ e, created = Err e ∧ IsAlreadyExists e = true)).
Proof. apply (credential_resolved key_env key_env key_credential). reflexivity. Defined.

Lemma rendered_witness :
  ((resolveCredential key_env).1 = Ok (inl key_credential) ∧
     MinSecretKeyLength ≤ String.length key_credential.2) ↔
  (resolveKey cluster1 (demo_key "k") (mkEnv shop [] tt)).1 = Ok [mkcfg_Key "root" "0123456789abcdef" []].
Proof. apply (credential_is_rendered cluster1 key_env tt demo_secret shop key_credential); reflexivity. Defined.

(** ** The pool: one call, step by step *)

Definition demo_pool : Pool := NewPool tt (λ _, true) id (WithPoolTimeout <$> [5%Z]).
Definition demo_ck : clientKey := mkClientKey "http://c-a-0:8090" "t".
Definition served : system :=
  let s := move (move (move (start demo_pool) 7 (Locking demo_ck) demo_pool None)
    7 (Holding demo_ck) demo_pool (Some 7)) 7 (Missed demo_ck) demo_pool (Some 7) in
  let p := alloc demo_pool (client_of demo_pool demo_ck) in
  return_ (move s 7 (Built demo_ck 0) p (Some 7)) 7 demo_ck (Ok 0) (cache p demo_ck 0).

Lemma served_reachable : reachable tt (λ _, None) demo_pool served.
Proof.
  unfold reachable, served. cbv zeta.
  eapply rtc_l; [by apply (step_call tt (λ _, None) _ 7 demo_ck)|].
  eapply rtc_l; [by apply (step_lock tt (λ _, None) _ 7 demo_ck)|].
  eapply rtc_l; [by apply (step_miss tt (λ _, None) _ 7 demo_ck)|].
  eapply rtc_l; [by apply (step_build tt (λ _, None) _ 7 demo_ck)|].
  eapply rtc_l; [by apply (step_store tt (λ _, None) _ 7 demo_ck 0)|]. apply rtc_refl.
Qed.

Lemma linear_witness :
  (∀ i j, inside (at_pc served i) → inside (at_pc served j) → i = j) ∧
  (run_calls tt (λ _, None) demo_pool (sys_rets served).*1).1 = (sys_rets served).*2 ∧
  (sys_mu served = None → sys_pool served = (run_calls tt (λ _, None) demo_pool (sys_rets served).*1).2).
Proof. apply (pool_linearizable tt (λ _, None) demo_pool served). apply served_reachable. Defined.

Lemma pool_witness : ∃ client, pl_heap (sys_pool served) !! 0 = Some client ∧ cl_timeout client = 5%Z.
Proof.
  destruct (pool_serves_its_key tt (λ _, true) id (λ _, None) [5%Z] served demo_ck 0) as [(client & H1 & -> & _) _];
    [apply served_reachable|left|]. eexists. split; [exact H1|reflexivity].
Defined.

(** ** The rollout, pass after pass *)

Definition next_sets : list StatefulSet := live_sets spec_v2.
Definition seen (live : gmap string StatefulSet) : pass :=
  let p := e_st rolling_env in
  mkPass (p_object p) (p_cluster p) (Nodes cluster1) (p_configs p) (p_restarts p) (Some next_sets)
    (p_templateRevision p) live (mkHealth 0 0 0 0 0 (down_names live (Nodes cluster1)))
    (mkConvergence true None ∅ true "") ∅ false None [] None.

Lemma terminates_witness :
  let live' := rounds (λ _ live, mkEnv (demo_world spec_v1) [] (seen live)) 3 (index_sets (live_sets spec_v1)) in
  (∀ set, set ∈ next_sets →
     ∃ l, live' !! set_Name set = Some l ∧ template_revision l = template_revision set) ∧
  down_names live' (Nodes cluster1) = [] ∧
  (∀ k live, ∃ out s',
     (λ (_ : nat) live, reconcileNodes (mkEnv (demo_world spec_v1) [] (seen live))) k live = (Ok out, s')).
Proof.
  apply (rollout_terminates next_sets (Nodes cluster1) (index_sets (live_sets spec_v1))
    (λ _ live, mkEnv (demo_world spec_v1) [] (seen live)) 3).
  - intros k live. by split_and!.
  - compute_eq.
  - apply (bool_decide_unpack _). compute_eq.
  - intros set Hin. right. revert set Hin. apply Forall_forall, (bool_decide_unpack _). compute_eq.
  - etrans; [apply length_filter|]. compute_eq.
Defined.

(** ** Passes after passes *)

Lemma cluster_converges_witness :
  length (todo live_cluster (live_obs mixed)) + 2 ≤ 4 ∧ as_declared live_cluster (live_obs (reconciles 4 mixed)).
Proof.
  assert (length (todo live_cluster (live_obs mixed)) + 2 ≤ 4) as Hn by (vm_compute; lia). split; [exact Hn|].
  exact (cluster_converges "fs-system" "" live_cluster live_runnable live_spec 4 mixed (reconciles 4 mixed)
    live_many mixed_placed mixed_sized (reconciles_passes 4 mixed mixed_well) Hn).
Defined.

Lemma untouched_witness :
  o_sets (obs (b := live_cluster) (after "fs-system" "" live_cluster (reconciles 5 mixed)))
  = o_sets (obs (b := live_cluster) (reconciles 5 mixed)) ∧
  Forall (spared (obs (b := live_cluster) (reconciles 5 mixed)))
    (asked_for "fs-system" "" live_cluster (reconciles 5 mixed)).
Proof.
  assert (well live_cluster (cw_default (b := live_cluster)) (obs (b := live_cluster) (reconciles 5 mixed))) as H1.
  { apply (passes_progress "fs-system" "" live_cluster live_runnable live_spec 5 mixed (reconciles 5 mixed) live_many mixed_well).
    apply reconciles_passes, mixed_well. }
  assert (asked "" live_cluster (reconciles 5 mixed)) as H2 by (apply live_asked; vm_compute; reflexivity).
  assert (nodes_as_declared live_cluster (obs (b := live_cluster) (reconciles 5 mixed))) as H3.
  { assert (distance live_cluster (obs (b := live_cluster) (reconciles 5 mixed)) = 0) as Hd by (vm_compute; reflexivity).
    exact (proj1 (as_declared_distance live_cluster live_runnable _ Hd)). }
  apply (well_split live_cluster live_runnable) in H1 as [Hp Hs].
  exact (declared_nodes_untouched "fs-system" "" live_cluster live_runnable live_spec (reconciles 5 mixed) Hp Hs H2 H3).
Defined.

(** ** Deep copies *)

(** Imported types as structs without references. *)
#[export] Instance flat_imports : Imports := {|
  ext_ty _ t := no_refs t = true;
  ext_DeepCopyInto _ := assign;
  ext_DeepCopy n := if bool_decide (n = "Time") then new_of assign else assign;
|}.

Lemma flat_plain n : plain (TExt n).
Proof. intros t Ht. by inversion Ht. Qed.

#[export] Instance flat_laws : ImportsLaws.
Proof.
  split.
  - intros n _. apply flat_plain.
  - intros n _. apply deep_assign, flat_plain.
  - apply deep_assign, flat_plain.
  - apply deep_ref_ptr, deep_assign, flat_plain.
Qed.

(** A topology of one rack, with a selector. *)
Definition topology_memory : heap :=
  {[ 1%positive := [("", VStruct [("Nodes", VNil); ("Racks", VRef RSlice 2); ("PodAntiAffinity", VScalar (SString "required"))])];
     2%positive := [("", VStruct [("Name", VScalar (SString "a")); ("Nodes", VScalar (SInt 2));
                                  ("Zone", VScalar (SString "")); ("NodeSelector", VRef RMap 3)])];
     3%positive := [("disk", VScalar (SString "ssd"))] ]}.

Definition rack_tree : tree :=
  DStruct [("Name", DScalar (SString "a")); ("Nodes", DScalar (SInt 2)); ("Zone", DScalar (SString ""));
           ("NodeSelector", DRef RMap [("disk", DScalar (SString "ssd"))])].
Definition topology_tree : tree :=
  DRef RPtr [("", DStruct [("Nodes", DNil); ("Racks", DRef RSlice [("", rack_tree)]);
                           ("PodAntiAffinity", DScalar (SString "required"))])].

Lemma topology_reads : reads topology_memory (VRef RPtr 1) topology_tree.
Proof. repeat first [reflexivity | econstructor | split]. Qed.

Lemma topology_typed : has_ty (TPtr TopologySpec_ty) topology_tree.
Proof. repeat first [reflexivity | constructor | split]. Qed.

Lemma separates_witness :
  ∃ v' h', TopologySpec_DeepCopy (VRef RPtr 1) topology_memory = (Ok v', h') ∧ topology_memory ⊆ h' ∧
    reads_in (λ l, l ∉ dom topology_memory) h' v' topology_tree ∧
    (∀ h2 : heap, (∀ l, l ∈ dom topology_memory → h2 !! l = h' !! l) → reads h2 (VRef RPtr 1) topology_tree) ∧
    (∀ h2 : heap, (∀ l, l ∉ dom topology_memory → h2 !! l = h' !! l) → reads h2 v' topology_tree).
Proof.
  apply (DeepCopy_separates TopologySpec_ty TopologySpec_DeepCopy topology_memory (VRef RPtr 1) topology_tree).
  - apply (list_elem_of_lookup_2 _ 29). reflexivity.
  - exact topology_reads.
  - exact topology_typed.
Defined.

(** The copy of the copying function, run. *)
Example topology_copied :
  (TopologySpec_DeepCopy (VRef RPtr 1) topology_memory).1 = Ok (VRef RPtr 4) ∧
  (TopologySpec_DeepCopy (VRef RPtr 1) topology_memory).2 !! 5%positive ≠ None.
Proof. vm_compute. split; [reflexivity|done]. Qed.

(** ** Watches *)

(** Requests computed as documented. *)
Definition asked_for {W} (c : ControllerBuilder (W := W)) (e : Event) (w : W) : list request :=
  (if bool_decide (ev_Kind e = cb_For c) then [(ev_Namespace e, ev_Name e)] else [])
  ++ (match ev_Controller e with
      | Some (kind, owner) =>
          if bool_decide (kind = cb_For c) && bool_decide (ev_Kind e ∈ cb_Owns c) then [(ev_Namespace e, owner)] else []
      | None => []
      end)
  ++ (cb_Watches c ≫= λ x, if bool_decide (ev_Kind e = x.1) then x.2 e w else []).

#[export] Program Instance plain_runtime {W} : Runtime (W := W) := {| requests := asked_for |}.
Next Obligation.
  intros W c e w r. unfold asked_for. rewrite !elem_of_app, list_elem_of_bind. split.
  - intros [H|[H|(x & H & Hx)]].
    + left. case_bool_decide; [|by apply elem_of_nil in H]. by apply list_elem_of_singleton in H.
    + right. left. destruct (ev_Controller e) as [[kind owner]|]; [|by apply elem_of_nil in H].
      destruct (bool_decide (kind = cb_For c)) eqn:E1, (bool_decide (ev_Kind e ∈ cb_Owns c)) eqn:E2;
        simpl in H; try by apply elem_of_nil in H.
      apply bool_decide_eq_true in E1, E2. apply list_elem_of_singleton in H. subst. eauto.
    + right. right. case_bool_decide as Hk; [|by apply elem_of_nil in H]. exists x.2. rewrite Hk. by destruct x.
  - intros [[Hk ->]|[(Hk & owner & Hc & ->)|(f & Hf & Hr)]].
    + left. rewrite bool_decide_eq_true_2 by done. left.
    + right. left. rewrite Hc, !bool_decide_eq_true_2 by done. left.
    + right. right. exists (ev_Kind e, f). split; [|done]. simpl. by rewrite bool_decide_eq_true_2.
Qed.

(** A namespace with one key, which imports the Secret of the demo. *)
Inductive Vault := vault (k : FSAccessKey).
Definition vault_key (v : Vault) : FSAccessKey := let 'vault k := v in k.
Definition tells {A} (f : FSAccessKey → A) : M Vault A := λ v, (Ok (f (vault_key v)), v).

#[export] Instance vault_kube : KubeClient Vault | 40 := {|
  k_listSets _ _ := tells (λ _, []);
  k_listKeys _ := tells (λ k, [k]);
  k_getCluster ns name :=
    if bool_decide (ns = "ns" ∧ name = "c") then tells (λ _, demo spec_v1) else throw (ErrBase KNotFound "no cluster");
  k_getSecret _ _ := tells (λ _, demo_secret);
  k_getPVC _ _ := throw (ErrBase KNotFound "no pvc");
  k_apply _ := tells (λ _, tt);
  k_create _ := tells (λ _, tt);
  k_delete _ _ _ _ := tells (λ _, tt);
  k_updatePVC _ := tells (λ _, tt);
  k_patchStatus _ o := tells (λ _, o);
  k_setOwner _ _ := Ok tt;
  k_toUnstructured _ := Ok tt;
  k_podMonitorMapped := throw (errors_New "no match");
  k_now w := (0%Z, w);
  k_rand := tells (λ _ i, Ascii.ascii_of_nat (7 * i));
  k_setCondition cs c := cs ++ [c];
  k_mapOrder w := (source_order, w);
|}.

#[export] Instance vault_admin : Interface Vault | 40 := {|
  adm_Client _ _ := tells (λ _, tt);
  adm_Info _ _ := tells (λ _, mkInfo "" "" "");
  adm_Reload _ _ := tells (λ _, mkReloadResult [] "");
  adm_Layout _ _ := tells (λ _, demo_layout spec_v1 []);
  adm_ApplyLayout _ _ _ _ := tells (λ _, demo_layout spec_v1 []);
  adm_Nodes _ _ := tells (λ _, []);
  adm_AccessKeys _ _ := tells (λ _, ["root"]);
  adm_GetBucketScheme _ _ _ := tells (λ _, "rf3");
  adm_SetBucketScheme _ _ _ scheme := tells (λ _, scheme);
|}.

#[export] Instance vault_keys : KeyClient Vault | 40 := {|
  key_get _ _ := tells id;
  key_update k := λ _, (Ok k, vault k);
  key_patch _ k := λ _, (Ok k, vault k);
  key_patchStatus _ k := λ _, (Ok k, vault k);
  key_setOwner _ _ := Ok tt;
|}.

Definition imported_key : FSAccessKey :=
  mkFSAccessKey "k" "ns" 1 false [accessKeyFinalizer] ∅
    (mkFSAccessKeySpec (mkClusterReference "c") "" (Some "imported") []) (mkFSAccessKeyStatus 0 "" []).

Lemma rotation_witness :
  let hash := credentialHash "root" "0123456789abcdef" in
  let patched := stamped hash imported_key in
  let log := (key_Reconcile "ns" "k" (vault imported_key)).2.2 in
  ("ns", "k") ∈ requests fsaccesskey_SetupWithManager (mkEvent "Secret" "ns" "imported" None None) (vault imported_key) ∧
  (if bool_decide ("" = hash) then Forall only_status log
   else ∃ l, log = APatchKey imported_key patched :: l ∧ Forall only_status l) ∧
  ak_Annotations patched !! credentialHashAnnotation = Some hash ∧
  ("c" ≠ "" → ∀ w', ("ns", "c") ∈
     requests fscluster_SetupWithManager (mkEvent "FSAccessKey" "ns" "k" None (Some patched)) (w' : Vault)).
Proof.
  refine (rotation_reaches_cluster "ns" "imported" None (vault imported_key) (vault imported_key) (vault imported_key)
    (vault imported_key) [imported_key] imported_key demo_secret _ _ _ _ _ _ _ _ _ _); try reflexivity; try done.
  - left.
Defined.

(** The same key once it is deleted: nothing else imports its Secret, and the
    nodes list an access key of their own. *)
Definition deleted_key : FSAccessKey :=
  mkFSAccessKey "k" "ns" 1 true [accessKeyFinalizer] ∅
    (mkFSAccessKeySpec (mkClusterReference "c") "" (Some "imported") []) (mkFSAccessKeyStatus 0 "imported" []).

Lemma vault_in_reach : in_reach deleted_key (vault deleted_key).
Proof.
  exists (demo spec_v1), (vault deleted_key), demo_secret, (vault deleted_key).
  split_and!; [reflexivity|by vm_compute|reflexivity|by vm_compute].
Qed.

Lemma revocation_witness :
  let r := key_Reconcile "ns" "k" (vault deleted_key) in
  (∀ w : Vault, ("ns", "c") ∈ requests fscluster_SetupWithManager (mkEvent "FSAccessKey" "ns" "k" None (Some deleted_key)) w) ∧
  ("imported" ∉ (AccessKey <$> [])) ∧
  r.1 = Ok 0%Z ∧ r.2.2 = [revoked_event "imported"; AUpdateKey (released deleted_key)].
Proof.
  apply (revocation_completes (demo spec_v1) deleted_key [deleted_key] (mkEnv (vault deleted_key) [] tt)
    (mkEnv (vault deleted_key) [] tt) [] ["root"] (vault deleted_key) (vault deleted_key));
    try reflexivity; try done.
  - left.
  - intros ak w secret w' ->%list_elem_of_singleton. done.
  - intros w name token listing w' _ [= <- _]. done.
  - by intros ?%list_elem_of_singleton.
  - intros ns name w c w'. simpl. case_bool_decide as Hn; [|done]. destruct Hn as [-> ->]. by intros [= <- _].
  - apply vault_in_reach.
Defined.
